(** * gstore_fdw: GPU column store as a foreign-data wrapper

    A shallow embedding of [src/gstore_fdw.c]: the chunk directory kept in
    shared memory, the MVCC visibility test of a chunk, the column builder
    driven by INSERT, the chunk writer, the row-at-a-time scan and the
    transaction callback.

    Conventions.
    - C integers are [Z]; where a value is narrowed to [cl_uint] the
      wrap-around is written with [to_uint32].
    - A descriptor [GpuStoreChunk] lives in the array [gs_chunks]; the
      intrusive [dlist] chains are lists of array indexes, so two lists that
      name the same slot alias the same record.
    - Raw memory (a DSM segment, a palloc'ed buffer) is a function from byte
      offsets to byte values.
    - [elog(ERROR)] / [ereport(ERROR)] is the [Err] outcome; it carries the
      shared state as it is at the moment of the longjmp. *)

From Stdlib Require Import ZArith Bool List Lia Ascii String.
From stdpp Require Import base numbers list.

Local Open Scope Z_scope.

(** ** Host definitions used by the source *)

(** [access/transam.h] of the host. *)
Definition TransactionId := Z.
Definition CommandId := Z.
Definition Oid := Z.

Definition InvalidTransactionId : TransactionId := 0.
Definition BootstrapTransactionId : TransactionId := 1.
Definition FrozenTransactionId : TransactionId := 2.
Definition FirstNormalTransactionId : TransactionId := 3.

Definition TransactionIdIsValid (xid : TransactionId) : bool :=
  negb (xid =? InvalidTransactionId).

Definition TransactionIdIsNormal (xid : TransactionId) : bool :=
  FirstNormalTransactionId <=? xid.

Definition to_uint32 (x : Z) : Z := x mod 2 ^ 32.

(** [TransactionIdPrecedes]: plain unsigned comparison when one side is a
    permanent xid, modulo-2^32 comparison (sign of the 32-bit difference)
    otherwise. *)
Definition TransactionIdPrecedes (id1 id2 : TransactionId) : bool :=
  if negb (TransactionIdIsNormal id1) || negb (TransactionIdIsNormal id2)
  then id1 <? id2
  else 2 ^ 31 <=? to_uint32 (id1 - id2).

(** [c.h]: alignment macros; [MAXIMUM_ALIGNOF] is 8 on the 64-bit hosts the
    GPU code runs on. *)
Definition MAXIMUM_ALIGNOF : Z := 8.

Definition TYPEALIGN (alignval len : Z) : Z :=
  Z.land (len + (alignval - 1)) (Z.lnot (alignval - 1)).

Definition MAXALIGN (len : Z) : Z := TYPEALIGN MAXIMUM_ALIGNOF len.

Definition BITS_PER_BYTE : Z := 8.

(** [access/tupmacs.h] / [htup_details.h]. *)
Definition BITMAPLEN (natts : Z) : Z := (natts + 7) / 8.

Definition sizeof_cl_uint : Z := 4.
Definition sizeof_pointer : Z := 8.
Definition UINT_MAX : Z := 2 ^ 32 - 1.
Definition INT_MAX : Z := 2 ^ 31 - 1.

(** [utils/memutils.h]: the largest request [palloc] takes; a larger one
    raises "invalid memory alloc request size". Sizes are unsigned: a
    negative number stands for a size beyond every limit. *)
Definition MaxAllocSize : Z := 1073741823.

Definition AllocSizeIsValid (size : Z) : bool :=
  (0 <=? size) && (size <=? MaxAllocSize).

(** The snapshot a scan runs under. [XidInMVCCSnapshot] is the host's test
    "this xid is still in progress as far as the snapshot is concerned"; it
    is kept as a function of the snapshot. *)
Record SnapshotData := {
  curcid : CommandId;
  XidInMVCCSnapshot : TransactionId -> bool
}.

(** CUDA driver calls and pg_strom GPU helpers whose return code the writer
    tests. *)
Inductive cuda_call :=
| call_gpuMemAllocPreserved
| call_gpuIpcOpenMemHandle
| call_cuCtxPushCurrent
| call_cuMemcpyHtoD
| call_cuCtxPopCurrent.

(** The fields of [pg_attribute] the code reads. *)
Record FormData_pg_attribute := {
  attname : string;
  attnum : Z;
  attlen : Z;
  attalign : ascii;
  attbyval : bool;
  attnotnull : bool
}.

Definition TupleDesc := list FormData_pg_attribute.

(** The options [gstore_fdw_read_options] finds for a foreign table, and the
    parts of the relation cache entry the code uses. *)
Record Relation := {
  rd_id : Oid;
  rd_att : TupleDesc;
  referenced : option string;
  pinning : Z
}.

(** What the code asks of the host backend it runs in. *)
Record HostEnv := {
  MyDatabaseId : Oid;
  GetCurrentTransactionId : TransactionId;
  GetCurrentCommandId : CommandId;
  TransactionIdIsCurrentTransactionId : TransactionId -> bool;
  TransactionIdDidCommit : TransactionId -> bool;
  GetOldestXmin : TransactionId;
  (* INIT/COMP/FIN_LEGACY_CRC32 over (database oid, table oid) *)
  legacy_crc32_oids : Oid -> Oid -> Z;
  (* INIT/COMP/FIN_LEGACY_CRC32 over the bytes of a varlena *)
  legacy_crc32_bytes : list Z -> Z;
  (* offsetof(kern_data_store, colmeta[natts]), from pg_strom.h *)
  offsetof_kds_colmeta : Z -> Z;
  (* true when the call returns CUDA_SUCCESS *)
  cuda_success : cuda_call -> bool;
  (* heap_tuple_untoast_attr on a compressed or external varlena: the
     plain value with its 4-byte header *)
  heap_tuple_untoast_attr : list Z -> list Z;
  (* hash_seq_search over a dynahash table: the order in which the entries
     are met, as positions in insertion order, from their hash values *)
  hash_seq_search : list Z -> list nat;
  (* heap_openrv on a qualified name; None when the host raises *)
  heap_openrv : string -> option Relation
}.

(** ** Chunk descriptor *)

Definition GPUSTORE_CHUNK_SIZE : Z := Z.shiftl 1 30.

Record GpuStoreChunk := {
  hash : Z;
  database_oid : Oid;
  table_oid : Oid;
  xmax : TransactionId;
  xmin : TransactionId;
  cid : CommandId;
  xmax_commited : bool;
  xmin_commited : bool;
  kds_nitems : Z;
  kds_length : Z;
  cuda_dindex : Z;
  ipc_mhandle : Z;
  dsm_handle : Z
}.

Definition set_xmax (c : GpuStoreChunk) (v : TransactionId) : GpuStoreChunk :=
  {| hash := hash c; database_oid := database_oid c; table_oid := table_oid c;
     xmax := v; xmin := xmin c; cid := cid c;
     xmax_commited := xmax_commited c; xmin_commited := xmin_commited c;
     kds_nitems := kds_nitems c; kds_length := kds_length c;
     cuda_dindex := cuda_dindex c; ipc_mhandle := ipc_mhandle c;
     dsm_handle := dsm_handle c |}.

Definition set_xmin (c : GpuStoreChunk) (v : TransactionId) : GpuStoreChunk :=
  {| hash := hash c; database_oid := database_oid c; table_oid := table_oid c;
     xmax := xmax c; xmin := v; cid := cid c;
     xmax_commited := xmax_commited c; xmin_commited := xmin_commited c;
     kds_nitems := kds_nitems c; kds_length := kds_length c;
     cuda_dindex := cuda_dindex c; ipc_mhandle := ipc_mhandle c;
     dsm_handle := dsm_handle c |}.

Definition set_xmax_commited (c : GpuStoreChunk) (v : bool) : GpuStoreChunk :=
  {| hash := hash c; database_oid := database_oid c; table_oid := table_oid c;
     xmax := xmax c; xmin := xmin c; cid := cid c;
     xmax_commited := v; xmin_commited := xmin_commited c;
     kds_nitems := kds_nitems c; kds_length := kds_length c;
     cuda_dindex := cuda_dindex c; ipc_mhandle := ipc_mhandle c;
     dsm_handle := dsm_handle c |}.

Definition set_xmin_commited (c : GpuStoreChunk) (v : bool) : GpuStoreChunk :=
  {| hash := hash c; database_oid := database_oid c; table_oid := table_oid c;
     xmax := xmax c; xmin := xmin c; cid := cid c;
     xmax_commited := xmax_commited c; xmin_commited := v;
     kds_nitems := kds_nitems c; kds_length := kds_length c;
     cuda_dindex := cuda_dindex c; ipc_mhandle := ipc_mhandle c;
     dsm_handle := dsm_handle c |}.

Definition set_dsm_handle (c : GpuStoreChunk) (v : Z) : GpuStoreChunk :=
  {| hash := hash c; database_oid := database_oid c; table_oid := table_oid c;
     xmax := xmax c; xmin := xmin c; cid := cid c;
     xmax_commited := xmax_commited c; xmin_commited := xmin_commited c;
     kds_nitems := kds_nitems c; kds_length := kds_length c;
     cuda_dindex := cuda_dindex c; ipc_mhandle := ipc_mhandle c;
     dsm_handle := v |}.

(** ** MVCC visibility of a chunk *)

Section Visibility.
Variable env : HostEnv.

(** Lines 159-192: the part of [gstore_fdw_satisfies_visibility] reached
    once the inserting transaction counts as committed. *)
Definition satisfies_visibility_xmax
    (gs_chunk : GpuStoreChunk) (snapshot : SnapshotData)
  : bool * GpuStoreChunk :=
  if negb (TransactionIdIsValid (xmax gs_chunk)) then (true, gs_chunk)
  else if negb (xmax_commited gs_chunk) then
    if TransactionIdIsCurrentTransactionId env (xmax gs_chunk) then
      if cid gs_chunk >=? curcid snapshot then (true, gs_chunk)
      else (false, gs_chunk)
    else if XidInMVCCSnapshot snapshot (xmax gs_chunk) then (true, gs_chunk)
    else if negb (TransactionIdDidCommit env (xmax gs_chunk)) then
      (true, set_xmax gs_chunk InvalidTransactionId)
    else (false, set_xmax_commited gs_chunk true)
  else
    if XidInMVCCSnapshot snapshot (xmax gs_chunk) then (true, gs_chunk)
    else (false, gs_chunk).

(** [gstore_fdw_satisfies_visibility]: the decision together with the
    descriptor as the call leaves it. *)
Definition gstore_fdw_satisfies_visibility
    (gs_chunk : GpuStoreChunk) (snapshot : SnapshotData)
  : bool * GpuStoreChunk :=
  if negb (xmin_commited gs_chunk) then
    if negb (TransactionIdIsValid (xmin gs_chunk)) then (false, gs_chunk)
    else if TransactionIdIsCurrentTransactionId env (xmin gs_chunk) then
      if cid gs_chunk >=? curcid snapshot then (false, gs_chunk)
      else if xmax gs_chunk =? InvalidTransactionId then (true, gs_chunk)
      else if negb (TransactionIdIsCurrentTransactionId env (xmax gs_chunk))
      then (true, set_xmax gs_chunk InvalidTransactionId)
      else if cid gs_chunk >=? curcid snapshot then (true, gs_chunk)
      else (false, gs_chunk)
    else if XidInMVCCSnapshot snapshot (xmin gs_chunk) then (false, gs_chunk)
    else if TransactionIdDidCommit env (xmin gs_chunk) then
      satisfies_visibility_xmax (set_xmin_commited gs_chunk true) snapshot
    else (false, set_xmin gs_chunk InvalidTransactionId)
  else
    if negb (xmin gs_chunk =? FrozenTransactionId)
       && XidInMVCCSnapshot snapshot (xmin gs_chunk)
    then (false, gs_chunk)
    else satisfies_visibility_xmax gs_chunk snapshot.

(** *** The decision procedure as the specification words it

    Five steps, tried in order; a step either decides or hands the
    (possibly updated) descriptor to the next one. *)
Inductive filter_step :=
| Decided (visible : bool) (C : GpuStoreChunk)
| Proceed (C : GpuStoreChunk).

Definition is_T_self (x : TransactionId) : bool :=
  TransactionIdIsCurrentTransactionId env x.
Definition in_progress (x : TransactionId) (S : SnapshotData) : bool :=
  XidInMVCCSnapshot S x.
Definition committed (x : TransactionId) : bool :=
  TransactionIdDidCommit env x.
Definition invalid (x : TransactionId) : bool := x =? InvalidTransactionId.

(** 1. xmin not yet hinted committed. *)
Definition filter_step1 (C : GpuStoreChunk) (S : SnapshotData) : filter_step :=
  if xmin_commited C then Proceed C
  else if invalid (xmin C) then Decided false C
  else if is_T_self (xmin C) then
    if cid C >=? curcid S then Decided false C
    else if invalid (xmax C) then Decided true C
    else if negb (is_T_self (xmax C)) then
      Decided true (set_xmax C InvalidTransactionId)
    else if cid C >=? curcid S then Decided true C
    else Decided false C
  else if in_progress (xmin C) S then Decided false C
  else if committed (xmin C) then Proceed (set_xmin_commited C true)
  else Decided false (set_xmin C InvalidTransactionId).

(** 2. xmin committed hint set. *)
Definition filter_step2 (C : GpuStoreChunk) (S : SnapshotData) : filter_step :=
  if xmin_commited C
     && negb (xmin C =? FrozenTransactionId) && in_progress (xmin C) S
  then Decided false C
  else Proceed C.

(** 3. xmax invalid. *)
Definition filter_step3 (C : GpuStoreChunk) (S : SnapshotData) : filter_step :=
  if invalid (xmax C) then Decided true C else Proceed C.

(** 4. xmax not yet hinted committed. *)
Definition filter_step4 (C : GpuStoreChunk) (S : SnapshotData) : filter_step :=
  if xmax_commited C then Proceed C
  else if is_T_self (xmax C) then Decided (cid C >=? curcid S) C
  else if in_progress (xmax C) S then Decided true C
  else if negb (committed (xmax C)) then
    Decided true (set_xmax C InvalidTransactionId)
  else Proceed (set_xmax_commited C true).

(** 5. xmax committed. *)
Definition filter_step5 (C : GpuStoreChunk) (S : SnapshotData)
  : bool * GpuStoreChunk :=
  if in_progress (xmax C) S then (true, C) else (false, C).

Definition and_then (r : filter_step)
    (k : GpuStoreChunk -> bool * GpuStoreChunk) : bool * GpuStoreChunk :=
  match r with
  | Decided v C => (v, C)
  | Proceed C => k C
  end.

Definition mvcc_filter (C : GpuStoreChunk) (S : SnapshotData)
  : bool * GpuStoreChunk :=
  and_then (filter_step1 C S) (fun C1 =>
  and_then (filter_step2 C1 S) (fun C2 =>
  and_then (filter_step3 C2 S) (fun C3 =>
  and_then (filter_step4 C3 S) (fun C4 =>
  filter_step5 C4 S)))).

End Visibility.

(** ** Raw memory *)

Definition memory := Z -> Z.

(** A buffer as [palloc] or [dsm_create] hands it out. C leaves its
    contents unspecified; here it reads as zero everywhere. *)
Definition fresh_memory : memory := fun _ => 0.

Definition store_byte (m : memory) (addr v : Z) : memory :=
  fun x => if x =? addr then v mod 256 else m x.

(** Store of an integer of [n] bytes at [addr], little endian. *)
Fixpoint store_le (m : memory) (addr : Z) (n : nat) (v : Z) : memory :=
  match n with
  | O => m
  | S k => store_le (store_byte m addr v) (addr + 1) k (v / 256)
  end.

(** Load of an unsigned integer of [n] bytes from [addr]. *)
Fixpoint load_le (m : memory) (addr : Z) (n : nat) : Z :=
  match n with
  | O => 0
  | S k => m addr + 256 * load_le m (addr + 1) k
  end.

(** [memcpy(dst + doff, src + soff, n)] between two buffers. *)
Definition memcpy (dst : memory) (doff : Z) (src : memory) (soff n : Z)
  : memory :=
  fun x => if (doff <=? x) && (x <? doff + n)
           then src (soff + (x - doff)) else dst x.

(** [memcpy(dst + doff, p, n)] where [p] points at the bytes [bs]. *)
Definition memcpy_bytes (dst : memory) (doff : Z) (bs : list Z) (n : Z)
  : memory :=
  fun x => if (doff <=? x) && (x <? doff + n)
           then nth (Z.to_nat (x - doff)) bs 0 else dst x.

(** [memset(m + off, c, n)]. *)
Definition memset (m : memory) (off c n : Z) : memory :=
  fun x => if (off <=? x) && (x <? off + n) then c mod 256 else m x.

(** The [n] bytes found at [addr]. *)
Definition fetch_bytes (m : memory) (addr : Z) (n : nat) : list Z :=
  map (fun i => m (addr + Z.of_nat i)) (seq 0 n).

(** ** Tuple descriptors, datums, and the columnar image *)

(** A [Datum] is either a word passed by value or a pointer; a pointer is
    represented by the bytes it points at. For a varlena these are its
    [VARSIZE_ANY] bytes, header first: a plain value with its 4-byte
    length word, a packed value with its 1-byte header, or a compressed or
    external one. *)
Inductive Datum :=
| DatumVal (v : Z)
| DatumPtr (bytes : list Z).

Definition DatumGetWord (d : Datum) : Z :=
  match d with DatumVal v => v | DatumPtr _ => 0 end.

Definition DatumGetPointer (d : Datum) : list Z :=
  match d with DatumVal _ => [] | DatumPtr bs => bs end.

Definition VARSIZE_ANY (vl : list Z) : Z := Z.of_nat (List.length vl).

(** [postgres.h], little endian: the header byte of a varlena and the
    tests on it. *)
Definition va_header (vl : list Z) : Z := nth 0 vl 0.

Definition VARATT_IS_4B_U (vl : list Z) : bool :=
  Z.land (va_header vl) 3 =? 0.

Definition VARATT_IS_1B (vl : list Z) : bool :=
  Z.land (va_header vl) 1 =? 1.

Definition VARATT_IS_1B_E (vl : list Z) : bool := va_header vl =? 1.

(** A plain varlena: the 4-byte length word (total size shifted left by
    two, little endian) followed by the payload. *)
Definition varlena_4b (payload : list Z) : list Z :=
  let word := Z.shiftl (Z.of_nat (List.length payload) + 4) 2 in
  [word mod 256; (word / 2 ^ 8) mod 256; (word / 2 ^ 16) mod 256;
   (word / 2 ^ 24) mod 256] ++ payload.

(** [PG_DETOAST_DATUM_COPY]: a plain value is copied byte for byte; a
    packed value is expanded to the 4-byte header; a compressed or
    external value is fetched and decompressed by the host. *)
Definition PG_DETOAST_DATUM_COPY (env : HostEnv) (vl : list Z) : list Z :=
  if VARATT_IS_4B_U vl then vl
  else if VARATT_IS_1B vl && negb (VARATT_IS_1B_E vl)
  then varlena_4b (tl vl)
  else heap_tuple_untoast_attr env vl.

(** A row handed to INSERT: [None] is [tts_isnull[i]], [Some d] is
    [tts_values[i]]. *)
Definition TupleTableSlot := list (option Datum).

Inductive kds_format := KDS_FORMAT_ROW | KDS_FORMAT_COLUMN.

(** [kern_colmeta] and [kern_data_store] are declared in pg_strom.h; these
    are the members gstore_fdw.c touches. [k_data] is the whole segment,
    addressed from the head of the structure. *)
Record kern_colmeta := {
  cm_attbyval : bool;
  cm_attlen : Z;
  values_offset : Z;
  cm_extra_sz : Z
}.

Record kern_data_store := {
  k_length : Z;
  k_nitems : Z;
  k_ncols : Z;
  k_format : kds_format;
  colmeta : list kern_colmeta;
  k_data : memory
}.

(** Modelled from the spec: [init_kernel_data_store] is pg_strom code that
    is not part of gstore_fdw.c. The image header carries the format tag,
    the row count, the total length and the column count; each column's
    metadata carries the byte width and the by-value flag of the attribute,
    with the values offset and the extra byte count still zero. *)
Definition init_kernel_data_store (data : memory) (tupdesc : TupleDesc)
    (length : Z) (format : kds_format) (nrooms : Z) : kern_data_store :=
  {| k_length := to_uint32 length;
     k_nitems := 0;
     k_ncols := Z.of_nat (List.length tupdesc);
     k_format := format;
     colmeta := map (fun attr =>
                       {| cm_attbyval := attbyval attr;
                          cm_attlen := attlen attr;
                          values_offset := 0;
                          cm_extra_sz := 0 |}) tupdesc;
     k_data := data |}.

(** ** The shared directory and the process-local state *)

Definition GSTORE_CHUNK_HASH_NSLOTS : Z := 97.

(** [GpuStoreMap]: the locally attached segment, named by its handle. *)
Record GpuStoreMap := {
  dsm_seg : option Z
}.

(** [GpuStoreHead]. [free_chunks] and each bucket of [active_chunks] list
    indexes into [gs_chunks], head first. The spin lock is not modelled:
    every function below runs to completion. *)
Record GpuStoreHead := {
  has_warm_chunks : Z;
  free_chunks : list nat;
  active_chunks : list (list nat);
  gs_chunks : list GpuStoreChunk
}.

(** Everything the functions of gstore_fdw.c read and write besides their
    arguments: the shared head, the local mapping table, the DSM segments
    known to the host, and the device memory preserved on the GPUs. *)
Record gstore_state := {
  gstore_head : GpuStoreHead;
  gstore_maps : list GpuStoreMap;
  dsm_segments : list (Z * kern_data_store);
  dsm_next_handle : Z;
  gpu_preserved : list (Z * Z);
  gpu_next_handle : Z
}.

Definition with_head (st : gstore_state) (h : GpuStoreHead) : gstore_state :=
  {| gstore_head := h; gstore_maps := gstore_maps st;
     dsm_segments := dsm_segments st; dsm_next_handle := dsm_next_handle st;
     gpu_preserved := gpu_preserved st; gpu_next_handle := gpu_next_handle st |}.

Definition with_maps (st : gstore_state) (m : list GpuStoreMap)
  : gstore_state :=
  {| gstore_head := gstore_head st; gstore_maps := m;
     dsm_segments := dsm_segments st; dsm_next_handle := dsm_next_handle st;
     gpu_preserved := gpu_preserved st; gpu_next_handle := gpu_next_handle st |}.

Definition with_gs_chunks (h : GpuStoreHead) (cs : list GpuStoreChunk)
  : GpuStoreHead :=
  {| has_warm_chunks := has_warm_chunks h; free_chunks := free_chunks h;
     active_chunks := active_chunks h; gs_chunks := cs |}.

Definition with_has_warm_chunks (h : GpuStoreHead) (v : Z) : GpuStoreHead :=
  {| has_warm_chunks := v; free_chunks := free_chunks h;
     active_chunks := active_chunks h; gs_chunks := gs_chunks h |}.

Inductive error :=
| ResourceExhausted      (* "too many gstore_fdw chunks required" *)
| NotPrimary             (* "is not a primary gstore_fdw foreign table" *)
| NotEmpty               (* "foreign table ... is not empty" *)
| ConstraintViolation    (* "attribute ... must be NOT NULL" *)
| UnexpectedAlignment    (* "Bug? unexpected alignment" *)
| UnexpectedAttlen       (* "Unexpected attribute length" *)
| DivideByZero           (* integer division by zero traps *)
| InvalidAllocRequest    (* palloc: "invalid memory alloc request size" *)
| FreedMemoryAccess      (* pfree of memory its context has released *)
| CudaFailed (c : cuda_call).

Inductive result (A : Type) :=
| OK (st : gstore_state) (a : A)
| Err (st : gstore_state) (e : error).
Arguments OK {A} st a.
Arguments Err {A} st e.

Definition bind {A B : Type} (r : result A)
    (k : gstore_state -> A -> result B) : result B :=
  match r with
  | OK st a => k st a
  | Err st e => Err st e
  end.

(** *** [lib/ilist.h] on index lists *)

Definition dlist_is_empty (head : list nat) : bool :=
  match head with [] => true | _ :: _ => false end.

Definition dlist_push_head (head : list nat) (node : nat) : list nat :=
  node :: head.

Definition dlist_push_tail (head : list nat) (node : nat) : list nat :=
  head ++ [node].

(** [dlist_delete(node)] unlinks the node from the list it is chained in,
    whichever it is. *)
Fixpoint dlist_delete (node : nat) (head : list nat) : list nat :=
  match head with
  | [] => []
  | n :: rest =>
      if Nat.eqb n node then dlist_delete node rest
      else n :: dlist_delete node rest
  end.

(** The nodes that follow [node] in [head]: what repeated
    [dlist_has_next] / [dlist_next_node] yields. *)
Fixpoint dlist_after (node : nat) (head : list nat) : list nat :=
  match head with
  | [] => []
  | n :: rest => if Nat.eqb n node then rest else dlist_after node rest
  end.

Definition hash_index (hash : Z) : nat :=
  Z.to_nat (hash mod GSTORE_CHUNK_HASH_NSLOTS).

Definition bucket (h : GpuStoreHead) (index : nat) : list nat :=
  default [] (active_chunks h !! index).

(** *** Byte layout of [struct GpuStoreChunk] (LP64)

    [chain] occupies bytes 0..15; the members below follow in declaration
    order with natural alignment; [CUipcMemHandle] is 64 bytes. *)
Definition sizeof_GpuStoreMap : Z := 8.
Definition sizeof_GpuStoreChunk : Z := 128.

(** A member of [sz] bytes at offset [off] after [memset(p, 0, n)]. *)
Definition zeroed_member (off sz n v : Z) : Z :=
  if n <=? off then v
  else if off + sz <=? n then 0
  else (v / 2 ^ (8 * (n - off))) * 2 ^ (8 * (n - off)).

Definition zeroed_flag (off n : Z) (v : bool) : bool :=
  if n <=? off then v else false.

(** [memset(gs_chunk, 0, n)]. *)
Definition memset_chunk (c : GpuStoreChunk) (n : Z) : GpuStoreChunk :=
  {| hash := zeroed_member 16 4 n (hash c);
     database_oid := zeroed_member 20 4 n (database_oid c);
     table_oid := zeroed_member 24 4 n (table_oid c);
     xmax := zeroed_member 28 4 n (xmax c);
     xmin := zeroed_member 32 4 n (xmin c);
     cid := zeroed_member 36 4 n (cid c);
     xmax_commited := zeroed_flag 40 n (xmax_commited c);
     xmin_commited := zeroed_flag 41 n (xmin_commited c);
     kds_nitems := zeroed_member 44 4 n (kds_nitems c);
     kds_length := zeroed_member 48 4 n (kds_length c);
     cuda_dindex := zeroed_member 52 4 n (cuda_dindex c);
     ipc_mhandle := zeroed_member 56 64 n (ipc_mhandle c);
     dsm_handle := zeroed_member 120 4 n (dsm_handle c) |}.

(** Modelled from the spec: [gpuMemAllocPreserved] and [gpuMemFreePreserved]
    belong to pg_strom's GPU memory manager, outside gstore_fdw.c. The first
    reserves device memory and yields the IPC handle naming it; the second
    gives that allocation back. *)
Definition gpuMemAllocPreserved (st : gstore_state) (cuda_dindex : Z)
  : gstore_state * Z :=
  ({| gstore_head := gstore_head st; gstore_maps := gstore_maps st;
      dsm_segments := dsm_segments st; dsm_next_handle := dsm_next_handle st;
      gpu_preserved := (cuda_dindex, gpu_next_handle st) :: gpu_preserved st;
      gpu_next_handle := gpu_next_handle st + 1 |},
   gpu_next_handle st).

Fixpoint remove_preserved (dindex handle : Z) (l : list (Z * Z))
  : list (Z * Z) :=
  match l with
  | [] => []
  | (d, h) :: rest =>
      if (d =? dindex) && (h =? handle) then rest
      else (d, h) :: remove_preserved dindex handle rest
  end.

Definition gpuMemFreePreserved (st : gstore_state) (cuda_dindex handle : Z)
  : gstore_state :=
  {| gstore_head := gstore_head st; gstore_maps := gstore_maps st;
     dsm_segments := dsm_segments st; dsm_next_handle := dsm_next_handle st;
     gpu_preserved := remove_preserved cuda_dindex handle (gpu_preserved st);
     gpu_next_handle := gpu_next_handle st |}.

(** [dsm_create(length, 0)] followed by the stores into the new segment:
    the host hands out a handle and keeps the segment. *)
Definition dsm_create (st : gstore_state) (kds : kern_data_store)
  : gstore_state * Z :=
  ({| gstore_head := gstore_head st; gstore_maps := gstore_maps st;
      dsm_segments := dsm_segments st ++ [(dsm_next_handle st, kds)];
      dsm_next_handle := dsm_next_handle st + 1;
      gpu_preserved := gpu_preserved st;
      gpu_next_handle := gpu_next_handle st |},
   dsm_next_handle st).

Fixpoint dsm_find (handle : Z) (segs : list (Z * kern_data_store))
  : option kern_data_store :=
  match segs with
  | [] => None
  | (h, kds) :: rest => if h =? handle then Some kds else dsm_find handle rest
  end.

(** ** The column builder's state *)

(** [vl_dict_key]: an entry of a varlena dictionary, together with the
    hash value dynahash keeps in the element header: the hash of the key
    the entry was entered with. *)
Record vl_dict_key := {
  hashvalue : Z;
  offset : Z;
  vl_datum : list Z
}.

(** [a[i].values] is a byte array for a fixed-width column and an array of
    pointers to dictionary entries for a varlena column. An entry pointer is
    the position of the entry in the dictionary (entries never move), [None]
    is the NULL pointer. *)
Inductive values_array :=
| ByteValues (m : memory)
| EntryPointers (p : Z -> option nat).

(** One element of [gstoreLoadState.a]. The dictionary lists its entries in
    the order they were entered. *)
Record gstoreLoadColumn := {
  vl_dict : option (list vl_dict_key);
  extra_sz : Z;
  nullmap : option memory;
  values : values_array;
  align : Z
}.

(** [gstoreLoadState]; [ls_length] is its member [length]. A [GpuContext]
    is represented by its [cuda_dindex]. *)
Record gstoreLoadState := {
  gcontext : option Z;
  ls_length : Z;
  nrooms : Z;
  nitems : Z;
  a : list gstoreLoadColumn
}.

Fixpoint bytes_eqb (x y : list Z) : bool :=
  match x, y with
  | [], [] => true
  | b :: x', c :: y' => (b =? c) && bytes_eqb x' y'
  | _, _ => false
  end.

(** [memcmp] over the first [n] bytes: the sign of the difference of the
    first two bytes that differ, compared as unsigned characters (the C
    standard leaves the magnitude open). *)
Fixpoint memcmp (x y : list Z) (n : nat) : Z :=
  match n with
  | O => 0
  | S n' =>
      let b := hd 0 x in
      let c := hd 0 y in
      if b <? c then -1
      else if c <? b then 1
      else memcmp (tl x) (tl y) n'
  end.

(** [vl_dict_hash_value]: the CRC of the [VARSIZE_ANY] bytes of the
    datum. *)
Definition vl_dict_hash_value (env : HostEnv) (key : list Z) : Z :=
  legacy_crc32_bytes env key.

(** [vl_dict_compare]: when both datums have the same [VARSIZE_ANY], what
    [memcmp] finds; otherwise 1. *)
Definition vl_dict_compare (key1 key2 : list Z) : Z :=
  if VARSIZE_ANY key1 =? VARSIZE_ANY key2
  then memcmp key1 key2 (Z.to_nat (VARSIZE_ANY key1))
  else 1.

(** [hash_search(dict, &key, HASH_FIND, NULL)]: the first entry, in the
    order of entering, whose kept hash value is [hashvalue_], the hash of
    the key, and whose datum the match function finds equal to the key's. *)
Fixpoint hash_search_find (entries : list vl_dict_key) (hashvalue_ : Z)
    (key : list Z) (pos : nat) : option nat :=
  match entries with
  | [] => None
  | e :: rest =>
      if (hashvalue e =? hashvalue_)
         && (vl_dict_compare (vl_datum e) key =? 0)
      then Some pos
      else hash_search_find rest hashvalue_ key (S pos)
  end.

Definition vl_dict_create : list vl_dict_key := [].

(** ** Numeric form of [attalign], as [gstoreBeginForeignModify] derives it *)
Definition align_of_attalign (c : ascii) : option Z :=
  if Ascii.eqb c "c" then Some 1
  else if Ascii.eqb c "s" then Some 2
  else if Ascii.eqb c "i" then Some 4
  else if Ascii.eqb c "d" then Some 8
  else None.

(** ** What a scan hands back *)

(** A stored datum read back by the scan: a by-value word, or a pointer into
    the image (segment handle and byte offset from the head of the image). *)
Inductive ScanDatum :=
| ScanVal (v : Z)
| ScanPtr (seg : Z) (off : Z).

(** [fetch_att(T, attbyval, attlen)] at offset [T] of the image. *)
Definition fetch_att (seg : Z) (data : memory) (T : Z)
    (attbyval : bool) (attlen : Z) : ScanDatum :=
  if attbyval then
    if attlen =? 8 then ScanVal (load_le data T 8)
    else if attlen =? 4 then ScanVal (load_le data T 4)
    else if attlen =? 2 then ScanVal (load_le data T 2)
    else ScanVal (load_le data T 1)
  else ScanPtr seg T.

(** [att_isnull(ATT, BITS)] on the bitmap found at [bits]. *)
Definition att_isnull (data : memory) (bits ATT : Z) : bool :=
  Z.land (data (bits + Z.shiftr ATT 3)) (Z.shiftl 1 (Z.land ATT 7)) =? 0.

(** [gstoreScanState]. *)
Record gstoreScanState := {
  gs_chunk : option nat;
  gs_index : Z;
  nattrs : Z;
  attnos : list Z
}.

Inductive XactEvent :=
| XACT_EVENT_COMMIT
| XACT_EVENT_ABORT
| XACT_EVENT_PREPARE
| XACT_EVENT_PRE_COMMIT.

(** The GUC [pg_strom.gstore_max_nchunks] as registered with
    [DefineCustomIntVariable]: boot value and the accepted range. *)
Record config_int := {
  bootValue : Z;
  minValue : Z;
  maxValue : Z
}.

(** The host refuses a setting outside [minValue .. maxValue]. *)
Definition set_config_int (conf : config_int) (newval : Z) : option Z :=
  if (newval <? minValue conf) || (maxValue conf <? newval) then None
  else Some newval.

(** The errors raised outside the chunk store proper. *)
Inductive fdw_error :=
| CacheLookupFailed      (* "cache lookup failed for foreign table" *)
| PinningUnknownDevice   (* "pinning on unknown GPU device" *)
| UnknownOption          (* "Unknown FDW option" / "is not supported" *)
| ReferenceAndPinning    (* "cannot use 'reference' and 'pinning' ..." *)
| OptionTwice (name : string)   (* "... option appears twice" *)
| NotPrimaryGstore       (* "not a primary gstore_fdw foreign table" *)
| NotGstoreFdw           (* "is not gstore_fdw foreign table" *)
| InconsistentOptions    (* "not a consistent ... foreign table options" *)
| NoForeignServer        (* "foreign server with OID ... does not exist" *)
| NoForeignDataWrapper   (* "cache lookup failed for foreign-data wrapper" *)
| NoHandlerFunction      (* "cache lookup failed for function" *)
| HandlerNotC            (* "FDW handler function is not written with C" *)
| NullProsrc             (* "null prosrc for C function" *)
| NullProbin             (* "null probin for C function" *)
| NotSupportedYet        (* load_pinned_gstore_fdw: "not supported yet" *)
| NotSupportedOperation  (* "gstore_fdw: not a supported operation" *)
| OnlyDirectDelete       (* "Only Direct DELETE is supported" *)
| AttributeNotFound (name : string)  (* "attribute ... was not found" *)
| HostRaised.            (* an error raised inside a host function *)

(** Lines 452-469 of [gstoreBeginForeignScan], for a table with a
    "reference" option: every column is looked up by name among the
    attributes of the referenced table, given as name and [attnum]. *)
Fixpoint find_attnum (attname : string) (phydesc : list (string * Z))
  : option Z :=
  match phydesc with
  | [] => None
  | (pname, attnum) :: rest =>
      if String.eqb attname pname then Some attnum
      else find_attnum attname rest
  end.

Fixpoint reference_attnos (attnames : list string)
    (phydesc : list (string * Z)) : fdw_error + list Z :=
  match attnames with
  | [] => inr []
  | attname :: rest =>
      match find_attnum attname phydesc with
      | None => inl (AttributeNotFound attname)
      | Some attnum =>
          match reference_attnos rest phydesc with
          | inl e => inl e
          | inr attnos_ => inr (attnum :: attnos_)
          end
      end
  end.

(** ** The functions of gstore_fdw.c *)

Section GpuStore.
Variable env : HostEnv.

(** [gstore_fdw_mapped_chunk]: attach the chunk's segment on first use, or
    again when the slot has been recycled; the result is the image, if the
    handle names a segment. *)
Definition gstore_fdw_mapped_chunk (st : gstore_state) (gs_chunk : nat)
  : gstore_state * option (Z * kern_data_store) :=
  match gs_chunks (gstore_head st) !! gs_chunk with
  | None => (st, None)
  | Some c =>
      let attached := {| dsm_seg := Some (dsm_handle c) |} in
      let maps :=
        match gstore_maps st !! gs_chunk with
        | Some {| dsm_seg := None |} => <[gs_chunk := attached]> (gstore_maps st)
        | Some {| dsm_seg := Some h |} =>
            if negb (h =? dsm_handle c)
            then <[gs_chunk := attached]> (gstore_maps st)
            else gstore_maps st
        | None => gstore_maps st
        end in
      (with_maps st maps,
       option_map (fun kds => (dsm_handle c, kds))
                  (dsm_find (dsm_handle c) (dsm_segments st)))
  end.

(** The loop shared by [gstore_fdw_first_chunk] and
    [gstore_fdw_next_chunk]: walk [nodes], test every descriptor of the
    table, stop at the first visible one. The visibility test may rewrite
    the descriptors it looks at. *)
Fixpoint visible_chunk_in (chunks : list GpuStoreChunk) (nodes : list nat)
    (hash_ : Z) (database_oid_ table_oid_ : Oid) (snapshot : SnapshotData)
  : option nat * list GpuStoreChunk :=
  match nodes with
  | [] => (None, chunks)
  | n :: rest =>
      match chunks !! n with
      | None =>
          visible_chunk_in chunks rest hash_ database_oid_ table_oid_ snapshot
      | Some c =>
          if (hash c =? hash_) && (database_oid c =? database_oid_)
             && (table_oid c =? table_oid_)
          then
            let (visible, c') :=
              gstore_fdw_satisfies_visibility env c snapshot in
            let chunks' := <[n := c']> chunks in
            if visible then (Some n, chunks')
            else visible_chunk_in chunks' rest hash_ database_oid_ table_oid_
                                  snapshot
          else
            visible_chunk_in chunks rest hash_ database_oid_ table_oid_
                             snapshot
      end
  end.

(** [gstore_fdw_first_chunk]. *)
Definition gstore_fdw_first_chunk (h : GpuStoreHead) (frel : Relation)
    (snapshot : SnapshotData) : option nat * GpuStoreHead :=
  let table_oid_ := rd_id frel in
  let hash_ := legacy_crc32_oids env (MyDatabaseId env) table_oid_ in
  let index := hash_index hash_ in
  let (r, chunks') :=
    visible_chunk_in (gs_chunks h) (bucket h index)
                     hash_ (MyDatabaseId env) table_oid_ snapshot in
  (r, with_gs_chunks h chunks').

(** [gstore_fdw_next_chunk]. *)
Definition gstore_fdw_next_chunk (h : GpuStoreHead) (gs_chunk : nat)
    (snapshot : SnapshotData) : option nat * GpuStoreHead :=
  match gs_chunks h !! gs_chunk with
  | None => (None, h)
  | Some c =>
      let index := hash_index (hash c) in
      let (r, chunks') :=
        visible_chunk_in (gs_chunks h)
                         (dlist_after gs_chunk (bucket h index))
                         (hash c) (database_oid c) (table_oid c) snapshot in
      (r, with_gs_chunks h chunks')
  end.

(** *** The chunk writer *)

(** Lines 746-764: the length of the image. *)
Fixpoint writeout_length (attrs : TupleDesc) (cols : list gstoreLoadColumn)
    (nitems_ : Z) (length : Z) : Z :=
  match attrs, cols with
  | attr :: attrs', col :: cols' =>
      let length' :=
        if attlen attr <? 0 then
          length + (MAXALIGN (sizeof_cl_uint * nitems_) + extra_sz col)
        else
          (match nullmap col with
           | Some _ => length + MAXALIGN (BITMAPLEN nitems_)
           | None => length
           end)
          + MAXALIGN (TYPEALIGN (align col) (attlen attr) * nitems_)
      in writeout_length attrs' cols' nitems_ length'
  | _, _ => length
  end.

(** Lines 790-799: walk the dictionary in the order [hash_seq_search]
    yields its entries, give every entry its offset from [base], copy its
    payload to [extra] and advance. [order] names the entries by their
    position in [entries]. *)
Fixpoint writeout_dict (order : list nat) (entries : list vl_dict_key)
    (data : memory) (base extra cm_extra : Z)
  : list vl_dict_key * memory * Z :=
  match order with
  | [] => (entries, data, cm_extra)
  | e :: rest =>
      match entries !! e with
      | None => writeout_dict rest entries data base extra cm_extra
      | Some entry =>
          let entry' := {| hashvalue := hashvalue entry;
                           offset := to_uint32 (extra - base);
                           vl_datum := vl_datum entry |} in
          let unitsz := VARSIZE_ANY (vl_datum entry) in
          let data' := memcpy_bytes data extra (vl_datum entry) unitsz in
          writeout_dict rest (<[e := entry']> entries) data' base
                        (extra + MAXALIGN unitsz)
                        (to_uint32 (cm_extra + MAXALIGN unitsz))
      end
  end.

(** Lines 802-807: [base[j] = (!entry ? 0 : entry->offset)] for every
    [j < nitems], given as the memory the loop leaves. A pointer that does
    not name an entry of the dictionary reads as offset 0. *)
Definition writeout_offsets (data : memory) (base nitems_ : Z)
    (entries : list vl_dict_key) (entries_array : Z -> option nat) : memory :=
  fun x =>
    if (base <=? x) && (x <? base + sizeof_cl_uint * nitems_) then
      let j := (x - base) / sizeof_cl_uint in
      let word :=
        match entries_array j with
        | None => 0
        | Some e => match entries !! e with
                    | Some entry => offset entry
                    | None => 0
                    end
        end in
      (word / 2 ^ (8 * ((x - base) mod sizeof_cl_uint))) mod 256
    else data x.

Definition entry_pointers (v : values_array) : Z -> option nat :=
  match v with
  | EntryPointers p => p
  | ByteValues _ => fun _ => None
  end.

Definition byte_values (v : values_array) : memory :=
  match v with
  | ByteValues m => m
  | EntryPointers _ => fresh_memory
  end.

(** Lines 774-826: lay the columns out in the segment. [offset] is the
    running write position; it is advanced in the fixed-width branch only,
    as in the source. *)
Fixpoint writeout_columns (cmetas : list kern_colmeta)
    (cols : list gstoreLoadColumn) (nitems_ offset_ : Z) (data : memory)
  : list kern_colmeta * list gstoreLoadColumn * memory :=
  match cmetas, cols with
  | cmeta :: cmetas', col :: cols' =>
      if cm_attlen cmeta <? 0 then
        let base := offset_ in
        let extra := base + MAXALIGN (sizeof_cl_uint * nitems_) in
        let entries := default [] (vl_dict col) in
        let '(entries', data1, cm_extra) :=
          writeout_dict (hash_seq_search env (map hashvalue entries)) entries
                        data base extra (cm_extra_sz cmeta) in
        let data2 :=
          writeout_offsets data1 base nitems_ entries'
                           (entry_pointers (values col)) in
        let cmeta' := {| cm_attbyval := cm_attbyval cmeta;
                         cm_attlen := cm_attlen cmeta;
                         values_offset := offset_;
                         cm_extra_sz := cm_extra |} in
        let col' := {| vl_dict := option_map (fun _ => entries') (vl_dict col);
                       extra_sz := extra_sz col; nullmap := nullmap col;
                       values := values col; align := align col |} in
        let '(ms, cs, d) :=
          writeout_columns cmetas' cols' nitems_ offset_ data2 in
        (cmeta' :: ms, col' :: cs, d)
      else
        let unitsz := TYPEALIGN (align col) (cm_attlen cmeta) in
        let data1 :=
          memcpy data offset_ (byte_values (values col)) 0
                 (unitsz * nitems_) in
        let offset1 := offset_ + MAXALIGN (unitsz * nitems_) in
        match nullmap col with
        | Some bits =>
            let data2 := memcpy data1 offset1 bits 0 (BITMAPLEN nitems_) in
            let cmeta' := {| cm_attbyval := cm_attbyval cmeta;
                             cm_attlen := cm_attlen cmeta;
                             values_offset := offset_;
                             cm_extra_sz := BITMAPLEN nitems_ |} in
            let '(ms, cs, d) :=
              writeout_columns cmetas' cols' nitems_
                               (offset1 + MAXALIGN (BITMAPLEN nitems_))
                               data2 in
            (cmeta' :: ms, col :: cs, d)
        | None =>
            let cmeta' := {| cm_attbyval := cm_attbyval cmeta;
                             cm_attlen := cm_attlen cmeta;
                             values_offset := offset_;
                             cm_extra_sz := cm_extra_sz cmeta |} in
            let '(ms, cs, d) :=
              writeout_columns cmetas' cols' nitems_ offset1 data1 in
            (cmeta' :: ms, col :: cs, d)
        end
  | _, _ => ([], cols, data)
  end.

(** Lines 746-827: the finished image. *)
Definition writeout_image (tupdesc : TupleDesc) (gs_lstate : gstoreLoadState)
  : kern_data_store * list gstoreLoadColumn :=
  let nitems_ := nitems gs_lstate in
  let head_sz :=
    MAXALIGN (offsetof_kds_colmeta env (Z.of_nat (List.length tupdesc))) in
  let length := writeout_length tupdesc (a gs_lstate) nitems_ head_sz in
  let kds := init_kernel_data_store fresh_memory tupdesc length
                                    KDS_FORMAT_COLUMN nitems_ in
  let '(cmetas, cols, data) :=
    writeout_columns (colmeta kds) (a gs_lstate) nitems_ head_sz
                     (k_data kds) in
  ({| k_length := k_length kds; k_nitems := to_uint32 nitems_;
      k_ncols := k_ncols kds; k_format := k_format kds;
      colmeta := cmetas; k_data := data |},
   cols).

(** Lines 830-872: reserve device memory and copy the image to it. Whatever
    fails after the reservation gives the reservation back before the error
    propagates. The result is the IPC handle. *)
Definition writeout_to_device (st : gstore_state) (cuda_dindex_ : Z)
  : result Z :=
  if negb (cuda_success env call_gpuMemAllocPreserved)
  then Err st (CudaFailed call_gpuMemAllocPreserved)
  else
    let (st1, ipc_mhandle_) := gpuMemAllocPreserved st cuda_dindex_ in
    let caught := gpuMemFreePreserved st1 cuda_dindex_ ipc_mhandle_ in
    if negb (cuda_success env call_gpuIpcOpenMemHandle)
    then Err caught (CudaFailed call_gpuIpcOpenMemHandle)
    else if negb (cuda_success env call_cuCtxPushCurrent)
    then Err caught (CudaFailed call_cuCtxPushCurrent)
    else if negb (cuda_success env call_cuMemcpyHtoD)
    then Err caught (CudaFailed call_cuMemcpyHtoD)
    else if negb (cuda_success env call_cuCtxPopCurrent)
    then Err caught (CudaFailed call_cuCtxPopCurrent)
    else OK st1 ipc_mhandle_.

(** Lines 917-929: reset of the temporary buffers. [MemoryContextReset]
    releases everything allocated in the builder's memory context, the
    null bitmaps among it, before the loop hands every bitmap to [pfree].
    From that [pfree] on the behaviour of the C program is undefined: the
    function stops there, [None], when a column has a bitmap. *)
Definition writeout_reset (gs_lstate : gstoreLoadState)
    (cols : list gstoreLoadColumn) : option gstoreLoadState :=
  if existsb (fun col => match nullmap col with
                         | Some _ => true
                         | None => false
                         end) cols
  then None
  else
    Some {| gcontext := gcontext gs_lstate;
            ls_length := ls_length gs_lstate;
            nrooms := nrooms gs_lstate;
            nitems := 0;
            a := map (fun col =>
                        {| vl_dict := option_map (fun _ => vl_dict_create)
                                                 (vl_dict col);
                           extra_sz := extra_sz col;
                           nullmap := nullmap col;
                           values := values col;
                           align := align col |}) cols |}.

(** [gstore_fdw_writeout_chunk]. *)
Definition gstore_fdw_writeout_chunk (st : gstore_state) (relation : Relation)
    (gs_lstate : gstoreLoadState) : result gstoreLoadState :=
  let table_oid_ := rd_id relation in
  let cuda_dindex_ :=
    match gcontext gs_lstate with Some d => d | None => -1 end in
  let (kds, cols) := writeout_image (rd_att relation) gs_lstate in
  let (st1, dsm_handle_) := dsm_create st kds in
  bind (match gcontext gs_lstate with
        | Some _ => writeout_to_device st1 cuda_dindex_
        | None => OK st1 0
        end)
       (fun st2 ipc_mhandle_ =>
  let hash_ := legacy_crc32_oids env (MyDatabaseId env) table_oid_ in
  let h := gstore_head st2 in
  match free_chunks h with
  | [] =>
      let st3 :=
        match gcontext gs_lstate with
        | Some _ => gpuMemFreePreserved st2 cuda_dindex_ ipc_mhandle_
        | None => st2
        end in
      Err st3 ResourceExhausted
  | dnode :: free_rest =>
      let chunk :=
        {| hash := hash_;
           database_oid := MyDatabaseId env;
           table_oid := table_oid_;
           xmax := InvalidTransactionId;
           xmin := GetCurrentTransactionId env;
           cid := GetCurrentCommandId env;
           xmax_commited := false;
           xmin_commited := false;
           kds_nitems := k_nitems kds;
           kds_length := k_length kds;
           cuda_dindex := cuda_dindex_;
           ipc_mhandle := ipc_mhandle_;
           dsm_handle := dsm_handle_ |} in
      let i := hash_index hash_ in
      let h' :=
        {| has_warm_chunks := to_uint32 (has_warm_chunks h + 1);
           free_chunks := free_rest;
           active_chunks :=
             <[i := dlist_push_tail (bucket h i) dnode]> (active_chunks h);
           gs_chunks := <[dnode := chunk]> (gs_chunks h) |} in
      let maps := <[dnode := {| dsm_seg := Some dsm_handle_ |}]>
                    (gstore_maps st2) in
      let st3 := with_maps (with_head st2 h') maps in
      match writeout_reset gs_lstate cols with
      | Some gs_lstate' => OK st3 gs_lstate'
      | None => Err st3 FreedMemoryAccess
      end
  end).

(** [gstore_fdw_release_chunk]. The [memset] clears [sizeof(GpuStoreMap)]
    bytes of the descriptor, as written in the source. *)
Definition gstore_fdw_release_chunk (st : gstore_state) (gs_chunk_ : nat)
  : gstore_state :=
  let h := gstore_head st in
  match gs_chunks h !! gs_chunk_ with
  | None => st
  | Some c =>
      let st1 :=
        if cuda_dindex c >=? 0
        then gpuMemFreePreserved st (cuda_dindex c) (ipc_mhandle c)
        else st in
      let maps := <[gs_chunk_ := {| dsm_seg := None |}]> (gstore_maps st1) in
      let c' := set_dsm_handle (memset_chunk c sizeof_GpuStoreMap) UINT_MAX in
      let h' :=
        {| has_warm_chunks := has_warm_chunks h;
           free_chunks :=
             dlist_push_head (dlist_delete gs_chunk_ (free_chunks h)) gs_chunk_;
           active_chunks := map (dlist_delete gs_chunk_) (active_chunks h);
           gs_chunks := <[gs_chunk_ := c']> (gs_chunks h) |} in
      with_maps (with_head st1 h') maps
  end.

(** *** INSERT: begin, one row, end *)

(** Lines 1018-1041: the per-row size bound [unitsz], and the numeric
    alignment stored in [a[i].align] (zero for a varlena column, as
    [palloc0] left it). *)
Fixpoint begin_unitsz (attrs : TupleDesc) (unitsz : Z) (aligns : list Z)
  : option (Z * list Z) :=
  match attrs with
  | [] => Some (unitsz, aligns)
  | attr :: attrs' =>
      if attlen attr <? 0
      then begin_unitsz attrs' (unitsz + sizeof_cl_uint) (aligns ++ [0])
      else
        match align_of_attalign (attalign attr) with
        | None => None
        | Some align_ =>
            begin_unitsz attrs' (unitsz + TYPEALIGN align_ (attlen attr))
                         (aligns ++ [align_])
        end
  end.

(** Lines 1047-1062: dictionary and value buffers of every column. *)
Definition begin_column (attr : FormData_pg_attribute) (align_ : Z)
  : gstoreLoadColumn :=
  if attlen attr <? 0 then
    {| vl_dict := Some vl_dict_create; extra_sz := 0; nullmap := None;
       values := EntryPointers (fun _ => None); align := align_ |}
  else
    {| vl_dict := None; extra_sz := 0; nullmap := None;
       values := ByteValues fresh_memory; align := align_ |}.

Fixpoint begin_columns (attrs : TupleDesc) (aligns : list Z)
  : list gstoreLoadColumn :=
  match attrs, aligns with
  | attr :: attrs', align_ :: aligns' =>
      begin_column attr align_ :: begin_columns attrs' aligns'
  | _, _ => []
  end.

(** Lines 1055 and 1059-1060: the size [palloc] is asked for the value
    buffer of a column: [nrooms] pointers for a varlena column, [nrooms]
    aligned elements for a fixed-width one. *)
Definition begin_values_size (attr : FormData_pg_attribute) (align_ : Z)
    (nrooms_ : Z) : Z :=
  if attlen attr <? 0 then sizeof_pointer * nrooms_
  else TYPEALIGN align_ (attlen attr) * nrooms_.

(** Lines 1047-1062: every request is one [palloc] accepts. *)
Fixpoint begin_values_valid (attrs : TupleDesc) (aligns : list Z)
    (nrooms_ : Z) : bool :=
  match attrs, aligns with
  | attr :: attrs', align_ :: aligns' =>
      AllocSizeIsValid (begin_values_size attr align_ nrooms_)
      && begin_values_valid attrs' aligns' nrooms_
  | _, _ => true
  end.

(** Modelled from the spec: [AllocGpuContext] and [ActivateGpuContext]
    belong to pg_strom's GPU context manager, outside gstore_fdw.c. The
    spec knows no failure of the start of an insert on their account: the
    context of the device is handed out, and is represented by the
    [cuda_dindex] it carries. *)
Definition AllocGpuContext (cuda_dindex_ : Z) : Z := cuda_dindex_.

(** Lines 1005-1045 and 1047-1062: the state object of the load. *)
Definition begin_load_state (env : HostEnv) (relation : Relation)
    (unitsz : Z) (aligns : list Z) : gstoreLoadState :=
  let tupdesc := rd_att relation in
  let natts := Z.of_nat (List.length tupdesc) in
  let length := GPUSTORE_CHUNK_SIZE - offsetof_kds_colmeta env natts in
  {| gcontext :=
       if pinning relation >=? 0
       then Some (AllocGpuContext (pinning relation)) else None;
     ls_length := length;
     nrooms := (length - MAXIMUM_ALIGNOF * natts) / unitsz;
     nitems := 0;
     a := begin_columns tupdesc aligns |}.

(** [gstoreBeginForeignModify] under the executor's snapshot. The value
    buffers are the last thing the function asks for: a request [palloc]
    refuses ends it with the emptiness probe done and nothing else
    changed. *)
Definition gstoreBeginForeignModify (st : gstore_state) (relation : Relation)
    (es_snapshot : SnapshotData) : result gstoreLoadState :=
  match referenced relation with
  | Some _ => Err st NotPrimary
  | None =>
      let (found, h') :=
        gstore_fdw_first_chunk (gstore_head st) relation es_snapshot in
      let st' := with_head st h' in
      match found with
      | Some _ => Err st' NotEmpty
      | None =>
          match begin_unitsz (rd_att relation) 0 [] with
          | None => Err st' UnexpectedAlignment
          | Some (unitsz, aligns) =>
              if unitsz =? 0 then Err st' DivideByZero
              else
                let gs_lstate :=
                  begin_load_state env relation unitsz aligns in
                if begin_values_valid (rd_att relation) aligns
                                      (nrooms gs_lstate)
                then OK st' gs_lstate
                else Err st' InvalidAllocRequest
          end
      end
  end.

(** Lines 1088-1114: the extra consumption the new row is charged with. *)
Fixpoint insert_usage (attrs : TupleDesc) (slot : TupleTableSlot)
    (cols : list gstoreLoadColumn) (nitems_ usage : Z) : Z :=
  match attrs, slot, cols with
  | attr :: attrs', value :: slot', col :: cols' =>
      let usage' :=
        if attlen attr <? 0 then
          (match value with
           | Some datum =>
               let key := DatumGetPointer datum in
               match hash_search_find (default [] (vl_dict col))
                                      (vl_dict_hash_value env key) key 0 with
               | None => usage + MAXALIGN (VARSIZE_ANY key)
               | Some _ => usage
               end
           | None => usage
           end) + sizeof_cl_uint
        else
          (match nullmap col, value with
           | None, Some _ => usage
           | _, _ => usage + MAXALIGN (BITMAPLEN (nitems_ + 1))
           end) + TYPEALIGN (align col) (attlen attr) * (nitems_ + 1)
      in insert_usage attrs' slot' cols' nitems_ usage'
  | _, _, _ => usage
  end.

Definition nullmap_clear_bit (bits : memory) (index : Z) : memory :=
  store_byte bits (Z.shiftr index 3)
    (Z.land (bits (Z.shiftr index 3))
            (Z.lnot (Z.shiftl 1 (Z.land index 7)))).

Definition nullmap_set_bit (bits : memory) (index : Z) : memory :=
  store_byte bits (Z.shiftr index 3)
    (Z.lor (bits (Z.shiftr index 3)) (Z.shiftl 1 (Z.land index 7))).

Definition with_nullmap (col : gstoreLoadColumn) (bits : option memory)
  : gstoreLoadColumn :=
  {| vl_dict := vl_dict col; extra_sz := extra_sz col; nullmap := bits;
     values := values col; align := align col |}.

Definition with_values (col : gstoreLoadColumn) (v : values_array)
  : gstoreLoadColumn :=
  {| vl_dict := vl_dict col; extra_sz := extra_sz col;
     nullmap := nullmap col; values := v; align := align col |}.

(** Lines 1122-1199, body of the loop: put one attribute of the row at
    position [index] of its column. A null only touches the null bitmap:
    neither the value bytes nor, for a varlena column, the entry pointer at
    [index] is written. A varlena is looked up by the bytes the executor
    handed over; a new entry keeps the hash value of these bytes and the
    copy [PG_DETOAST_DATUM_COPY] makes of them, and is accounted with the
    size of the bytes handed over. *)
Definition insert_value (attr : FormData_pg_attribute) (value : option Datum)
    (col : gstoreLoadColumn) (index : Z) : error + gstoreLoadColumn :=
  match value with
  | None =>
      if attnotnull attr then inl ConstraintViolation
      else
        let bits :=
          match nullmap col with
          | Some bits => bits
          | None => memset fresh_memory 0 (-1) (BITMAPLEN index)
          end in
        inr (with_nullmap col (Some (nullmap_clear_bit bits index)))
  | Some datum =>
      let col1 :=
        match nullmap col with
        | Some bits => with_nullmap col (Some (nullmap_set_bit bits index))
        | None => col
        end in
      if attlen attr <? 0 then
        let key := DatumGetPointer datum in
        let entries := default [] (vl_dict col1) in
        match hash_search_find entries (vl_dict_hash_value env key) key 0 with
        | Some entry =>
            let p := entry_pointers (values col1) in
            inr (with_values col1
                   (EntryPointers
                      (fun j => if j =? index then Some entry else p j)))
        | None =>
            let entry := List.length entries in
            let p := entry_pointers (values col1) in
            inr {| vl_dict :=
                     Some (entries
                           ++ [{| hashvalue := vl_dict_hash_value env key;
                                  offset := 0;
                                  vl_datum :=
                                    PG_DETOAST_DATUM_COPY env key |}]);
                   extra_sz := extra_sz col1 + MAXALIGN (VARSIZE_ANY key);
                   nullmap := nullmap col1;
                   values := EntryPointers
                               (fun j => if j =? index then Some entry
                                         else p j);
                   align := align col1 |}
        end
      else
        let at_ := TYPEALIGN (align col1) (attlen attr) * index in
        let m := byte_values (values col1) in
        if negb (attbyval attr) then
          inr (with_values col1
                 (ByteValues
                    (memcpy_bytes m at_ (DatumGetPointer datum) (attlen attr))))
        else if attlen attr =? 1 then
          inr (with_values col1
                 (ByteValues (store_le m at_ 1 (DatumGetWord datum))))
        else if attlen attr =? 2 then
          inr (with_values col1
                 (ByteValues (store_le m at_ 2 (DatumGetWord datum))))
        else if attlen attr =? 4 then
          inr (with_values col1
                 (ByteValues (store_le m at_ 4 (DatumGetWord datum))))
        else if attlen attr =? 8 then
          inr (with_values col1
                 (ByteValues (store_le m at_ 8 (DatumGetWord datum))))
        else inl UnexpectedAttlen
  end.

Fixpoint insert_values (attrs : TupleDesc) (slot : TupleTableSlot)
    (cols : list gstoreLoadColumn) (index : Z)
  : error + list gstoreLoadColumn :=
  match attrs, slot, cols with
  | attr :: attrs', value :: slot', col :: cols' =>
      match insert_value attr value col index with
      | inl e => inl e
      | inr col' =>
          match insert_values attrs' slot' cols' index with
          | inl e => inl e
          | inr rest => inr (col' :: rest)
          end
      end
  | _, _, _ => inr cols
  end.

(** [gstoreExecForeignInsert]. *)
Definition gstoreExecForeignInsert (st : gstore_state) (relation : Relation)
    (gs_lstate : gstoreLoadState) (slot : TupleTableSlot)
  : result gstoreLoadState :=
  let tupdesc := rd_att relation in
  let usage :=
    insert_usage tupdesc slot (a gs_lstate) (nitems gs_lstate) 0 in
  bind (if usage >? ls_length gs_lstate
        then gstore_fdw_writeout_chunk st relation gs_lstate
        else OK st gs_lstate)
       (fun st1 ls1 =>
  let index := nitems ls1 in
  match insert_values tupdesc slot (a ls1) index with
  | inl e => Err st1 e
  | inr cols =>
      OK st1 {| gcontext := gcontext ls1; ls_length := ls_length ls1;
                nrooms := nrooms ls1; nitems := index + 1; a := cols |}
  end).

(** [gstoreEndForeignModify]. *)
Definition gstoreEndForeignModify (st : gstore_state) (relation : Relation)
    (gs_lstate : gstoreLoadState) : result unit :=
  if nitems gs_lstate >? 0 then
    bind (gstore_fdw_writeout_chunk st relation gs_lstate)
         (fun st1 _ => OK st1 tt)
  else OK st tt.

(** The executor's INSERT loop: one [gstoreExecForeignInsert] per row. *)
Fixpoint insert_rows (st : gstore_state) (relation : Relation)
    (gs_lstate : gstoreLoadState) (rows : list TupleTableSlot)
  : result gstoreLoadState :=
  match rows with
  | [] => OK st gs_lstate
  | slot :: rows' =>
      bind (gstoreExecForeignInsert st relation gs_lstate slot)
           (fun st1 ls1 => insert_rows st1 relation ls1 rows')
  end.

(** A whole load session: begin, every row, end. *)
Definition insert_session (st : gstore_state) (relation : Relation)
    (es_snapshot : SnapshotData) (rows : list TupleTableSlot) : result unit :=
  bind (gstoreBeginForeignModify st relation es_snapshot) (fun st1 ls1 =>
  bind (insert_rows st1 relation ls1 rows) (fun st2 ls2 =>
  gstoreEndForeignModify st2 relation ls2)).

(** *** The row-at-a-time scan *)

(** [gstoreBeginForeignScan] of a scan that is to run (not EXPLAIN only)
    under an MVCC snapshot. For a table with a "reference" option the
    referenced table is opened and every column is mapped to the [attnum]
    of its namesake there; for a primary table [attnos[i] = i + 1]. *)
Definition gstoreBeginForeignScan (relation : Relation)
  : fdw_error + gstoreScanState :=
  let tupdesc := rd_att relation in
  let natts := List.length tupdesc in
  match referenced relation with
  | Some name =>
      match heap_openrv env name with
      | None => inl HostRaised
      | Some gs_rel =>
          let phydesc :=
            map (fun pattr => (attname pattr, attnum pattr)) (rd_att gs_rel) in
          match reference_attnos (map attname tupdesc) phydesc with
          | inl e => inl e
          | inr attnos_ =>
              inr {| gs_chunk := None; gs_index := 0;
                     nattrs := Z.of_nat natts; attnos := attnos_ |}
          end
      end
  | None =>
      inr {| gs_chunk := None; gs_index := 0; nattrs := Z.of_nat natts;
             attnos := map (fun i => Z.of_nat i + 1) (seq 0 natts) |}
  end.

(** Lines 523-561, body of the loop: attribute [attno] of row [index]. *)
Definition scan_attribute (seg : Z) (kds : kern_data_store) (index attno : Z)
  : option ScanDatum :=
  let colidx := attno - 1 in
  match colmeta kds !! Z.to_nat colidx with
  | None => None
  | Some kcmeta =>
      let att_values := values_offset kcmeta in
      if cm_attlen kcmeta >? 0 then
        if (cm_extra_sz kcmeta >? 0)
           && (index <? BITS_PER_BYTE * cm_extra_sz kcmeta)
           && att_isnull (k_data kds)
                (att_values + MAXALIGN (cm_attlen kcmeta * k_nitems kds)) index
        then None
        else Some (fetch_att seg (k_data kds)
                     (att_values + cm_attlen kcmeta * index)
                     (cm_attbyval kcmeta) (cm_attlen kcmeta))
      else
        let offset_ := load_le (k_data kds) (att_values + 4 * index) 4 in
        if offset_ =? 0 then None
        else Some (ScanPtr seg (att_values + offset_))
  end.

(** The [next:] loop of [gstoreIterateForeignScan]: skip exhausted chunks.
    Every turn moves to a later node of the bucket, so [fuel] larger than
    the bucket is never used up. *)
Fixpoint iterate_next (fuel : nat) (st : gstore_state) (ss : gstoreScanState)
    (snapshot : SnapshotData)
  : gstore_state * gstoreScanState * option (list (option ScanDatum)) :=
  match fuel with
  | O => (st, ss, None)
  | S fuel' =>
      match gs_chunk ss with
      | None => (st, ss, None)
      | Some chunk =>
          match gstore_fdw_mapped_chunk st chunk with
          | (st1, None) => (st1, ss, None)
          | (st1, Some (seg, kds)) =>
              if gs_index ss >=? k_nitems kds then
                let (next, h') :=
                  gstore_fdw_next_chunk (gstore_head st1) chunk snapshot in
                let ss' := {| gs_chunk := next; gs_index := 0;
                              nattrs := nattrs ss; attnos := attnos ss |} in
                match next with
                | None => (with_head st1 h', ss', None)
                | Some _ => iterate_next fuel' (with_head st1 h') ss' snapshot
                end
              else
                let index := gs_index ss in
                let ss' := {| gs_chunk := gs_chunk ss; gs_index := index + 1;
                              nattrs := nattrs ss; attnos := attnos ss |} in
                (st1, ss',
                 Some (map (scan_attribute seg kds index)
                           (take (Z.to_nat (nattrs ss)) (attnos ss))))
          end
      end
  end.

(** [gstoreIterateForeignScan]: the next row, or [None] at the end. *)
Definition gstoreIterateForeignScan (st : gstore_state) (frel : Relation)
    (ss : gstoreScanState) (snapshot : SnapshotData)
  : gstore_state * gstoreScanState * option (list (option ScanDatum)) :=
  let fuel :=
    S (List.length (concat (active_chunks (gstore_head st)))) in
  match gs_chunk ss with
  | None =>
      let (first, h') :=
        gstore_fdw_first_chunk (gstore_head st) frel snapshot in
      match first with
      | None => (with_head st h', ss, None)
      | Some _ =>
          iterate_next fuel (with_head st h')
            {| gs_chunk := first; gs_index := gs_index ss;
               nattrs := nattrs ss; attnos := attnos ss |} snapshot
      end
  | Some _ => iterate_next fuel st ss snapshot
  end.

(** The executor's scan loop: call the iterator until it returns no row;
    [limit] bounds the number of calls. *)
Fixpoint scan_rows (limit : nat) (st : gstore_state) (frel : Relation)
    (ss : gstoreScanState) (snapshot : SnapshotData)
  : gstore_state * list (list (option ScanDatum)) :=
  match limit with
  | O => (st, [])
  | S limit' =>
      match gstoreIterateForeignScan st frel ss snapshot with
      | (st1, _, None) => (st1, [])
      | (st1, ss1, Some row) =>
          let (st2, rows) := scan_rows limit' st1 frel ss1 snapshot in
          (st2, row :: rows)
      end
  end.

(** *** The transaction callback *)

Definition put_chunk (st : gstore_state) (gs_chunk_ : nat) (c : GpuStoreChunk)
  : gstore_state :=
  with_head st (with_gs_chunks (gstore_head st)
                               (<[gs_chunk_ := c]> (gs_chunks (gstore_head st)))).

(** Lines 1309-1344 of [gstoreOnXactCallbackPerChunk]: what is done with a
    chunk that is not an aborted insertion of the ending transaction. *)
Definition xact_chunk_horizon (st : gstore_state) (gs_chunk_ : nat)
    (c : GpuStoreChunk) (oldestXmin : TransactionId) : gstore_state * bool :=
  let st' := put_chunk st gs_chunk_ c in
  if TransactionIdIsValid (xmax c) then
    if negb (xmax_commited c) then (st', true)
    else if negb (TransactionIdPrecedes (xmax c) oldestXmin) then (st', true)
    else (gstore_fdw_release_chunk st' gs_chunk_, false)
  else if TransactionIdIsNormal (xmin c) then
    if negb (xmin_commited c) then (st', true)
    else if negb (TransactionIdPrecedes (xmin c) oldestXmin) then (st', true)
    else (put_chunk st gs_chunk_ (set_xmin c FrozenTransactionId), false)
  else if negb (TransactionIdIsValid (xmin c)) then
    (gstore_fdw_release_chunk st' gs_chunk_, false)
  else (st', false).

(** [gstoreOnXactCallbackPerChunk]; the flag says the chunk stays warm. *)
Definition gstoreOnXactCallbackPerChunk (is_commit : bool) (st : gstore_state)
    (gs_chunk_ : nat) (oldestXmin : TransactionId) : gstore_state * bool :=
  match gs_chunks (gstore_head st) !! gs_chunk_ with
  | None => (st, false)
  | Some c =>
      let c1 :=
        if TransactionIdIsCurrentTransactionId env (xmax c) then
          if is_commit then set_xmax_commited c true
          else set_xmax c InvalidTransactionId
        else c in
      if TransactionIdIsCurrentTransactionId env (xmin c1) then
        if is_commit
        then xact_chunk_horizon st gs_chunk_ (set_xmin_commited c1 true)
                                oldestXmin
        else (gstore_fdw_release_chunk (put_chunk st gs_chunk_ c1) gs_chunk_,
              false)
      else xact_chunk_horizon st gs_chunk_ c1 oldestXmin
  end.

(** [dlist_foreach_modify] over one bucket: the nodes chained at entry are
    visited in order; the body unlinks at most the node it is visiting. *)
Fixpoint xact_walk_nodes (is_commit : bool) (oldestXmin : TransactionId)
    (nodes : list nat) (st : gstore_state) (meet_warm_chunks : bool)
  : gstore_state * bool :=
  match nodes with
  | [] => (st, meet_warm_chunks)
  | node :: rest =>
      let (st1, warm) :=
        gstoreOnXactCallbackPerChunk is_commit st node oldestXmin in
      xact_walk_nodes is_commit oldestXmin rest st1
                      (if warm then true else meet_warm_chunks)
  end.

(** The outer loop over the hash slots [i .. GSTORE_CHUNK_HASH_NSLOTS-1]. *)
Fixpoint xact_walk_slots (is_commit : bool) (oldestXmin : TransactionId)
    (slots : list nat) (st : gstore_state) (meet_warm_chunks : bool)
  : gstore_state * bool :=
  match slots with
  | [] => (st, meet_warm_chunks)
  | i :: slots' =>
      let (st1, warm) :=
        xact_walk_nodes is_commit oldestXmin (bucket (gstore_head st) i)
                        st meet_warm_chunks in
      xact_walk_slots is_commit oldestXmin slots' st1 warm
  end.

(** [gstoreXactCallback]. *)
Definition gstoreXactCallback (event : XactEvent) (st : gstore_state)
  : gstore_state :=
  let run (is_commit : bool) :=
    if has_warm_chunks (gstore_head st) =? 0 then st
    else
      let oldestXmin := GetOldestXmin env in
      let (st1, meet_warm_chunks) :=
        xact_walk_slots is_commit oldestXmin
                        (seq 0 (Z.to_nat GSTORE_CHUNK_HASH_NSLOTS)) st false in
      if negb meet_warm_chunks
      then with_head st1 (with_has_warm_chunks (gstore_head st1) 0)
      else st1 in
  match event with
  | XACT_EVENT_COMMIT => run true
  | XACT_EVENT_ABORT => run false
  | _ => st
  end.

End GpuStore.

(** *** Start-up *)

(** [pgstrom_init_gstore_fdw]: the definition of the GUC. *)
Definition pgstrom_init_gstore_fdw : config_int :=
  {| bootValue := 2048; minValue := 1024; maxValue := INT_MAX |}.

Definition zero_chunk : GpuStoreChunk :=
  {| hash := 0; database_oid := 0; table_oid := 0; xmax := 0; xmin := 0;
     cid := 0; xmax_commited := false; xmin_commited := false;
     kds_nitems := 0; kds_length := 0; cuda_dindex := 0; ipc_mhandle := 0;
     dsm_handle := 0 |}.

(** [pgstrom_startup_gstore_fdw]: every descriptor zeroed, marked with the
    invalid segment handle and chained on the free list in array order; all
    hash slots empty; no segment mapped. The function never writes the
    warm counter: it keeps the value [shmem_has_warm_chunks] that the word
    has in the shared memory [ShmemInitStruct] hands out. The host has
    created no segment and preserved no device memory yet. *)
Definition pgstrom_startup_gstore_fdw (gstore_max_nchunks : Z)
    (shmem_has_warm_chunks : Z) : gstore_state :=
  let n := Z.to_nat gstore_max_nchunks in
  {| gstore_head :=
       {| has_warm_chunks := shmem_has_warm_chunks;
          free_chunks := seq 0 n;
          active_chunks := replicate (Z.to_nat GSTORE_CHUNK_HASH_NSLOTS) [];
          gs_chunks := replicate n (set_dsm_handle zero_chunk UINT_MAX) |};
     gstore_maps := replicate n {| dsm_seg := None |};
     dsm_segments := [];
     dsm_next_handle := 1;
     gpu_preserved := [];
     gpu_next_handle := 1 |}.

(** ** Vocabulary of the properties *)

(** The shared state a call leaves behind, whether it returned or raised. *)
Definition result_state {A : Type} (r : result A) : gstore_state :=
  match r with OK st _ => st | Err st _ => st end.

(** The descriptor in slot [n] of [gs_chunks]. *)
Definition chunk_at (st : gstore_state) (n : nat) : option GpuStoreChunk :=
  gs_chunks (gstore_head st) !! n.

(** Slot [n] is chained in hash slot [i] of [active_chunks]. *)
Definition in_slot (st : gstore_state) (i n : nat) : Prop :=
  n ∈ bucket (gstore_head st) i.

(** Slot [n] is chained on [free_chunks]. *)
Definition on_free_list (st : gstore_state) (n : nat) : Prop :=
  n ∈ free_chunks (gstore_head st).

Definition NSLOTS : nat := Z.to_nat GSTORE_CHUNK_HASH_NSLOTS.

(** Slot [m], if it is chained in a hash slot at all, does not carry an
    xmin of the current transaction. *)
Definition slot_settled (env : HostEnv) (st : gstore_state) (m : nat) : Prop :=
  forall i c, in_slot st i m -> chunk_at st m = Some c ->
              TransactionIdIsCurrentTransactionId env (xmin c) = false.

(** Slot [m] is already back on the free list, or still chained in hash
    slot [i] with an xmin of the current transaction. *)
Definition slot_reclaimable (env : HostEnv) (st : gstore_state) (i m : nat)
  : Prop :=
  on_free_list st m
  \/ (in_slot st i m
      /\ exists c, chunk_at st m = Some c
                /\ TransactionIdIsCurrentTransactionId env (xmin c) = true).

Definition is_OK {A : Type} (r : result A) : bool :=
  match r with OK _ _ => true | Err _ _ => false end.

(** The error a call ended with, if any. *)
Definition error_of {A : Type} (r : result A) : option error :=
  match r with OK _ _ => None | Err _ e => Some e end.

(** The rows of a scan with the pointers followed: a by-value word as it
    is, a pointer as the [n] bytes found there. *)
Definition scan_datum_is (st : gstore_state) (inserted : option Datum)
    (scanned : option ScanDatum) : bool :=
  match inserted, scanned with
  | None, None => true
  | Some (DatumVal v), Some (ScanVal v') => v =? v'
  | Some (DatumPtr bs), Some (ScanPtr seg off) =>
      match dsm_find seg (dsm_segments st) with
      | Some kds => bytes_eqb (fetch_bytes (k_data kds) off (List.length bs)) bs
      | None => false
      end
  | _, _ => false
  end.

Fixpoint scan_row_is (st : gstore_state) (inserted : TupleTableSlot)
    (scanned : list (option ScanDatum)) : bool :=
  match inserted, scanned with
  | [], [] => true
  | d :: inserted', s :: scanned' =>
      scan_datum_is st d s && scan_row_is st inserted' scanned'
  | _, _ => false
  end.

Fixpoint scan_rows_are (st : gstore_state) (inserted : list TupleTableSlot)
    (scanned : list (list (option ScanDatum))) : bool :=
  match inserted, scanned with
  | [], [] => true
  | r :: inserted', s :: scanned' =>
      scan_row_is st r s && scan_rows_are st inserted' scanned'
  | _, _ => false
  end.

(** ** Hosts, tables and rows of the worked examples *)

(** Columns named after their types. *)
Definition int4_attribute : FormData_pg_attribute :=
  {| attname := "int4"; attnum := 1;
     attlen := 4; attalign := "i"; attbyval := true; attnotnull := false |}.

Definition char_attribute : FormData_pg_attribute :=
  {| attname := "char"; attnum := 1;
     attlen := 1; attalign := "c"; attbyval := true; attnotnull := false |}.

Definition int2_attribute : FormData_pg_attribute :=
  {| attname := "int2"; attnum := 1;
     attlen := 2; attalign := "s"; attbyval := true; attnotnull := false |}.

Definition int8_attribute : FormData_pg_attribute :=
  {| attname := "int8"; attnum := 1;
     attlen := 8; attalign := "d"; attbyval := true; attnotnull := false |}.

Definition text_attribute : FormData_pg_attribute :=
  {| attname := "text"; attnum := 1;
     attlen := -1; attalign := "i"; attbyval := false; attnotnull := false |}.

(** The catalog numbers the columns of a table from 1. *)
Fixpoint numbered (attrs : TupleDesc) (n : Z) : TupleDesc :=
  match attrs with
  | [] => []
  | attr :: rest =>
      {| attname := attname attr; attnum := n; attlen := attlen attr;
         attalign := attalign attr; attbyval := attbyval attr;
         attnotnull := attnotnull attr |} :: numbered rest (n + 1)
  end.

(** A primary table, not pinned to a device, with these columns. *)
Definition example_table (oid : Oid) (tupdesc : TupleDesc) : Relation :=
  {| rd_id := oid; rd_att := numbered tupdesc 1; referenced := None;
     pinning := -1 |}.

(** A backend of database 5 running transaction [xid] at command [cid_],
    on a host where [committed_xids] have committed, with an image header
    of 64 bytes followed by 24 bytes per column. A scan of a dictionary
    meets the entries in the order they were entered; the only table that
    can be opened by name is t7, the one-column table 7; no compressed or
    external value is handed over, and such a value would be taken as it
    is. *)
Definition example_backend (xid : TransactionId) (cid_ : CommandId)
    (committed_xids : list TransactionId) : HostEnv :=
  {| MyDatabaseId := 5;
     GetCurrentTransactionId := xid;
     GetCurrentCommandId := cid_;
     TransactionIdIsCurrentTransactionId :=
       fun x => TransactionIdIsNormal x && (x =? xid);
     TransactionIdDidCommit :=
       fun x => existsb (Z.eqb x) committed_xids;
     GetOldestXmin := xid;
     legacy_crc32_oids := fun d t => (d * 31 + t) mod 2 ^ 32;
     legacy_crc32_bytes :=
       fun bytes => fold_left (fun crc b => (crc * 31 + b) mod 2 ^ 32) bytes 0;
     offsetof_kds_colmeta := fun natts => 64 + 24 * natts;
     cuda_success := fun _ => true;
     heap_tuple_untoast_attr := fun vl => vl;
     hash_seq_search := fun hashvalues => seq 0 (List.length hashvalues);
     heap_openrv :=
       fun name => if String.eqb name "t7"
                   then Some (example_table 7 [int4_attribute]) else None |}.

(** A snapshot taken by transaction [xid]: every xid from [xid] on is still
    in progress for it. *)
Definition example_snapshot (xid : TransactionId) (curcid_ : CommandId)
  : SnapshotData :=
  {| curcid := curcid_; XidInMVCCSnapshot := fun x => xid <=? x |}.

(** The text values 'x' and 'y' with their 4-byte length word. *)
Definition text_x : Datum := DatumPtr [20; 0; 0; 0; 120].
Definition text_y : Datum := DatumPtr [20; 0; 0; 0; 121].

(** The scan of [relation] from its begin to its end; no row when the
    begin raises. *)
Definition scan_relation (env : HostEnv) (limit : nat) (st : gstore_state)
    (relation : Relation) (snapshot : SnapshotData)
  : gstore_state * list (list (option ScanDatum)) :=
  match gstoreBeginForeignScan env relation with
  | inr gss_state => scan_rows env limit st relation gss_state snapshot
  | inl _ => (st, [])
  end.

(** Load [rows] into [relation] in transaction 100, in a directory of four
    descriptors whose warm counter starts at zero, commit, and scan with
    the fresh snapshot of transaction 101. *)
Definition load_commit_scan (relation : Relation)
    (rows : list TupleTableSlot)
  : result unit * gstore_state * list (list (option ScanDatum)) :=
  let writer := example_backend 100 0 [] in
  let reader := example_backend 101 0 [100] in
  let loaded :=
    insert_session writer (pgstrom_startup_gstore_fdw 4 0) relation
                   (example_snapshot 100 0) rows in
  let committed :=
    gstoreXactCallback writer XACT_EVENT_COMMIT (result_state loaded) in
  let '(st, scanned) :=
    scan_relation reader (S (List.length rows)) committed relation
                  (example_snapshot 101 0) in
  (loaded, st, scanned).

(** Load [rows] into [relation] in transaction 100 and run the abort
    callback on a host that still counts 100 as the current xid. *)
Definition load_abort (relation : Relation) (rows : list TupleTableSlot)
  : result unit * gstore_state :=
  let writer := example_backend 100 0 [] in
  let loaded :=
    insert_session writer (pgstrom_startup_gstore_fdw 2 0) relation
                   (example_snapshot 100 0) rows in
  (loaded, gstoreXactCallback writer XACT_EVENT_ABORT (result_state loaded)).

(** No chained descriptor belongs to table [oid]. *)
Definition table_absent (st : gstore_state) (oid : Oid) : Prop :=
  forall i n c, in_slot st i n -> chunk_at st n = Some c -> table_oid c <> oid.

(** Every chained descriptor belongs to one of the tables [oids]. *)
Definition tables_within (st : gstore_state) (oids : list Oid) : Prop :=
  forall i n c, in_slot st i n -> chunk_at st n = Some c -> table_oid c ∈ oids.

(** Bulk load of one row into a table. *)
Definition one_row_load (env : HostEnv) (snapshot : SnapshotData)
    (st : gstore_state) (load : Relation * TupleTableSlot) : result unit :=
  insert_session env st (fst load) snapshot [snd load].

(** One such load per table, in order, stopping at the first error. *)
Fixpoint bulk_loads (env : HostEnv) (snapshot : SnapshotData)
    (st : gstore_state) (loads : list (Relation * TupleTableSlot))
  : result unit :=
  match loads with
  | [] => OK st tt
  | load :: rest =>
      bind (one_row_load env snapshot st load)
           (fun st1 _ => bulk_loads env snapshot st1 rest)
  end.

(** The load goes through when it is the only one: run against a freshly
    started directory of a single descriptor, it returns without error. *)
Definition loads_alone (env : HostEnv) (snapshot : SnapshotData)
    (load : Relation * TupleTableSlot) : Prop :=
  is_OK (one_row_load env snapshot (pgstrom_startup_gstore_fdw 1 0) load)
  = true.

(** The builder state of a one-column int4 table holding [n] rows whose
    values occupy the buffer [m], no null seen so far. *)
Definition int4_load_state (env : HostEnv) (n : Z) (m : memory)
  : gstoreLoadState :=
  {| gcontext := None;
     ls_length := GPUSTORE_CHUNK_SIZE - offsetof_kds_colmeta env 1;
     nrooms := (GPUSTORE_CHUNK_SIZE - offsetof_kds_colmeta env 1
                - MAXIMUM_ALIGNOF * 1) / 4;
     nitems := n;
     a := [{| vl_dict := None; extra_sz := 0; nullmap := None;
              values := ByteValues m; align := 4 |}] |}.

(** The builder state of a table (int4, text) holding [n] rows: the int4
    values in the buffer [m]; the dictionary [entries] of the text column,
    its accounted payload size [extra], and the entry pointers [p] of the
    rows. No null seen so far. *)
Definition int4_text_load_state (env : HostEnv) (n : Z) (m : memory)
    (entries : list vl_dict_key) (extra : Z) (p : Z -> option nat)
  : gstoreLoadState :=
  {| gcontext := None;
     ls_length := GPUSTORE_CHUNK_SIZE - offsetof_kds_colmeta env 2;
     nrooms := (GPUSTORE_CHUNK_SIZE - offsetof_kds_colmeta env 2
                - MAXIMUM_ALIGNOF * 2) / 8;
     nitems := n;
     a := [{| vl_dict := None; extra_sz := 0; nullmap := None;
              values := ByteValues m; align := 4 |};
           {| vl_dict := Some entries; extra_sz := extra; nullmap := None;
              values := EntryPointers p; align := 0 |}] |}.

(** Shape of the rows of a one-column table without nulls. *)
Definition int4_row (row : TupleTableSlot) : Prop :=
  exists v, row = [Some (DatumVal v)].

(** Payload size of the two large text values of the budget example:
    512 MiB + 1 MiB each, header included. *)
Definition large_text_size : Z := 2 ^ 29 + 2 ^ 20.

Definition large_text (byte : Z) : list Z :=
  varlena_4b (repeat byte (Z.to_nat (large_text_size - 4))).

(** ** Planner estimate, rescan and direct DELETE *)

Definition set_cid (c : GpuStoreChunk) (v : CommandId) : GpuStoreChunk :=
  {| hash := hash c; database_oid := database_oid c; table_oid := table_oid c;
     xmax := xmax c; xmin := xmin c; cid := v;
     xmax_commited := xmax_commited c; xmin_commited := xmin_commited c;
     kds_nitems := kds_nitems c; kds_length := kds_length c;
     cuda_dindex := cuda_dindex c; ipc_mhandle := ipc_mhandle c;
     dsm_handle := dsm_handle c |}.

(** [pg_config.h] of the host: the default block size. *)
Definition BLCKSZ : Z := 8192.

Section ChunkLoops.
Variable env : HostEnv.

(** The loop
    [for (gs_chunk = gstore_fdw_first_chunk(frel, snapshot);
          gs_chunk != NULL;
          gs_chunk = gstore_fdw_next_chunk(gs_chunk, snapshot)) body]
    of [gstoreGetForeignRelSize] and [gstoreIterateDirectModify], entered
    with the result of [gstore_fdw_first_chunk]. [body] works on the
    descriptor the loop variable points at and on the local variables of
    the caller. Every turn moves to a later node of the hash slot; [None]
    says that [fuel] turns were not enough. A loop variable that points
    outside [gs_chunks] does not occur; the loop stops there. *)
Fixpoint foreach_chunk {A : Type} (fuel : nat)
    (body : GpuStoreChunk -> A -> GpuStoreChunk * A)
    (h : GpuStoreHead) (gs_chunk_ : option nat) (snapshot : SnapshotData)
    (acc : A) : option (GpuStoreHead * A) :=
  match gs_chunk_ with
  | None => Some (h, acc)
  | Some n =>
      match fuel with
      | O => None
      | S fuel' =>
          match gs_chunks h !! n with
          | None => Some (h, acc)
          | Some c =>
              let (c', acc') := body c acc in
              let h1 := with_gs_chunks h (<[n := c']> (gs_chunks h)) in
              let (next, h2) := gstore_fdw_next_chunk env h1 n snapshot in
              foreach_chunk fuel' body h2 next snapshot acc'
          end
      end
  end.

(** The hash slot the chunks of [frel] are chained in. *)
Definition table_slot (frel : Relation) : nat :=
  hash_index (legacy_crc32_oids env (MyDatabaseId env) (rd_id frel)).

(** Lines 311-312: the loop body of [gstoreGetForeignRelSize], on the
    local variables [nitems] and [length]. *)
Definition relsize_body (c : GpuStoreChunk) (acc : Z * Z)
  : GpuStoreChunk * (Z * Z) :=
  (c, (fst acc + kds_nitems c, snd acc + TYPEALIGN BLCKSZ (kds_length c))).

(** [gstoreGetForeignRelSize]: [frel] is the relation the function opens
    (the table itself, or the table its "reference" option names) and
    [snapshot] the transaction snapshot it registers. The result is
    [baserel->rows] and [baserel->pages]; the sums are [size_t], the page
    count is stored in a [BlockNumber]. *)
Definition gstoreGetForeignRelSize (st : gstore_state) (frel : Relation)
    (snapshot : SnapshotData) : option (gstore_state * Z * Z) :=
  let h := gstore_head st in
  let fuel := S (List.length (bucket h (table_slot frel))) in
  let (first, h1) := gstore_fdw_first_chunk env h frel snapshot in
  match foreach_chunk fuel relsize_body h1 first snapshot (0, 0) with
  | None => None
  | Some (h2, (nitems_, length)) =>
      Some (with_head st h2, nitems_, to_uint32 (length / BLCKSZ))
  end.

(** [gstoreReScanForeignScan]. *)
Definition gstoreReScanForeignScan (gss_state : gstoreScanState)
  : gstoreScanState :=
  {| gs_chunk := None; gs_index := 0;
     nattrs := nattrs gss_state; attnos := attnos gss_state |}.

(** Lines 1263-1269: the loop body of [gstoreIterateDirectModify], on the
    executor's row counter. The [Assert] is compiled out. *)
Definition direct_modify_body (c : GpuStoreChunk) (es_processed : Z)
  : GpuStoreChunk * Z :=
  (set_cid (set_xmax c (GetCurrentTransactionId env))
           (GetCurrentCommandId env),
   es_processed + kds_nitems c).

(** [gstoreIterateDirectModify] under the executor's snapshot:
    [es_processed] is the executor's row counter, returned as the loop
    leaves it. *)
Definition gstoreIterateDirectModify (st : gstore_state) (frel : Relation)
    (snapshot : SnapshotData) (es_processed : Z)
  : option (gstore_state * Z) :=
  let h := gstore_head st in
  let fuel := S (List.length (bucket h (table_slot frel))) in
  let (first, h1) := gstore_fdw_first_chunk env h frel snapshot in
  match foreach_chunk fuel direct_modify_body h1 first snapshot es_processed
  with
  | None => None
  | Some (h2, processed) =>
      Some (with_head st
              (with_has_warm_chunks h2 (to_uint32 (has_warm_chunks h2 + 1))),
            processed)
  end.

End ChunkLoops.

(** ** Vocabulary of the further properties *)

(** The descriptor belongs to the table with this hash and these oids: the
    test of [gstore_fdw_first_chunk] and [gstore_fdw_next_chunk]. *)
Definition chunk_of_table (c : GpuStoreChunk) (hash_ : Z)
    (database_oid_ table_oid_ : Oid) : bool :=
  (hash c =? hash_) && (database_oid c =? database_oid_)
  && (table_oid c =? table_oid_).

(** The descriptor belongs to [frel] as the backend [env] sees it. *)
Definition chunk_of_relation (env : HostEnv) (frel : Relation)
    (c : GpuStoreChunk) : bool :=
  chunk_of_table c (legacy_crc32_oids env (MyDatabaseId env) (rd_id frel))
                 (MyDatabaseId env) (rd_id frel).

(** The verdict of the visibility test. *)
Definition visible_to (env : HostEnv) (snapshot : SnapshotData)
    (c : GpuStoreChunk) : bool :=
  fst (gstore_fdw_satisfies_visibility env c snapshot).

(** The descriptor as the visibility test leaves it. *)
Definition hinted (env : HostEnv) (snapshot : SnapshotData)
    (c : GpuStoreChunk) : GpuStoreChunk :=
  snd (gstore_fdw_satisfies_visibility env c snapshot).

(** The chunk loop unrolled over the nodes of a hash slot: every
    descriptor of the table is tested once, in list order, and [body] runs
    on the visible ones. *)
Fixpoint foreach_visible {A : Type} (env : HostEnv)
    (body : GpuStoreChunk -> A -> GpuStoreChunk * A)
    (chunks : list GpuStoreChunk) (nodes : list nat)
    (hash_ : Z) (database_oid_ table_oid_ : Oid) (snapshot : SnapshotData)
    (acc : A) : list GpuStoreChunk * A :=
  match nodes with
  | [] => (chunks, acc)
  | n :: rest =>
      match chunks !! n with
      | None =>
          foreach_visible env body chunks rest hash_ database_oid_ table_oid_
                          snapshot acc
      | Some c =>
          if chunk_of_table c hash_ database_oid_ table_oid_ then
            if visible_to env snapshot c then
              let (c', acc') := body (hinted env snapshot c) acc in
              foreach_visible env body (<[n := c']> chunks) rest
                              hash_ database_oid_ table_oid_ snapshot acc'
            else
              foreach_visible env body (<[n := hinted env snapshot c]> chunks)
                              rest hash_ database_oid_ table_oid_ snapshot acc
          else
            foreach_visible env body chunks rest hash_ database_oid_
                            table_oid_ snapshot acc
      end
  end.

(** The descriptors of [frel] chained in [nodes] that [snapshot] sees. *)
Definition visible_chunks (env : HostEnv) (frel : Relation)
    (snapshot : SnapshotData) (chunks : list GpuStoreChunk)
    (nodes : list nat) : list GpuStoreChunk :=
  omap (fun n =>
          match chunks !! n with
          | Some c =>
              if chunk_of_relation env frel c && visible_to env snapshot c
              then Some c else None
          | None => None
          end) nodes.

Definition sum_nitems (cs : list GpuStoreChunk) : Z :=
  fold_right (fun c s => kds_nitems c + s) 0 cs.

Definition sum_blocks (cs : list GpuStoreChunk) : Z :=
  fold_right (fun c s => TYPEALIGN BLCKSZ (kds_length c) + s) 0 cs.

(** The descriptor a direct DELETE leaves for a chunk it deletes. *)
Definition deleted_by (env : HostEnv) (c : GpuStoreChunk) : GpuStoreChunk :=
  set_cid (set_xmax c (GetCurrentTransactionId env)) (GetCurrentCommandId env).

(** Shape of the directory: [GSTORE_CHUNK_HASH_NSLOTS] hash slots; every
    descriptor is chained exactly once, on the free list or in one hash
    slot; a chained descriptor sits in the slot of its hash; a free
    descriptor carries the invalid segment handle; the mapping table has one
    entry per descriptor. *)
Definition directory_wf (st : gstore_state) : Prop :=
  let h := gstore_head st in
  List.length (active_chunks h) = NSLOTS
  /\ NoDup (free_chunks h ++ concat (active_chunks h))
  /\ (forall n, n ∈ free_chunks h ++ concat (active_chunks h)
                <-> (n < List.length (gs_chunks h))%nat)
  /\ (forall i n c, in_slot st i n -> chunk_at st n = Some c ->
                    hash_index (hash c) = i)
  /\ (forall n c, on_free_list st n -> chunk_at st n = Some c ->
                  dsm_handle c = UINT_MAX)
  /\ List.length (gstore_maps st) = List.length (gs_chunks h).

(** Slot [m], if it is chained in a hash slot at all, needs no further
    work of the transaction callback: nobody has deleted it and its xmin is
    a permanent xid. *)
Definition slot_final (st : gstore_state) (m : nat) : Prop :=
  forall i c, in_slot st i m -> chunk_at st m = Some c ->
              xmax c = InvalidTransactionId
              /\ TransactionIdIsNormal (xmin c) = false
              /\ xmin c <> InvalidTransactionId.

(** Slot [m], if it is chained in a hash slot at all, carries the commit
    hint for each of its xids that belongs to the current transaction. *)
Definition slot_hinted (env : HostEnv) (st : gstore_state) (m : nat) : Prop :=
  forall i c, in_slot st i m -> chunk_at st m = Some c ->
              (TransactionIdIsCurrentTransactionId env (xmin c) = true ->
               xmin_commited c = true)
              /\ (TransactionIdIsCurrentTransactionId env (xmax c) = true ->
                  xmax_commited c = true).

(** Two descriptors that differ at most in xmin, xmax, cid and the hint
    bits. *)
Definition same_identity (c c' : GpuStoreChunk) : Prop :=
  hash c' = hash c /\ database_oid c' = database_oid c
  /\ table_oid c' = table_oid c
  /\ kds_nitems c' = kds_nitems c /\ kds_length c' = kds_length c
  /\ cuda_dindex c' = cuda_dindex c /\ ipc_mhandle c' = ipc_mhandle c
  /\ dsm_handle c' = dsm_handle c.

(** The descriptor [gstore_fdw_writeout_chunk] fills in for the image it
    has built from [gs_lstate], given the IPC handle of the device copy. *)
Definition published_chunk (env : HostEnv) (st : gstore_state)
    (relation : Relation) (gs_lstate : gstoreLoadState) (ipc_mhandle_ : Z)
  : GpuStoreChunk :=
  let kds := fst (writeout_image env (rd_att relation) gs_lstate) in
  {| hash := legacy_crc32_oids env (MyDatabaseId env) (rd_id relation);
     database_oid := MyDatabaseId env;
     table_oid := rd_id relation;
     xmax := InvalidTransactionId;
     xmin := GetCurrentTransactionId env;
     cid := GetCurrentCommandId env;
     xmax_commited := false;
     xmin_commited := false;
     kds_nitems := k_nitems kds;
     kds_length := k_length kds;
     cuda_dindex := match gcontext gs_lstate with Some d => d | None => -1 end;
     ipc_mhandle := ipc_mhandle_;
     dsm_handle := dsm_next_handle st |}.

(** What a direct DELETE on [frel] under [snapshot] makes of the
    descriptor in slot [m], given the nodes chained in the table's hash
    slot. *)
Definition direct_delete_chunk (env : HostEnv) (frel : Relation)
    (snapshot : SnapshotData) (nodes : list nat) (m : nat)
    (c : GpuStoreChunk) : GpuStoreChunk :=
  if bool_decide (m ∈ nodes) && chunk_of_relation env frel c then
    if visible_to env snapshot c
    then deleted_by env (hinted env snapshot c)
    else hinted env snapshot c
  else c.

(** *** The transaction callback as a verdict on one descriptor *)

(** What lines 1309-1344 of [gstoreOnXactCallbackPerChunk] decide for a
    descriptor: the descriptor to store back, whether the chunk is
    released, and whether it stays warm. *)
Definition horizon_verdict (oldestXmin : TransactionId) (c : GpuStoreChunk)
  : GpuStoreChunk * bool * bool :=
  if TransactionIdIsValid (xmax c) then
    if negb (xmax_commited c) then (c, false, true)
    else if negb (TransactionIdPrecedes (xmax c) oldestXmin)
    then (c, false, true)
    else (c, true, false)
  else if TransactionIdIsNormal (xmin c) then
    if negb (xmin_commited c) then (c, false, true)
    else if negb (TransactionIdPrecedes (xmin c) oldestXmin)
    then (c, false, true)
    else (set_xmin c FrozenTransactionId, false, false)
  else if negb (TransactionIdIsValid (xmin c)) then (c, true, false)
  else (c, false, false).

(** The same for the whole of [gstoreOnXactCallbackPerChunk]. *)
Definition xact_verdict (env : HostEnv) (is_commit : bool)
    (oldestXmin : TransactionId) (c : GpuStoreChunk)
  : GpuStoreChunk * bool * bool :=
  let c1 :=
    if TransactionIdIsCurrentTransactionId env (xmax c) then
      if is_commit then set_xmax_commited c true
      else set_xmax c InvalidTransactionId
    else c in
  if TransactionIdIsCurrentTransactionId env (xmin c1) then
    if is_commit
    then horizon_verdict oldestXmin (set_xmin_commited c1 true)
    else (c1, true, false)
  else horizon_verdict oldestXmin c1.

(** What the callback makes of a chained chunk with descriptor [c]: the
    chunk is unchained from every hash slot, or it stays in its slot with
    the descriptor of the verdict. *)
Definition treated (env : HostEnv) (is_commit : bool)
    (oldestXmin : TransactionId) (st' : gstore_state) (i m : nat)
    (c : GpuStoreChunk) : Prop :=
  if snd (fst (xact_verdict env is_commit oldestXmin c))
  then forall j, ~ in_slot st' j m
  else in_slot st' i m
       /\ chunk_at st' m
          = Some (fst (fst (xact_verdict env is_commit oldestXmin c))).

(** The state a visit of the callback leaves, given its verdict. *)
Definition apply_verdict (st : gstore_state) (n : nat)
    (v : GpuStoreChunk * bool * bool) : gstore_state * bool :=
  let '(c', released, warm) := v in
  (if released then gstore_fdw_release_chunk (put_chunk st n c') n
   else put_chunk st n c', warm).

(** ** Table options, the validator and the loader's entry point *)

(** [atoi] of the C library is [(int) strtol(nptr, NULL, 10)]: leading
    white space, an optional sign, then decimal digits up to the first
    other character. [strtol] answers [LONG_MAX] or [LONG_MIN] for a number
    that does not fit a [long]; the conversion to [int] keeps the low 32
    bits. *)
Definition isdigit (c : ascii) : bool :=
  (48 <=? Z.of_nat (nat_of_ascii c)) && (Z.of_nat (nat_of_ascii c) <=? 57).

Definition isspace (c : ascii) : bool :=
  (Z.of_nat (nat_of_ascii c) =? 32)
  || ((9 <=? Z.of_nat (nat_of_ascii c)) && (Z.of_nat (nat_of_ascii c) <=? 13)).

Fixpoint atoi_digits (s : string) (acc : Z) : Z :=
  match s with
  | String c rest =>
      if isdigit c
      then atoi_digits rest (10 * acc + (Z.of_nat (nat_of_ascii c) - 48))
      else acc
  | EmptyString => acc
  end.

(** The number the text denotes, before it is made to fit. *)
Fixpoint strtol_number (s : string) : Z :=
  match s with
  | String c rest =>
      if isspace c then strtol_number rest
      else if Ascii.eqb c "-" then - atoi_digits rest 0
      else if Ascii.eqb c "+" then atoi_digits rest 0
      else atoi_digits s 0
  | EmptyString => 0
  end.

Definition LONG_MAX : Z := 2 ^ 63 - 1.
Definition LONG_MIN : Z := - 2 ^ 63.

Definition strtol (s : string) : Z :=
  Z.max LONG_MIN (Z.min LONG_MAX (strtol_number s)).

(** Conversion to [int]: the value modulo 2^32 in the signed range. *)
Definition to_int32 (x : Z) : Z := (x + 2 ^ 31) mod 2 ^ 32 - 2 ^ 31.

Definition atoi (s : string) : Z := to_int32 (strtol s).

(** [DefElem] of an option list: the name and [defGetString]. *)
Record DefElem := {
  defname : string;
  defGetString : string
}.

(** [nodes/nodes.h]: the command types, in the order of the enumeration. *)
Inductive CmdType :=
| CMD_UNKNOWN | CMD_SELECT | CMD_UPDATE | CMD_INSERT | CMD_DELETE
| CMD_UTILITY | CMD_NOTHING.

Definition CmdType_code (c : CmdType) : Z :=
  match c with
  | CMD_UNKNOWN => 0 | CMD_SELECT => 1 | CMD_UPDATE => 2 | CMD_INSERT => 3
  | CMD_DELETE => 4 | CMD_UTILITY => 5 | CMD_NOTHING => 6
  end.

(** [catalog/pg_foreign_table.h], [catalog/pg_class.h],
    [catalog/pg_language.h]. *)
Definition ForeignTableRelationId : Oid := 3118.
Definition RELKIND_FOREIGN_TABLE : ascii := "f".
Definition ClanguageId : Oid := 13.

(** What the code reads from the system catalogs and the dynamic loader.
    A lookup that finds no tuple is [None]; a host function that raises
    instead of returning is [None] as well. *)
Record Catalog := {
  get_rel_relkind : Oid -> ascii;
  (* FOREIGNTABLEREL: ftserver and ftoptions (None when null) *)
  pg_foreign_table : Oid -> option (Oid * option (list DefElem));
  (* FOREIGNSERVEROID: srvfdw *)
  pg_foreign_server : Oid -> option Oid;
  (* FOREIGNDATAWRAPPEROID: fdwhandler *)
  pg_foreign_data_wrapper : Oid -> option Oid;
  (* PROCOID: prolang, prosrc, probin *)
  pg_proc : Oid -> option (Oid * option string * option string);
  (* load_external_function(probin, prosrc, true, NULL) *)
  load_external_function : string -> string -> option Z;
  (* the address of pgstrom_gstore_fdw_handler *)
  pgstrom_gstore_fdw_handler : Z;
  (* RangeVarGetRelid / heap_openrv on a qualified name: the relation *)
  RangeVarGetRelid : string -> option Oid;
  (* the number of GPU devices *)
  numDevAttrs : Z
}.

Section Options.
Variable cat : Catalog.

(** Lines 1498-1515: the loop over the options of the table. *)
Fixpoint read_options_loop (options : list DefElem)
    (referenced_ : option string) (pinning_ : Z)
  : fdw_error + (option string * Z) :=
  match options with
  | [] => inr (referenced_, pinning_)
  | defel :: rest =>
      if String.eqb (defname defel) "reference" then
        read_options_loop rest (Some (defGetString defel)) pinning_
      else if String.eqb (defname defel) "pinning" then
        let pinning' := atoi (defGetString defel) in
        if (pinning' <? 0) || (pinning' >=? numDevAttrs cat)
        then inl PinningUnknownDevice
        else read_options_loop rest referenced_ pinning'
      else inl UnknownOption
  end.

(** [gstore_fdw_read_options]: the foreign server, [*p_referenced] and
    [*p_pinning]. *)
Definition gstore_fdw_read_options (table_oid_ : Oid)
  : fdw_error + (Oid * option string * Z) :=
  match pg_foreign_table cat table_oid_ with
  | None => inl CacheLookupFailed
  | Some (fserv_oid, ftoptions) =>
      match (match ftoptions with
             | Some options => read_options_loop options None (-1)
             | None => inr (None, -1)
             end) with
      | inl e => inl e
      | inr (referenced_, pinning_) =>
          match referenced_ with
          | Some _ =>
              if pinning_ >=? 0 then inl ReferenceAndPinning
              else inr (fserv_oid, referenced_, pinning_)
          | None => inr (fserv_oid, referenced_, pinning_)
          end
      end
  end.

(** [relation_is_gstore_fdw]. *)
Definition relation_is_gstore_fdw (table_oid_ : Oid)
    (allows_reference_gstore : bool) : fdw_error + bool :=
  if negb (Ascii.eqb (get_rel_relkind cat table_oid_) RELKIND_FOREIGN_TABLE)
  then inr false
  else
    match gstore_fdw_read_options table_oid_ with
    | inl e => inl e
    | inr (fserv_oid, referenced_, _) =>
        if negb allows_reference_gstore
           && match referenced_ with Some _ => true | None => false end
        then inr false
        else
          match pg_foreign_server cat fserv_oid with
          | None => inl NoForeignServer
          | Some fdw_oid =>
              match pg_foreign_data_wrapper cat fdw_oid with
              | None => inl NoForeignDataWrapper
              | Some handler_oid =>
                  match pg_proc cat handler_oid with
                  | None => inl NoHandlerFunction
                  | Some (prolang, prosrc, probin) =>
                      if negb (prolang =? ClanguageId) then inl HandlerNotC
                      else
                        match prosrc, probin with
                        | None, _ => inl NullProsrc
                        | Some _, None => inl NullProbin
                        | Some src, Some bin =>
                            match load_external_function cat bin src with
                            | None => inl HostRaised
                            | Some handler_fn =>
                                inr (handler_fn
                                     =? pgstrom_gstore_fdw_handler cat)
                            end
                        end
                  end
              end
          end
    end.

(** Lines 1541-1585: the loop of [pgstrom_gstore_fdw_validator]. *)
Fixpoint validator_loop (options : list DefElem) (catalog : Oid)
    (referenced_ : option string) (pinning_ : Z)
  : fdw_error + (option string * Z) :=
  match options with
  | [] => inr (referenced_, pinning_)
  | defel :: rest =>
      if String.eqb (defname defel) "reference"
         && (catalog =? ForeignTableRelationId) then
        match referenced_ with
        | Some _ => inl (OptionTwice "reference")
        | None =>
            let relname := defGetString defel in
            match RangeVarGetRelid cat relname with
            | None => inl HostRaised
            | Some reloid =>
                match relation_is_gstore_fdw reloid false with
                | inl e => inl e
                | inr false => inl NotPrimaryGstore
                | inr true =>
                    validator_loop rest catalog (Some relname) pinning_
                end
            end
        end
      else if String.eqb (defname defel) "pinning"
              && (catalog =? ForeignTableRelationId) then
        if pinning_ >=? 0 then inl (OptionTwice "pinning")
        else
          let pinning' := atoi (defGetString defel) in
          if (pinning' <? 0) || (pinning' >=? numDevAttrs cat)
          then inl PinningUnknownDevice
          else validator_loop rest catalog referenced_ pinning'
      else inl UnknownOption
  end.

(** [pgstrom_gstore_fdw_validator]. *)
Definition pgstrom_gstore_fdw_validator (options : list DefElem)
    (catalog : Oid) : fdw_error + unit :=
  match validator_loop options catalog None (-1) with
  | inl e => inl e
  | inr (referenced_, pinning_) =>
      match referenced_ with
      | Some _ => if pinning_ >=? 0 then inl ReferenceAndPinning else inr tt
      | None => inr tt
      end
  end.

(** [pgstrom_load_gstore_fdw] up to the calls of the two loaders.
    [load_normal] stands for [load_normal_gstore_fdw] and yields the device
    pointer; [load_pinned_gstore_fdw] always raises. [pseudo_tupdesc]
    stands for the loop over [get_attnum] that builds the tuple descriptor
    of a reference table. *)
Definition pgstrom_load_gstore_fdw
    (load_normal : Oid -> fdw_error + Z)
    (pseudo_tupdesc : Oid -> Oid -> option fdw_error)
    (gstore_oid : Oid) : fdw_error + Z :=
  match relation_is_gstore_fdw gstore_oid true with
  | inl e => inl e
  | inr false => inl NotGstoreFdw
  | inr true =>
      match gstore_fdw_read_options gstore_oid with
      | inl e => inl e
      | inr (_, None, pinning_) =>
          if negb (pinning_ =? 0) then inl NotSupportedYet
          else load_normal gstore_oid
      | inr (_, Some referenced_, pinning_) =>
          if pinning_ >=? 0 then inl InconsistentOptions
          else
            match RangeVarGetRelid cat referenced_ with
            | None => inl HostRaised
            | Some grel =>
                match relation_is_gstore_fdw gstore_oid false with
                | inl e => inl e
                | inr false => inl NotPrimaryGstore
                | inr true =>
                    match gstore_fdw_read_options gstore_oid with
                    | inl e => inl e
                    | inr (_, _, pinning') =>
                        match pseudo_tupdesc gstore_oid grel with
                        | Some e => inl e
                        | None =>
                            if negb (pinning' =? 0) then inl NotSupportedYet
                            else load_normal grel
                        end
                    end
                end
            end
      end
  end.

End Options.

(** ** The planner's entry points for INSERT and DELETE *)

(** [gstoreIsForeignRelUpdatable]; [referenced rel] is what
    [gstore_fdw_read_options] finds for the relation. *)
Definition gstoreIsForeignRelUpdatable (rel : Relation) : Z :=
  match referenced rel with
  | Some _ => 0
  | None => Z.lor (Z.shiftl 1 (CmdType_code CMD_INSERT))
                  (Z.shiftl 1 (CmdType_code CMD_DELETE))
  end.

(** [gstorePlanDirectModify]: [Some op] is "true, and the subplan's
    operation is set to [op]"; [None] is "false". The lists are the
    subplan's [qual] and the plan's [returningLists], by their number of
    elements. *)
Definition gstorePlanDirectModify (operation : CmdType) (subplan_qual : nat)
    (returningLists : nat) (subplan_is_ForeignScan : bool)
  : option CmdType :=
  match operation with
  | CMD_DELETE =>
      match subplan_qual with
      | S _ => None
      | O =>
          match returningLists with
          | S _ => None
          | O => if negb subplan_is_ForeignScan then None else Some CMD_DELETE
          end
      end
  | _ => None
  end.

(** [gstorePlanForeignModify]: [NIL], or the error. *)
Definition gstorePlanForeignModify (operation : CmdType)
  : fdw_error + list Z :=
  match operation with
  | CMD_INSERT => inr []
  | _ => inl NotSupportedOperation
  end.

(** [gstoreExecForeignDelete]. *)
Definition gstoreExecForeignDelete (slot : TupleTableSlot)
  : fdw_error + TupleTableSlot :=
  inl OnlyDirectDelete.

(** An option the code knows. *)
Definition known_option (d : DefElem) : Prop :=
  defname d = "reference"%string \/ defname d = "pinning"%string.

(** What [gstore_fdw_read_options] makes of a list of options. *)
Definition options_referenced (options : list DefElem) : option string :=
  last (map defGetString
          (List.filter (fun d => String.eqb (defname d) "reference") options)).

Definition options_pinning (options : list DefElem) : Z :=
  match last (List.filter (fun d => String.eqb (defname d) "pinning")
                          options) with
  | Some d => atoi (defGetString d)
  | None => -1
  end.

(** ** Further examples *)

(** The builder state of a one-column int4 table after the single row (9). *)
Definition example_load_state : gstoreLoadState :=
  {| gcontext := None; ls_length := 1073741736; nrooms := 268435432;
     nitems := 1;
     a := [{| vl_dict := None; extra_sz := 0; nullmap := None;
              values := ByteValues (store_le fresh_memory 0 4 9);
              align := 4 |}] |}.

(** Transaction 100 has loaded one row into table 7, in a directory of two
    descriptors whose warm counter started at zero; then it has
    committed. *)
Definition example_loaded : gstore_state :=
  result_state
    (insert_session (example_backend 100 0 [])
                    (pgstrom_startup_gstore_fdw 2 0)
                    (example_table 7 [int4_attribute])
                    (example_snapshot 100 0) [[Some (DatumVal 9)]]).

Definition example_committed : gstore_state :=
  gstoreXactCallback (example_backend 100 0 []) XACT_EVENT_COMMIT
                     example_loaded.

(** The backend [env] at the time its transaction callback runs for
    [XACT_EVENT_ABORT]: the host has moved the transaction to the state
    TRANS_ABORT before it calls the callbacks, and from then on
    [TransactionIdIsCurrentTransactionId] counts none of its xids as
    current. Everything else is as before. *)
Definition in_abort (env : HostEnv) : HostEnv :=
  {| MyDatabaseId := MyDatabaseId env;
     GetCurrentTransactionId := GetCurrentTransactionId env;
     GetCurrentCommandId := GetCurrentCommandId env;
     TransactionIdIsCurrentTransactionId := fun _ => false;
     TransactionIdDidCommit := TransactionIdDidCommit env;
     GetOldestXmin := GetOldestXmin env;
     legacy_crc32_oids := legacy_crc32_oids env;
     legacy_crc32_bytes := legacy_crc32_bytes env;
     offsetof_kds_colmeta := offsetof_kds_colmeta env;
     cuda_success := cuda_success env;
     heap_tuple_untoast_attr := heap_tuple_untoast_attr env;
     hash_seq_search := hash_seq_search env;
     heap_openrv := heap_openrv env |}.

(** Transaction 100 has loaded its row and then rolls back: the abort
    callback of its backend has run. *)
Definition example_aborted : gstore_state :=
  gstoreXactCallback (in_abort (example_backend 100 0 [])) XACT_EVENT_ABORT
                     example_loaded.

(** After the commit of the load, transaction 102 deletes the whole table
    with a direct DELETE and commits. *)
Definition example_deleted : gstore_state :=
  let deleter := example_backend 102 0 [100] in
  match gstoreIterateDirectModify deleter example_committed
                                  (example_table 7 [int4_attribute])
                                  (example_snapshot 102 0) 0 with
  | Some (st, _) => gstoreXactCallback deleter XACT_EVENT_COMMIT st
  | None => example_committed
  end.

(** After the commit of the load, transaction 102 has deleted the whole
    table with a direct DELETE and has not ended yet. *)
Definition example_delete_pending : gstore_state :=
  match gstoreIterateDirectModify (example_backend 102 0 [100])
                                  example_committed
                                  (example_table 7 [int4_attribute])
                                  (example_snapshot 102 0) 0 with
  | Some (st, _) => st
  | None => example_committed
  end.

(** Then transaction 103 commits, on a host where no older transaction is
    running any more. *)
Definition example_recycled : gstore_state :=
  gstoreXactCallback (example_backend 103 0 [100; 102]) XACT_EVENT_COMMIT
                     example_deleted.

(** A session that inserts no row, run by transaction 101 after the
    rollback of transaction 100. *)
Definition empty_session_after_abort : result unit :=
  insert_session (example_backend 101 0 []) example_aborted
                 (example_table 7 [int4_attribute]) (example_snapshot 101 0)
                 [].

(** The descriptor that load publishes, in slot 0 of [gs_chunks] and hash
    slot 65. *)
Definition example_chunk : GpuStoreChunk :=
  {| hash := 162; database_oid := 5; table_oid := 7;
     xmax := 0; xmin := 100; cid := 0;
     xmax_commited := false; xmin_commited := false;
     kds_nitems := 1; kds_length := 96;
     cuda_dindex := -1; ipc_mhandle := 0; dsm_handle := 1 |}.

(** A catalog with two foreign tables of this wrapper: table 7, named t7,
    pinned to GPU 0, and table 8, a reference to t7; one GPU device. *)
Definition example_options (oid : Oid) : option (list DefElem) :=
  if oid =? 7 then Some [{| defname := "pinning"; defGetString := "0" |}]
  else if oid =? 8
       then Some [{| defname := "reference"; defGetString := "t7" |}]
       else None.

Definition example_catalog : Catalog :=
  {| get_rel_relkind := fun oid => if (oid =? 7) || (oid =? 8)
                                   then "f"%char else "r"%char;
     pg_foreign_table := fun oid => if (oid =? 7) || (oid =? 8)
                                    then Some (20, example_options oid)
                                    else None;
     pg_foreign_server := fun oid => if oid =? 20 then Some 30 else None;
     pg_foreign_data_wrapper := fun oid => if oid =? 30 then Some 40 else None;
     pg_proc := fun oid =>
                  if oid =? 40
                  then Some (ClanguageId, Some "pgstrom_gstore_fdw_handler",
                             Some "$libdir/pg_strom")%string
                  else None;
     load_external_function := fun _ _ => Some 4096;
     pgstrom_gstore_fdw_handler := 4096;
     RangeVarGetRelid := fun name => if String.eqb name "t7" then Some 7
                                     else None;
     numDevAttrs := 1 |}.

(** ** Vocabulary of the scan *)

(** The segment of a chunk is there: the handle of the descriptor names an
    image that holds as many rows as the descriptor says. *)
Definition chunk_mapped (st : gstore_state) (c : GpuStoreChunk) : Prop :=
  0 <= kds_nitems c
  /\ exists kds, dsm_find (dsm_handle c) (dsm_segments st) = Some kds
                 /\ k_nitems kds = kds_nitems c.

(** Every descriptor chained in hash slot [i] has its segment. *)
Definition slot_mapped (st : gstore_state) (i : nat) : Prop :=
  forall n c, in_slot st i n -> chunk_at st n = Some c -> chunk_mapped st c.

(** The segments of the directory: every chained descriptor has its
    segment, and the handles the host has given out lie below the next
    one. *)
Definition segments_wf (st : gstore_state) : Prop :=
  (forall i, slot_mapped st i)
  /\ (forall h kds, (h, kds) ∈ dsm_segments st -> h < dsm_next_handle st).

(** The rows of an image from row [index] on, as the scan reads them
    through the column numbers [attnos_]. *)
Definition image_rows (seg : Z) (kds : kern_data_store) (attnos_ : list Z)
    (index : Z) : list (list (option ScanDatum)) :=
  map (fun i => map (scan_attribute seg kds i) attnos_)
      (seqZ index (k_nitems kds - index)).

(** The rows of the chunk with descriptor [c] from row [index] on, read
    from the segment its handle names among [segs]. *)
Definition chunk_rows (segs : list (Z * kern_data_store)) (attnos_ : list Z)
    (index : Z) (c : GpuStoreChunk) : list (list (option ScanDatum)) :=
  match dsm_find (dsm_handle c) segs with
  | Some kds => image_rows (dsm_handle c) kds attnos_ index
  | None => []
  end.

(** The rows of the chunks [cs], one chunk after the other. *)
Definition chunks_rows (segs : list (Z * kern_data_store))
    (attnos_ : list Z) (cs : list GpuStoreChunk)
  : list (list (option ScanDatum)) :=
  concat (map (chunk_rows segs attnos_ 0) cs).

(** The column numbers a scan reads. *)
Definition scan_columns (ss : gstoreScanState) : list Z :=
  take (Z.to_nat (nattrs ss)) (attnos ss).

(** Where a scan of [frel] under [snapshot] stands, and which rows [rows]
    it has still to return: before the first call all rows of the visible
    chunks of the table; later the rest of the current chunk and the rows
    of the visible chunks chained behind it. *)
Definition scan_at (env : HostEnv) (frel : Relation) (snapshot : SnapshotData)
    (st : gstore_state) (ss : gstoreScanState)
    (rows : list (list (option ScanDatum))) : Prop :=
  let h := gstore_head st in
  let nodes := bucket h (table_slot env frel) in
  NoDup nodes
  /\ (List.length nodes <= List.length (concat (active_chunks h)))%nat
  /\ slot_mapped st (table_slot env frel)
  /\ match gs_chunk ss with
     | None =>
         gs_index ss = 0
         /\ rows = chunks_rows (dsm_segments st) (scan_columns ss)
                               (visible_chunks env frel snapshot (gs_chunks h)
                                               nodes)
     | Some n =>
         exists pre rest c,
           nodes = pre ++ n :: rest
           /\ chunk_at st n = Some c
           /\ chunk_of_relation env frel c = true
           /\ 0 <= gs_index ss <= kds_nitems c
           /\ rows = chunk_rows (dsm_segments st) (scan_columns ss)
                                (gs_index ss) c
                     ++ chunks_rows (dsm_segments st) (scan_columns ss)
                          (visible_chunks env frel snapshot (gs_chunks h)
                                          rest)
     end.

(** ** Vocabulary of the dictionary *)

(** The entry answers a lookup of [key], whose hash is [hashvalue_]: it
    was entered with a key of the same hash, and the datum it holds has
    the bytes of [key]. *)
Definition entry_matches (hashvalue_ : Z) (key : list Z) (e : vl_dict_key)
  : Prop :=
  hashvalue e = hashvalue_ /\ vl_datum e = key.

(** The state [gstore_fdw_writeout_chunk] leaves once it has published
    the chunk built from [ls]: a descriptor has left the head of the free
    list, carries the stamps of the chunk and is chained at the tail of the
    table's hash slot; its segment is mapped and known to the host; the
    warm counter has gone up by one. *)
Definition writeout_published (env : HostEnv) (st : gstore_state)
    (relation : Relation) (ls : gstoreLoadState) (st' : gstore_state)
  : Prop :=
  exists dnode rest ipc,
    free_chunks (gstore_head st) = dnode :: rest
    /\ gstore_head st'
       = {| has_warm_chunks :=
              to_uint32 (has_warm_chunks (gstore_head st) + 1);
            free_chunks := rest;
            active_chunks :=
              <[table_slot env relation :=
                  bucket (gstore_head st) (table_slot env relation)
                  ++ [dnode]]> (active_chunks (gstore_head st));
            gs_chunks :=
              <[dnode := published_chunk env st relation ls ipc]>
                (gs_chunks (gstore_head st)) |}
    /\ gstore_maps st'
       = <[dnode := {| dsm_seg := Some (dsm_next_handle st) |}]>
           (gstore_maps st)
    /\ dsm_segments st'
       = dsm_segments st
         ++ [(dsm_next_handle st,
              fst (writeout_image env (rd_att relation) ls))]
    /\ dsm_next_handle st' = dsm_next_handle st + 1.

(** ** Vocabulary of the emptiness probe *)

(** Two descriptors that differ at most by what the visibility test does
    to a descriptor: an xid cleared, a hint bit set. *)
Definition hint_update (c c' : GpuStoreChunk) : Prop :=
  same_identity c c' /\ cid c' = cid c
  /\ (xmin c' = xmin c \/ xmin c' = InvalidTransactionId)
  /\ (xmax c' = xmax c \/ xmax c' = InvalidTransactionId)
  /\ (xmin_commited c = true -> xmin_commited c' = true)
  /\ (xmax_commited c = true -> xmax_commited c' = true).

(** Every entry of the dictionary was entered from a value that
    [PG_DETOAST_DATUM_COPY] copied as it was: the hash value kept with the
    entry is the hash of the datum the entry holds. *)
Definition dictionary_plain (env : HostEnv) (dict : list vl_dict_key)
  : Prop :=
  Forall (fun e => hashvalue e = vl_dict_hash_value env (vl_datum e)) dict.

(** The text 'x' as a packed varlena: a 1-byte header that says two bytes
    in all, and the payload. *)
Definition text_x_packed : Datum := DatumPtr [5; 120].

(** The text column of a builder after the row ('x'), on the example
    host: one dictionary entry, which row 0 points at. *)
Definition example_text_column : gstoreLoadColumn :=
  {| vl_dict :=
       Some [{| hashvalue :=
                  vl_dict_hash_value (example_backend 100 0 [])
                                     (DatumGetPointer text_x);
                offset := 0;
                vl_datum := DatumGetPointer text_x |}];
     extra_sz := 8; nullmap := None;
     values := EntryPointers (fun j => if j =? 0 then Some 0%nat else None);
     align := 0 |}.

(** A table with a "reference" option that names t7. *)
Definition example_reference : Relation :=
  {| rd_id := 8; rd_att := numbered [int4_attribute] 1;
     referenced := Some "t7"%string; pinning := -1 |}.

(** An int4 column declared NOT NULL, and the builder of a fresh load
    into the table T(int4, n int4 NOT NULL). *)
Definition int4_notnull_attribute : FormData_pg_attribute :=
  {| attname := "n"; attnum := 1;
     attlen := 4; attalign := "i"; attbyval := true; attnotnull := true |}.

Definition example_notnull_state : gstoreLoadState :=
  match gstoreBeginForeignModify
          (example_backend 100 0 []) (pgstrom_startup_gstore_fdw 2 0)
          (example_table 9 [int4_attribute; int4_notnull_attribute])
          (example_snapshot 100 0) with
  | OK _ ls => ls
  | Err _ _ => example_load_state
  end.

(** * Properties *)

(** ** The visibility test *)

Section VisibilityFacts.
Variable env : HostEnv.

Ltac chunk_simpl :=
  cbn [negb andb xmin xmax cid xmin_commited xmax_commited
       set_xmax set_xmin set_xmin_commited set_xmax_commited fst snd].

(** Case split on the test that guards the next conditional. *)
Ltac guard_case :=
  match goal with
  | |- context [if ?b then _ else _] =>
      lazymatch b with
      | context [if _ then _ else _] => fail
      | negb (negb ?a) => destruct a eqn:?
      | negb ?a && ?a' => destruct a eqn:?; [|destruct a' eqn:?]
      | negb ?a => destruct a eqn:?
      | _ => destruct b eqn:?
      end
  end.

Ltac vis_cases :=
  repeat (chunk_simpl; rewrite ?Z.eqb_refl; chunk_simpl; guard_case);
  chunk_simpl; rewrite ?Z.eqb_refl; try reflexivity; try congruence.

Lemma xmax_steps (C : GpuStoreChunk) (S : SnapshotData) :
  satisfies_visibility_xmax env C S
  = and_then (filter_step3 C S) (fun C3 =>
    and_then (filter_step4 env C3 S) (fun C4 => filter_step5 C4 S)).
Proof.
  unfold satisfies_visibility_xmax, filter_step3, filter_step4, filter_step5,
    and_then, is_T_self, in_progress, committed, invalid,
    TransactionIdIsValid.
  destruct C as [h d t xmx xmn c xc nc kn kl cd ih dh].
  vis_cases.
Qed.

(** C2. The visibility test computes exactly the five-step decision
    procedure: for every descriptor and snapshot it reaches the same
    verdict and leaves the same descriptor (same cleared xids, same hint
    bits) as the steps taken in order. *)
Theorem satisfies_visibility_is_mvcc_filter (C : GpuStoreChunk)
    (S : SnapshotData) :
  gstore_fdw_satisfies_visibility env C S = mvcc_filter env C S.
Proof.
  unfold gstore_fdw_satisfies_visibility, mvcc_filter.
  rewrite !xmax_steps.
  unfold filter_step1, filter_step2, and_then, is_T_self, in_progress,
    committed, invalid, TransactionIdIsValid.
  destruct C as [h d t xmx xmn c xc nc kn kl cd ih dh].
  vis_cases.
Qed.

Lemma xmax_part_idempotent (C : GpuStoreChunk) (S : SnapshotData) :
  satisfies_visibility_xmax env (snd (satisfies_visibility_xmax env C S)) S
  = satisfies_visibility_xmax env C S.
Proof.
  unfold satisfies_visibility_xmax, TransactionIdIsValid.
  destruct C as [h d t xmx xmn c xc nc kn kl cd ih dh].
  vis_cases.
Qed.

Lemma xmax_part_keeps_xmin (C : GpuStoreChunk) (S : SnapshotData) :
  xmin (snd (satisfies_visibility_xmax env C S)) = xmin C
  /\ xmin_commited (snd (satisfies_visibility_xmax env C S))
     = xmin_commited C.
Proof.
  unfold satisfies_visibility_xmax, TransactionIdIsValid.
  destruct C as [h d t xmx xmn c xc nc kn kl cd ih dh].
  vis_cases; split; reflexivity.
Qed.

(** C3. Running the visibility test a second time, on the descriptor the
    first run left behind and under the same snapshot, gives the same
    verdict and changes nothing more. *)
Theorem satisfies_visibility_idempotent (C : GpuStoreChunk)
    (S : SnapshotData) :
  gstore_fdw_satisfies_visibility env
    (snd (gstore_fdw_satisfies_visibility env C S)) S
  = gstore_fdw_satisfies_visibility env C S.
Proof.
  unfold gstore_fdw_satisfies_visibility at 2 3.
  destruct (xmin_commited C) eqn:Hc; cbn [negb].
  - destruct (negb (xmin C =? FrozenTransactionId)
              && XidInMVCCSnapshot S (xmin C)) eqn:Hs.
    + cbn [snd]. unfold gstore_fdw_satisfies_visibility.
      rewrite Hc, Hs. reflexivity.
    + unfold gstore_fdw_satisfies_visibility.
      destruct (xmax_part_keeps_xmin C S) as [-> ->].
      rewrite Hc, Hs. cbn [negb]. apply xmax_part_idempotent.
  - unfold TransactionIdIsValid.
    destruct (xmin C =? InvalidTransactionId) eqn:Hi; cbn [negb snd].
    { unfold gstore_fdw_satisfies_visibility, TransactionIdIsValid.
      rewrite Hc, Hi. reflexivity. }
    destruct (TransactionIdIsCurrentTransactionId env (xmin C)) eqn:Hself.
    { unfold gstore_fdw_satisfies_visibility, TransactionIdIsValid.
      destruct C as [h d t xmx xmn c xc nc kn kl cd ih dh].
      cbn [xmin xmin_commited] in Hc, Hi, Hself. subst nc.
      revert Hi Hself. vis_cases. }
    destruct (XidInMVCCSnapshot S (xmin C)) eqn:Hs.
    { cbn [snd]. unfold gstore_fdw_satisfies_visibility, TransactionIdIsValid.
      rewrite Hc, Hi, Hself, Hs. reflexivity. }
    destruct (TransactionIdDidCommit env (xmin C)) eqn:Hd.
    + unfold gstore_fdw_satisfies_visibility.
      destruct (xmax_part_keeps_xmin (set_xmin_commited C true) S)
        as [-> ->].
      cbn [xmin xmin_commited set_xmin_commited negb].
      rewrite Hs, andb_false_r. apply xmax_part_idempotent.
    + cbn [snd]. unfold gstore_fdw_satisfies_visibility, TransactionIdIsValid.
      cbn [xmin xmin_commited set_xmin negb]. rewrite Hc, Z.eqb_refl.
      reflexivity.
Qed.

End VisibilityFacts.

(** ** The directory: free list, hash slots, release *)

Section DirectoryFacts.
Variable env : HostEnv.

Lemma memset_chunk_sizeof_GpuStoreMap (c : GpuStoreChunk) :
  memset_chunk c sizeof_GpuStoreMap = c.
Proof. destruct c; reflexivity. Qed.

Lemma gpuMemFreePreserved_head (st : gstore_state) (d h : Z) :
  gstore_head (gpuMemFreePreserved st d h) = gstore_head st.
Proof. reflexivity. Qed.

Lemma gpu_alloc_then_free (st : gstore_state) (d : Z) :
  gpu_preserved
    (gpuMemFreePreserved (fst (gpuMemAllocPreserved st d)) d
                         (snd (gpuMemAllocPreserved st d)))
  = gpu_preserved st.
Proof.
  unfold gpuMemAllocPreserved, gpuMemFreePreserved; cbn.
  rewrite !Z.eqb_refl. reflexivity.
Qed.

(** What [gstore_fdw_release_chunk] leaves in the shared head. *)
Lemma release_chunk_head (st : gstore_state) (n : nat) (c : GpuStoreChunk) :
  gs_chunks (gstore_head st) !! n = Some c ->
  gstore_head (gstore_fdw_release_chunk st n)
  = {| has_warm_chunks := has_warm_chunks (gstore_head st);
       free_chunks := n :: dlist_delete n (free_chunks (gstore_head st));
       active_chunks := map (dlist_delete n) (active_chunks (gstore_head st));
       gs_chunks := <[n := set_dsm_handle c UINT_MAX]>
                      (gs_chunks (gstore_head st)) |}.
Proof.
  intros Hc. unfold gstore_fdw_release_chunk. rewrite Hc.
  rewrite memset_chunk_sizeof_GpuStoreMap. reflexivity.
Qed.

(** The device-memory stage leaves the shared head and the mapping table
    alone, and on failure has given back what it reserved. *)
Lemma writeout_to_device_frame (st : gstore_state) (d : Z) :
  match writeout_to_device env st d with
  | OK st' h =>
      gstore_head st' = gstore_head st /\ gstore_maps st' = gstore_maps st
      /\ dsm_segments st' = dsm_segments st
      /\ gpu_preserved (gpuMemFreePreserved st' d h) = gpu_preserved st
      /\ (forall c, cuda_success env c = true)
  | Err st' e =>
      gstore_head st' = gstore_head st /\ gstore_maps st' = gstore_maps st
      /\ dsm_segments st' = dsm_segments st
      /\ gpu_preserved st' = gpu_preserved st
      /\ exists c, e = CudaFailed c /\ cuda_success env c = false
  end.
Proof.
  unfold writeout_to_device.
  destruct (cuda_success env call_gpuMemAllocPreserved) eqn:E0; cbn [negb].
  2: { repeat split; eauto. }
  pose proof (gpu_alloc_then_free st d) as Hfree.
  destruct (gpuMemAllocPreserved st d) as [st1 h] eqn:Ha.
  assert (Hh : gstore_head st1 = gstore_head st
               /\ gstore_maps st1 = gstore_maps st
               /\ dsm_segments st1 = dsm_segments st).
  { unfold gpuMemAllocPreserved in Ha. inversion Ha; subst. auto. }
  destruct Hh as (Hh & Hm & Hd). cbn [fst snd] in Hfree.
  destruct (cuda_success env call_gpuIpcOpenMemHandle) eqn:E1; cbn [negb];
    [|repeat split; eauto].
  destruct (cuda_success env call_cuCtxPushCurrent) eqn:E2; cbn [negb];
    [|repeat split; eauto].
  destruct (cuda_success env call_cuMemcpyHtoD) eqn:E3; cbn [negb];
    [|repeat split; eauto].
  destruct (cuda_success env call_cuCtxPopCurrent) eqn:E4; cbn [negb];
    [|repeat split; eauto].
  repeat split; auto. intros []; assumption.
Qed.

(** Without a device copy to make, the writer facing an empty free list
    raises ResourceExhausted and leaves the shared head as it found it. *)
Lemma writeout_chunk_exhausted_unpinned (st : gstore_state)
    (relation : Relation) (gs_lstate : gstoreLoadState) :
  gcontext gs_lstate = None ->
  free_chunks (gstore_head st) = [] ->
  exists st',
    gstore_fdw_writeout_chunk env st relation gs_lstate
      = Err st' ResourceExhausted
    /\ gstore_head st' = gstore_head st.
Proof.
  intros Hctx Hfree. unfold gstore_fdw_writeout_chunk.
  destruct (writeout_image env (rd_att relation) gs_lstate) as [kds cols].
  unfold dsm_create. rewrite Hctx. cbn [bind gstore_head]. rewrite Hfree.
  eexists; split; reflexivity.
Qed.

(** C8. When the free list is empty and the writer gets as far as looking
    at it (no device copy was asked for, or the copy went through), it
    raises ResourceExhausted; the device memory it had reserved is given
    back, and the shared head -- warm counter, free list, every hash slot,
    every descriptor -- and the mapping table are as before the call. *)
Theorem writeout_chunk_free_list_empty (st : gstore_state)
    (relation : Relation) (gs_lstate : gstoreLoadState) :
  free_chunks (gstore_head st) = [] ->
  (gcontext gs_lstate = None \/ forall c, cuda_success env c = true) ->
  exists st',
    gstore_fdw_writeout_chunk env st relation gs_lstate
      = Err st' ResourceExhausted
    /\ gstore_head st' = gstore_head st
    /\ gstore_maps st' = gstore_maps st
    /\ gpu_preserved st' = gpu_preserved st.
Proof.
  intros Hfree Hgpu. unfold gstore_fdw_writeout_chunk.
  destruct (writeout_image env (rd_att relation) gs_lstate) as [kds cols].
  destruct (dsm_create st kds) as [st1 handle] eqn:Hdsm.
  assert (H1 : gstore_head st1 = gstore_head st
               /\ gstore_maps st1 = gstore_maps st
               /\ gpu_preserved st1 = gpu_preserved st).
  { unfold dsm_create in Hdsm. inversion Hdsm; subst. auto. }
  destruct H1 as (Hh1 & Hm1 & Hg1).
  destruct (gcontext gs_lstate) as [d|] eqn:Hctx.
  - destruct Hgpu as [Hnone | Hok]; [discriminate|].
    pose proof (writeout_to_device_frame st1 d) as Hdev.
    destruct (writeout_to_device env st1 d) as [st2 ipc | st2 e]; cbn [bind].
    + destruct Hdev as (Hh2 & Hm2 & _ & Hg2 & _).
      rewrite Hh2, Hh1, Hfree.
      eexists; split; [reflexivity|].
      rewrite gpuMemFreePreserved_head. repeat split; try congruence.
      unfold gpuMemFreePreserved at 1; cbn [gstore_maps]. congruence.
    + destruct Hdev as (_ & _ & _ & _ & c & _ & Hc).
      rewrite Hok in Hc. discriminate.
  - cbn [bind]. rewrite Hh1, Hfree.
    eexists; split; [reflexivity|]. auto.
Qed.


(** The emptiness probe of [gstoreBeginForeignModify] may set hint bits in
    descriptors, but it neither chains nor unchains a node. *)
Lemma first_chunk_lists (h : GpuStoreHead) (frel : Relation)
    (snapshot : SnapshotData) :
  let h' := snd (gstore_fdw_first_chunk env h frel snapshot) in
  has_warm_chunks h' = has_warm_chunks h
  /\ free_chunks h' = free_chunks h
  /\ active_chunks h' = active_chunks h.
Proof.
  unfold gstore_fdw_first_chunk.
  destruct (visible_chunk_in _ _ _ _ _ _ _) as [r chunks']. cbn. auto.
Qed.

Lemma begin_modify_frame (st : gstore_state) (relation : Relation)
    (snapshot : SnapshotData) :
  let st' := result_state (gstoreBeginForeignModify env st relation snapshot) in
  has_warm_chunks (gstore_head st') = has_warm_chunks (gstore_head st)
  /\ free_chunks (gstore_head st') = free_chunks (gstore_head st)
  /\ active_chunks (gstore_head st') = active_chunks (gstore_head st)
  /\ gstore_maps st' = gstore_maps st
  /\ dsm_segments st' = dsm_segments st
  /\ gpu_preserved st' = gpu_preserved st.
Proof.
  unfold gstoreBeginForeignModify.
  destruct (referenced relation); [cbn; auto 10|].
  pose proof (first_chunk_lists (gstore_head st) relation snapshot) as Hl.
  destruct (gstore_fdw_first_chunk env (gstore_head st) relation snapshot)
    as [found h']. cbn [snd] in Hl. destruct Hl as (Hw & Hf & Ha).
  destruct found; [cbn; auto 10|].
  destruct (begin_unitsz _ _ _) as [[unitsz aligns]|]; [|cbn; auto 10].
  destruct (unitsz =? 0); [cbn; auto 10|].
  cbv zeta. destruct (begin_values_valid _ _ _); cbn; auto 10.
Qed.

Lemma begin_modify_nitems (st st1 : gstore_state) (relation : Relation)
    (snapshot : SnapshotData) (ls : gstoreLoadState) :
  gstoreBeginForeignModify env st relation snapshot = OK st1 ls ->
  nitems ls = 0.
Proof.
  unfold gstoreBeginForeignModify.
  destruct (referenced relation); [discriminate|].
  destruct (gstore_fdw_first_chunk env (gstore_head st) relation snapshot)
    as [found h'].
  destruct found; [discriminate|].
  destruct (begin_unitsz _ _ _) as [[unitsz aligns]|]; [|discriminate].
  destruct (unitsz =? 0); [discriminate|].
  cbv zeta. destruct (begin_values_valid _ _ _); [|discriminate].
  intros H; inversion H; reflexivity.
Qed.

End DirectoryFacts.

(** ** The transaction callback on abort *)

Section XactFacts.
Variable env : HostEnv.
Variable oldestXmin : TransactionId.

Local Abbreviation is_current := (TransactionIdIsCurrentTransactionId env).
Local Abbreviation abort_chunk st n :=
  (fst (gstoreOnXactCallbackPerChunk env false st n oldestXmin)).

Lemma elem_of_dlist_delete (m n : nat) (l : list nat) :
  m ∈ dlist_delete n l <-> m ∈ l /\ m <> n.
Proof.
  induction l as [|x l IH]; cbn.
  - rewrite elem_of_nil. tauto.
  - destruct (Nat.eqb x n) eqn:E.
    + apply Nat.eqb_eq in E. subst x. rewrite IH, elem_of_cons.
      split; [tauto|]. intros [[->|H] Hne]; [congruence|tauto].
    + apply Nat.eqb_neq in E. rewrite !elem_of_cons, IH.
      split; [intros [->|[H Hne]]; tauto|].
      intros [[->|H] Hne]; tauto.
Qed.

Lemma bucket_map_delete (n i : nat) (buckets : list (list nat)) :
  default [] (map (dlist_delete n) buckets !! i)
  = dlist_delete n (default [] (buckets !! i)).
Proof.
  revert i. induction buckets as [|b bs IH]; intros [|i]; cbn; auto.
Qed.

(** What [gstore_fdw_release_chunk] does achieve: the slot is unchained
    from every hash slot, put at the head of the free list, its local
    mapping dropped, its device memory given back when it had any, and its
    segment handle invalidated.  The other members of the descriptor are
    left as they were. *)
Lemma release_chunk_effects (st : gstore_state) (n : nat) (c : GpuStoreChunk) :
  chunk_at st n = Some c ->
  let st' := gstore_fdw_release_chunk st n in
  (forall i, ~ in_slot st' i n)
  /\ free_chunks (gstore_head st')
     = n :: dlist_delete n (free_chunks (gstore_head st))
  /\ gstore_maps st' = <[n := {| dsm_seg := None |}]> (gstore_maps st)
  /\ gpu_preserved st'
     = (if cuda_dindex c >=? 0
        then remove_preserved (cuda_dindex c) (ipc_mhandle c)
                              (gpu_preserved st)
        else gpu_preserved st)
  /\ chunk_at st' n = Some (set_dsm_handle c UINT_MAX).
Proof.
  intros Hc st'. unfold chunk_at in *.
  pose proof (release_chunk_head st n c Hc) as Hh. fold st' in Hh.
  split; [|split; [|split; [|split]]].
  - intros i. unfold in_slot, bucket. rewrite Hh. cbn [active_chunks].
    rewrite bucket_map_delete, elem_of_dlist_delete. tauto.
  - rewrite Hh. reflexivity.
  - subst st'. unfold gstore_fdw_release_chunk. rewrite Hc.
    destruct (cuda_dindex c >=? 0); reflexivity.
  - subst st'. unfold gstore_fdw_release_chunk. rewrite Hc.
    destruct (cuda_dindex c >=? 0); reflexivity.
  - rewrite Hh. cbn [gs_chunks]. apply list_lookup_insert_eq.
    eapply lookup_lt_Some; eauto.
Qed.

(** What one visit of the abort walk does to the shared head: the visited
    descriptor is rewritten in place, keeping its xmin or freezing it, and
    the slot is either left chained where it is or moved to the head of the
    free list; a slot whose xmin is the ending transaction's is moved. *)
Lemma abort_chunk_summary (st : gstore_state) (n : nat) (c : GpuStoreChunk) :
  chunk_at st n = Some c ->
  exists (c' : GpuStoreChunk) (released : bool),
    gs_chunks (gstore_head (abort_chunk st n))
      = <[n := c']> (gs_chunks (gstore_head st))
    /\ (xmin c' = xmin c \/ xmin c' = FrozenTransactionId)
    /\ (if released
        then free_chunks (gstore_head (abort_chunk st n))
               = n :: dlist_delete n (free_chunks (gstore_head st))
             /\ active_chunks (gstore_head (abort_chunk st n))
               = map (dlist_delete n) (active_chunks (gstore_head st))
        else free_chunks (gstore_head (abort_chunk st n))
               = free_chunks (gstore_head st)
             /\ active_chunks (gstore_head (abort_chunk st n))
               = active_chunks (gstore_head st))
    /\ (is_current (xmin c) = true -> released = true).
Proof.
  intros Hc. unfold chunk_at in Hc.
  pose proof (lookup_lt_Some _ _ _ Hc) as Hlt.
  unfold gstoreOnXactCallbackPerChunk. rewrite Hc.
  set (c1 := if is_current (xmax c)
             then set_xmax c InvalidTransactionId else c).
  assert (Hx1 : xmin c1 = xmin c) by (subst c1; destruct (is_current _); auto).
  assert (Hput : forall c2,
            gs_chunks (gstore_head (put_chunk st n c2)) !! n = Some c2).
  { intros c2. cbn. apply list_lookup_insert_eq, Hlt. }
  assert (Hrel : forall c2,
            exists c', gs_chunks (gstore_head
                         (gstore_fdw_release_chunk (put_chunk st n c2) n))
                       = <[n := c']> (gs_chunks (gstore_head st))
                     /\ xmin c' = xmin c2
                     /\ free_chunks (gstore_head
                          (gstore_fdw_release_chunk (put_chunk st n c2) n))
                        = n :: dlist_delete n (free_chunks (gstore_head st))
                     /\ active_chunks (gstore_head
                          (gstore_fdw_release_chunk (put_chunk st n c2) n))
                        = map (dlist_delete n)
                              (active_chunks (gstore_head st))).
  { intros c2. rewrite (release_chunk_head _ n c2 (Hput c2)). cbn.
    rewrite list_insert_insert_eq. eexists; repeat split. }
  rewrite Hx1.
  destruct (is_current (xmin c)) eqn:Hcur.
  - destruct (Hrel c1) as (c' & Hg & Hx & Hf & Ha). cbn [fst].
    exists c', true. rewrite Hx, Hx1. auto.
  - unfold xact_chunk_horizon.
    destruct (TransactionIdIsValid (xmax c1)).
    + destruct (negb (xmax_commited c1));
        [exists c1, false; cbn; rewrite Hx1; intuition congruence|].
      destruct (negb (TransactionIdPrecedes (xmax c1) oldestXmin));
        [exists c1, false; cbn; rewrite Hx1; intuition congruence|].
      destruct (Hrel c1) as (c' & Hg & Hx & Hf & Ha). cbn [fst].
      exists c', true. rewrite Hx, Hx1. auto.
    + destruct (TransactionIdIsNormal (xmin c1)).
      * destruct (negb (xmin_commited c1));
          [exists c1, false; cbn; rewrite Hx1; intuition congruence|].
        destruct (negb (TransactionIdPrecedes (xmin c1) oldestXmin));
          [exists c1, false; cbn; rewrite Hx1; intuition congruence|].
        exists (set_xmin c1 FrozenTransactionId), false. cbn.
        intuition congruence.
      * destruct (negb (TransactionIdIsValid (xmin c1))).
        -- destruct (Hrel c1) as (c' & Hg & Hx & Hf & Ha). cbn [fst].
           exists c', true. rewrite Hx, Hx1. auto.
        -- exists c1, false; cbn; rewrite Hx1; intuition congruence.
Qed.

Lemma abort_chunk_absent (st : gstore_state) (n : nat) :
  chunk_at st n = None -> abort_chunk st n = st.
Proof.
  unfold chunk_at, gstoreOnXactCallbackPerChunk. intros ->. reflexivity.
Qed.

(** A visit never chains a slot into a hash slot. *)
Lemma abort_chunk_in_slot (st : gstore_state) (n i m : nat) :
  in_slot (abort_chunk st n) i m -> in_slot st i m.
Proof.
  destruct (chunk_at st n) as [c|] eqn:Hc;
    [|rewrite abort_chunk_absent by assumption; auto].
  destruct (abort_chunk_summary st n c Hc) as (c' & rel & _ & _ & Hl & _).
  unfold in_slot, bucket. destruct rel; destruct Hl as [_ ->]; auto.
  rewrite bucket_map_delete, elem_of_dlist_delete. tauto.
Qed.

(** A visit never takes another slot off the free list. *)
Lemma abort_chunk_on_free_list (st : gstore_state) (n m : nat) :
  on_free_list st m -> on_free_list (abort_chunk st n) m.
Proof.
  destruct (chunk_at st n) as [c|] eqn:Hc;
    [|rewrite abort_chunk_absent by assumption; auto].
  destruct (abort_chunk_summary st n c Hc) as (c' & rel & _ & _ & Hl & _).
  unfold on_free_list. destruct rel; destruct Hl as [-> _]; auto.
  intros Hm. rewrite elem_of_cons, elem_of_dlist_delete.
  destruct (Nat.eq_dec m n); auto.
Qed.

Lemma abort_chunk_other (st : gstore_state) (n m : nat) :
  m <> n -> chunk_at (abort_chunk st n) m = chunk_at st m.
Proof.
  intros Hne.
  destruct (chunk_at st n) as [c|] eqn:Hc;
    [|rewrite abort_chunk_absent by assumption; auto].
  destruct (abort_chunk_summary st n c Hc) as (c' & rel & Hg & _).
  unfold chunk_at. rewrite Hg. apply list_lookup_insert_ne. congruence.
Qed.


Hypothesis frozen_not_current : is_current FrozenTransactionId = false.

(** After its visit a slot is settled; a settled slot stays settled
    whatever slot is visited. *)
Lemma abort_chunk_settles (st : gstore_state) (n m : nat) :
  m = n \/ slot_settled env st m -> slot_settled env (abort_chunk st n) m.
Proof.
  intros Hm i c Hin Hc.
  destruct (Nat.eq_dec m n) as [->|Hne].
  - destruct (chunk_at st n) as [c0|] eqn:Hc0.
    + destruct (abort_chunk_summary st n c0 Hc0)
        as (c' & rel & Hg & Hx & Hl & Hcur).
      unfold chunk_at in Hc, Hc0. rewrite Hg in Hc.
      rewrite list_lookup_insert_eq in Hc by (eapply lookup_lt_Some; eauto).
      inversion Hc; subst c'. clear Hc.
      destruct rel.
      * destruct Hl as [_ Ha]. unfold in_slot, bucket in Hin.
        rewrite Ha, bucket_map_delete, elem_of_dlist_delete in Hin. tauto.
      * destruct (is_current (xmin c0)) eqn:E;
          [specialize (Hcur eq_refl); discriminate|].
        destruct Hx as [-> | ->]; auto.
    + rewrite abort_chunk_absent in Hc by assumption. congruence.
  - destruct Hm as [?|Hs]; [congruence|].
    rewrite abort_chunk_other in Hc by assumption.
    apply abort_chunk_in_slot in Hin. eauto.
Qed.

(** A slot of the ending transaction is on the free list once visited, and
    nothing that happens to other slots changes its prospects. *)
Lemma abort_chunk_reclaims (st : gstore_state) (n i m : nat) :
  slot_reclaimable env st i m ->
  slot_reclaimable env (abort_chunk st n) i m
  /\ (m = n -> on_free_list (abort_chunk st n) m).
Proof.
  intros [Hfree | (Hin & c & Hc & Hcur)].
  { pose proof (abort_chunk_on_free_list st n m Hfree). split; [left|]; auto. }
  destruct (Nat.eq_dec m n) as [->|Hne].
  - destruct (abort_chunk_summary st n c Hc) as (c' & rel & _ & _ & Hl & Hr).
    rewrite (Hr Hcur) in Hl. destruct Hl as [Hf _].
    assert (on_free_list (abort_chunk st n) n).
    { unfold on_free_list. rewrite Hf. apply elem_of_cons; auto. }
    split; [left|]; auto.
  - split; [|congruence]. right. split.
    + destruct (chunk_at st n) as [c0|] eqn:Hc0;
        [|rewrite abort_chunk_absent by assumption; auto].
      destruct (abort_chunk_summary st n c0 Hc0) as (c' & rel & _ & _ & Hl & _).
      unfold in_slot, bucket in *. destruct rel; destruct Hl as [_ ->]; auto.
      rewrite bucket_map_delete, elem_of_dlist_delete. auto.
    + exists c. rewrite abort_chunk_other by assumption. auto.
Qed.

Local Abbreviation walk_nodes nodes st meet :=
  (fst (xact_walk_nodes env false oldestXmin nodes st meet)).
Local Abbreviation walk_slots slots st meet :=
  (fst (xact_walk_slots env false oldestXmin slots st meet)).

Lemma walk_nodes_in_slot (nodes : list nat) (st : gstore_state) (meet : bool)
    (i m : nat) :
  in_slot (walk_nodes nodes st meet) i m -> in_slot st i m.
Proof.
  revert st meet. induction nodes as [|n rest IH]; intros st meet; cbn; auto.
  destruct (gstoreOnXactCallbackPerChunk env false st n oldestXmin)
    as [st1 warm] eqn:E.
  intros H. apply IH in H.
  apply (abort_chunk_in_slot st n). rewrite E. exact H.
Qed.

Lemma walk_nodes_settles (nodes : list nat) (st : gstore_state) (meet : bool)
    (m : nat) :
  m ∈ nodes \/ slot_settled env st m ->
  slot_settled env (walk_nodes nodes st meet) m.
Proof.
  revert st meet. induction nodes as [|n rest IH]; intros st meet Hm; cbn.
  - destruct Hm as [Hm|]; [|assumption]. apply elem_of_nil in Hm. tauto.
  - pose proof (abort_chunk_settles st n m) as Hstep.
    destruct (gstoreOnXactCallbackPerChunk env false st n oldestXmin)
      as [st1 warm] eqn:E. cbn [fst] in Hstep.
    apply IH. destruct Hm as [Hm|Hs]; [|right; auto].
    apply elem_of_cons in Hm. destruct Hm as [->|Hm]; [right|left]; auto.
Qed.

Lemma walk_nodes_on_free_list (nodes : list nat) (st : gstore_state)
    (meet : bool) (m : nat) :
  on_free_list st m -> on_free_list (walk_nodes nodes st meet) m.
Proof.
  revert st meet. induction nodes as [|n rest IH]; intros st meet Hf; cbn; auto.
  pose proof (abort_chunk_on_free_list st n m Hf) as Hn.
  destruct (gstoreOnXactCallbackPerChunk env false st n oldestXmin)
    as [st1 warm]. apply IH. exact Hn.
Qed.

Lemma walk_nodes_reclaims (nodes : list nat) (st : gstore_state) (meet : bool)
    (i m : nat) :
  slot_reclaimable env st i m ->
  slot_reclaimable env (walk_nodes nodes st meet) i m
  /\ (m ∈ nodes -> on_free_list (walk_nodes nodes st meet) m).
Proof.
  revert st meet. induction nodes as [|n rest IH]; intros st meet Hm; cbn.
  - split; [assumption|]. intros H. apply elem_of_nil in H. tauto.
  - destruct (abort_chunk_reclaims st n i m Hm) as [Hstep Hself].
    pose proof (walk_nodes_on_free_list rest (abort_chunk st n)) as Hkeep.
    destruct (gstoreOnXactCallbackPerChunk env false st n oldestXmin)
      as [st1 warm] eqn:E. cbn [fst] in Hstep, Hself, Hkeep.
    destruct (IH st1 (if warm then true else meet) Hstep) as [Hrec Hin].
    split; [assumption|]. intros H. apply elem_of_cons in H.
    destruct H as [->|H]; auto.
Qed.

(** The walk over the hash slots. *)
Lemma walk_slots_in_slot (slots : list nat) (st : gstore_state) (meet : bool)
    (i m : nat) :
  in_slot (walk_slots slots st meet) i m -> in_slot st i m.
Proof.
  revert st meet. induction slots as [|k rest IH]; intros st meet; cbn; auto.
  pose proof (walk_nodes_in_slot (bucket (gstore_head st) k) st meet i m) as Hn.
  destruct (xact_walk_nodes env false oldestXmin (bucket (gstore_head st) k)
                            st meet) as [st1 warm].
  intros H. apply IH in H. auto.
Qed.

Lemma walk_slots_keeps_settled (slots : list nat) (st : gstore_state)
    (meet : bool) (m : nat) :
  slot_settled env st m -> slot_settled env (walk_slots slots st meet) m.
Proof.
  revert st meet. induction slots as [|k rest IH]; intros st meet Hs; cbn; auto.
  pose proof (walk_nodes_settles (bucket (gstore_head st) k) st meet m
                                 (or_intror Hs)) as Hn.
  destruct (xact_walk_nodes env false oldestXmin (bucket (gstore_head st) k)
                            st meet) as [st1 warm].
  apply IH. exact Hn.
Qed.

Lemma walk_slots_settles (slots : list nat) (st : gstore_state) (meet : bool)
    (i m : nat) :
  i ∈ slots -> in_slot (walk_slots slots st meet) i m ->
  slot_settled env (walk_slots slots st meet) m.
Proof.
  revert st meet. induction slots as [|k rest IH]; intros st meet Hi Hin.
  - apply elem_of_nil in Hi. tauto.
  - cbn in *.
    pose proof (walk_nodes_settles (bucket (gstore_head st) k) st meet m) as Hn.
    pose proof (walk_nodes_in_slot (bucket (gstore_head st) k) st meet k m)
      as Hback.
    destruct (xact_walk_nodes env false oldestXmin (bucket (gstore_head st) k)
                              st meet) as [st1 warm]. cbn [fst] in Hn, Hback.
    apply elem_of_cons in Hi. destruct Hi as [->|Hi]; [|eauto].
    apply walk_slots_keeps_settled, Hn. left.
    apply Hback. eapply walk_slots_in_slot; eauto.
Qed.

Lemma walk_slots_on_free_list (slots : list nat) (st : gstore_state)
    (meet : bool) (m : nat) :
  on_free_list st m -> on_free_list (walk_slots slots st meet) m.
Proof.
  revert st meet. induction slots as [|k rest IH]; intros st meet Hf; cbn; auto.
  pose proof (walk_nodes_on_free_list (bucket (gstore_head st) k) st meet m Hf)
    as Hn.
  destruct (xact_walk_nodes env false oldestXmin (bucket (gstore_head st) k)
                            st meet) as [st1 warm].
  apply IH. exact Hn.
Qed.

Lemma walk_slots_reclaims (slots : list nat) (st : gstore_state) (meet : bool)
    (i m : nat) :
  i ∈ slots -> slot_reclaimable env st i m ->
  on_free_list (walk_slots slots st meet) m.
Proof.
  revert st meet. induction slots as [|k rest IH]; intros st meet Hi Hm.
  - apply elem_of_nil in Hi. tauto.
  - cbn.
    destruct (walk_nodes_reclaims (bucket (gstore_head st) k) st meet i m Hm)
      as [Hrec Hvisit].
    pose proof (walk_nodes_on_free_list (bucket (gstore_head st) k) st meet m)
      as Hkeep.
    destruct (xact_walk_nodes env false oldestXmin (bucket (gstore_head st) k)
                              st meet) as [st1 warm].
    cbn [fst] in Hrec, Hvisit, Hkeep.
    apply elem_of_cons in Hi. destruct Hi as [->|Hi]; [|apply IH; auto].
    apply walk_slots_on_free_list.
    destruct Hm as [Hf | [Hin _]]; auto.
Qed.

End XactFacts.

(** What the abort branch of the callback does when the host still counts
    an xid as current: when the callback runs for an abort with a warm
    counter that is not zero, then afterwards no descriptor chained in a
    hash slot carries an xmin the host counts as current, and every
    descriptor that was chained with such an xmin is on the free list. *)
Lemma abort_callback_reclaims_current_inserts (env : HostEnv)
    (st : gstore_state) :
  has_warm_chunks (gstore_head st) <> 0 ->
  TransactionIdIsCurrentTransactionId env FrozenTransactionId = false ->
  let st' := gstoreXactCallback env XACT_EVENT_ABORT st in
  (forall i m c,
     (i < NSLOTS)%nat -> in_slot st' i m -> chunk_at st' m = Some c ->
     TransactionIdIsCurrentTransactionId env (xmin c) = false)
  /\ (forall i m c,
        (i < NSLOTS)%nat -> in_slot st i m -> chunk_at st m = Some c ->
        TransactionIdIsCurrentTransactionId env (xmin c) = true ->
        on_free_list st' m).
Proof.
  intros Hwarm Hfrozen. unfold gstoreXactCallback.
  apply Z.eqb_neq in Hwarm. rewrite Hwarm.
  assert (Hslots : forall i, (i < NSLOTS)%nat -> i ∈ seq 0 NSLOTS).
  { intros i Hi. apply elem_of_seq. lia. }
  fold NSLOTS.
  pose proof (walk_slots_settles env (GetOldestXmin env) Hfrozen
                                 (seq 0 NSLOTS) st false) as Hsettle.
  pose proof (walk_slots_reclaims env (GetOldestXmin env)
                                  (seq 0 NSLOTS) st false) as Hreclaim.
  destruct (xact_walk_slots env false (GetOldestXmin env) (seq 0 NSLOTS)
                            st false) as [st1 meet] eqn:E.
  cbn [fst] in Hsettle, Hreclaim.
  assert (Hsame : forall (b : bool) (h1 : gstore_state),
            h1 = (if b then with_head st1
                              (with_has_warm_chunks (gstore_head st1) 0)
                  else st1) ->
            (forall i m, in_slot h1 i m <-> in_slot st1 i m)
            /\ (forall m, chunk_at h1 m = chunk_at st1 m)
            /\ (forall m, on_free_list h1 m <-> on_free_list st1 m)).
  { intros b h1 ->. destruct b; cbn; repeat split; auto. }
  destruct (Hsame (negb meet) _ eq_refl) as (Hin & Hch & Hfr).
  cbv zeta. split.
  - intros i m c Hi Hm Hc. rewrite Hin in Hm. rewrite Hch in Hc.
    eapply Hsettle; eauto.
  - intros i m c Hi Hm Hc Hcur. rewrite Hfr.
    eapply Hreclaim; eauto. right. eauto.
Qed.

(** ** Worked examples: round trip, and what release leaves behind *)

(** Fixed-width column first, variable-width column last: the rows come
    back as inserted, and equal text values share one dictionary entry. *)
Example roundtrip_int4_text :
  let rows := [[Some (DatumVal 1); Some text_x];
               [Some (DatumVal 2); Some text_y];
               [Some (DatumVal 1); Some text_x]] in
  let '(loaded, st, scanned) :=
    load_commit_scan (example_table 7 [int4_attribute; text_attribute]) rows in
  is_OK loaded = true
  /\ scan_rows_are st rows scanned = true
  /\ scanned = [[Some (ScanVal 1); Some (ScanPtr 1 144)];
                [Some (ScanVal 2); Some (ScanPtr 1 152)];
                [Some (ScanVal 1); Some (ScanPtr 1 144)]].
Proof. vm_compute. repeat split. Qed.

(** Nulls in a fixed-width column: the image that the writer publishes
    holds them, and they are read back as nulls; but the writer does not
    return, it ends in the release of the null bitmap, which the reset of
    the memory context has released already. *)
Example roundtrip_int4_nulls :
  let rows := [[Some (DatumVal 5)]; [None]; [Some (DatumVal 6)]] in
  let '(loaded, st, scanned) :=
    load_commit_scan (example_table 7 [int4_attribute]) rows in
  error_of loaded = Some FreedMemoryAccess
  /\ scanned = [[Some (ScanVal 5)]; [None]; [Some (ScanVal 6)]].
Proof. vm_compute. repeat split. Qed.

(** Every fixed width, followed by one variable-width column in last
    position. *)
Example roundtrip_all_widths :
  let rows := [[Some (DatumVal 97); Some (DatumVal 513); Some (DatumVal 0);
                Some (DatumVal (2 ^ 40 + 3)); Some text_y];
               [Some (DatumVal 1); Some (DatumVal 65535); Some (DatumVal 7);
                Some (DatumVal 2); Some text_x];
               [Some (DatumVal 255); Some (DatumVal 3);
                Some (DatumVal (2 ^ 32 - 1)); Some (DatumVal 1);
                Some text_y]] in
  let '(loaded, st, scanned) :=
    load_commit_scan
      (example_table 7 [char_attribute; int2_attribute; int4_attribute;
                        int8_attribute; text_attribute]) rows in
  is_OK loaded = true /\ scan_rows_are st rows scanned = true.
Proof. vm_compute. repeat split. Qed.

(** The same with nulls in the fixed-width columns: the published image
    holds the rows, nulls included. *)
Example roundtrip_all_widths_nulls :
  let rows := [[Some (DatumVal 97); Some (DatumVal 513); None;
                Some (DatumVal (2 ^ 40 + 3)); Some text_y];
               [None; Some (DatumVal 65535); Some (DatumVal 7);
                None; Some text_x];
               [Some (DatumVal 255); None; Some (DatumVal (2 ^ 32 - 1));
                Some (DatumVal 1); Some text_y]] in
  let '(loaded, st, scanned) :=
    load_commit_scan
      (example_table 7 [char_attribute; int2_attribute; int4_attribute;
                        int8_attribute; text_attribute]) rows in
  error_of loaded = Some FreedMemoryAccess
  /\ scan_rows_are st rows scanned = true.
Proof. vm_compute. repeat split. Qed.

(** A one-column text table cannot be loaded at all: the buffer of entry
    pointers that [gstoreBeginForeignModify] asks for, eight bytes for
    each of the 268435432 rows a chunk has room for, is more than [palloc]
    hands out. *)
Example text_table_begin_fails :
  error_of (gstoreBeginForeignModify (example_backend 100 0 [])
              (pgstrom_startup_gstore_fdw 2 0)
              (example_table 7 [text_attribute]) (example_snapshot 100 0))
  = Some InvalidAllocRequest.
Proof. vm_compute. reflexivity. Qed.

(** C1 (the code departs from the claim). A table whose variable-width
    column comes before a fixed-width one: the writer gives both columns
    the same [values_offset], the int4 values are copied over the offset
    slots of the text column, and the committed row ('x', 0) is scanned
    back as (NULL, 0). *)
Theorem varlena_before_fixed_is_overwritten :
  let relation := example_table 7 [text_attribute; int4_attribute] in
  let rows := [[Some text_x; Some (DatumVal 0)]] in
  let '(loaded, st, scanned) := load_commit_scan relation rows in
  is_OK loaded = true
  /\ map (fun seg => map values_offset (colmeta (snd seg))) (dsm_segments st)
     = [[112; 112]]
  /\ scanned = [[None; Some (ScanVal 0)]]
  /\ scan_rows_are st rows scanned = false.
Proof. vm_compute. repeat split. Qed.

(** C4 (the code departs from the claim). One row is loaded by
    transaction 100. When the transaction aborts and the callback takes its
    abort branch (the host still counts 100 as current), the chunk is
    released: slot 0 is back at the head of the free list, its segment
    handle is the invalid one, and every other member still holds what the
    writer put there -- hash, database and table oid, xmin, cid, row count,
    length. The same on the path every host takes: transaction 100
    commits, transaction 102 deletes the table and commits, and the
    callback of transaction 103 finds the deletion below the horizon and
    releases the chunk; the descriptor on the free list keeps its hash, its
    oids, both xids, both hint bits, its row count and its length. *)
Theorem released_descriptor_keeps_its_stamps :
  (let '(loaded, st) :=
     load_abort (example_table 7 [int4_attribute]) [[Some (DatumVal 9)]] in
   is_OK loaded = true
   /\ free_chunks (gstore_head st) = [0%nat; 1%nat]
   /\ concat (active_chunks (gstore_head st)) = []
   /\ chunk_at st 0
      = Some {| hash := 162; database_oid := 5; table_oid := 7;
                xmax := 0; xmin := 100; cid := 0;
                xmax_commited := false; xmin_commited := false;
                kds_nitems := 1; kds_length := 96;
                cuda_dindex := -1; ipc_mhandle := 0;
                dsm_handle := UINT_MAX |}
   /\ chunk_at st 0 <> Some (set_dsm_handle zero_chunk UINT_MAX))
  /\ (in_slot example_deleted 65 0
      /\ free_chunks (gstore_head example_recycled) = [0%nat; 1%nat]
      /\ concat (active_chunks (gstore_head example_recycled)) = []
      /\ chunk_at example_recycled 0
         = Some {| hash := 162; database_oid := 5; table_oid := 7;
                   xmax := 102; xmin := 100; cid := 0;
                   xmax_commited := true; xmin_commited := true;
                   kds_nitems := 1; kds_length := 96;
                   cuda_dindex := -1; ipc_mhandle := 0;
                   dsm_handle := UINT_MAX |}
      /\ chunk_at example_recycled 0
         <> Some (set_dsm_handle zero_chunk UINT_MAX)).
Proof.
  split.
  - vm_compute. repeat split. discriminate.
  - split; [|vm_compute; repeat split; discriminate].
    unfold in_slot. apply (bool_decide_unpack _). vm_compute. exact I.
Qed.

(** C9 (the code departs from the claim). Transaction 100 loads one row
    into table 7 and rolls back. Inside the abort callback the host counts
    no xid as current any more, so the callback does not take the chunk
    for an insertion of the ending transaction: after the callback the
    descriptor is still chained in hash slot 65, with xmin 100, the xid of
    the transaction that has aborted, and with its segment; the free list
    holds the other descriptor only, and the warm counter stays at 1. *)
Theorem abort_callback_keeps_inserted_chunk :
  let writer := example_backend 100 0 [] in
  let loaded :=
    insert_session writer (pgstrom_startup_gstore_fdw 2 0)
                   (example_table 7 [int4_attribute])
                   (example_snapshot 100 0) [[Some (DatumVal 9)]] in
  let st :=
    gstoreXactCallback (in_abort writer) XACT_EVENT_ABORT
                       (result_state loaded) in
  is_OK loaded = true
  /\ GetCurrentTransactionId (in_abort writer) = 100
  /\ has_warm_chunks (gstore_head (result_state loaded)) = 1
  /\ st = example_aborted
  /\ bucket (gstore_head st) 65 = [0%nat]
  /\ free_chunks (gstore_head st) = [1%nat]
  /\ chunk_at st 0 = Some example_chunk
  /\ xmin example_chunk = 100
  /\ has_warm_chunks (gstore_head st) = 1.
Proof. vm_compute. repeat split. Qed.

(** The overlap does not depend on the example: whatever the rows, the
    column that follows a variable-width column is laid out at the very
    offset of that column. *)
Lemma writeout_columns_varlena_overlap (env : HostEnv)
    (cm1 cm2 : kern_colmeta)
    (cmetas : list kern_colmeta) (col1 col2 : gstoreLoadColumn)
    (cols : list gstoreLoadColumn) (nitems_ offset_ : Z) (data : memory) :
  cm_attlen cm1 < 0 ->
  exists m1 m2 ms cs d,
    writeout_columns env (cm1 :: cm2 :: cmetas) (col1 :: col2 :: cols)
                     nitems_ offset_ data
    = (m1 :: m2 :: ms, cs, d)
    /\ values_offset m1 = offset_
    /\ values_offset m2 = offset_.
Proof.
  intros Hvl. apply Z.ltb_lt in Hvl.
  cbn [writeout_columns]. rewrite Hvl. cbv zeta.
  destruct (writeout_dict _ _ _ _ _ _) as [[entries' data1] cm_extra].
  destruct (cm_attlen cm2 <? 0).
  - destruct (writeout_dict _ _ _ _ _ _) as [[entries2 data2] cm_extra2].
    destruct (writeout_columns env cmetas cols _ _ _) as [[ms cs] d].
    eexists _, _, _, _, _. repeat split.
  - destruct (nullmap col2).
    + destruct (writeout_columns env cmetas cols _ _ _) as [[ms cs] d].
      eexists _, _, _, _, _. repeat split.
    + destruct (writeout_columns env cmetas cols _ _ _) as [[ms cs] d].
      eexists _, _, _, _, _. repeat split.
Qed.

(** ** Dictionary lookups and the reset of the builder *)

Lemma memcmp_refl (x : list Z) (n : nat) : memcmp x x n = 0.
Proof.
  revert x. induction n as [|n IH]; intros x; cbn [memcmp]; [reflexivity|].
  rewrite Z.ltb_irrefl. apply IH.
Qed.

Lemma memcmp_eq (n : nat) (x y : list Z) :
  length x = n -> length y = n -> memcmp x y n = 0 -> x = y.
Proof.
  revert x y. induction n as [|n IH]; intros [|b x] [|c y] Hx Hy;
    cbn in Hx, Hy; try discriminate; [reflexivity|].
  cbn [memcmp hd tl].
  destruct (b <? c) eqn:E1; [discriminate|].
  destruct (c <? b) eqn:E2; [discriminate|].
  intros H. apply Z.ltb_ge in E1, E2. f_equal; [lia|].
  apply IH; auto; lia.
Qed.

(** The match function of the dictionary answers zero for equal byte
    strings, and for these only. *)
Lemma vl_dict_compare_eq (key1 key2 : list Z) :
  (vl_dict_compare key1 key2 =? 0) = true <-> key1 = key2.
Proof.
  unfold vl_dict_compare, VARSIZE_ANY. split.
  - destruct (Z.of_nat (length key1) =? Z.of_nat (length key2)) eqn:E;
      [|discriminate].
    apply Z.eqb_eq in E. rewrite Nat2Z.id. intros H. apply Z.eqb_eq in H.
    apply (memcmp_eq (length key1)); auto. lia.
  - intros ->. rewrite Z.eqb_refl, memcmp_refl. reflexivity.
Qed.

Lemma entry_matches_spec (hashvalue_ : Z) (key : list Z) (e : vl_dict_key) :
  ((hashvalue e =? hashvalue_) && (vl_dict_compare (vl_datum e) key =? 0))
  = true <-> entry_matches hashvalue_ key e.
Proof.
  unfold entry_matches. rewrite andb_true_iff, Z.eqb_eq, vl_dict_compare_eq.
  tauto.
Qed.

Lemma hash_search_find_Some (entries : list vl_dict_key) (hashvalue_ : Z)
    (key : list Z) (pos n : nat) :
  hash_search_find entries hashvalue_ key pos = Some n ->
  (pos <= n)%nat
  /\ (exists e, entries !! (n - pos)%nat = Some e
                /\ entry_matches hashvalue_ key e)
  /\ (forall k e, (k < n - pos)%nat -> entries !! k = Some e ->
                  ~ entry_matches hashvalue_ key e).
Proof.
  revert pos. induction entries as [|e0 rest IH]; intros pos;
    cbn [hash_search_find]; [discriminate|].
  destruct ((hashvalue e0 =? hashvalue_)
            && (vl_dict_compare (vl_datum e0) key =? 0)) eqn:Hc.
  - intros H. inversion H; subst n. apply entry_matches_spec in Hc.
    rewrite Nat.sub_diag. split; [lia|]. split; [exists e0; auto|].
    intros k e Hk. lia.
  - intros H. destruct (IH _ H) as (Hle & (e & He & Hm) & Hfirst).
    split; [lia|]. split.
    + exists e. split; [|exact Hm].
      replace (n - pos)%nat with (S (n - S pos)) by lia. exact He.
    + intros [|k] e' Hk He'.
      * cbn in He'. inversion He'; subst e'. intros Hm'.
        apply entry_matches_spec in Hm'. congruence.
      * cbn in He'. apply (Hfirst k e'); [lia | exact He'].
Qed.

Lemma hash_search_find_None (entries : list vl_dict_key) (hashvalue_ : Z)
    (key : list Z) (pos : nat) :
  hash_search_find entries hashvalue_ key pos = None ->
  Forall (fun e => ~ entry_matches hashvalue_ key e) entries.
Proof.
  revert pos. induction entries as [|e0 rest IH]; intros pos;
    cbn [hash_search_find]; [constructor|].
  destruct ((hashvalue e0 =? hashvalue_)
            && (vl_dict_compare (vl_datum e0) key =? 0)) eqn:Hc;
    [discriminate|].
  intros H. constructor; [|eapply IH, H].
  intros Hm. apply entry_matches_spec in Hm. congruence.
Qed.

Lemma hash_search_find_no_match (entries : list vl_dict_key)
    (hashvalue_ : Z) (key : list Z) (pos : nat) :
  Forall (fun e => ~ entry_matches hashvalue_ key e) entries ->
  hash_search_find entries hashvalue_ key pos = None.
Proof.
  intros H. revert pos. induction H as [|e0 rest Hne _ IH]; intros pos;
    cbn [hash_search_find]; [reflexivity|].
  destruct ((hashvalue e0 =? hashvalue_)
            && (vl_dict_compare (vl_datum e0) key =? 0)) eqn:Hc; [|apply IH].
  apply entry_matches_spec in Hc. contradiction.
Qed.

(** A plain varlena is recognised by its header byte, and
    [PG_DETOAST_DATUM_COPY] copies it as it is. *)
Lemma VARATT_IS_4B_U_varlena_4b (payload : list Z) :
  VARATT_IS_4B_U (varlena_4b payload) = true.
Proof.
  unfold VARATT_IS_4B_U, va_header, varlena_4b. cbn [app nth].
  apply Z.eqb_eq. rewrite Z.shiftl_mul_pow2 by lia.
  set (x := Z.of_nat (length payload) + 4).
  change 3 with (Z.ones 2). rewrite Z.land_ones by lia.
  change (2 ^ 2) with 4.
  replace (x * 4) with (4 * x) by lia.
  change 256 with (4 * 64). rewrite Z.mul_mod_distr_l by lia.
  rewrite Z.mul_comm. apply Z.mod_mul. lia.
Qed.

Lemma PG_DETOAST_DATUM_COPY_plain (env : HostEnv) (vl : list Z) :
  VARATT_IS_4B_U vl = true -> PG_DETOAST_DATUM_COPY env vl = vl.
Proof. unfold PG_DETOAST_DATUM_COPY. intros ->. reflexivity. Qed.

(** The reset of the builder goes through when no column has a null
    bitmap, and the writer hands the bitmaps on as it found them. *)
Lemma writeout_reset_None (ls : gstoreLoadState)
    (cols : list gstoreLoadColumn) :
  writeout_reset ls cols = None
  <-> Exists (fun col => nullmap col <> None) cols.
Proof.
  unfold writeout_reset.
  destruct (existsb _ cols) eqn:E.
  - split; [intros _|reflexivity]. apply existsb_exists in E.
    destruct E as (col & Hin & Hcol). apply Exists_exists. exists col.
    split; [apply list_elem_of_In; exact Hin|].
    destruct (nullmap col); [discriminate | discriminate].
  - split; [discriminate|]. intros H. exfalso. apply Exists_exists in H.
    destruct H as (col & Hin & Hcol).
    assert (Ht : existsb (fun col => match nullmap col with
                                     | Some _ => true
                                     | None => false
                                     end) cols = true).
    { apply existsb_exists. exists col.
      split; [apply list_elem_of_In; exact Hin|].
      destruct (nullmap col); [reflexivity | contradiction]. }
    congruence.
Qed.

Lemma writeout_columns_nullmaps (env : HostEnv) (cmetas : list kern_colmeta)
    (cols : list gstoreLoadColumn) (nitems_ offset_ : Z) (data : memory) :
  map nullmap (snd (fst (writeout_columns env cmetas cols nitems_ offset_
                                          data)))
  = map nullmap cols.
Proof.
  revert cols offset_ data.
  induction cmetas as [|cmeta cmetas IH]; intros [|col cols] offset_ data;
    cbn [writeout_columns]; try reflexivity.
  destruct (cm_attlen cmeta <? 0).
  - cbv zeta.
    destruct (writeout_dict _ _ _ _ _ _) as [[entries' data1] cm_extra].
    specialize (IH cols offset_
                  (writeout_offsets data1 offset_ nitems_ entries'
                                    (entry_pointers (values col)))).
    destruct (writeout_columns env cmetas cols _ _ _) as [[ms cs] d].
    cbn [fst snd map nullmap] in *. rewrite IH. reflexivity.
  - cbv zeta. destruct (nullmap col) as [bits|] eqn:Hn.
    + match goal with
      | |- context [writeout_columns env cmetas cols ?n ?o ?d] =>
          specialize (IH cols o d);
          destruct (writeout_columns env cmetas cols n o d) as [[ms cs] d']
      end.
      cbn [fst snd map] in *. rewrite IH. reflexivity.
    + match goal with
      | |- context [writeout_columns env cmetas cols ?n ?o ?d] =>
          specialize (IH cols o d);
          destruct (writeout_columns env cmetas cols n o d) as [[ms cs] d']
      end.
      cbn [fst snd map] in *. rewrite IH. reflexivity.
Qed.

Lemma writeout_image_nullmaps (env : HostEnv) (tupdesc : TupleDesc)
    (ls : gstoreLoadState) :
  map nullmap (snd (writeout_image env tupdesc ls)) = map nullmap (a ls).
Proof.
  unfold writeout_image. cbv zeta.
  match goal with
  | |- context [writeout_columns env ?c ?l ?n ?o ?d] =>
      pose proof (writeout_columns_nullmaps env c l n o d) as H;
      destruct (writeout_columns env c l n o d) as [[ms cs] d']
  end.
  exact H.
Qed.

(** When no column of the builder has a null bitmap, the reset that ends
    the writer goes through. *)
Lemma writeout_reset_without_nullmap (env : HostEnv) (tupdesc : TupleDesc)
    (ls : gstoreLoadState) :
  Forall (fun col => nullmap col = None) (a ls) ->
  writeout_reset ls (snd (writeout_image env tupdesc ls)) <> None.
Proof.
  intros Hall Hnone. apply writeout_reset_None in Hnone.
  apply Exists_exists in Hnone. destruct Hnone as (col & Hin & Hcol).
  apply (list_elem_of_fmap_2 nullmap) in Hin.
  rewrite writeout_image_nullmaps in Hin.
  apply list_elem_of_fmap in Hin. destruct Hin as (col0 & Heq & Hin0).
  rewrite Forall_forall in Hall. specialize (Hall col0 Hin0). congruence.
Qed.

(** ** The descriptor budget *)

Lemma startup_free_chunks (N warm : Z) :
  length (free_chunks (gstore_head (pgstrom_startup_gstore_fdw N warm)))
  = Z.to_nat N.
Proof. cbn. apply length_seq. Qed.

Lemma startup_no_chunk_chained (N warm : Z) (i n : nat) :
  ~ in_slot (pgstrom_startup_gstore_fdw N warm) i n.
Proof.
  unfold in_slot, bucket. cbn [pgstrom_startup_gstore_fdw gstore_head
                               active_chunks].
  destruct (replicate (Z.to_nat GSTORE_CHUNK_HASH_NSLOTS) [] !! i)
    as [b|] eqn:Hb; cbn.
  - apply lookup_replicate in Hb. destruct Hb as [-> _]. apply not_elem_of_nil.
  - apply not_elem_of_nil.
Qed.

Lemma set_config_int_range (conf : config_int) (v : Z) :
  set_config_int conf v = Some v <-> minValue conf <= v <= maxValue conf.
Proof.
  unfold set_config_int.
  destruct (v <? minValue conf) eqn:E1; destruct (maxValue conf <? v) eqn:E2;
    cbn; rewrite ?Z.ltb_lt, ?Z.ltb_ge in *;
    split; intros H; try discriminate; try lia; reflexivity.
Qed.

Section BudgetFacts.
Variable env : HostEnv.
Variable snapshot : SnapshotData.

Lemma with_gs_chunks_same (h : GpuStoreHead) :
  with_gs_chunks h (gs_chunks h) = h.
Proof. destruct h; reflexivity. Qed.

Lemma with_head_same (st : gstore_state) : with_head st (gstore_head st) = st.
Proof. destruct st; reflexivity. Qed.

(** The walk finds nothing, and rewrites nothing, among descriptors of
    other tables. *)
Lemma visible_chunk_in_no_match (chunks : list GpuStoreChunk)
    (nodes : list nat) (h : Z) (d oid : Oid) (snap : SnapshotData) :
  (forall n c, n ∈ nodes -> chunks !! n = Some c -> table_oid c <> oid) ->
  visible_chunk_in env chunks nodes h d oid snap = (None, chunks).
Proof.
  induction nodes as [|n rest IH]; intros Hno; cbn; auto.
  assert (Hrest : forall n c, n ∈ rest -> chunks !! n = Some c ->
                              table_oid c <> oid).
  { intros m c Hm. apply Hno. apply elem_of_cons; auto. }
  destruct (chunks !! n) as [c|] eqn:Hc; auto.
  assert (table_oid c <> oid) as Hne.
  { apply (Hno n); auto. apply elem_of_cons; auto. }
  apply Z.eqb_neq in Hne. rewrite Hne, andb_false_r. auto.
Qed.

Lemma first_chunk_table_absent (st : gstore_state) (relation : Relation)
    (snap : SnapshotData) :
  table_absent st (rd_id relation) ->
  gstore_fdw_first_chunk env (gstore_head st) relation snap
  = (None, gstore_head st).
Proof.
  intros Habs. unfold gstore_fdw_first_chunk.
  rewrite visible_chunk_in_no_match.
  - rewrite with_gs_chunks_same. reflexivity.
  - intros n c Hn Hc. eapply Habs; eauto.
Qed.

Lemma TYPEALIGN_4_4 : TYPEALIGN 4 4 = 4.
Proof. reflexivity. Qed.

(** Begin on an absent one-column int4 table, on a host where [palloc]
    takes the request for the value buffer: the shared state is left as it
    is and the builder starts empty. *)
Lemma begin_int4_table (st : gstore_state) (oid : Oid) :
  table_absent st oid ->
  AllocSizeIsValid (4 * nrooms (int4_load_state env 0 fresh_memory)) = true ->
  gstoreBeginForeignModify env st (example_table oid [int4_attribute])
                           snapshot
  = OK st (int4_load_state env 0 fresh_memory).
Proof.
  intros Habs Hpalloc. unfold gstoreBeginForeignModify.
  cbn [referenced example_table pinning rd_att].
  rewrite (first_chunk_table_absent st (example_table oid [int4_attribute]))
    by exact Habs.
  rewrite with_head_same.
  change (begin_unitsz (numbered [int4_attribute] 1) 0 [])
    with (Some (4, [4])).
  cbv beta iota zeta. change (4 =? 0) with false. cbv iota.
  change (begin_load_state env (example_table oid [int4_attribute]) 4 [4])
    with (int4_load_state env 0 fresh_memory).
  change (begin_values_valid (numbered [int4_attribute] 1) [4]
            (nrooms (int4_load_state env 0 fresh_memory)))
    with (AllocSizeIsValid
            (4 * nrooms (int4_load_state env 0 fresh_memory)) && true).
  rewrite Hpalloc. reflexivity.
Qed.

(** One non-null int4 row that still fits is appended without a flush. *)
Lemma insert_int4_row (st : gstore_state) (oid : Oid) (n v : Z) (m : memory) :
  4 * (n + 1) <= GPUSTORE_CHUNK_SIZE - offsetof_kds_colmeta env 1 ->
  gstoreExecForeignInsert env st (example_table oid [int4_attribute])
                          (int4_load_state env n m) [Some (DatumVal v)]
  = OK st (int4_load_state env (n + 1) (store_le m (4 * n) 4 v)).
Proof.
  intros Hfit. unfold gstoreExecForeignInsert.
  cbv beta iota zeta delta [rd_att example_table numbered int4_load_state
                       a nitems ls_length insert_usage int4_attribute attlen
                       nullmap align Z.ltb Z.compare].
  rewrite TYPEALIGN_4_4.
  replace (0 + 4 * (n + 1) >? GPUSTORE_CHUNK_SIZE
                               - offsetof_kds_colmeta env 1) with false
    by (symmetry; rewrite Z.gtb_ltb; apply Z.ltb_ge; lia).
  cbv beta iota zeta delta [bind nitems a insert_values insert_value
                       int4_attribute attlen attbyval attnotnull nullmap
                       Z.ltb Z.compare Z.eqb Pos.eqb negb values align
                       byte_values with_values vl_dict extra_sz gcontext
                       ls_length nrooms DatumGetWord].
  rewrite TYPEALIGN_4_4. reflexivity.
Qed.


(** The writer with a free descriptor at hand and no device copy to make:
    the descriptor [dnode] leaves the free list, is stamped for the table
    and the current transaction, and is chained at the tail of the table's
    hash slot; the image becomes a new shared segment. *)
Lemma writeout_reset_nitems (ls ls' : gstoreLoadState)
    (cols : list gstoreLoadColumn) :
  writeout_reset ls cols = Some ls' -> nitems ls' = 0.
Proof.
  unfold writeout_reset. destruct (existsb _ cols); [discriminate|].
  intros H. inversion H. reflexivity.
Qed.

Lemma writeout_chunk_publishes (st : gstore_state) (relation : Relation)
    (ls : gstoreLoadState) (dnode : nat) (rest : list nat) :
  gcontext ls = None ->
  free_chunks (gstore_head st) = dnode :: rest ->
  writeout_reset ls (snd (writeout_image env (rd_att relation) ls))
  <> None ->
  exists st' ls' chunk,
    gstore_fdw_writeout_chunk env st relation ls = OK st' ls'
    /\ nitems ls' = 0
    /\ free_chunks (gstore_head st') = rest
    /\ active_chunks (gstore_head st')
       = <[hash_index (hash chunk) :=
             bucket (gstore_head st) (hash_index (hash chunk)) ++ [dnode]]>
           (active_chunks (gstore_head st))
    /\ gs_chunks (gstore_head st')
       = <[dnode := chunk]> (gs_chunks (gstore_head st))
    /\ table_oid chunk = rd_id relation
    /\ xmin chunk = GetCurrentTransactionId env
    /\ kds_nitems chunk = to_uint32 (nitems ls)
    /\ kds_length chunk
       = k_length (fst (writeout_image env (rd_att relation) ls))
    /\ dsm_segments st'
       = dsm_segments st
         ++ [(dsm_next_handle st,
              fst (writeout_image env (rd_att relation) ls))].
Proof.
  intros Hctx Hfree Hreset. unfold gstore_fdw_writeout_chunk.
  assert (Hn : k_nitems (fst (writeout_image env (rd_att relation) ls))
               = to_uint32 (nitems ls)).
  { unfold writeout_image.
    destruct (writeout_columns _ _ _ _ _ _) as [[cmetas cols] data].
    reflexivity. }
  destruct (writeout_image env (rd_att relation) ls) as [kds cols].
  cbn [fst snd] in *. unfold dsm_create. rewrite Hctx. cbn [bind gstore_head].
  rewrite Hfree. cbv zeta.
  destruct (writeout_reset ls cols) as [ls'|] eqn:Hr; [|congruence].
  eexists _, _, _. split; [reflexivity|].
  split; [eapply writeout_reset_nitems, Hr|].
  cbn. rewrite Hn. unfold dlist_push_tail. repeat split; reflexivity.
Qed.

(** Every way [gstore_fdw_writeout_chunk] can end.  It returns only if a
    free descriptor was at hand, the device copy, when asked for, went
    through, and no column had a null bitmap to release; the descriptor is
    then stamped for the table and chained at the tail of the table's hash
    slot.  It stops in the release of a null bitmap only after it has taken
    a descriptor.  Otherwise it raises, and the shared head is as before
    the call. *)
Lemma writeout_chunk_outcome (st : gstore_state) (relation : Relation)
    (ls : gstoreLoadState) :
  match gstore_fdw_writeout_chunk env st relation ls with
  | OK st' ls' =>
      (gcontext ls = None \/ forall c, cuda_success env c = true)
      /\ nitems ls' = 0
      /\ (exists dnode rest chunk,
           free_chunks (gstore_head st) = dnode :: rest
           /\ free_chunks (gstore_head st') = rest
           /\ active_chunks (gstore_head st')
              = <[hash_index (hash chunk) :=
                    bucket (gstore_head st) (hash_index (hash chunk))
                    ++ [dnode]]> (active_chunks (gstore_head st))
           /\ gs_chunks (gstore_head st')
              = <[dnode := chunk]> (gs_chunks (gstore_head st))
           /\ table_oid chunk = rd_id relation)
      /\ writeout_reset ls (snd (writeout_image env (rd_att relation) ls))
         = Some ls'
  | Err st' e =>
      (e = FreedMemoryAccess
       /\ free_chunks (gstore_head st) <> []
       /\ writeout_reset ls (snd (writeout_image env (rd_att relation) ls))
          = None)
      \/ (gstore_head st' = gstore_head st
          /\ ((e = ResourceExhausted /\ free_chunks (gstore_head st) = [])
              \/ exists c, e = CudaFailed c /\ cuda_success env c = false
                           /\ gcontext ls <> None))
  end.
Proof.
  unfold gstore_fdw_writeout_chunk.
  destruct (writeout_image env (rd_att relation) ls) as [kds cols].
  cbn [snd].
  destruct (dsm_create st kds) as [st1 handle] eqn:Hdsm.
  assert (Hh1 : gstore_head st1 = gstore_head st).
  { unfold dsm_create in Hdsm. inversion Hdsm; subst. reflexivity. }
  destruct (gcontext ls) as [d|] eqn:Hctx.
  - pose proof (writeout_to_device_frame env st1 d) as Hdev.
    destruct (writeout_to_device env st1 d) as [st2 ipc | st2 e]; cbn [bind].
    + destruct Hdev as (Hh2 & _ & _ & _ & Hok). rewrite Hh2, Hh1.
      destruct (free_chunks (gstore_head st)) as [|dnode rest] eqn:Hfree.
      * right. rewrite gpuMemFreePreserved_head. split; [congruence|].
        left. auto.
      * cbv zeta. destruct (writeout_reset ls cols) as [ls'|] eqn:Hr.
        -- split; [right; exact Hok|].
           split; [eapply writeout_reset_nitems, Hr|].
           split; [|reflexivity].
           eexists dnode, rest, _. split; [reflexivity|].
           cbn. unfold dlist_push_tail. repeat split; reflexivity.
        -- left. repeat split; congruence.
    + destruct Hdev as (Hh2 & _ & _ & _ & c & He & Hc). right.
      split; [congruence|]. right. exists c. repeat split; auto; discriminate.
  - cbn [bind]. rewrite Hh1.
    destruct (free_chunks (gstore_head st)) as [|dnode rest] eqn:Hfree.
    + right. split; [exact Hh1|]. left. auto.
    + cbv zeta. destruct (writeout_reset ls cols) as [ls'|] eqn:Hr.
      * split; [left; reflexivity|].
        split; [eapply writeout_reset_nitems, Hr|].
        split; [|reflexivity].
        eexists dnode, rest, _. split; [reflexivity|].
        cbn. unfold dlist_push_tail. repeat split; reflexivity.
      * left. repeat split; congruence.
Qed.

(** Begin on a table without chained descriptor leaves the shared state
    alone; what it returns depends on the table definition only. *)
Lemma begin_table_absent (st : gstore_state) (relation : Relation) :
  table_absent st (rd_id relation) ->
  gstoreBeginForeignModify env st relation snapshot
  = match referenced relation with
    | Some _ => Err st NotPrimary
    | None =>
        match begin_unitsz (rd_att relation) 0 [] with
        | None => Err st UnexpectedAlignment
        | Some (unitsz, aligns) =>
            if unitsz =? 0 then Err st DivideByZero
            else if begin_values_valid
                      (rd_att relation) aligns
                      (nrooms (begin_load_state env relation unitsz aligns))
                 then OK st (begin_load_state env relation unitsz aligns)
                 else Err st InvalidAllocRequest
        end
    end.
Proof.
  intros Habs. unfold gstoreBeginForeignModify.
  destruct (referenced relation); [reflexivity|].
  rewrite (first_chunk_table_absent st relation) by exact Habs.
  rewrite with_head_same. reflexivity.
Qed.

Lemma exec_insert_no_flush (st : gstore_state) (relation : Relation)
    (ls : gstoreLoadState) (slot : TupleTableSlot) :
  (insert_usage env (rd_att relation) slot (a ls) (nitems ls) 0
   >? ls_length ls) = false ->
  gstoreExecForeignInsert env st relation ls slot
  = match insert_values env (rd_att relation) slot (a ls) (nitems ls) with
    | inl e => Err st e
    | inr cols =>
        OK st {| gcontext := gcontext ls; ls_length := ls_length ls;
                 nrooms := nrooms ls; nitems := nitems ls + 1; a := cols |}
    end.
Proof.
  intros Hfit. unfold gstoreExecForeignInsert. rewrite Hfit. reflexivity.
Qed.

(** With no free descriptor the writer cannot return. *)
Lemma writeout_chunk_needs_descriptor (st : gstore_state)
    (relation : Relation) (ls : gstoreLoadState) :
  free_chunks (gstore_head st) = [] ->
  is_OK (gstore_fdw_writeout_chunk env st relation ls) = false.
Proof.
  intros Hfree. pose proof (writeout_chunk_outcome st relation ls) as Ho.
  destruct (gstore_fdw_writeout_chunk env st relation ls); [|reflexivity].
  destruct Ho as (_ & _ & (dnode & rest & chunk & Hf & _) & _). congruence.
Qed.

(** A load that goes through on its own reaches the writer with one
    buffered row, without having flushed and without having touched the
    shared state, and with no null bitmap to release; the same holds from
    any state in which the table has no chained descriptor. *)
Lemma load_alone_reaches_writer (load : Relation * TupleTableSlot) :
  loads_alone env snapshot load ->
  exists ls,
    (gcontext ls = None \/ forall c, cuda_success env c = true)
    /\ writeout_reset ls (snd (writeout_image env (rd_att (fst load)) ls))
       <> None
    /\ forall st, table_absent st (rd_id (fst load)) ->
         one_row_load env snapshot st load
         = bind (gstore_fdw_writeout_chunk env st (fst load) ls)
                (fun st1 _ => OK st1 tt).
Proof.
  destruct load as [relation slot]. unfold loads_alone, one_row_load.
  cbn [fst snd]. unfold insert_session.
  set (st0 := pgstrom_startup_gstore_fdw 1 0).
  assert (Habs0 : table_absent st0 (rd_id relation)).
  { intros i n c Hi. destruct (startup_no_chunk_chained 1 0 i n Hi). }
  rewrite (begin_table_absent st0 relation Habs0).
  destruct (referenced relation) eqn:Href; [discriminate|].
  destruct (begin_unitsz (rd_att relation) 0 []) as [[unitsz aligns]|] eqn:Hu;
    [|discriminate].
  destruct (unitsz =? 0) eqn:Hz; [discriminate|].
  set (ls0 := begin_load_state env relation unitsz aligns).
  destruct (begin_values_valid (rd_att relation) aligns (nrooms ls0))
    eqn:Hpalloc; [|discriminate].
  cbn [bind insert_rows].
  destruct (insert_usage env (rd_att relation) slot (a ls0) (nitems ls0) 0
            >? ls_length ls0) eqn:Hfit.
  - (* a flush would use up the only descriptor before the final write *)
    intros Hok. exfalso. unfold gstoreExecForeignInsert in Hok.
    rewrite Hfit in Hok.
    pose proof (writeout_chunk_outcome st0 relation ls0) as Ho.
    destruct (gstore_fdw_writeout_chunk env st0 relation ls0)
      as [st1 ls1 | st1 e]; [|discriminate].
    destruct Ho as (_ & Hn & (dnode & rest & chunk & Hf & Hf' & _) & _).
    assert (Hrest : rest = [])
      by (change (free_chunks (gstore_head st0)) with [0%nat] in Hf;
          congruence).
    rewrite Hrest in Hf'.
    cbn [bind] in Hok.
    destruct (insert_values env (rd_att relation) slot (a ls1) (nitems ls1));
      [discriminate|].
    cbn [bind] in Hok. unfold gstoreEndForeignModify in Hok. cbn [nitems] in Hok.
    rewrite Hn in Hok. change (0 + 1 >? 0) with true in Hok. cbv iota in Hok.
    pose proof (writeout_chunk_needs_descriptor st1 relation
                  {| gcontext := gcontext ls1; ls_length := ls_length ls1;
                     nrooms := nrooms ls1; nitems := 0 + 1; a := l |} Hf')
      as Hno.
    destruct (gstore_fdw_writeout_chunk env st1 relation _); discriminate.
  - rewrite (exec_insert_no_flush st0 relation ls0 slot Hfit).
    destruct (insert_values env (rd_att relation) slot (a ls0) (nitems ls0))
      as [e|cols] eqn:Hins; [discriminate|].
    cbn [bind]. unfold gstoreEndForeignModify at 1. cbn [nitems].
    change (nitems ls0 + 1 >? 0) with true. cbv iota.
    set (ls1 := {| gcontext := gcontext ls0; ls_length := ls_length ls0;
                   nrooms := nrooms ls0; nitems := nitems ls0 + 1;
                   a := cols |}).
    intros Hok. exists ls1.
    pose proof (writeout_chunk_outcome st0 relation ls1) as Ho.
    destruct (gstore_fdw_writeout_chunk env st0 relation ls1);
      [|discriminate].
    destruct Ho as (Hgpu & _ & _ & Hreset).
    split; [exact Hgpu|]. split; [rewrite Hreset; discriminate|].
    intros st' Habs. rewrite (begin_table_absent st' relation Habs).
    rewrite Href, Hu, Hz. fold ls0. rewrite Hpalloc.
    cbn [bind insert_rows].
    rewrite (exec_insert_no_flush st' relation ls0 slot Hfit).
    rewrite Hins. cbn [bind]. unfold gstoreEndForeignModify. cbn [nitems].
    change (nitems ls0 + 1 >? 0) with true. cbv iota. reflexivity.
Qed.

Lemma one_row_load_publishes (st : gstore_state)
    (load : Relation * TupleTableSlot) (dnode : nat) (rest : list nat) :
  loads_alone env snapshot load ->
  table_absent st (rd_id (fst load)) ->
  free_chunks (gstore_head st) = dnode :: rest ->
  exists st',
    one_row_load env snapshot st load = OK st' tt
    /\ free_chunks (gstore_head st') = rest
    /\ (forall i n, in_slot st' i n -> in_slot st i n \/ n = dnode)
    /\ (forall n c, chunk_at st' n = Some c ->
                    (n <> dnode /\ chunk_at st n = Some c)
                    \/ table_oid c = rd_id (fst load)).
Proof.
  intros Halone Habs Hfree.
  destruct (load_alone_reaches_writer load Halone)
    as (ls & Hgpu & Hreset & Hreach).
  rewrite (Hreach st Habs).
  pose proof (writeout_chunk_outcome st (fst load) ls) as Ho.
  destruct (gstore_fdw_writeout_chunk env st (fst load) ls) as [st' ls'|st' e].
  - destruct Ho
      as (_ & _ & (dnode' & rest' & chunk & Hf0 & Hf & Ha & Hg & Ht) & _).
    rewrite Hfree in Hf0. inversion Hf0; subst dnode' rest'. clear Hf0.
    cbn [bind]. exists st'. repeat split; auto.
    + intros i n. unfold in_slot, bucket. rewrite Ha.
      destruct (Nat.eq_dec (hash_index (hash chunk)) i) as [<-|Hne].
      * destruct (active_chunks (gstore_head st) !! hash_index (hash chunk))
          as [b|] eqn:Hb.
        -- rewrite list_lookup_insert_eq by (eapply lookup_lt_Some; eauto).
           cbn [default from_option]. intros Hn.
           apply elem_of_app in Hn. rewrite list_elem_of_singleton in Hn.
           unfold bucket in Hn. rewrite Hb in Hn. exact Hn.
        -- rewrite list_insert_ge by (apply lookup_ge_None; exact Hb).
           rewrite Hb. auto.
      * rewrite list_lookup_insert_ne by exact Hne. auto.
    + intros n c. unfold chunk_at. rewrite Hg.
      destruct (Nat.eq_dec dnode n) as [<-|Hne].
      * destruct (lt_dec dnode (length (gs_chunks (gstore_head st))))
          as [Hlt|Hge].
        -- rewrite list_lookup_insert_eq by exact Hlt.
           intros H; inversion H; subst. right. exact Ht.
        -- rewrite list_insert_ge by lia. intros H.
           apply lookup_lt_Some in H. lia.
      * rewrite list_lookup_insert_ne by exact Hne. auto.
  - exfalso.
    destruct Ho as [(_ & _ & Hr) | (_ & [[_ Hnil] | (c & _ & Hc & Hctx)])].
    + congruence.
    + congruence.
    + destruct Hgpu as [Hnone | Hall]; [congruence|].
      rewrite Hall in Hc. discriminate.
Qed.

Lemma one_row_load_exhausted (st : gstore_state)
    (load : Relation * TupleTableSlot) :
  loads_alone env snapshot load ->
  table_absent st (rd_id (fst load)) ->
  free_chunks (gstore_head st) = [] ->
  exists st',
    one_row_load env snapshot st load = Err st' ResourceExhausted
    /\ gstore_head st' = gstore_head st.
Proof.
  intros Halone Habs Hfree.
  destruct (load_alone_reaches_writer load Halone)
    as (ls & Hgpu & Hreset & Hreach).
  rewrite (Hreach st Habs).
  pose proof (writeout_chunk_outcome st (fst load) ls) as Ho.
  destruct (gstore_fdw_writeout_chunk env st (fst load) ls) as [st' ls'|st' e].
  - destruct Ho as (_ & _ & (dnode & rest & chunk & Hf & _) & _). congruence.
  - destruct Ho as [(_ & Hne & _) | (Hh & [[-> _] | (c & _ & Hc & Hctx)])].
    + congruence.
    + cbn [bind]. eauto.
    + exfalso. destruct Hgpu as [Hnone | Hall]; [congruence|].
      rewrite Hall in Hc. discriminate.
Qed.

(** Loading one table after the other takes one descriptor per table. *)
Lemma bulk_loads_fill (loads : list (Relation * TupleTableSlot))
    (done : list Oid) (st : gstore_state) :
  Forall (loads_alone env snapshot) loads ->
  NoDup (done ++ map (fun load => rd_id (fst load)) loads) ->
  tables_within st done ->
  (length loads <= length (free_chunks (gstore_head st)))%nat ->
  exists st',
    bulk_loads env snapshot st loads = OK st' tt
    /\ tables_within st' (done ++ map (fun load => rd_id (fst load)) loads)
    /\ length (free_chunks (gstore_head st'))
       = (length (free_chunks (gstore_head st)) - length loads)%nat.
Proof.
  intros Hall. revert done st.
  induction Hall as [|load rest Hload _ IH]; intros done st Hnd Hin Hlen.
  - exists st. cbn. rewrite app_nil_r. repeat split; auto. lia.
  - cbn [map] in *. cbn [length] in Hlen.
    destruct (free_chunks (gstore_head st)) as [|dnode free'] eqn:Hfree;
      [cbn in Hlen; lia|].
    assert (Habs : table_absent st (rd_id (fst load))).
    { intros i n c Hi Hc Heq. apply NoDup_app in Hnd.
      destruct Hnd as (_ & Hdisj & _).
      apply (Hdisj (rd_id (fst load))); [|apply elem_of_cons; auto].
      rewrite <- Heq. eapply Hin; eauto. }
    destruct (one_row_load_publishes st load dnode free' Hload Habs Hfree)
      as (st1 & Hl & Hf1 & Hslots & Hchunks).
    destruct (IH (done ++ [rd_id (fst load)]) st1) as (st' & Hb & Hw & Hlen').
    + rewrite <- app_assoc. exact Hnd.
    + intros i n c Hi Hc. rewrite elem_of_app, list_elem_of_singleton.
      destruct (Hchunks n c Hc) as [[Hne Hold]|Hnew]; [|auto].
      destruct (Hslots i n Hi) as [Hi'|Heq]; [|congruence].
      left. eapply Hin; eauto.
    + rewrite Hf1. cbn in Hlen. lia.
    + exists st'. cbn [bulk_loads]. rewrite Hl. cbn [bind].
      rewrite <- app_assoc in Hw. repeat split; auto.
      rewrite Hlen', Hf1. cbn. lia.
Qed.

End BudgetFacts.





(** ** The column builder and the image budget *)

Lemma MAXALIGN_multiple (k : Z) : MAXALIGN (8 * k) = 8 * k.
Proof.
  unfold MAXALIGN, TYPEALIGN, MAXIMUM_ALIGNOF.
  change (8 - 1) with (Z.ones 3).
  rewrite <- Z.ldiff_land, Z.ldiff_ones_r by lia.
  rewrite Z.shiftr_div_pow2, Z.shiftl_mul_pow2 by lia.
  change (2 ^ 3) with 8. change (Z.ones 3) with 7.
  replace (8 * k + 7) with (7 + k * 8) by lia.
  rewrite Z.div_add by lia. change (7 / 8) with 0. lia.
Qed.

Section BuilderFacts.
Variable env : HostEnv.
Variable snapshot : SnapshotData.

Local Abbreviation budget :=
  (GPUSTORE_CHUNK_SIZE - offsetof_kds_colmeta env 1).

(** Any number of non-null int4 rows is buffered without a flush as long
    as four bytes per row fit the budget; [nrooms] plays no part. *)
Lemma insert_int4_rows (st : gstore_state) (oid : Oid)
    (rows : list TupleTableSlot) :
  Forall int4_row rows ->
  forall (n : Z) (m : memory),
  4 * (n + Z.of_nat (length rows)) <= budget ->
  exists m',
    insert_rows env st (example_table oid [int4_attribute])
                (int4_load_state env n m) rows
    = OK st (int4_load_state env (n + Z.of_nat (length rows)) m').
Proof.
  induction 1 as [|row rows [v ->] _ IH]; intros n m Hfit.
  - exists m. cbn. rewrite Z.add_0_r. reflexivity.
  - cbn [insert_rows]. rewrite length_cons, Nat2Z.inj_succ in Hfit.
    rewrite insert_int4_row by lia. cbn [bind].
    destruct (IH (n + 1) (store_le m (4 * n) 4 v)) as [m' Hm']; [lia|].
    exists m'. rewrite Hm'. rewrite length_cons, Nat2Z.inj_succ.
    f_equal. f_equal. lia.
Qed.

Lemma writeout_image_length (tupdesc : TupleDesc) (ls : gstoreLoadState) :
  k_length (fst (writeout_image env tupdesc ls))
  = to_uint32
      (writeout_length tupdesc (a ls) (nitems ls)
         (MAXALIGN (offsetof_kds_colmeta env
                      (Z.of_nat (List.length tupdesc))))).
Proof.
  unfold writeout_image.
  destruct (writeout_columns _ _ _ _ _ _) as [[cmetas cols] data].
  reflexivity.
Qed.

(** A load of non-null int4 rows that fit the budget writes exactly one
    chunk at the end: one descriptor leaves the free list, one segment is
    created, and the descriptor records the number of rows. *)
Lemma int4_session_one_chunk (st : gstore_state) (oid : Oid)
    (rows : list TupleTableSlot) (dnode : nat) (rest : list nat) :
  table_absent st oid ->
  AllocSizeIsValid (4 * nrooms (int4_load_state env 0 fresh_memory)) = true ->
  Forall int4_row rows ->
  (0 < length rows)%nat ->
  4 * Z.of_nat (length rows) <= budget ->
  free_chunks (gstore_head st) = dnode :: rest ->
  exists st' chunk kds,
    insert_session env st (example_table oid [int4_attribute]) snapshot rows
    = OK st' tt
    /\ free_chunks (gstore_head st') = rest
    /\ dsm_segments st' = dsm_segments st ++ [(dsm_next_handle st, kds)]
    /\ gs_chunks (gstore_head st')
       = <[dnode := chunk]> (gs_chunks (gstore_head st))
    /\ kds_nitems chunk = to_uint32 (Z.of_nat (length rows)).
Proof.
  intros Habs Hpalloc Hrows Hpos Hfit Hfree. unfold insert_session.
  rewrite begin_int4_table by assumption. cbn [bind].
  destruct (insert_int4_rows st oid rows Hrows 0 fresh_memory) as [m' Hm'];
    [lia|].
  rewrite Hm'. cbn [bind]. unfold gstoreEndForeignModify.
  cbn [nitems int4_load_state].
  replace (0 + Z.of_nat (length rows) >? 0) with true
    by (symmetry; rewrite Z.gtb_ltb; apply Z.ltb_lt; lia).
  destruct (writeout_chunk_publishes env st
              (example_table oid [int4_attribute])
              (int4_load_state env (0 + Z.of_nat (length rows)) m')
              dnode rest eq_refl Hfree)
    as (st' & ls' & chunk & Hw & _ & Hf & _ & Hg & _ & _ & Hn & _ & Hd).
  { apply writeout_reset_without_nullmap. repeat constructor. }
  rewrite Hw. cbn [bind]. exists st', chunk. eexists.
  repeat split; eauto.
Qed.

End BuilderFacts.

Lemma Forall_int4_row_repeat (v : Z) (k : nat) :
  Forall int4_row (repeat [Some (DatumVal v)] k).
Proof.
  induction k as [|k IH]; cbn; constructor; auto. exists v. reflexivity.
Qed.

(** On the example host the budget of a one-column int4 table is
    2^30 - 88 bytes and [nrooms] is 268435432; every load of up to
    [nrooms + 2] non-null rows ends in a single chunk. *)
Lemma int4_rows_within_budget_one_chunk (k warm : Z) :
  0 < k <= 268435432 + 2 ->
  let env := example_backend 100 0 [] in
  let rows := repeat [Some (DatumVal 0)] (Z.to_nat k) in
  exists st chunk kds,
    insert_session env (pgstrom_startup_gstore_fdw 2048 warm)
                   (example_table 7 [int4_attribute])
                   (example_snapshot 100 0) rows = OK st tt
    /\ free_chunks (gstore_head st) = seq 1 2047
    /\ dsm_segments st = [(1, kds)]
    /\ chunk_at st 0 = Some chunk
    /\ kds_nitems chunk = k.
Proof.
  intros Hk env rows.
  assert (Hlen : Z.of_nat (length rows) = k).
  { subst rows. rewrite repeat_length. lia. }
  assert (Hrows : Forall int4_row rows) by apply Forall_int4_row_repeat.
  clearbody rows.
  destruct (int4_session_one_chunk env (example_snapshot 100 0)
              (pgstrom_startup_gstore_fdw 2048 warm) 7 rows 0%nat
              (seq 1 2047))
    as (st & chunk & kds & Hs & Hf & Hd & Hg & Hn).
  - intros i n c Hi. destruct (startup_no_chunk_chained 2048 warm i n Hi).
  - reflexivity.
  - exact Hrows.
  - unfold TupleTableSlot in *. lia.
  - unfold TupleTableSlot in *. rewrite Hlen.
    change (GPUSTORE_CHUNK_SIZE - offsetof_kds_colmeta env 1)
      with 1073741736. lia.
  - reflexivity.
  - exists st, chunk, kds. repeat split; auto.
    + unfold chunk_at. rewrite Hg. apply list_lookup_insert_eq.
      cbn [pgstrom_startup_gstore_fdw gstore_head gs_chunks].
      rewrite length_replicate. lia.
    + unfold TupleTableSlot in *. rewrite Hn, Hlen.
      unfold to_uint32. apply Z.mod_small. lia.
Qed.

(** C6 (the code departs from the claim). A one-column int4 table on the
    example host, in a freshly started directory of 2048 descriptors,
    whatever its warm counter: [gstoreBeginForeignModify] computes
    nrooms = 268435432, and a load of nrooms + 1 non-null rows still ends
    in one chunk -- one descriptor off the free list, one segment,
    nrooms + 1 rows recorded in it -- where the claim expects two. *)
Theorem nrooms_plus_one_rows_one_chunk (warm : Z) :
  let env := example_backend 100 0 [] in
  let relation := example_table 7 [int4_attribute] in
  let st0 := pgstrom_startup_gstore_fdw 2048 warm in
  let rows := repeat [Some (DatumVal 0)] (Z.to_nat (268435432 + 1)) in
  (exists ls,
     gstoreBeginForeignModify env st0 relation (example_snapshot 100 0)
     = OK st0 ls /\ nrooms ls = 268435432)
  /\ exists st chunk kds,
       insert_session env st0 relation (example_snapshot 100 0) rows
       = OK st tt
       /\ free_chunks (gstore_head st) = seq 1 2047
       /\ dsm_segments st = [(1, kds)]
       /\ chunk_at st 0 = Some chunk
       /\ kds_nitems chunk = 268435432 + 1.
Proof.
  intros env relation st0 rows. split.
  - exists (int4_load_state env 0 fresh_memory). split; [|reflexivity].
    apply begin_int4_table; [|reflexivity].
    intros i n c Hi. destruct (startup_no_chunk_chained 2048 warm i n Hi).
  - apply (int4_rows_within_budget_one_chunk (268435432 + 1)). lia.
Qed.

(** The first half of the boundary holds for such rows: exactly [nrooms]
    non-null rows end in one chunk. *)
Example nrooms_rows_one_chunk (warm : Z) :
  let env := example_backend 100 0 [] in
  let rows := repeat [Some (DatumVal 0)] (Z.to_nat 268435432) in
  exists st chunk kds,
    insert_session env (pgstrom_startup_gstore_fdw 2048 warm)
                   (example_table 7 [int4_attribute])
                   (example_snapshot 100 0) rows = OK st tt
    /\ free_chunks (gstore_head st) = seq 1 2047
    /\ dsm_segments st = [(1, kds)]
    /\ chunk_at st 0 = Some chunk
    /\ kds_nitems chunk = 268435432.
Proof. apply (int4_rows_within_budget_one_chunk 268435432). lia. Qed.

Section TextBuilderFacts.
Variable env : HostEnv.
Variable snapshot : SnapshotData.

Local Abbreviation budget :=
  (GPUSTORE_CHUNK_SIZE - offsetof_kds_colmeta env 2).

(** Begin on an absent table (int4, text), on a host where [palloc] takes
    the requests for both value buffers: the shared state is left as it
    is and the builder starts empty. *)
Lemma begin_int4_text_table (st : gstore_state) (oid : Oid) :
  table_absent st oid ->
  let ls0 := int4_text_load_state env 0 fresh_memory [] 0 (fun _ => None) in
  AllocSizeIsValid (4 * nrooms ls0) = true ->
  AllocSizeIsValid (8 * nrooms ls0) = true ->
  gstoreBeginForeignModify env st
    (example_table oid [int4_attribute; text_attribute]) snapshot
  = OK st ls0.
Proof.
  intros Habs ls0 Hp4 Hp8. unfold gstoreBeginForeignModify.
  cbn [referenced example_table pinning rd_att].
  rewrite (first_chunk_table_absent env st
             (example_table oid [int4_attribute; text_attribute]))
    by exact Habs.
  rewrite with_head_same.
  change (begin_unitsz (numbered [int4_attribute; text_attribute] 1) 0 [])
    with (Some (8, [4; 0])).
  cbv beta iota zeta. change (8 =? 0) with false. cbv iota.
  change (begin_load_state env
            (example_table oid [int4_attribute; text_attribute]) 8 [4; 0])
    with ls0.
  change (begin_values_valid (numbered [int4_attribute; text_attribute] 1)
            [4; 0] (nrooms ls0))
    with (AllocSizeIsValid (4 * nrooms ls0)
          && (AllocSizeIsValid (8 * nrooms ls0) && true)).
  rewrite Hp4, Hp8. reflexivity.
Qed.

(** A row whose text value finds no entry in the dictionary is charged
    with the int4 values so far, its own padded text and one offset slot,
    whatever the dictionary already holds. *)
Lemma usage_int4_text_row_new (oid : Oid) (n w : Z)
    (m : memory) (entries : list vl_dict_key) (extra : Z)
    (p : Z -> option nat) (v : list Z) :
  hash_search_find entries (vl_dict_hash_value env v) v 0 = None ->
  insert_usage env
    (rd_att (example_table oid [int4_attribute; text_attribute]))
    [Some (DatumVal w); Some (DatumPtr v)]
    (a (int4_text_load_state env n m entries extra p)) n 0
  = 4 * (n + 1) + MAXALIGN (VARSIZE_ANY v) + 4.
Proof.
  intros Hnew.
  cbv beta iota zeta delta [rd_att example_table numbered
                            int4_text_load_state a nitems
                            ls_length insert_usage int4_attribute
                            text_attribute attlen nullmap align
                            vl_dict default from_option id DatumGetPointer
                            Z.ltb Z.compare sizeof_cl_uint].
  rewrite Hnew, TYPEALIGN_4_4. reflexivity.
Qed.

(** If that fits the budget the row is buffered without a flush, and the
    copy of the text becomes a new entry. *)
Lemma insert_int4_text_row_new (st : gstore_state) (oid : Oid) (n w : Z)
    (m : memory) (entries : list vl_dict_key) (extra : Z)
    (p : Z -> option nat) (v : list Z) :
  hash_search_find entries (vl_dict_hash_value env v) v 0 = None ->
  4 * (n + 1) + MAXALIGN (VARSIZE_ANY v) + 4 <= budget ->
  gstoreExecForeignInsert env st
    (example_table oid [int4_attribute; text_attribute])
    (int4_text_load_state env n m entries extra p)
    [Some (DatumVal w); Some (DatumPtr v)]
  = OK st (int4_text_load_state env (n + 1) (store_le m (4 * n) 4 w)
             (entries ++ [{| hashvalue := vl_dict_hash_value env v;
                             offset := 0;
                             vl_datum := PG_DETOAST_DATUM_COPY env v |}])
             (extra + MAXALIGN (VARSIZE_ANY v))
             (fun j => if j =? n then Some (length entries) else p j)).
Proof.
  intros Hnew Hfit. unfold gstoreExecForeignInsert.
  cbv beta iota zeta delta [rd_att example_table numbered
                            int4_text_load_state a nitems
                            ls_length insert_usage int4_attribute
                            text_attribute attlen nullmap align
                            vl_dict default from_option id DatumGetPointer
                            Z.ltb Z.compare sizeof_cl_uint].
  rewrite Hnew, TYPEALIGN_4_4.
  replace (0 + 4 * (n + 1) + MAXALIGN (VARSIZE_ANY v) + 4 >? budget)
    with false
    by (symmetry; rewrite Z.gtb_ltb; apply Z.ltb_ge; lia).
  cbv beta iota zeta delta [bind nitems a insert_values insert_value
                            int4_attribute text_attribute attlen attbyval
                            attnotnull nullmap Z.ltb Z.compare Z.eqb Pos.eqb
                            negb vl_dict default from_option id
                            DatumGetPointer DatumGetWord values align
                            byte_values with_values
                            entry_pointers extra_sz gcontext ls_length
                            nrooms].
  rewrite Hnew, TYPEALIGN_4_4. reflexivity.
Qed.

(** Two rows with different text values, each fitting the budget on its
    own, are both buffered; the chunk written at the end has the length of
    the header, the two int4 values, two offset slots and both padded
    payloads. *)
Lemma int4_text_session_two_values (st : gstore_state) (oid : Oid)
    (w1 w2 : Z) (v1 v2 : list Z) (dnode : nat) (rest : list nat) :
  table_absent st oid ->
  let ls0 := int4_text_load_state env 0 fresh_memory [] 0 (fun _ => None) in
  AllocSizeIsValid (4 * nrooms ls0) = true ->
  AllocSizeIsValid (8 * nrooms ls0) = true ->
  PG_DETOAST_DATUM_COPY env v1 <> v2 ->
  4 + MAXALIGN (VARSIZE_ANY v1) + 4 <= budget ->
  8 + MAXALIGN (VARSIZE_ANY v2) + 4 <= budget ->
  free_chunks (gstore_head st) = dnode :: rest ->
  exists st' kds,
    insert_session env st (example_table oid [int4_attribute; text_attribute])
                   snapshot
                   [[Some (DatumVal w1); Some (DatumPtr v1)];
                    [Some (DatumVal w2); Some (DatumPtr v2)]] = OK st' tt
    /\ free_chunks (gstore_head st') = rest
    /\ dsm_segments st' = dsm_segments st ++ [(dsm_next_handle st, kds)]
    /\ k_length kds
       = to_uint32 (MAXALIGN (offsetof_kds_colmeta env 2)
                    + 8
                    + (8 + (0 + MAXALIGN (VARSIZE_ANY v1)
                            + MAXALIGN (VARSIZE_ANY v2)))).
Proof.
  intros Habs ls0 Hp4 Hp8 Hdiff Hfit1 Hfit2 Hfree. unfold insert_session.
  rewrite begin_int4_text_table by assumption. cbn [bind insert_rows].
  subst ls0.
  rewrite insert_int4_text_row_new by (auto; reflexivity). cbn [bind].
  rewrite insert_int4_text_row_new; [| |exact Hfit2].
  2: { apply hash_search_find_no_match. repeat constructor.
       unfold entry_matches. cbn [vl_datum]. tauto. }
  cbn [bind]. unfold gstoreEndForeignModify.
  cbn [nitems int4_text_load_state].
  change (0 + 1 + 1 >? 0) with true. cbv iota.
  match goal with
  | |- context [gstore_fdw_writeout_chunk env st ?r ?ls] =>
      destruct (writeout_chunk_publishes env st r ls dnode rest
                  eq_refl Hfree)
        as (st' & ls' & chunk & Hw & _ & Hf & _ & _ & _ & _ & _ & _ & Hd);
      [apply writeout_reset_without_nullmap; repeat constructor|];
      pose proof (writeout_image_length env (rd_att r) ls) as Hlen
  end.
  rewrite Hw. cbn [bind]. eexists st', _.
  split; [reflexivity|]. split; [exact Hf|]. split; [exact Hd|].
  rewrite Hlen. reflexivity.
Qed.

End TextBuilderFacts.

Lemma VARSIZE_large_text (b : Z) :
  VARSIZE_ANY (large_text b) = large_text_size.
Proof.
  unfold VARSIZE_ANY, large_text, varlena_4b.
  rewrite List.length_app, repeat_length. cbn [length].
  change large_text_size with 537919488. lia.
Qed.

Lemma large_texts_differ : large_text 65 <> large_text 66.
Proof.
  unfold large_text, varlena_4b. rewrite !repeat_length. intros H.
  apply app_inv_head in H.
  destruct (Z.to_nat (large_text_size - 4)) as [|k] eqn:Hk.
  - change large_text_size with 537919488 in Hk. lia.
  - cbn [repeat] in H. inversion H.
Qed.

Lemma MAXALIGN_large_text_size : MAXALIGN large_text_size = large_text_size.
Proof.
  change large_text_size with (8 * 67239936). apply MAXALIGN_multiple.
Qed.

(** On the example host, the rows of a table (int4, text) that bring a
    new text value of [large_text_size] bytes are charged with 537919496
    bytes when they come first and with 537919500 bytes when they come
    second. *)
Lemma large_value_usage (oid : Oid) (n w : Z) (m : memory)
    (entries : list vl_dict_key) (extra : Z) (p : Z -> option nat)
    (v : list Z) :
  VARSIZE_ANY v = large_text_size ->
  hash_search_find entries
    (vl_dict_hash_value (example_backend 100 0 []) v) v 0 = None ->
  insert_usage (example_backend 100 0 [])
    (rd_att (example_table oid [int4_attribute; text_attribute]))
    [Some (DatumVal w); Some (DatumPtr v)]
    (a (int4_text_load_state (example_backend 100 0 []) n m entries extra p))
    n 0
  = 4 * (n + 1) + 537919492.
Proof.
  intros Hv Hnew. rewrite usage_int4_text_row_new by exact Hnew.
  rewrite Hv, MAXALIGN_large_text_size.
  change large_text_size with 537919488. lia.
Qed.

(** On the example host, two rows of a table (int4, text) with different
    plain text values of [large_text_size] bytes each end in one chunk
    that is longer than the budget. *)
Lemma large_values_exceed_budget (warm w1 w2 : Z) (v1 v2 : list Z) :
  VARSIZE_ANY v1 = large_text_size ->
  VARSIZE_ANY v2 = large_text_size ->
  VARATT_IS_4B_U v1 = true ->
  v1 <> v2 ->
  exists st kds,
    insert_session (example_backend 100 0 [])
                   (pgstrom_startup_gstore_fdw 2048 warm)
                   (example_table 7 [int4_attribute; text_attribute])
                   (example_snapshot 100 0)
                   [[Some (DatumVal w1); Some (DatumPtr v1)];
                    [Some (DatumVal w2); Some (DatumPtr v2)]] = OK st tt
    /\ free_chunks (gstore_head st) = seq 1 2047
    /\ dsm_segments st = [(1, kds)]
    /\ k_length kds = 1075839104
    /\ GPUSTORE_CHUNK_SIZE < k_length kds.
Proof.
  intros Hv1 Hv2 Hplain Hdiff.
  destruct (int4_text_session_two_values (example_backend 100 0 [])
              (example_snapshot 100 0)
              (pgstrom_startup_gstore_fdw 2048 warm) 7 w1 w2 v1 v2 0%nat
              (seq 1 2047))
    as (st & kds & Hs & Hf & Hd & Hl).
  - intros i n c Hi. destruct (startup_no_chunk_chained 2048 warm i n Hi).
  - reflexivity.
  - reflexivity.
  - rewrite PG_DETOAST_DATUM_COPY_plain by exact Hplain. exact Hdiff.
  - rewrite Hv1, MAXALIGN_large_text_size.
    change (GPUSTORE_CHUNK_SIZE
            - offsetof_kds_colmeta (example_backend 100 0 []) 2)
      with 1073741712.
    change large_text_size with 537919488. lia.
  - rewrite Hv2, MAXALIGN_large_text_size.
    change (GPUSTORE_CHUNK_SIZE
            - offsetof_kds_colmeta (example_backend 100 0 []) 2)
      with 1073741712.
    change large_text_size with 537919488. lia.
  - reflexivity.
  - rewrite Hv1, Hv2, !MAXALIGN_large_text_size in Hl.
    change (offsetof_kds_colmeta (example_backend 100 0 []) 2)
      with (8 * 14) in Hl.
    rewrite !MAXALIGN_multiple in Hl.
    change large_text_size with 537919488 in Hl.
    assert (Hk : k_length kds = 1075839104).
    { rewrite Hl. unfold to_uint32. apply Z.mod_small. lia. }
    exists st, kds.
    split; [exact Hs|]. split; [exact Hf|]. split; [exact Hd|].
    split; [exact Hk|]. rewrite Hk. reflexivity.
Qed.

(** C5 (the code departs from the claim). A table (int4, text) on the
    example host, in a freshly started directory of 2048 descriptors,
    whatever its warm counter. Two rows, each with a different plain text
    value of 512 MiB + 1 MiB: [gstoreBeginForeignModify] gets its buffers
    and sets the budget to 1073741712 bytes; the first row is charged
    with 537919496 bytes and buffered; the second row is charged with
    537919500 bytes, its own payload only, so that it does not flush
    either; and the single chunk written at the end is 1075839104 bytes
    long, over the 2^30-byte budget. *)
Theorem two_large_texts_exceed_budget (warm : Z) :
  let env := example_backend 100 0 [] in
  let relation := example_table 7 [int4_attribute; text_attribute] in
  let st0 := pgstrom_startup_gstore_fdw 2048 warm in
  let S := example_snapshot 100 0 in
  let row1 := [Some (DatumVal 1); Some (DatumPtr (large_text 65))] in
  let row2 := [Some (DatumVal 2); Some (DatumPtr (large_text 66))] in
  (exists ls0 ls1,
     gstoreBeginForeignModify env st0 relation S = OK st0 ls0
     /\ ls_length ls0 = 1073741712
     /\ insert_usage env (rd_att relation) row1 (a ls0) (nitems ls0) 0
        = 537919496
     /\ gstoreExecForeignInsert env st0 relation ls0 row1 = OK st0 ls1
     /\ ls_length ls1 = 1073741712
     /\ insert_usage env (rd_att relation) row2 (a ls1) (nitems ls1) 0
        = 537919500)
  /\ exists st kds,
       insert_session env st0 relation S [row1; row2] = OK st tt
       /\ free_chunks (gstore_head st) = seq 1 2047
       /\ dsm_segments st = [(1, kds)]
       /\ k_length kds = 1075839104
       /\ GPUSTORE_CHUNK_SIZE < k_length kds.
Proof.
  intros env relation st0 S row1 row2.
  assert (Hnew2 : forall hv1,
            hash_search_find
              [{| hashvalue := hv1; offset := 0;
                  vl_datum := PG_DETOAST_DATUM_COPY env (large_text 65) |}]
              (vl_dict_hash_value env (large_text 66)) (large_text 66) 0
            = None).
  { intros hv1. apply hash_search_find_no_match. repeat constructor.
    unfold entry_matches. cbn [vl_datum].
    rewrite PG_DETOAST_DATUM_COPY_plain
      by apply VARATT_IS_4B_U_varlena_4b.
    intros [_ H]. exact (large_texts_differ H). }
  split.
  - eexists _, _. split.
    { apply (begin_int4_text_table env S st0 7); try reflexivity.
      intros i n c Hi. destruct (startup_no_chunk_chained 2048 warm i n Hi). }
    split; [reflexivity|]. split.
    { apply (large_value_usage 7 0 1 fresh_memory [] 0 (fun _ => None));
        [apply VARSIZE_large_text | reflexivity]. }
    split.
    { apply (insert_int4_text_row_new env st0 7 0 1 fresh_memory [] 0
               (fun _ => None) (large_text 65)); [reflexivity|].
      rewrite VARSIZE_large_text, MAXALIGN_large_text_size.
      change (GPUSTORE_CHUNK_SIZE - offsetof_kds_colmeta env 2)
        with 1073741712.
      change large_text_size with 537919488. lia. }
    split; [reflexivity|].
    apply (large_value_usage 7 (0 + 1) 2);
      [apply VARSIZE_large_text | apply Hnew2].
  - exact (large_values_exceed_budget warm 1 2 (large_text 65) (large_text 66)
             (VARSIZE_large_text 65) (VARSIZE_large_text 66)
             (VARATT_IS_4B_U_varlena_4b _) large_texts_differ).
Qed.

(** ** Instances on the example host *)

(** C8 at a directory without descriptors and a load pinned to GPU 0: the
    device memory reserved for the chunk is given back before the error. *)
Lemma writeout_chunk_free_list_empty_witness :
  exists st',
    gstore_fdw_writeout_chunk (example_backend 100 0 [])
      (pgstrom_startup_gstore_fdw 0 0)
      (example_table 7 [int4_attribute])
      {| gcontext := Some 0; ls_length := 1073741736; nrooms := 268435432;
         nitems := 1;
         a := [{| vl_dict := None; extra_sz := 0; nullmap := None;
                  values := ByteValues (store_le fresh_memory 0 4 9);
                  align := 4 |}] |}
    = Err st' ResourceExhausted
    /\ gstore_head st' = gstore_head (pgstrom_startup_gstore_fdw 0 0)
    /\ gstore_maps st' = gstore_maps (pgstrom_startup_gstore_fdw 0 0)
    /\ gpu_preserved st' = gpu_preserved (pgstrom_startup_gstore_fdw 0 0).
Proof.
  apply (writeout_chunk_free_list_empty (example_backend 100 0 [])
           (pgstrom_startup_gstore_fdw 0 0)
           (example_table 7 [int4_attribute])).
  - reflexivity.
  - right. intros c. reflexivity.
Defined.

(** * Further properties *)

(** ** What the visibility test does to a descriptor *)

Section VisibilityEffects.
Variable env : HostEnv.

Ltac desc_simpl :=
  cbn [negb andb hash database_oid table_oid xmin xmax cid xmin_commited
       xmax_commited kds_nitems kds_length cuda_dindex ipc_mhandle dsm_handle
       set_xmax set_xmin set_xmin_commited set_xmax_commited fst snd] in *.

Ltac guard_split :=
  match goal with
  | |- context [if ?b then _ else _] =>
      lazymatch b with
      | context [if _ then _ else _] => fail
      | negb (negb ?a) => destruct a eqn:?
      | negb ?a && ?a' => destruct a eqn:?; [|destruct a' eqn:?]
      | negb ?a => destruct a eqn:?
      | _ => destruct b eqn:?
      end
  end.

Ltac vis_split :=
  repeat (desc_simpl; rewrite ?Z.eqb_refl; desc_simpl; guard_split);
  desc_simpl; rewrite ?Z.eqb_refl.

(** X1. The visibility test never touches the identity of the chunk
    (hash, oids, command id, row count, length, device, handles); an xid is
    either kept or cleared to the invalid xid; a hint bit, once set, stays
    set. *)
Theorem visibility_rewrites_only_xids_and_hints (C : GpuStoreChunk)
    (S : SnapshotData) :
  let C' := hinted env S C in
  (hash C' = hash C /\ database_oid C' = database_oid C
   /\ table_oid C' = table_oid C /\ cid C' = cid C
   /\ kds_nitems C' = kds_nitems C /\ kds_length C' = kds_length C
   /\ cuda_dindex C' = cuda_dindex C /\ ipc_mhandle C' = ipc_mhandle C
   /\ dsm_handle C' = dsm_handle C)
  /\ (xmin C' = xmin C \/ xmin C' = InvalidTransactionId)
  /\ (xmax C' = xmax C \/ xmax C' = InvalidTransactionId)
  /\ (xmin_commited C = true -> xmin_commited C' = true)
  /\ (xmax_commited C = true -> xmax_commited C' = true).
Proof.
  unfold hinted, gstore_fdw_satisfies_visibility, satisfies_visibility_xmax,
    TransactionIdIsValid.
  destruct C as [h d t xmx xmn c xc nc kn kl cd ih dh].
  vis_split; repeat split; auto.
Qed.

(** X2. A hint bit the test sets is backed by the host's commit status of
    that xid. An xmin is cleared only for a transaction that is not the
    caller's, not in progress for the snapshot, and not committed; an xmax
    is cleared only when it is not the caller's and either the chunk is an
    uncommitted insertion of the caller, or the deleting transaction is
    neither in progress for the snapshot nor committed. *)
Theorem visibility_hints_follow_commit_status (C : GpuStoreChunk)
    (S : SnapshotData) :
  let C' := hinted env S C in
  (xmin_commited C' = true ->
   xmin_commited C = true
   \/ (xmin C' = xmin C /\ TransactionIdDidCommit env (xmin C) = true))
  /\ (xmax_commited C' = true ->
      xmax_commited C = true
      \/ (xmax C' = xmax C /\ TransactionIdDidCommit env (xmax C) = true))
  /\ (xmin C' <> xmin C ->
      xmin_commited C = false
      /\ TransactionIdIsCurrentTransactionId env (xmin C) = false
      /\ XidInMVCCSnapshot S (xmin C) = false
      /\ TransactionIdDidCommit env (xmin C) = false)
  /\ (xmax C' <> xmax C ->
      TransactionIdIsCurrentTransactionId env (xmax C) = false
      /\ ((xmin_commited C = false
           /\ TransactionIdIsCurrentTransactionId env (xmin C) = true)
          \/ (xmax_commited C = false
              /\ XidInMVCCSnapshot S (xmax C) = false
              /\ TransactionIdDidCommit env (xmax C) = false))).
Proof.
  unfold hinted, gstore_fdw_satisfies_visibility, satisfies_visibility_xmax,
    TransactionIdIsValid.
  destruct C as [h d t xmx xmn c xc nc kn kl cd ih dh].
  vis_split;
    (split; [|split; [|split]]); intros Hx; desc_simpl;
    try congruence; auto 6.
Qed.

Lemma committed_live_visible (C : GpuStoreChunk) (S : SnapshotData) :
  xmin_commited C = true ->
  xmax C = InvalidTransactionId ->
  xmin C = FrozenTransactionId \/ XidInMVCCSnapshot S (xmin C) = false ->
  gstore_fdw_satisfies_visibility env C S = (true, C).
Proof.
  intros Hc Hx Hs.
  unfold gstore_fdw_satisfies_visibility, satisfies_visibility_xmax,
    TransactionIdIsValid.
  rewrite Hc, Hx. cbn [negb]. change (InvalidTransactionId =? _) with true.
  cbn [negb]. destruct Hs as [Hf | Hs].
  - rewrite Hf. reflexivity.
  - rewrite Hs, andb_false_r. reflexivity.
Qed.

End VisibilityEffects.

(** X3. A chunk whose insertion is hinted committed and that nobody has
    deleted is visible, and left as it is, under every snapshot for which
    the inserting transaction is over, to every backend; a frozen xmin
    needs no snapshot at all. *)
Theorem committed_live_chunk_is_visible (env : HostEnv) (C : GpuStoreChunk)
    (S : SnapshotData) :
  xmin_commited C = true ->
  xmax C = InvalidTransactionId ->
  xmin C = FrozenTransactionId \/ XidInMVCCSnapshot S (xmin C) = false ->
  gstore_fdw_satisfies_visibility env C S = (true, C).
Proof. apply committed_live_visible. Qed.

(** X4. A chunk as its writer has published it -- xmin of a transaction still
    in progress, no hint bit, nobody has deleted it: the writing backend
    sees it from its next command on and not in the command that wrote it;
    a backend of another transaction, whose snapshot counts the writer as
    in progress, does not see it; neither test changes the descriptor. *)
Theorem uncommitted_chunk_is_private (writer reader : HostEnv)
    (C : GpuStoreChunk) (S : SnapshotData) :
  xmin_commited C = false ->
  xmin C <> InvalidTransactionId ->
  xmax C = InvalidTransactionId ->
  TransactionIdIsCurrentTransactionId writer (xmin C) = true ->
  TransactionIdIsCurrentTransactionId reader (xmin C) = false ->
  XidInMVCCSnapshot S (xmin C) = true ->
  gstore_fdw_satisfies_visibility writer C S = (cid C <? curcid S, C)
  /\ gstore_fdw_satisfies_visibility reader C S = (false, C).
Proof.
  intros Hc Hv Hx Hw Hr Hs.
  unfold gstore_fdw_satisfies_visibility, TransactionIdIsValid.
  rewrite Hc, Hw, Hr, Hs, Hx. cbn [negb].
  apply Z.eqb_neq in Hv. rewrite Hv. cbn [negb].
  change (InvalidTransactionId =? InvalidTransactionId) with true.
  split; [|reflexivity].
  rewrite Z.geb_leb, Z.ltb_antisym.
  destruct (curcid S <=? cid C); reflexivity.
Qed.

(** ** Shape of the directory *)

Lemma dlist_delete_app (n : nat) (l1 l2 : list nat) :
  dlist_delete n (l1 ++ l2) = dlist_delete n l1 ++ dlist_delete n l2.
Proof.
  induction l1 as [|k l1 IH]; [reflexivity|].
  cbn. destruct (Nat.eqb k n); cbn; rewrite IH; reflexivity.
Qed.

Lemma concat_map_dlist_delete (n : nat) (ls : list (list nat)) :
  concat (map (dlist_delete n) ls) = dlist_delete n (concat ls).
Proof.
  induction ls as [|l ls IH]; [reflexivity|].
  cbn. rewrite dlist_delete_app, IH. reflexivity.
Qed.

Lemma elem_of_dlist_delete_iff (m n : nat) (l : list nat) :
  m ∈ dlist_delete n l <-> m ∈ l /\ m <> n.
Proof.
  induction l as [|k l IH]; cbn.
  - split; [intros H; inversion H | intros [H _]; inversion H].
  - destruct (Nat.eqb k n) eqn:E.
    + apply Nat.eqb_eq in E. subst k. rewrite IH, elem_of_cons.
      split; [tauto|]. intros [[->|H] Hne]; [congruence | tauto].
    + apply Nat.eqb_neq in E. rewrite !elem_of_cons, IH.
      split; [intros [->|[H Hne]]; tauto | intros [[->|H] Hne]; tauto].
Qed.

Lemma NoDup_dlist_delete (n : nat) (l : list nat) :
  NoDup l -> NoDup (dlist_delete n l).
Proof.
  induction 1 as [|k l Hk Hl IH]; cbn; [constructor|].
  destruct (Nat.eqb k n); [exact IH|].
  constructor; [|exact IH].
  rewrite elem_of_dlist_delete_iff. tauto.
Qed.

Lemma dlist_delete_absent (n : nat) (l : list nat) :
  n ∉ l -> dlist_delete n l = l.
Proof.
  induction l as [|k l IH]; [reflexivity|].
  rewrite not_elem_of_cons. intros [Hne Hn]. cbn.
  destruct (Nat.eqb k n) eqn:E.
  - apply Nat.eqb_eq in E. congruence.
  - rewrite IH by exact Hn. reflexivity.
Qed.

(** In a chain without repetition the nodes after [n] are the rest of the
    chain. *)
Lemma dlist_after_middle (n : nat) (pre rest : list nat) :
  n ∉ pre -> dlist_after n (pre ++ n :: rest) = rest.
Proof.
  induction pre as [|k pre IH]; cbn.
  - rewrite Nat.eqb_refl. reflexivity.
  - rewrite not_elem_of_cons. intros [Hne Hn].
    destruct (Nat.eqb k n) eqn:E.
    + apply Nat.eqb_eq in E. congruence.
    + apply IH, Hn.
Qed.

Lemma elem_of_concat_bucket (h : GpuStoreHead) (n : nat) :
  n ∈ concat (active_chunks h) <-> exists i, n ∈ bucket h i.
Proof.
  unfold bucket. rewrite list_elem_of_In, in_concat. split.
  - intros (l & Hl & Hn). apply list_elem_of_In, list_elem_of_lookup in Hl.
    destruct Hl as [i Hi]. exists i. rewrite Hi. cbn.
    apply list_elem_of_In, Hn.
  - intros (i & Hn). destruct (active_chunks h !! i) as [l|] eqn:Hi.
    + exists l. split; [|apply list_elem_of_In, Hn].
      apply list_elem_of_In, list_elem_of_lookup. eauto.
    + cbn in Hn. inversion Hn.
Qed.

Lemma concat_insert_push_tail (ls : list (list nat)) (i d : nat) :
  (i < length ls)%nat ->
  concat (<[i := default [] (ls !! i) ++ [d]]> ls) ≡ₚ d :: concat ls.
Proof.
  revert i. induction ls as [|l ls IH]; intros i Hi; cbn in Hi; [lia|].
  destruct i as [|i]; cbn.
  - rewrite <- app_assoc. cbn.
    rewrite <- Permutation_middle. reflexivity.
  - rewrite (IH i) by lia. rewrite <- Permutation_middle. reflexivity.
Qed.

Lemma bucket_insert (i j : nat) (l : list nat) (buckets : list (list nat)) :
  (i < length buckets)%nat ->
  default [] (<[i := l]> buckets !! j)
  = if Nat.eqb j i then l else default [] (buckets !! j).
Proof.
  intros Hi. destruct (Nat.eqb j i) eqn:E.
  - apply Nat.eqb_eq in E. subst j.
    rewrite list_lookup_insert_eq by exact Hi. reflexivity.
  - apply Nat.eqb_neq in E.
    rewrite list_lookup_insert_ne by congruence. reflexivity.
Qed.

Lemma hash_index_lt (x : Z) : (hash_index x < NSLOTS)%nat.
Proof.
  unfold hash_index, NSLOTS, GSTORE_CHUNK_HASH_NSLOTS.
  apply Z2Nat.inj_lt; [apply Z.mod_pos_bound; lia | lia |].
  apply Z.mod_pos_bound. lia.
Qed.

Lemma same_identity_refl (c : GpuStoreChunk) : same_identity c c.
Proof. unfold same_identity. repeat split. Qed.

Lemma same_identity_trans (c1 c2 c3 : GpuStoreChunk) :
  same_identity c1 c2 -> same_identity c2 c3 -> same_identity c1 c3.
Proof. unfold same_identity. intuition congruence. Qed.

Lemma same_identity_hinted (env : HostEnv) (S : SnapshotData)
    (c : GpuStoreChunk) :
  same_identity c (hinted env S c).
Proof.
  unfold hinted, gstore_fdw_satisfies_visibility, satisfies_visibility_xmax,
    TransactionIdIsValid, same_identity.
  destruct c as [h d t xmx xmn c xc nc kn kl cd ih dh].
  repeat match goal with
         | |- context [if ?b then _ else _] =>
             lazymatch b with
             | context [if _ then _ else _] => fail
             | _ => destruct b
             end
         end; cbn; repeat split.
Qed.

(** Descriptor tables that agree slot by slot up to xids, command id and
    hint bits. *)
Lemma Forall2_same_identity_refl (cs : list GpuStoreChunk) :
  Forall2 same_identity cs cs.
Proof. induction cs; constructor; auto using same_identity_refl. Qed.

Lemma Forall2_same_identity_trans (cs1 cs2 cs3 : list GpuStoreChunk) :
  Forall2 same_identity cs1 cs2 -> Forall2 same_identity cs2 cs3 ->
  Forall2 same_identity cs1 cs3.
Proof.
  intros H12. revert cs3. induction H12; intros cs3 H23; inversion H23; subst;
    constructor; eauto using same_identity_trans.
Qed.

Lemma Forall2_same_identity_insert (cs : list GpuStoreChunk) (n : nat)
    (c c' : GpuStoreChunk) :
  cs !! n = Some c -> same_identity c c' ->
  Forall2 same_identity cs (<[n := c']> cs).
Proof.
  revert n. induction cs as [|x cs IH]; intros n Hn Hs; [inversion Hn|].
  destruct n as [|n]; cbn in *.
  - inversion Hn; subst. constructor; [exact Hs|].
    apply Forall2_same_identity_refl.
  - constructor; [apply same_identity_refl | eauto].
Qed.

(** An update of descriptors that keeps their identity keeps the shape of
    the directory. *)
Lemma directory_wf_same_identity (st st' : gstore_state) :
  free_chunks (gstore_head st') = free_chunks (gstore_head st) ->
  active_chunks (gstore_head st') = active_chunks (gstore_head st) ->
  List.length (gstore_maps st') = List.length (gstore_maps st) ->
  Forall2 same_identity (gs_chunks (gstore_head st))
          (gs_chunks (gstore_head st')) ->
  directory_wf st -> directory_wf st'.
Proof.
  intros Hf Ha Hm Hcs (Hn & Hnd & Hcov & Hhash & Hfree & Hmaps).
  pose proof (Forall2_length _ _ _ Hcs) as Hlen.
  unfold directory_wf, in_slot, on_free_list, chunk_at, bucket in *.
  rewrite Hf, Ha, Hm, <- Hlen.
  repeat split; auto.
  - apply Hcov.
  - apply Hcov.
  - intros i n c' Hin Hc'.
    destruct (Forall2_lookup_r _ _ _ _ _ Hcs Hc') as (c & Hc & Hs).
    rewrite <- (Hhash i n c Hin Hc). f_equal. apply Hs.
  - intros n c' Hin Hc'.
    destruct (Forall2_lookup_r _ _ _ _ _ Hcs Hc') as (c & Hc & Hs).
    rewrite <- (Hfree n c Hin Hc). apply Hs.
Qed.

Section DirectoryShape.
Variable env : HostEnv.

Lemma visible_chunk_in_same_identity (chunks : list GpuStoreChunk)
    (nodes : list nat) (h : Z) (d t : Oid) (S : SnapshotData) :
  Forall2 same_identity chunks
          (snd (visible_chunk_in env chunks nodes h d t S)).
Proof.
  revert chunks. induction nodes as [|n nodes IH]; intros chunks; cbn.
  - apply Forall2_same_identity_refl.
  - destruct (chunks !! n) as [c|] eqn:Hc; [|apply IH].
    destruct ((hash c =? h) && (database_oid c =? d) && (table_oid c =? t));
      [|apply IH].
    pose proof (same_identity_hinted env S c) as Hs. unfold hinted in Hs.
    destruct (gstore_fdw_satisfies_visibility env c S) as [v c'].
    cbn [snd] in Hs.
    pose proof (Forall2_same_identity_insert chunks n c c' Hc Hs) as Hi.
    destruct v; [exact Hi|].
    eapply Forall2_same_identity_trans; [exact Hi | apply IH].
Qed.

Lemma with_gs_chunks_wf (st : gstore_state) (cs : list GpuStoreChunk) :
  Forall2 same_identity (gs_chunks (gstore_head st)) cs ->
  directory_wf st ->
  directory_wf (with_head st (with_gs_chunks (gstore_head st) cs)).
Proof.
  intros Hcs. apply directory_wf_same_identity; auto.
Qed.

Lemma first_chunk_wf (st : gstore_state) (frel : Relation)
    (S : SnapshotData) :
  directory_wf st ->
  directory_wf
    (with_head st (snd (gstore_fdw_first_chunk env (gstore_head st) frel S))).
Proof.
  unfold gstore_fdw_first_chunk.
  pose proof (visible_chunk_in_same_identity (gs_chunks (gstore_head st))
    (bucket (gstore_head st)
       (hash_index (legacy_crc32_oids env (MyDatabaseId env) (rd_id frel))))
    (legacy_crc32_oids env (MyDatabaseId env) (rd_id frel))
    (MyDatabaseId env) (rd_id frel) S) as Hs.
  destruct (visible_chunk_in _ _ _ _ _ _ _) as [r chunks']. cbn [snd] in *.
  apply with_gs_chunks_wf, Hs.
Qed.

Lemma next_chunk_wf (st : gstore_state) (n : nat) (S : SnapshotData) :
  directory_wf st ->
  directory_wf
    (with_head st (snd (gstore_fdw_next_chunk env (gstore_head st) n S))).
Proof.
  unfold gstore_fdw_next_chunk.
  destruct (gs_chunks (gstore_head st) !! n) as [c|]; cbn [snd].
  2: { rewrite with_head_same. auto. }
  pose proof (visible_chunk_in_same_identity (gs_chunks (gstore_head st))
    (dlist_after n (bucket (gstore_head st) (hash_index (hash c))))
    (hash c) (database_oid c) (table_oid c) S) as Hs.
  destruct (visible_chunk_in _ _ _ _ _ _ _) as [r chunks']. cbn [snd] in *.
  apply with_gs_chunks_wf, Hs.
Qed.

Lemma put_chunk_wf (st : gstore_state) (n : nat) (c c' : GpuStoreChunk) :
  chunk_at st n = Some c -> same_identity c c' ->
  directory_wf st -> directory_wf (put_chunk st n c').
Proof.
  intros Hc Hs. apply with_gs_chunks_wf.
  apply (Forall2_same_identity_insert _ n c c' Hc Hs).
Qed.

(** Releasing a descriptor moves it to the head of the free list and keeps
    the shape of the directory. *)
Lemma release_chunk_wf (st : gstore_state) (n : nat) :
  directory_wf st -> directory_wf (gstore_fdw_release_chunk st n).
Proof.
  intros Hwf.
  destruct (chunk_at st n) as [c|] eqn:Hc.
  2: { unfold gstore_fdw_release_chunk. unfold chunk_at in Hc.
       rewrite Hc. exact Hwf. }
  destruct (release_chunk_effects st n c Hc) as (_ & _ & Hmaps & _ & _).
  pose proof (release_chunk_head st n c Hc) as Hhead.
  destruct Hwf as (Hn & Hnd & Hcov & Hhash & Hfree & Hml).
  assert (Hlt : (n < length (gs_chunks (gstore_head st)))%nat).
  { apply lookup_lt_Some in Hc. exact Hc. }
  unfold directory_wf, in_slot, on_free_list, chunk_at, bucket.
  rewrite Hhead, Hmaps.
  cbn [active_chunks free_chunks gs_chunks has_warm_chunks].
  rewrite concat_map_dlist_delete, length_map, !length_insert.
  change (n :: dlist_delete n (free_chunks (gstore_head st)))
    with ([n] ++ dlist_delete n (free_chunks (gstore_head st))).
  rewrite <- app_assoc, <- dlist_delete_app. cbn [app].
  repeat split; auto.
  - apply NoDup_cons. split; [|apply NoDup_dlist_delete, Hnd].
    rewrite elem_of_dlist_delete_iff. tauto.
  - rewrite elem_of_cons, elem_of_dlist_delete_iff.
    intros [->|[H _]]; [exact Hlt | apply Hcov, H].
  - intros H. rewrite elem_of_cons, elem_of_dlist_delete_iff.
    destruct (Nat.eq_dec n0 n); [left; assumption | right].
    split; [apply Hcov, H | assumption].
  - intros i m c' Hin Hc'.
    rewrite bucket_map_delete, elem_of_dlist_delete_iff in Hin.
    destruct Hin as [Hin Hne].
    rewrite list_lookup_insert_ne in Hc' by congruence.
    apply (Hhash i m c' Hin Hc').
  - intros m c' Hin Hc'. apply elem_of_cons in Hin.
    destruct (Nat.eq_dec m n) as [->|Hne].
    + rewrite list_lookup_insert_eq in Hc' by exact Hlt.
      inversion Hc'. reflexivity.
    + destruct Hin as [?|Hin]; [contradiction|].
      apply elem_of_dlist_delete_iff in Hin. destruct Hin as [Hin _].
      rewrite list_lookup_insert_ne in Hc' by congruence.
      apply (Hfree m c' Hin Hc').
Qed.

Lemma writeout_to_device_dsm (st : gstore_state) (d : Z) :
  dsm_next_handle (result_state (writeout_to_device env st d))
  = dsm_next_handle st.
Proof.
  unfold writeout_to_device, gpuMemAllocPreserved, gpuMemFreePreserved.
  repeat (destruct (cuda_success env _); cbn [negb]); reflexivity.
Qed.

(** Every way [gstore_fdw_writeout_chunk] can end, with the state it
    leaves: it returns with the chunk published; or it has published the
    chunk and stops in the release of a null bitmap; or it raises before
    it has touched the directory, with the segment it has created left
    behind. *)
Lemma writeout_chunk_cases (st : gstore_state) (relation : Relation)
    (ls : gstoreLoadState) :
  match gstore_fdw_writeout_chunk env st relation ls with
  | OK st' ls' =>
      writeout_published env st relation ls st'
      /\ writeout_reset ls (snd (writeout_image env (rd_att relation) ls))
         = Some ls'
  | Err st' e =>
      (e = FreedMemoryAccess
       /\ writeout_published env st relation ls st')
      \/ (gstore_head st' = gstore_head st
          /\ gstore_maps st' = gstore_maps st
          /\ dsm_segments st'
             = dsm_segments st
               ++ [(dsm_next_handle st,
                    fst (writeout_image env (rd_att relation) ls))]
          /\ dsm_next_handle st' = dsm_next_handle st + 1)
  end.
Proof.
  unfold writeout_published, gstore_fdw_writeout_chunk, published_chunk,
    table_slot.
  destruct (writeout_image env (rd_att relation) ls) as [kds cols].
  cbn [fst snd].
  destruct (dsm_create st kds) as [st1 handle] eqn:Hdsm.
  assert (H1 : gstore_head st1 = gstore_head st
               /\ gstore_maps st1 = gstore_maps st
               /\ dsm_segments st1 = dsm_segments st ++ [(dsm_next_handle st, kds)]
               /\ dsm_next_handle st1 = dsm_next_handle st + 1
               /\ handle = dsm_next_handle st).
  { unfold dsm_create in Hdsm. inversion Hdsm; subst. cbn. auto. }
  destruct H1 as (Hh1 & Hm1 & Hs1 & Hn1 & ->).
  destruct (gcontext ls) as [d|] eqn:Hctx.
  - pose proof (writeout_to_device_frame env st1 d) as Hdev.
    pose proof (writeout_to_device_dsm st1 d) as Hn2.
    destruct (writeout_to_device env st1 d) as [st2 ipc | st2 e]; cbn [bind].
    + destruct Hdev as (Hh2 & Hm2 & Hs2 & _ & _). cbn [result_state] in Hn2.
      rewrite Hh2, Hh1.
      destruct (free_chunks (gstore_head st)) as [|dnode rest] eqn:Hfree.
      * right. unfold gpuMemFreePreserved; cbn. repeat split; congruence.
      * cbv zeta. destruct (writeout_reset ls cols) as [ls'|].
        -- split; [|reflexivity]. exists dnode, rest, ipc.
           cbn. rewrite Hm2, Hm1, Hs2, Hs1, Hn2, Hn1.
           repeat split; reflexivity.
        -- left. split; [reflexivity|]. exists dnode, rest, ipc.
           cbn. rewrite Hm2, Hm1, Hs2, Hs1, Hn2, Hn1.
           repeat split; reflexivity.
    + destruct Hdev as (Hh2 & Hm2 & Hs2 & _ & _). cbn [result_state] in Hn2.
      right. repeat split; congruence.
  - cbn [bind]. rewrite Hh1.
    destruct (free_chunks (gstore_head st)) as [|dnode rest] eqn:Hfree.
    + right. repeat split; congruence.
    + cbv zeta. destruct (writeout_reset ls cols) as [ls'|].
      * split; [|reflexivity]. exists dnode, rest, 0.
        cbn. rewrite Hm1, Hs1, Hn1. repeat split; reflexivity.
      * left. split; [reflexivity|]. exists dnode, rest, 0.
        cbn. rewrite Hm1, Hs1, Hn1. repeat split; reflexivity.
Qed.

End DirectoryShape.

(** ** A load session without rows *)

Lemma hint_update_refl (c : GpuStoreChunk) : hint_update c c.
Proof.
  unfold hint_update. split; [apply same_identity_refl|]. auto 6.
Qed.

Lemma hint_update_trans (c1 c2 c3 : GpuStoreChunk) :
  hint_update c1 c2 -> hint_update c2 c3 -> hint_update c1 c3.
Proof.
  unfold hint_update.
  intros (Hs1 & Hc1 & Hn1 & Hx1 & Hnc1 & Hxc1)
         (Hs2 & Hc2 & Hn2 & Hx2 & Hnc2 & Hxc2).
  split; [eapply same_identity_trans; eauto|].
  split; [congruence|].
  split; [destruct Hn2 as [->| ->]; auto|].
  split; [destruct Hx2 as [->| ->]; auto|]. auto.
Qed.

Lemma hint_update_hinted (env : HostEnv) (S : SnapshotData)
    (c : GpuStoreChunk) :
  hint_update c (hinted env S c).
Proof.
  unfold hint_update. split; [apply same_identity_hinted|].
  unfold hinted, gstore_fdw_satisfies_visibility, satisfies_visibility_xmax,
    TransactionIdIsValid.
  destruct c as [h d t xmx xmn c xc nc kn kl cd ih dh].
  repeat match goal with
         | |- context [if ?b then _ else _] =>
             lazymatch b with
             | context [if _ then _ else _] => fail
             | _ => destruct b
             end
         end; cbn; auto 6.
Qed.

Section EmptySession.
Variable env : HostEnv.

(** The walk of [gstore_fdw_first_chunk] leaves every descriptor either
    as it was or as the visibility test rewrites descriptors; it does not
    touch a descriptor that fails its test on hash and oids. *)
Lemma visible_chunk_in_hint_update (chunks : list GpuStoreChunk)
    (nodes : list nat) (h : Z) (d t : Oid) (S : SnapshotData) :
  Forall2 hint_update chunks
          (snd (visible_chunk_in env chunks nodes h d t S)).
Proof.
  assert (Hrefl : forall cs, Forall2 hint_update cs cs).
  { induction cs; constructor; auto using hint_update_refl. }
  assert (Htrans : forall cs1 cs2 cs3,
            Forall2 hint_update cs1 cs2 -> Forall2 hint_update cs2 cs3 ->
            Forall2 hint_update cs1 cs3).
  { intros cs1 cs2 cs3 H12. revert cs3.
    induction H12; intros cs3 H23; inversion H23; subst; constructor;
      eauto using hint_update_trans. }
  assert (Hins : forall cs n c c',
            cs !! n = Some c -> hint_update c c' ->
            Forall2 hint_update cs (<[n := c']> cs)).
  { induction cs as [|x cs IH]; intros n c c' Hn Hs; [inversion Hn|].
    destruct n as [|n]; cbn in *.
    - inversion Hn; subst. constructor; [exact Hs | apply Hrefl].
    - constructor; [apply hint_update_refl | eauto]. }
  revert chunks. induction nodes as [|n nodes IH]; intros chunks; cbn.
  - apply Hrefl.
  - destruct (chunks !! n) as [c|] eqn:Hc; [|apply IH].
    destruct ((hash c =? h) && (database_oid c =? d) && (table_oid c =? t));
      [|apply IH].
    pose proof (hint_update_hinted env S c) as Hs. unfold hinted in Hs.
    destruct (gstore_fdw_satisfies_visibility env c S) as [v c'].
    cbn [snd] in Hs. pose proof (Hins chunks n c c' Hc Hs) as Hi.
    destruct v; [exact Hi|]. eapply Htrans; [exact Hi | apply IH].
Qed.

Lemma visible_chunk_in_other_tables (chunks : list GpuStoreChunk)
    (nodes : list nat) (h : Z) (d t : Oid) (S : SnapshotData) (m : nat)
    (c : GpuStoreChunk) :
  chunks !! m = Some c -> chunk_of_table c h d t = false ->
  snd (visible_chunk_in env chunks nodes h d t S) !! m = Some c.
Proof.
  revert chunks. induction nodes as [|n nodes IH]; intros chunks Hm Hno;
    cbn [visible_chunk_in snd]; [exact Hm|].
  destruct (chunks !! n) as [cn|] eqn:Hn; [|apply IH; assumption].
  fold (chunk_of_table cn h d t).
  destruct (chunk_of_table cn h d t) eqn:Hcn; [|apply IH; assumption].
  assert (Hne : n <> m) by (intros ->; congruence).
  destruct (gstore_fdw_satisfies_visibility env cn S) as [v cn'].
  destruct v; cbn [snd].
  - rewrite list_lookup_insert_ne by exact Hne. exact Hm.
  - apply IH; [|exact Hno].
    rewrite list_lookup_insert_ne by exact Hne. exact Hm.
Qed.

Lemma begin_modify_descriptors (st : gstore_state) (relation : Relation)
    (snapshot : SnapshotData) :
  let st' := result_state (gstoreBeginForeignModify env st relation snapshot)
  in
  Forall2 hint_update (gs_chunks (gstore_head st))
          (gs_chunks (gstore_head st'))
  /\ (forall m c, chunk_at st m = Some c ->
                  chunk_of_relation env relation c = false ->
                  chunk_at st' m = Some c).
Proof.
  assert (Hsame : Forall2 hint_update (gs_chunks (gstore_head st))
                          (gs_chunks (gstore_head st))).
  { induction (gs_chunks (gstore_head st)); constructor;
      auto using hint_update_refl. }
  unfold gstoreBeginForeignModify.
  destruct (referenced relation); [cbn; auto|].
  unfold gstore_fdw_first_chunk.
  pose proof (visible_chunk_in_hint_update (gs_chunks (gstore_head st))
    (bucket (gstore_head st)
       (hash_index (legacy_crc32_oids env (MyDatabaseId env)
                                      (rd_id relation))))
    (legacy_crc32_oids env (MyDatabaseId env) (rd_id relation))
    (MyDatabaseId env) (rd_id relation) snapshot) as Hu.
  pose proof (fun m c => visible_chunk_in_other_tables
    (gs_chunks (gstore_head st))
    (bucket (gstore_head st)
       (hash_index (legacy_crc32_oids env (MyDatabaseId env)
                                      (rd_id relation))))
    (legacy_crc32_oids env (MyDatabaseId env) (rd_id relation))
    (MyDatabaseId env) (rd_id relation) snapshot m c) as Ho.
  destruct (visible_chunk_in _ _ _ _ _ _ _) as [found chunks'].
  cbn [snd] in Hu, Ho.
  assert (Hres : forall r : result gstoreLoadState,
            result_state r
            = with_head st (with_gs_chunks (gstore_head st) chunks') ->
            Forall2 hint_update (gs_chunks (gstore_head st))
                    (gs_chunks (gstore_head (result_state r)))
            /\ (forall m c, chunk_at st m = Some c ->
                            chunk_of_relation env relation c = false ->
                            chunk_at (result_state r) m = Some c)).
  { intros r ->. split; [exact Hu|]. intros m c Hm Hc. apply Ho; assumption. }
  destruct found; [apply Hres; reflexivity|].
  destruct (begin_unitsz _ _ _) as [[unitsz aligns]|];
    [|apply Hres; reflexivity].
  destruct (unitsz =? 0); [apply Hres; reflexivity|].
  cbv zeta. destruct (begin_values_valid _ _ _); apply Hres; reflexivity.
Qed.

(** C10 (as amended). A load session with no row creates no chunk.
    Whatever [gstoreBeginForeignModify] returns, the session leaves the
    warm counter, the free list, every hash slot, the mapping table, the
    set of shared segments and the device memory as they were; and once
    begin has succeeded, [gstoreEndForeignModify] returns without touching
    the state at all, because it writes out only when [nitems > 0]. The
    descriptors are not all left as they were: the emptiness probe of
    begin runs the visibility test on the chunks of the table, which may
    clear an xid and set a hint bit. Nothing else of a descriptor changes,
    and a descriptor of another table does not change at all. *)
Theorem empty_session_creates_no_chunk (st : gstore_state)
    (relation : Relation) (snapshot : SnapshotData) :
  let st' := result_state (insert_session env st relation snapshot []) in
  (has_warm_chunks (gstore_head st') = has_warm_chunks (gstore_head st)
   /\ free_chunks (gstore_head st') = free_chunks (gstore_head st)
   /\ active_chunks (gstore_head st') = active_chunks (gstore_head st)
   /\ gstore_maps st' = gstore_maps st
   /\ dsm_segments st' = dsm_segments st
   /\ gpu_preserved st' = gpu_preserved st)
  /\ Forall2 hint_update (gs_chunks (gstore_head st))
             (gs_chunks (gstore_head st'))
  /\ (forall m c, chunk_at st m = Some c ->
                  chunk_of_relation env relation c = false ->
                  chunk_at st' m = Some c)
  /\ (forall st1 ls,
        gstoreBeginForeignModify env st relation snapshot = OK st1 ls ->
        gstoreEndForeignModify env st1 relation ls = OK st1 tt
        /\ insert_session env st relation snapshot [] = OK st1 tt).
Proof.
  pose proof (begin_modify_frame env st relation snapshot) as Hframe.
  pose proof (begin_modify_descriptors st relation snapshot) as Hdesc.
  assert (Hend : forall st1 ls,
            gstoreBeginForeignModify env st relation snapshot = OK st1 ls ->
            gstoreEndForeignModify env st1 relation ls = OK st1 tt).
  { intros st1 ls Hb. apply begin_modify_nitems in Hb.
    unfold gstoreEndForeignModify. rewrite Hb. reflexivity. }
  unfold insert_session.
  destruct (gstoreBeginForeignModify env st relation snapshot)
    as [st1 ls | st1 e] eqn:Hb; cbn [bind insert_rows result_state] in *.
  - rewrite (Hend st1 ls eq_refl). cbn [result_state].
    split; [exact Hframe|]. destruct Hdesc as [Hu Ho].
    split; [exact Hu|]. split; [exact Ho|].
    intros st2 ls2 H; inversion H; subst. split; [|reflexivity].
    apply (Hend st2 ls2 eq_refl).
  - split; [exact Hframe|]. destruct Hdesc as [Hu Ho].
    split; [exact Hu|]. split; [exact Ho|].
    intros st2 ls2 H; discriminate.
Qed.

End EmptySession.

(** C10, counterexample. Transaction 100 has loaded a row into table 7
    and rolled back; its chunk is still chained, with xmin 100. The empty
    load session of transaction 101 on the same table returns without
    error, and it does not leave the directory unchanged: the descriptor
    of the chunk has lost its xmin. *)
Theorem empty_session_rewrites_descriptor :
  is_OK empty_session_after_abort = true
  /\ option_map xmin (chunk_at example_aborted 0) = Some 100
  /\ option_map xmin (chunk_at (result_state empty_session_after_abort) 0)
     = Some InvalidTransactionId
  /\ gs_chunks (gstore_head (result_state empty_session_after_abort))
     <> gs_chunks (gstore_head example_aborted).
Proof.
  split; [vm_compute; reflexivity|]. split; [vm_compute; reflexivity|].
  split; [vm_compute; reflexivity|].
  intros H.
  assert (Hx : option_map xmin
                 (chunk_at (result_state empty_session_after_abort) 0)
               = option_map xmin (chunk_at example_aborted 0)).
  { unfold chunk_at. rewrite H. reflexivity. }
  vm_compute in Hx. discriminate.
Qed.

Section DirectoryShapeKept.
Variable env : HostEnv.

(** Publishing a chunk takes the head of the free list and chains it at
    the tail of the table's hash slot, which keeps the shape of the
    directory. *)
Lemma writeout_published_wf (st st' : gstore_state) (relation : Relation)
    (ls : gstoreLoadState) :
  directory_wf st -> writeout_published env st relation ls st' ->
  directory_wf st'.
Proof.
  intros Hwf Hc.
  destruct Hc as (dnode & rest & ipc & Hfree & Hh & Hm & _).
  destruct Hwf as (Hn & Hnd & Hcov & Hhash & Hfh & Hml).
  set (i := table_slot env relation) in *.
  assert (Hi : (i < length (active_chunks (gstore_head st)))%nat).
  { rewrite Hn. apply hash_index_lt. }
  assert (Hperm :
    rest ++ concat (<[i := bucket (gstore_head st) i ++ [dnode]]>
                      (active_chunks (gstore_head st)))
    ≡ₚ free_chunks (gstore_head st) ++ concat (active_chunks (gstore_head st))).
  { unfold bucket. rewrite concat_insert_push_tail by exact Hi.
    rewrite Hfree, <- Permutation_middle. reflexivity. }
  assert (Hdf : dnode ∈ free_chunks (gstore_head st)).
  { rewrite Hfree. apply list_elem_of_here. }
  assert (Hdlt : (dnode < length (gs_chunks (gstore_head st)))%nat).
  { apply Hcov, elem_of_app. left. exact Hdf. }
  apply NoDup_app in Hnd as Hnd'. destruct Hnd' as (Hndf & Hdisj & _).
  assert (Hda : forall j, dnode ∉ bucket (gstore_head st) j).
  { intros j Hj. apply (Hdisj dnode Hdf).
    apply elem_of_concat_bucket. eauto. }
  assert (Hdr : dnode ∉ rest).
  { rewrite Hfree in Hndf. apply NoDup_cons in Hndf. tauto. }
  unfold directory_wf, in_slot, on_free_list, chunk_at.
  rewrite Hh, Hm.
  cbn [active_chunks free_chunks gs_chunks has_warm_chunks].
  rewrite !length_insert.
  split; [exact Hn|]. split; [rewrite Hperm; exact Hnd|].
  split; [intros n; rewrite Hperm; apply Hcov|].
  split; [|split; [|exact Hml]].
  - intros j m c Hin Hc. unfold bucket in Hin.
    cbn [active_chunks] in Hin. rewrite bucket_insert in Hin by exact Hi.
    assert (Hold : m ∈ bucket (gstore_head st) j -> hash_index (hash c) = j).
    { intros Hb. assert (m <> dnode) by (intros ->; apply (Hda j Hb)).
      rewrite list_lookup_insert_ne in Hc by congruence.
      apply (Hhash j m c Hb Hc). }
    destruct (Nat.eqb j i) eqn:E; [|exact (Hold Hin)].
    apply Nat.eqb_eq in E. subst j.
    apply elem_of_app in Hin. destruct Hin as [Hin|Hin]; [exact (Hold Hin)|].
    apply list_elem_of_singleton in Hin. subst m.
    rewrite list_lookup_insert_eq in Hc by exact Hdlt.
    inversion Hc. reflexivity.
  - intros m c Hin Hc.
    assert (m <> dnode) by (intros ->; exact (Hdr Hin)).
    rewrite list_lookup_insert_ne in Hc by congruence.
    apply (Hfh m c); [|exact Hc].
    unfold on_free_list. rewrite Hfree. apply list_elem_of_further, Hin.
Qed.

(** A failed attempt leaves the lists alone. Either way the shape of the
    directory is kept. *)
Lemma writeout_chunk_wf (st : gstore_state) (relation : Relation)
    (ls : gstoreLoadState) :
  directory_wf st ->
  directory_wf (result_state (gstore_fdw_writeout_chunk env st relation ls)).
Proof.
  intros Hwf. pose proof (writeout_chunk_cases env st relation ls) as Hc.
  destruct (gstore_fdw_writeout_chunk env st relation ls) as [st' ls'|st' e];
    cbn [result_state].
  - destruct Hc as [Hpub _]. eapply writeout_published_wf; eauto.
  - destruct Hc as [[_ Hpub] | (Hh & Hm & _)].
    + eapply writeout_published_wf; eauto.
    + apply (directory_wf_same_identity st); rewrite ?Hh, ?Hm; auto.
      apply Forall2_same_identity_refl.
Qed.

Lemma begin_modify_wf (st : gstore_state) (relation : Relation)
    (S : SnapshotData) :
  directory_wf st ->
  directory_wf (result_state (gstoreBeginForeignModify env st relation S)).
Proof.
  intros Hwf. unfold gstoreBeginForeignModify.
  destruct (referenced relation); [exact Hwf|].
  pose proof (first_chunk_wf env st relation S Hwf) as Hf.
  destruct (gstore_fdw_first_chunk env (gstore_head st) relation S)
    as [found h']. cbn [snd] in Hf.
  destruct found; [exact Hf|].
  destruct (begin_unitsz _ _ _) as [[unitsz aligns]|]; [|exact Hf].
  destruct (unitsz =? 0); [exact Hf|].
  cbv zeta. destruct (begin_values_valid _ _ _); exact Hf.
Qed.

Lemma exec_insert_wf (st : gstore_state) (relation : Relation)
    (ls : gstoreLoadState) (slot : TupleTableSlot) :
  directory_wf st ->
  directory_wf (result_state (gstoreExecForeignInsert env st relation ls slot)).
Proof.
  intros Hwf. unfold gstoreExecForeignInsert.
  pose proof (writeout_chunk_wf st relation ls Hwf) as Hw.
  destruct (insert_usage _ _ _ _ _ _ >? ls_length ls).
  - destruct (gstore_fdw_writeout_chunk env st relation ls) as [st1 ls1|st1 e];
      cbn [bind result_state] in *; [|exact Hw].
    destruct (insert_values _ _ _ _ _); exact Hw.
  - cbn [bind]. destruct (insert_values _ _ _ _ _); exact Hwf.
Qed.

Lemma insert_rows_wf (rows : list TupleTableSlot) (st : gstore_state)
    (relation : Relation) (ls : gstoreLoadState) :
  directory_wf st ->
  directory_wf (result_state (insert_rows env st relation ls rows)).
Proof.
  revert st ls. induction rows as [|slot rows IH]; intros st ls Hwf;
    cbn [insert_rows]; [exact Hwf|].
  pose proof (exec_insert_wf st relation ls slot Hwf) as He.
  destruct (gstoreExecForeignInsert env st relation ls slot) as [st1 ls1|st1 e];
    cbn [bind result_state] in *; [apply IH, He | exact He].
Qed.

Lemma end_modify_wf (st : gstore_state) (relation : Relation)
    (ls : gstoreLoadState) :
  directory_wf st ->
  directory_wf (result_state (gstoreEndForeignModify env st relation ls)).
Proof.
  intros Hwf. unfold gstoreEndForeignModify.
  destruct (nitems ls >? 0); [|exact Hwf].
  pose proof (writeout_chunk_wf st relation ls Hwf) as Hw.
  destruct (gstore_fdw_writeout_chunk env st relation ls); exact Hw.
Qed.

(** What the callback does with one descriptor: it rewrites xids and hint
    bits, and then possibly releases the descriptor. *)
Lemma xact_chunk_summary (is_commit : bool) (st : gstore_state) (n : nat)
    (oldestXmin : TransactionId) (c : GpuStoreChunk) :
  chunk_at st n = Some c ->
  exists (c' : GpuStoreChunk) (released : bool),
    same_identity c c'
    /\ fst (gstoreOnXactCallbackPerChunk env is_commit st n oldestXmin)
       = if released then gstore_fdw_release_chunk (put_chunk st n c') n
         else put_chunk st n c'.
Proof.
  intros Hc. unfold gstoreOnXactCallbackPerChunk, chunk_at in *. rewrite Hc.
  set (c1 := if TransactionIdIsCurrentTransactionId env (xmax c)
             then if is_commit then set_xmax_commited c true
                  else set_xmax c InvalidTransactionId
             else c).
  assert (H1 : same_identity c c1).
  { subst c1. destruct (TransactionIdIsCurrentTransactionId env (xmax c));
      [destruct is_commit|]; unfold same_identity; cbn; repeat split. }
  assert (Hh : forall c2, same_identity c c2 ->
    exists (c' : GpuStoreChunk) (released : bool), same_identity c c'
      /\ fst (xact_chunk_horizon st n c2 oldestXmin)
         = if released then gstore_fdw_release_chunk (put_chunk st n c') n
           else put_chunk st n c').
  { intros c2 H2. unfold xact_chunk_horizon.
    assert (H3 : same_identity c (set_xmin c2 FrozenTransactionId)).
    { unfold same_identity in *. cbn. exact H2. }
    destruct (TransactionIdIsValid (xmax c2)).
    - destruct (negb (xmax_commited c2)); [exists c2, false; auto|].
      destruct (negb (TransactionIdPrecedes (xmax c2) oldestXmin));
        [exists c2, false | exists c2, true]; auto.
    - destruct (TransactionIdIsNormal (xmin c2)).
      + destruct (negb (xmin_commited c2)); [exists c2, false; auto|].
        destruct (negb (TransactionIdPrecedes (xmin c2) oldestXmin));
          [exists c2, false; auto|].
        exists (set_xmin c2 FrozenTransactionId), false. auto.
      + destruct (negb (TransactionIdIsValid (xmin c2)));
          [exists c2, true | exists c2, false]; auto. }
  destruct (TransactionIdIsCurrentTransactionId env (xmin c1)).
  - destruct is_commit.
    + apply Hh. unfold same_identity in *. cbn. exact H1.
    + exists c1, true. auto.
  - apply Hh, H1.
Qed.

Lemma xact_chunk_wf (is_commit : bool) (st : gstore_state) (n : nat)
    (oldestXmin : TransactionId) :
  directory_wf st ->
  directory_wf
    (fst (gstoreOnXactCallbackPerChunk env is_commit st n oldestXmin)).
Proof.
  intros Hwf. destruct (chunk_at st n) as [c|] eqn:Hc.
  - destruct (xact_chunk_summary is_commit st n oldestXmin c Hc)
      as (c' & released & Hs & ->).
    pose proof (put_chunk_wf st n c c' Hc Hs Hwf) as Hp.
    destruct released; [apply release_chunk_wf, Hp | exact Hp].
  - unfold gstoreOnXactCallbackPerChunk. unfold chunk_at in Hc.
    rewrite Hc. exact Hwf.
Qed.

Lemma xact_walk_nodes_wf (is_commit : bool) (oldestXmin : TransactionId)
    (nodes : list nat) (st : gstore_state) (meet : bool) :
  directory_wf st ->
  directory_wf (fst (xact_walk_nodes env is_commit oldestXmin nodes st meet)).
Proof.
  revert st meet. induction nodes as [|n nodes IH]; intros st meet Hwf;
    cbn [xact_walk_nodes]; [exact Hwf|].
  pose proof (xact_chunk_wf is_commit st n oldestXmin Hwf) as H1.
  destruct (gstoreOnXactCallbackPerChunk env is_commit st n oldestXmin)
    as [st1 warm]. apply IH, H1.
Qed.

Lemma xact_walk_slots_wf (is_commit : bool) (oldestXmin : TransactionId)
    (slots : list nat) (st : gstore_state) (meet : bool) :
  directory_wf st ->
  directory_wf (fst (xact_walk_slots env is_commit oldestXmin slots st meet)).
Proof.
  revert st meet. induction slots as [|i slots IH]; intros st meet Hwf;
    cbn [xact_walk_slots]; [exact Hwf|].
  pose proof (xact_walk_nodes_wf is_commit oldestXmin
                (bucket (gstore_head st) i) st meet Hwf) as H1.
  destruct (xact_walk_nodes env is_commit oldestXmin _ st meet) as [st1 warm].
  apply IH, H1.
Qed.

End DirectoryShapeKept.

Lemma startup_wf (gstore_max_nchunks warm : Z) :
  directory_wf (pgstrom_startup_gstore_fdw gstore_max_nchunks warm).
Proof.
  unfold directory_wf, pgstrom_startup_gstore_fdw, in_slot, on_free_list,
    chunk_at, bucket.
  cbn [gstore_head active_chunks free_chunks gs_chunks gstore_maps].
  assert (Hc : concat (replicate (Z.to_nat GSTORE_CHUNK_HASH_NSLOTS)
                                 (@nil nat)) = []).
  { induction (Z.to_nat GSTORE_CHUNK_HASH_NSLOTS); [reflexivity|].
    cbn. assumption. }
  rewrite Hc, app_nil_r, !length_replicate.
  split; [reflexivity|]. split; [apply NoDup_seq|].
  split; [intros n; rewrite elem_of_seq; lia|].
  split; [|split; [|reflexivity]].
  - intros i n c Hin _.
    destruct (replicate _ _ !! i) as [l|] eqn:Hl; [|inversion Hin].
    apply lookup_replicate in Hl. destruct Hl as [-> _]. inversion Hin.
  - intros n c _ Hl. apply lookup_replicate in Hl.
    destruct Hl as [-> _]. reflexivity.
Qed.

Lemma insert_session_wf (env : HostEnv) (st : gstore_state)
    (relation : Relation) (snapshot : SnapshotData)
    (rows : list TupleTableSlot) :
  directory_wf st ->
  directory_wf (result_state (insert_session env st relation snapshot rows)).
Proof.
  intros Hwf. unfold insert_session.
  pose proof (begin_modify_wf env st relation snapshot Hwf) as Hb.
  destruct (gstoreBeginForeignModify env st relation snapshot)
    as [st1 ls1|st1 e]; cbn [bind result_state] in *; [|exact Hb].
  pose proof (insert_rows_wf env rows st1 relation ls1 Hb) as Hr.
  destruct (insert_rows env st1 relation ls1 rows) as [st2 ls2|st2 e];
    cbn [bind result_state] in *; [|exact Hr].
  apply end_modify_wf, Hr.
Qed.

Lemma xact_callback_wf (env : HostEnv) (event : XactEvent)
    (st : gstore_state) :
  directory_wf st -> directory_wf (gstoreXactCallback env event st).
Proof.
  intros Hwf.
  assert (Hrun : forall is_commit,
    directory_wf
      (if has_warm_chunks (gstore_head st) =? 0 then st
       else
         let (st1, meet_warm_chunks) :=
           xact_walk_slots env is_commit (GetOldestXmin env)
             (seq 0 (Z.to_nat GSTORE_CHUNK_HASH_NSLOTS)) st false in
         if negb meet_warm_chunks
         then with_head st1 (with_has_warm_chunks (gstore_head st1) 0)
         else st1)).
  { intros is_commit. destruct (has_warm_chunks (gstore_head st) =? 0);
      [exact Hwf|].
    pose proof (xact_walk_slots_wf env is_commit (GetOldestXmin env)
                  (seq 0 (Z.to_nat GSTORE_CHUNK_HASH_NSLOTS)) st false Hwf)
      as Hw.
    destruct (xact_walk_slots env is_commit _ _ st false) as [st1 meet].
    cbn [fst] in Hw. destruct (negb meet); [|exact Hw].
    revert Hw. apply directory_wf_same_identity; auto.
    apply Forall2_same_identity_refl. }
  unfold gstoreXactCallback. destruct event; auto.
Qed.

(** ** The chunk loop of the planner estimate and of direct DELETE *)

Lemma NoDup_bucket (h : GpuStoreHead) (i : nat) :
  NoDup (concat (active_chunks h)) -> NoDup (bucket h i).
Proof.
  unfold bucket. generalize (active_chunks h) as ls. intros ls. revert i.
  induction ls as [|l ls IH]; intros i Hnd; [constructor|].
  cbn in Hnd. apply NoDup_app in Hnd. destruct Hnd as (Hl & _ & Hls).
  destruct i as [|i]; cbn; [exact Hl | apply IH, Hls].
Qed.

Lemma directory_wf_NoDup_bucket (st : gstore_state) (i : nat) :
  directory_wf st -> NoDup (bucket (gstore_head st) i).
Proof.
  intros (_ & Hnd & _). apply NoDup_bucket.
  apply NoDup_app in Hnd. tauto.
Qed.

Lemma chunk_of_table_same_identity (c c' : GpuStoreChunk) (h : Z) (d t : Oid) :
  same_identity c c' -> chunk_of_table c' h d t = chunk_of_table c h d t.
Proof.
  intros (Hh & Hd & Ht & _). unfold chunk_of_table.
  rewrite Hh, Hd, Ht. reflexivity.
Qed.

Lemma chunk_of_table_true (c : GpuStoreChunk) (h : Z) (d t : Oid) :
  chunk_of_table c h d t = true ->
  hash c = h /\ database_oid c = d /\ table_oid c = t.
Proof.
  unfold chunk_of_table. rewrite !andb_true_iff, !Z.eqb_eq. tauto.
Qed.

Lemma gs_chunks_with_gs_chunks (h : GpuStoreHead) (cs : list GpuStoreChunk) :
  gs_chunks (with_gs_chunks h cs) = cs.
Proof. reflexivity. Qed.

Lemma with_gs_chunks_twice (h : GpuStoreHead) (cs cs' : list GpuStoreChunk) :
  with_gs_chunks (with_gs_chunks h cs) cs' = with_gs_chunks h cs'.
Proof. reflexivity. Qed.

Lemma bucket_with_gs_chunks (h : GpuStoreHead) (cs : list GpuStoreChunk)
    (i : nat) :
  bucket (with_gs_chunks h cs) i = bucket h i.
Proof. reflexivity. Qed.

Section ChunkLoopFacts.
Variable env : HostEnv.
Context {A : Type}.
Variable body : GpuStoreChunk -> A -> GpuStoreChunk * A.
Hypothesis body_same_identity :
  forall c acc, same_identity c (fst (body c acc)).

(** With enough fuel, and in a hash slot without repetition, the loop of
    the source is the unrolled loop: every descriptor of the table that is
    chained in the slot is tested once. *)
Lemma foreach_chunk_unrolled (h : GpuStoreHead) (hash_ : Z) (d t : Oid)
    (S : SnapshotData) (nodes pre : list nat) (chunks : list GpuStoreChunk)
    (acc : A) (fuel : nat) :
  bucket h (hash_index hash_) = pre ++ nodes ->
  NoDup (pre ++ nodes) ->
  (length nodes < fuel)%nat ->
  foreach_chunk env fuel body
    (with_gs_chunks h (snd (visible_chunk_in env chunks nodes hash_ d t S)))
    (fst (visible_chunk_in env chunks nodes hash_ d t S)) S acc
  = Some (with_gs_chunks h
            (fst (foreach_visible env body chunks nodes hash_ d t S acc)),
          snd (foreach_visible env body chunks nodes hash_ d t S acc)).
Proof.
  revert pre chunks acc fuel.
  induction nodes as [|n rest IH]; intros pre chunks acc fuel Hb Hnd Hfuel.
  - cbn. destruct fuel; reflexivity.
  - assert (Hb' : bucket h (hash_index hash_) = (pre ++ [n]) ++ rest).
    { rewrite <- app_assoc. exact Hb. }
    assert (Hnd' : NoDup ((pre ++ [n]) ++ rest)).
    { rewrite <- app_assoc. exact Hnd. }
    cbn [length] in Hfuel.
    cbn [visible_chunk_in foreach_visible].
    destruct (chunks !! n) as [c|] eqn:Hc.
    2: { apply (IH (pre ++ [n])); auto; lia. }
    fold (chunk_of_table c hash_ d t).
    destruct (chunk_of_table c hash_ d t) eqn:Hm.
    2: { apply (IH (pre ++ [n])); auto; lia. }
    unfold visible_to, hinted.
    pose proof (same_identity_hinted env S c) as Hsame. unfold hinted in Hsame.
    destruct (gstore_fdw_satisfies_visibility env c S) as [v c'].
    cbn [fst snd] in *.
    destruct v.
    2: { apply (IH (pre ++ [n])); auto; lia. }
    cbn [fst snd].
    destruct fuel as [|fuel]; [lia|].
    assert (Hlt : (n < length chunks)%nat) by (eapply lookup_lt_Some; eauto).
    cbn [foreach_chunk]. rewrite gs_chunks_with_gs_chunks.
    rewrite list_lookup_insert_eq by exact Hlt.
    pose proof (body_same_identity c' acc) as Hbody.
    destruct (body c' acc) as [c'' acc']. cbn [fst] in Hbody.
    rewrite with_gs_chunks_twice, list_insert_insert_eq.
    unfold gstore_fdw_next_chunk. rewrite gs_chunks_with_gs_chunks.
    rewrite list_lookup_insert_eq by exact Hlt.
    pose proof (same_identity_trans _ _ _ Hsame Hbody) as Hcc.
    apply chunk_of_table_true in Hm. destruct Hm as (Hh & Hd & Ht).
    destruct Hcc as (Hh' & Hd' & Ht' & _).
    rewrite Hh', Hd', Ht', Hh, Hd, Ht.
    rewrite bucket_with_gs_chunks, Hb, dlist_after_middle.
    2: { apply NoDup_app in Hnd. destruct Hnd as (_ & Hdisj & _).
         intros Hin. apply (Hdisj n Hin). apply list_elem_of_here. }
    specialize (IH (pre ++ [n]) (<[n := c'']> chunks) acc' fuel Hb' Hnd').
    destruct (visible_chunk_in env (<[n := c'']> chunks) rest hash_ d t S)
      as [r chunks1].
    cbn [fst snd] in IH. rewrite with_gs_chunks_twice.
    apply IH. lia.
Qed.

End ChunkLoopFacts.

Section UnrolledLoopFacts.
Variable env : HostEnv.
Variable frel : Relation.
Variable S : SnapshotData.

Local Abbreviation crc :=
  (legacy_crc32_oids env (MyDatabaseId env) (rd_id frel)).
Local Abbreviation db := (MyDatabaseId env).
Local Abbreviation oid := (rd_id frel).

Lemma visible_chunks_insert (chunks : list GpuStoreChunk) (nodes : list nat)
    (n : nat) (x : GpuStoreChunk) :
  n ∉ nodes ->
  visible_chunks env frel S (<[n := x]> chunks) nodes
  = visible_chunks env frel S chunks nodes.
Proof.
  unfold visible_chunks. induction nodes as [|m nodes IH]; [reflexivity|].
  rewrite not_elem_of_cons. intros [Hne Hn]. cbn [omap list_omap].
  rewrite list_lookup_insert_ne by congruence.
  rewrite IH by exact Hn. reflexivity.
Qed.

Lemma foreach_visible_same_identity {A : Type}
    (body : GpuStoreChunk -> A -> GpuStoreChunk * A)
    (nodes : list nat) (chunks : list GpuStoreChunk) (h : Z) (d t : Oid)
    (acc : A) :
  (forall c acc, same_identity c (fst (body c acc))) ->
  Forall2 same_identity chunks
          (fst (foreach_visible env body chunks nodes h d t S acc)).
Proof.
  intros Hbody. revert chunks acc.
  induction nodes as [|n nodes IH]; intros chunks acc; cbn [foreach_visible].
  - apply Forall2_same_identity_refl.
  - destruct (chunks !! n) as [c|] eqn:Hc; [|apply IH].
    destruct (chunk_of_table c h d t); [|apply IH].
    pose proof (same_identity_hinted env S c) as Hs.
    destruct (visible_to env S c).
    + pose proof (Hbody (hinted env S c) acc) as Hb.
      destruct (body (hinted env S c) acc) as [c' acc']. cbn [fst] in Hb.
      eapply Forall2_same_identity_trans; [|apply IH].
      apply (Forall2_same_identity_insert chunks n c c' Hc).
      eapply same_identity_trans; eauto.
    + eapply Forall2_same_identity_trans; [|apply IH].
      apply (Forall2_same_identity_insert chunks n c _ Hc Hs).
Qed.

(** The estimate loop adds up the row counts and the block-aligned lengths
    of the visible chunks of the table. *)
Lemma relsize_unrolled (nodes : list nat) (chunks : list GpuStoreChunk)
    (acc : Z * Z) :
  NoDup nodes ->
  snd (foreach_visible env relsize_body chunks nodes crc db oid S acc)
  = (fst acc + sum_nitems (visible_chunks env frel S chunks nodes),
     snd acc + sum_blocks (visible_chunks env frel S chunks nodes)).
Proof.
  intros Hnd. revert chunks acc.
  induction Hnd as [|n nodes Hn Hnd IH]; intros chunks acc;
    cbn [foreach_visible].
  - cbn. destruct acc. cbn. f_equal; lia.
  - unfold visible_chunks at 1 2. cbn [omap list_omap].
    fold (visible_chunks env frel S chunks nodes).
    destruct (chunks !! n) as [c|] eqn:Hc; [|apply IH].
    unfold chunk_of_relation.
    destruct (chunk_of_table c crc db oid); cbn [andb]; [|apply IH].
    destruct (visible_to env S c) eqn:Hv.
    + unfold relsize_body at 1. rewrite IH.
      rewrite visible_chunks_insert by exact Hn.
      destruct (same_identity_hinted env S c) as (_ & _ & _ & Hk & Hl & _).
      cbn [fst snd sum_nitems sum_blocks fold_right]. rewrite Hk, Hl.
      fold (sum_nitems (visible_chunks env frel S chunks nodes)).
      fold (sum_blocks (visible_chunks env frel S chunks nodes)).
      f_equal; lia.
    + rewrite IH. rewrite visible_chunks_insert by exact Hn. reflexivity.
Qed.

(** The DELETE loop stamps the visible chunks of the table, leaves their
    hint bits as the visibility test set them, and counts their rows. *)
Lemma direct_modify_unrolled (nodes : list nat) (chunks : list GpuStoreChunk)
    (processed : Z) :
  NoDup nodes ->
  snd (foreach_visible env (direct_modify_body env) chunks nodes
                       crc db oid S processed)
  = processed + sum_nitems (visible_chunks env frel S chunks nodes)
  /\ forall m,
       fst (foreach_visible env (direct_modify_body env) chunks nodes
                            crc db oid S processed) !! m
       = direct_delete_chunk env frel S nodes m <$> chunks !! m.
Proof.
  intros Hnd. revert chunks processed.
  induction Hnd as [|n nodes Hn Hnd IH]; intros chunks processed;
    cbn [foreach_visible].
  - split; [cbn; lia|]. intros m. unfold direct_delete_chunk. cbn [fst].
    rewrite bool_decide_eq_false_2 by (apply not_elem_of_nil).
    destruct (chunks !! m); reflexivity.
  - assert (Hrest : forall m c0, m <> n ->
              direct_delete_chunk env frel S (n :: nodes) m c0
              = direct_delete_chunk env frel S nodes m c0).
    { intros m c0 Hne. unfold direct_delete_chunk.
      destruct (decide (m ∈ nodes)) as [Hin|Hin].
      - rewrite !bool_decide_eq_true_2; auto. apply list_elem_of_further, Hin.
      - rewrite !bool_decide_eq_false_2; auto.
        rewrite not_elem_of_cons. tauto. }
    assert (Hhere : forall c0,
              direct_delete_chunk env frel S nodes n c0 = c0).
    { intros c0. unfold direct_delete_chunk.
      rewrite bool_decide_eq_false_2 by exact Hn. reflexivity. }
    unfold visible_chunks at 1. cbn [omap list_omap].
    fold (visible_chunks env frel S chunks nodes).
    destruct (chunks !! n) as [c|] eqn:Hc.
    2: { destruct (IH chunks processed) as [Hs Hm]. split; [exact Hs|].
         intros m. rewrite Hm. destruct (Nat.eq_dec m n) as [->|Hne].
         - rewrite Hc. reflexivity.
         - destruct (chunks !! m); cbn; [|reflexivity].
           rewrite Hrest by exact Hne. reflexivity. }
    assert (Hlt : (n < length chunks)%nat) by (eapply lookup_lt_Some; eauto).
    fold (chunk_of_relation env frel c).
    destruct (chunk_of_relation env frel c) eqn:Hrel; cbn [andb].
    2: { destruct (IH chunks processed) as [Hs Hm]. split; [exact Hs|].
         intros m. rewrite Hm. destruct (Nat.eq_dec m n) as [->|Hne].
         - rewrite Hc. cbn. rewrite Hhere. unfold direct_delete_chunk.
           rewrite Hrel, andb_false_r. reflexivity.
         - destruct (chunks !! m); cbn; [|reflexivity].
           rewrite Hrest by exact Hne. reflexivity. }
    assert (Hhead :
       direct_delete_chunk env frel S (n :: nodes) n c
       = if visible_to env S c then deleted_by env (hinted env S c)
         else hinted env S c).
    { unfold direct_delete_chunk.
      rewrite bool_decide_eq_true_2 by (apply list_elem_of_here).
      rewrite Hrel. reflexivity. }
    destruct (visible_to env S c) eqn:Hv.
    + unfold direct_modify_body at 1 3.
      fold (deleted_by env (hinted env S c)).
      destruct (IH (<[n := deleted_by env (hinted env S c)]> chunks)
                   (processed + kds_nitems (hinted env S c))) as [Hs Hm].
      rewrite visible_chunks_insert in Hs by exact Hn.
      destruct (same_identity_hinted env S c) as (_ & _ & _ & Hk & _).
      split.
      * rewrite Hs, Hk. cbn [sum_nitems fold_right].
        fold (sum_nitems (visible_chunks env frel S chunks nodes)). lia.
      * intros m. rewrite Hm. destruct (Nat.eq_dec m n) as [->|Hne].
        -- rewrite list_lookup_insert_eq by exact Hlt. rewrite Hc. cbn.
           rewrite Hhere, Hhead. reflexivity.
        -- rewrite list_lookup_insert_ne by congruence.
           destruct (chunks !! m); cbn; [|reflexivity].
           rewrite Hrest by exact Hne. reflexivity.
    + destruct (IH (<[n := hinted env S c]> chunks) processed) as [Hs Hm].
      rewrite visible_chunks_insert in Hs by exact Hn.
      split; [exact Hs|].
      intros m. rewrite Hm. destruct (Nat.eq_dec m n) as [->|Hne].
      * rewrite list_lookup_insert_eq by exact Hlt. rewrite Hc. cbn.
        rewrite Hhere, Hhead. reflexivity.
      * rewrite list_lookup_insert_ne by congruence.
        destruct (chunks !! m); cbn; [|reflexivity].
        rewrite Hrest by exact Hne. reflexivity.
Qed.

End UnrolledLoopFacts.

Section EstimateAndDelete.
Variable env : HostEnv.
Variable frel : Relation.
Variable S : SnapshotData.

Lemma relsize_body_same_identity (c : GpuStoreChunk) (acc : Z * Z) :
  same_identity c (fst (relsize_body c acc)).
Proof. apply same_identity_refl. Qed.

Lemma direct_modify_body_same_identity (c : GpuStoreChunk) (acc : Z) :
  same_identity c (fst (direct_modify_body env c acc)).
Proof. unfold same_identity. cbn. repeat split. Qed.

(** The chunk loop entered through [gstore_fdw_first_chunk], in a directory
    of the right shape: it ends within its fuel, and it is the unrolled
    loop over the table's hash slot. *)
Lemma first_chunk_loop_unrolled {A : Type}
    (body : GpuStoreChunk -> A -> GpuStoreChunk * A) (st : gstore_state)
    (acc : A) :
  (forall c acc, same_identity c (fst (body c acc))) ->
  directory_wf st ->
  let h := gstore_head st in
  let unrolled :=
    foreach_visible env body (gs_chunks h) (bucket h (table_slot env frel))
      (legacy_crc32_oids env (MyDatabaseId env) (rd_id frel))
      (MyDatabaseId env) (rd_id frel) S acc in
  foreach_chunk env (Datatypes.S (length (bucket h (table_slot env frel)))) body
    (snd (gstore_fdw_first_chunk env h frel S))
    (fst (gstore_fdw_first_chunk env h frel S)) S acc
  = Some (with_gs_chunks h (fst unrolled), snd unrolled).
Proof.
  intros Hbody Hwf h unrolled. subst unrolled.
  unfold gstore_fdw_first_chunk.
  pose proof (foreach_chunk_unrolled env body Hbody h
                (legacy_crc32_oids env (MyDatabaseId env) (rd_id frel))
                (MyDatabaseId env) (rd_id frel) S
                (bucket h (table_slot env frel)) [] (gs_chunks h) acc
                (Datatypes.S (length (bucket h (table_slot env frel)))))
    as Hloop.
  fold (table_slot env frel) in *.
  destruct (visible_chunk_in env (gs_chunks h) (bucket h (table_slot env frel))
              _ _ _ S) as [r chunks1].
  cbn [fst snd] in *. apply Hloop.
  - reflexivity.
  - cbn [app]. apply directory_wf_NoDup_bucket, Hwf.
  - lia.
Qed.

(** [gstoreGetForeignRelSize] in a directory of the right shape. *)
Lemma relsize_spec (st : gstore_state) :
  directory_wf st ->
  let V := visible_chunks env frel S (gs_chunks (gstore_head st))
             (bucket (gstore_head st) (table_slot env frel)) in
  exists st',
    gstoreGetForeignRelSize env st frel S
    = Some (st', sum_nitems V, to_uint32 (sum_blocks V / BLCKSZ))
    /\ has_warm_chunks (gstore_head st') = has_warm_chunks (gstore_head st)
    /\ free_chunks (gstore_head st') = free_chunks (gstore_head st)
    /\ active_chunks (gstore_head st') = active_chunks (gstore_head st)
    /\ Forall2 same_identity (gs_chunks (gstore_head st))
               (gs_chunks (gstore_head st'))
    /\ gstore_maps st' = gstore_maps st
    /\ dsm_segments st' = dsm_segments st
    /\ gpu_preserved st' = gpu_preserved st.
Proof.
  intros Hwf V.
  pose proof (first_chunk_loop_unrolled relsize_body st (0, 0)
                relsize_body_same_identity Hwf) as Hloop.
  cbn zeta in Hloop. unfold gstoreGetForeignRelSize.
  destruct (gstore_fdw_first_chunk env (gstore_head st) frel S) as [first h1].
  cbn [fst snd] in Hloop. rewrite Hloop.
  pose proof (relsize_unrolled env frel S
                (bucket (gstore_head st) (table_slot env frel))
                (gs_chunks (gstore_head st)) (0, 0)
                (directory_wf_NoDup_bucket st _ Hwf)) as Hsum.
  pose proof (foreach_visible_same_identity env S relsize_body
                (bucket (gstore_head st) (table_slot env frel))
                (gs_chunks (gstore_head st))
                (legacy_crc32_oids env (MyDatabaseId env) (rd_id frel))
                (MyDatabaseId env) (rd_id frel) (0, 0)
                relsize_body_same_identity) as Hsame.
  destruct (foreach_visible env relsize_body _ _ _ _ _ S (0, 0))
    as [chunks2 [n l]].
  cbn [fst snd] in *. inversion Hsum; subst n l. fold V.
  eexists. split; [reflexivity|]. cbn. auto 10.
Qed.

(** [gstoreIterateDirectModify] in a directory of the right shape. *)
Lemma direct_modify_spec (st : gstore_state) (es_processed : Z) :
  directory_wf st ->
  let nodes := bucket (gstore_head st) (table_slot env frel) in
  let V := visible_chunks env frel S (gs_chunks (gstore_head st)) nodes in
  exists st',
    gstoreIterateDirectModify env st frel S es_processed
    = Some (st', es_processed + sum_nitems V)
    /\ has_warm_chunks (gstore_head st')
       = to_uint32 (has_warm_chunks (gstore_head st) + 1)
    /\ free_chunks (gstore_head st') = free_chunks (gstore_head st)
    /\ active_chunks (gstore_head st') = active_chunks (gstore_head st)
    /\ (forall m, chunk_at st' m
                  = direct_delete_chunk env frel S nodes m <$> chunk_at st m)
    /\ Forall2 same_identity (gs_chunks (gstore_head st))
               (gs_chunks (gstore_head st'))
    /\ gstore_maps st' = gstore_maps st
    /\ dsm_segments st' = dsm_segments st
    /\ gpu_preserved st' = gpu_preserved st.
Proof.
  intros Hwf nodes V.
  pose proof (first_chunk_loop_unrolled (direct_modify_body env) st
                es_processed direct_modify_body_same_identity Hwf) as Hloop.
  cbn zeta in Hloop. unfold gstoreIterateDirectModify.
  destruct (gstore_fdw_first_chunk env (gstore_head st) frel S) as [first h1].
  cbn [fst snd] in Hloop. rewrite Hloop.
  destruct (direct_modify_unrolled env frel S nodes
              (gs_chunks (gstore_head st)) es_processed
              (directory_wf_NoDup_bucket st _ Hwf)) as [Hsum Hm].
  pose proof (foreach_visible_same_identity env S (direct_modify_body env)
                nodes (gs_chunks (gstore_head st))
                (legacy_crc32_oids env (MyDatabaseId env) (rd_id frel))
                (MyDatabaseId env) (rd_id frel) es_processed
                direct_modify_body_same_identity) as Hsame.
  fold nodes.
  destruct (foreach_visible env (direct_modify_body env) _ nodes _ _ _ S
              es_processed) as [chunks2 processed].
  cbn [fst snd] in *. subst processed. fold V.
  eexists. split; [reflexivity|]. cbn. unfold chunk_at. cbn. auto 10.
Qed.

End EstimateAndDelete.

(** ** The transaction callback, chunk by chunk *)

Section CallbackVisit.
Variable env : HostEnv.
Variable is_commit : bool.
Variable oldestXmin : TransactionId.

Local Abbreviation is_current := (TransactionIdIsCurrentTransactionId env).
Local Abbreviation visit st n :=
  (gstoreOnXactCallbackPerChunk env is_commit st n oldestXmin).
Local Abbreviation verdict := (xact_verdict env is_commit oldestXmin).

Lemma xact_horizon_is_verdict (st : gstore_state) (n : nat)
    (c : GpuStoreChunk) :
  xact_chunk_horizon st n c oldestXmin
  = apply_verdict st n (horizon_verdict oldestXmin c).
Proof.
  unfold xact_chunk_horizon, horizon_verdict, apply_verdict.
  repeat match goal with
         | |- context [if ?b then _ else _] =>
             lazymatch b with
             | context [if _ then _ else _] => fail
             | _ => destruct b
             end
         end; reflexivity.
Qed.

(** A visit stores back the descriptor of the verdict and releases the
    chunk when the verdict says so. *)
Lemma xact_visit_is_verdict (st : gstore_state) (n : nat)
    (c : GpuStoreChunk) :
  chunk_at st n = Some c ->
  visit st n = apply_verdict st n (verdict c).
Proof.
  unfold chunk_at, gstoreOnXactCallbackPerChunk, xact_verdict. intros ->.
  destruct (is_current (xmin _)); [destruct is_commit|];
    rewrite ?xact_horizon_is_verdict; reflexivity.
Qed.

Lemma xact_visit_absent (st : gstore_state) (n : nat) :
  chunk_at st n = None -> visit st n = (st, false).
Proof.
  unfold chunk_at, gstoreOnXactCallbackPerChunk. intros ->. reflexivity.
Qed.

Ltac verdict_cases c :=
  unfold xact_verdict, horizon_verdict, TransactionIdIsValid;
  destruct c as [h d t xmx xmn ci xc nc kn kl cd ih dh];
  repeat (cbn [negb andb hash database_oid table_oid xmin xmax cid
               xmin_commited xmax_commited kds_nitems kds_length cuda_dindex
               ipc_mhandle dsm_handle set_xmax set_xmin set_xmin_commited
               set_xmax_commited fst snd] in *;
          match goal with
          | |- context [if ?b then _ else _] =>
              lazymatch b with
              | context [if _ then _ else _] => fail
              | _ => destruct b eqn:?
              end
          end);
  cbn [negb andb hash database_oid table_oid xmin xmax cid
       xmin_commited xmax_commited kds_nitems kds_length cuda_dindex
       ipc_mhandle dsm_handle set_xmax set_xmin set_xmin_commited
       set_xmax_commited fst snd] in *.

Ltac xid_facts :=
  repeat match goal with
         | H : negb _ = false |- _ => apply (proj1 (negb_false_iff _)) in H
         | H : negb _ = true |- _ => apply (proj1 (negb_true_iff _)) in H
         | H : (_ =? _) = true |- _ => apply (proj1 (Z.eqb_eq _ _)) in H
         | H : (_ =? _) = false |- _ => apply (proj1 (Z.eqb_neq _ _)) in H
         end.

Lemma xact_verdict_same_identity (c : GpuStoreChunk) :
  same_identity c (fst (fst (verdict c))).
Proof. unfold same_identity. verdict_cases c; repeat split. Qed.

(** A chunk that is neither released nor warm is final. *)
Lemma xact_verdict_final (c : GpuStoreChunk) :
  snd (verdict c) = false -> snd (fst (verdict c)) = false ->
  let c' := fst (fst (verdict c)) in
  xmax c' = InvalidTransactionId
  /\ TransactionIdIsNormal (xmin c') = false
  /\ xmin c' <> InvalidTransactionId.
Proof.
  verdict_cases c; intros Hw Hr; try discriminate; xid_facts;
    repeat split; auto; try discriminate.
Qed.

(** The verdict on a final chunk: it stays, unless the ending transaction
    aborts and counts the permanent xmin as its own. *)
Lemma xact_verdict_keeps_final (c : GpuStoreChunk) :
  xmax c = InvalidTransactionId ->
  TransactionIdIsNormal (xmin c) = false ->
  xmin c <> InvalidTransactionId ->
  let c' := fst (fst (verdict c)) in
  snd (fst (verdict c)) = true
  \/ (xmax c' = InvalidTransactionId /\ xmin c' = xmin c).
Proof.
  intros Hx Hn Hv. revert Hx Hn Hv.
  verdict_cases c; intros Hx Hn Hv; xid_facts; subst;
    try (left; reflexivity); try (right; split; reflexivity);
    try discriminate; try congruence.
Qed.

(** At commit, the descriptor stored back carries the commit hint for each
    of its xids that belongs to the ending transaction. *)
Lemma xact_verdict_hinted (c : GpuStoreChunk) :
  is_commit = true ->
  is_current FrozenTransactionId = false ->
  let c' := fst (fst (verdict c)) in
  (is_current (xmin c') = true -> xmin_commited c' = true)
  /\ (is_current (xmax c') = true -> xmax_commited c' = true).
Proof.
  verdict_cases c; intros Hcommit Hfrozen; try discriminate;
    split; intros Hcur; congruence.
Qed.

(** What a verdict changes: xmax only to clear an abandoned deletion of the
    ending transaction, xmin only to freeze it, hint bits only to set them
    at commit for xids of the ending transaction; the command id never. *)
Lemma xact_verdict_changes (c : GpuStoreChunk) :
  let c' := fst (fst (verdict c)) in
  cid c' = cid c
  /\ (xmax c' = xmax c
      \/ (xmax c' = InvalidTransactionId /\ is_commit = false
          /\ is_current (xmax c) = true))
  /\ (xmin c' = xmin c
      \/ (xmin c' = FrozenTransactionId
          /\ TransactionIdIsNormal (xmin c) = true
          /\ xmin_commited c' = true
          /\ TransactionIdPrecedes (xmin c) oldestXmin = true
          /\ xmax c' = InvalidTransactionId))
  /\ (xmin_commited c' = xmin_commited c
      \/ (xmin_commited c' = true /\ is_commit = true
          /\ is_current (xmin c) = true))
  /\ (xmax_commited c' = xmax_commited c
      \/ (xmax_commited c' = true /\ is_commit = true
          /\ is_current (xmax c) = true)).
Proof.
  verdict_cases c; xid_facts;
    (split; [reflexivity|]);
    (split; [first [left; reflexivity | right; auto]|]);
    (split; [first [left; reflexivity | right; repeat split; auto]|]);
    (split; first [left; reflexivity | right; auto]).
Qed.

(** When a verdict releases a chunk: it is an insertion of the aborting
    transaction, or its deletion is committed and older than every
    snapshot, or it has no inserting transaction left. *)
Lemma xact_verdict_released (c : GpuStoreChunk) :
  snd (fst (verdict c)) = true ->
  let c' := fst (fst (verdict c)) in
  snd (verdict c) = false
  /\ ((is_commit = false /\ is_current (xmin c) = true)
      \/ (xmax c' <> InvalidTransactionId /\ xmax_commited c' = true
          /\ TransactionIdPrecedes (xmax c') oldestXmin = true)
      \/ (xmax c' = InvalidTransactionId /\ xmin c = InvalidTransactionId)).
Proof.
  verdict_cases c; intros Hr; try discriminate; xid_facts;
    (split; [reflexivity|]); auto 7.
Qed.

(** The same in terms of the descriptor as the callback found it. *)
Lemma xact_verdict_released_why (c : GpuStoreChunk) :
  snd (fst (verdict c)) = true ->
  (is_commit = false /\ is_current (xmin c) = true)
  \/ (xmax c <> InvalidTransactionId
      /\ TransactionIdPrecedes (xmax c) oldestXmin = true
      /\ (xmax_commited c = true
          \/ (is_commit = true /\ is_current (xmax c) = true)))
  \/ (xmin c = InvalidTransactionId
      /\ (xmax c = InvalidTransactionId
          \/ (is_commit = false /\ is_current (xmax c) = true))).
Proof.
  verdict_cases c; intros Hr; try discriminate; xid_facts;
    first [ left; split; reflexivity
          | right; left; split; [assumption|];
            split; [assumption|];
            first [ left; first [assumption | reflexivity]
                  | right; split; first [assumption | reflexivity] ]
          | right; right; split; [first [assumption | reflexivity]|];
            first [ left; first [assumption | reflexivity]
                  | right; split; first [assumption | reflexivity] ] ].
Qed.

End CallbackVisit.

Section CallbackVisitState.
Variable env : HostEnv.
Variable is_commit : bool.
Variable oldestXmin : TransactionId.

Local Abbreviation is_current := (TransactionIdIsCurrentTransactionId env).
Local Abbreviation visit st n :=
  (gstoreOnXactCallbackPerChunk env is_commit st n oldestXmin).
Local Abbreviation verdict := (xact_verdict env is_commit oldestXmin).

Lemma put_chunk_at (st : gstore_state) (n : nat) (c x : GpuStoreChunk) :
  chunk_at st n = Some c -> chunk_at (put_chunk st n x) n = Some x.
Proof.
  unfold chunk_at, put_chunk. cbn. intros Hc.
  apply list_lookup_insert_eq. eapply lookup_lt_Some; eauto.
Qed.

Lemma put_chunk_other (st : gstore_state) (n m : nat) (x : GpuStoreChunk) :
  m <> n -> chunk_at (put_chunk st n x) m = chunk_at st m.
Proof.
  unfold chunk_at, put_chunk. cbn. intros Hne.
  apply list_lookup_insert_ne. congruence.
Qed.

Lemma release_chunk_other (st : gstore_state) (n m : nat) :
  m <> n -> chunk_at (gstore_fdw_release_chunk st n) m = chunk_at st m.
Proof.
  intros Hne. destruct (chunk_at st n) as [c|] eqn:Hc.
  - unfold chunk_at in *. rewrite (release_chunk_head st n c Hc). cbn.
    apply list_lookup_insert_ne. congruence.
  - unfold gstore_fdw_release_chunk. unfold chunk_at in Hc. rewrite Hc.
    reflexivity.
Qed.

Lemma release_chunk_in_slot (st : gstore_state) (n i m : nat) :
  in_slot (gstore_fdw_release_chunk st n) i m <-> in_slot st i m /\ m <> n
                                                  \/ (in_slot st i m
                                                      /\ chunk_at st n = None).
Proof.
  destruct (chunk_at st n) as [c|] eqn:Hc.
  - unfold in_slot, bucket, chunk_at in *.
    rewrite (release_chunk_head st n c Hc). cbn [active_chunks].
    rewrite bucket_map_delete, elem_of_dlist_delete_iff.
    split; [tauto|]. intros [H|[_ H]]; [tauto | discriminate].
  - unfold gstore_fdw_release_chunk. unfold chunk_at in Hc. rewrite Hc.
    tauto.
Qed.

Lemma release_chunk_warm (st : gstore_state) (n : nat) :
  has_warm_chunks (gstore_head (gstore_fdw_release_chunk st n))
  = has_warm_chunks (gstore_head st).
Proof.
  destruct (chunk_at st n) as [c|] eqn:Hc.
  - unfold chunk_at in Hc. rewrite (release_chunk_head st n c Hc). reflexivity.
  - unfold gstore_fdw_release_chunk. unfold chunk_at in Hc. rewrite Hc.
    reflexivity.
Qed.

(** A visit never chains a node; it unchains at most the node it visits. *)
Lemma xact_visit_in_slot (st : gstore_state) (n i m : nat) :
  in_slot (fst (visit st n)) i m -> in_slot st i m.
Proof.
  destruct (chunk_at st n) as [c|] eqn:Hc.
  - rewrite (xact_visit_is_verdict env is_commit oldestXmin st n c Hc).
    destruct (verdict c) as [[c' released] warm]. cbn [apply_verdict fst].
    destruct released; [|auto].
    rewrite release_chunk_in_slot. intros [[H _]|[H _]]; exact H.
  - rewrite xact_visit_absent by exact Hc. auto.
Qed.

Lemma xact_visit_keeps_chained (st : gstore_state) (n i m : nat) :
  m <> n -> in_slot st i m -> in_slot (fst (visit st n)) i m.
Proof.
  intros Hne Hin. destruct (chunk_at st n) as [c|] eqn:Hc.
  - rewrite (xact_visit_is_verdict env is_commit oldestXmin st n c Hc).
    destruct (verdict c) as [[c' released] warm]. cbn [apply_verdict fst].
    destruct released; [|exact Hin].
    apply release_chunk_in_slot. left. split; [exact Hin | exact Hne].
  - rewrite xact_visit_absent by exact Hc. exact Hin.
Qed.

Lemma xact_visit_other (st : gstore_state) (n m : nat) :
  m <> n -> chunk_at (fst (visit st n)) m = chunk_at st m.
Proof.
  intros Hne. destruct (chunk_at st n) as [c|] eqn:Hc.
  - rewrite (xact_visit_is_verdict env is_commit oldestXmin st n c Hc).
    destruct (verdict c) as [[c' released] warm]. cbn [apply_verdict fst].
    destruct released.
    + rewrite release_chunk_other by exact Hne. apply put_chunk_other, Hne.
    + apply put_chunk_other, Hne.
  - rewrite xact_visit_absent by exact Hc. reflexivity.
Qed.

Lemma xact_visit_warm_counter (st : gstore_state) (n : nat) :
  has_warm_chunks (gstore_head (fst (visit st n)))
  = has_warm_chunks (gstore_head st).
Proof.
  destruct (chunk_at st n) as [c|] eqn:Hc.
  - rewrite (xact_visit_is_verdict env is_commit oldestXmin st n c Hc).
    destruct (verdict c) as [[c' released] warm]. cbn [apply_verdict fst].
    destruct released; [rewrite release_chunk_warm|]; reflexivity.
  - rewrite xact_visit_absent by exact Hc. reflexivity.
Qed.

(** The visited node afterwards: unchained when the verdict releases it,
    and carrying the descriptor of the verdict otherwise. *)
Lemma xact_visit_here (st : gstore_state) (n : nat) (c : GpuStoreChunk) :
  chunk_at st n = Some c ->
  snd (visit st n) = snd (verdict c)
  /\ if snd (fst (verdict c))
     then forall i, ~ in_slot (fst (visit st n)) i n
     else chunk_at (fst (visit st n)) n = Some (fst (fst (verdict c))).
Proof.
  intros Hc.
  rewrite (xact_visit_is_verdict env is_commit oldestXmin st n c Hc).
  destruct (verdict c) as [[c' released] warm]. cbn [apply_verdict fst snd].
  split; [reflexivity|]. destruct released.
  - intros i Hin. apply release_chunk_in_slot in Hin.
    destruct Hin as [[_ Hne]|[_ Hnone]]; [congruence|].
    rewrite (put_chunk_at st n c c' Hc) in Hnone. discriminate.
  - apply (put_chunk_at st n c c' Hc).
Qed.

End CallbackVisitState.

(** ** The walk of the transaction callback over the hash slots *)

Section CallbackWalk.
Variable env : HostEnv.
Variable is_commit : bool.
Variable oldestXmin : TransactionId.
Variable P : gstore_state -> nat -> Prop.
Variable G : bool -> Prop.

Local Abbreviation visit st n :=
  (gstoreOnXactCallbackPerChunk env is_commit st n oldestXmin).
Local Abbreviation walk_nodes nodes st meet :=
  (xact_walk_nodes env is_commit oldestXmin nodes st meet).
Local Abbreviation walk_slots slots st meet :=
  (xact_walk_slots env is_commit oldestXmin slots st meet).

Hypothesis P_visit :
  forall st n, G (snd (visit st n)) -> P (fst (visit st n)) n.
Hypothesis P_keep : forall st n m, P st m -> P (fst (visit st n)) m.
Hypothesis G_split :
  forall w meet : bool, G (if w then true else meet) -> G w /\ G meet.

Lemma walk_nodes_in_slot_general (nodes : list nat) (st : gstore_state)
    (meet : bool) (i m : nat) :
  in_slot (fst (walk_nodes nodes st meet)) i m -> in_slot st i m.
Proof.
  revert st meet. induction nodes as [|n nodes IH]; intros st meet;
    cbn [xact_walk_nodes]; [auto|].
  pose proof (xact_visit_in_slot env is_commit oldestXmin st n i m) as Hv.
  destruct (visit st n) as [st1 warm]. cbn [fst] in Hv.
  intros H. apply Hv. eapply IH, H.
Qed.

Lemma walk_slots_in_slot_general (slots : list nat) (st : gstore_state)
    (meet : bool) (i m : nat) :
  in_slot (fst (walk_slots slots st meet)) i m -> in_slot st i m.
Proof.
  revert st meet. induction slots as [|j slots IH]; intros st meet;
    cbn [xact_walk_slots]; [auto|].
  pose proof (walk_nodes_in_slot_general (bucket (gstore_head st) j) st meet
                i m) as Hn.
  destruct (walk_nodes (bucket (gstore_head st) j) st meet) as [st1 warm].
  cbn [fst] in Hn. intros H. apply Hn. eapply IH, H.
Qed.

Lemma walk_nodes_establishes (nodes : list nat) (st : gstore_state)
    (meet : bool) :
  G (snd (walk_nodes nodes st meet)) ->
  G meet
  /\ forall m, m ∈ nodes \/ P st m -> P (fst (walk_nodes nodes st meet)) m.
Proof.
  revert st meet. induction nodes as [|n nodes IH]; intros st meet;
    cbn [xact_walk_nodes].
  - cbn. intros HG. split; [exact HG|].
    intros m [Hin|HP]; [inversion Hin | exact HP].
  - pose proof (P_visit st n) as Hvisit.
    pose proof (fun m => P_keep st n m) as Hkeep.
    destruct (visit st n) as [st1 warm]. cbn [fst snd] in *.
    intros HG. destruct (IH _ _ HG) as [HG1 HP1].
    apply G_split in HG1. destruct HG1 as [Hw Hmeet].
    split; [exact Hmeet|]. intros m [Hin|HP].
    + apply elem_of_cons in Hin. destruct Hin as [->|Hin].
      * apply HP1. right. apply Hvisit, Hw.
      * apply HP1. left. exact Hin.
    + apply HP1. right. apply Hkeep, HP.
Qed.

Lemma walk_slots_establishes (slots : list nat) (st : gstore_state)
    (meet : bool) :
  G (snd (walk_slots slots st meet)) ->
  G meet
  /\ (forall m, P st m -> P (fst (walk_slots slots st meet)) m)
  /\ (forall i m, i ∈ slots ->
                  in_slot (fst (walk_slots slots st meet)) i m ->
                  P (fst (walk_slots slots st meet)) m).
Proof.
  revert st meet. induction slots as [|j slots IH]; intros st meet;
    cbn [xact_walk_slots].
  - cbn. intros HG. split; [exact HG|]. split; [auto|].
    intros i m Hin. inversion Hin.
  - pose proof (walk_nodes_establishes (bucket (gstore_head st) j) st meet)
      as Hnodes.
    pose proof (fun i m => walk_nodes_in_slot_general
                             (bucket (gstore_head st) j) st meet i m) as Hsub.
    destruct (walk_nodes (bucket (gstore_head st) j) st meet) as [st1 warm].
    cbn [fst snd] in *.
    intros HG. destruct (IH _ _ HG) as (HG1 & Hk1 & Hs1).
    destruct (Hnodes HG1) as [Hmeet HP1].
    split; [exact Hmeet|]. split.
    + intros m HP. apply Hk1, HP1. right. exact HP.
    + intros i m Hin Hslot. apply elem_of_cons in Hin.
      destruct Hin as [->|Hin]; [|apply (Hs1 i m Hin Hslot)].
      apply Hk1, HP1. left.
      apply Hsub. eapply walk_slots_in_slot_general, Hslot.
Qed.

Lemma walk_nodes_warm_counter (nodes : list nat) (st : gstore_state)
    (meet : bool) :
  has_warm_chunks (gstore_head (fst (walk_nodes nodes st meet)))
  = has_warm_chunks (gstore_head st).
Proof.
  revert st meet. induction nodes as [|n nodes IH]; intros st meet;
    cbn [xact_walk_nodes]; [reflexivity|].
  pose proof (xact_visit_warm_counter env is_commit oldestXmin st n) as Hv.
  destruct (visit st n) as [st1 warm]. cbn [fst] in Hv.
  rewrite IH. exact Hv.
Qed.

Lemma walk_slots_warm_counter (slots : list nat) (st : gstore_state)
    (meet : bool) :
  has_warm_chunks (gstore_head (fst (walk_slots slots st meet)))
  = has_warm_chunks (gstore_head st).
Proof.
  revert st meet. induction slots as [|j slots IH]; intros st meet;
    cbn [xact_walk_slots]; [reflexivity|].
  pose proof (walk_nodes_warm_counter (bucket (gstore_head st) j) st meet)
    as Hn.
  destruct (walk_nodes (bucket (gstore_head st) j) st meet) as [st1 warm].
  cbn [fst] in Hn. rewrite IH. exact Hn.
Qed.

End CallbackWalk.

Section CallbackPredicates.
Variable env : HostEnv.
Variable is_commit : bool.
Variable oldestXmin : TransactionId.

Local Abbreviation is_current := (TransactionIdIsCurrentTransactionId env).
Local Abbreviation visit st n :=
  (gstoreOnXactCallbackPerChunk env is_commit st n oldestXmin).
Local Abbreviation verdict := (xact_verdict env is_commit oldestXmin).

(** A property of the descriptors chained in hash slots that every verdict
    establishes is established at the visited node and kept at the
    others. *)
Lemma chained_property_visit (Q : GpuStoreChunk -> Prop)
    (st : gstore_state) (n m : nat) :
  (forall c, Q (fst (fst (verdict c)))) ->
  m = n
  \/ (forall i c, in_slot st i m -> chunk_at st m = Some c -> Q c) ->
  forall i c, in_slot (fst (visit st n)) i m ->
              chunk_at (fst (visit st n)) m = Some c -> Q c.
Proof.
  intros HQ Hm i c' Hin Hc'.
  destruct (Nat.eq_dec m n) as [->|Hne].
  - destruct (chunk_at st n) as [c|] eqn:Hc.
    + destruct (xact_visit_here env is_commit oldestXmin st n c Hc)
        as [_ Hhere].
      destruct (snd (fst (verdict c))).
      * destruct (Hhere i Hin).
      * rewrite Hhere in Hc'. inversion Hc'. apply HQ.
    + rewrite xact_visit_absent in Hc' by exact Hc. cbn [fst] in Hc'.
      congruence.
  - destruct Hm as [?|Hm]; [contradiction|].
    apply xact_visit_in_slot in Hin.
    rewrite xact_visit_other in Hc' by exact Hne.
    apply (Hm i c' Hin Hc').
Qed.

Lemma final_visit (st : gstore_state) (n : nat) :
  snd (visit st n) = false -> slot_final (fst (visit st n)) n.
Proof.
  intros Hw i c' Hin Hc'.
  destruct (chunk_at st n) as [c|] eqn:Hc.
  - destruct (xact_visit_here env is_commit oldestXmin st n c Hc)
      as [Hwarm Hhere].
    rewrite Hwarm in Hw.
    pose proof (xact_verdict_final env is_commit oldestXmin c Hw) as Hfinal.
    destruct (snd (fst (verdict c))).
    + destruct (Hhere i Hin).
    + rewrite Hhere in Hc'. inversion Hc'. apply Hfinal. reflexivity.
  - rewrite xact_visit_absent in Hc' by exact Hc. cbn [fst] in Hc'.
    congruence.
Qed.

Lemma final_keep (st : gstore_state) (n m : nat) :
  slot_final st m -> slot_final (fst (visit st n)) m.
Proof.
  intros Hm i c' Hin Hc'.
  destruct (Nat.eq_dec m n) as [->|Hne].
  - pose proof (xact_visit_in_slot env is_commit oldestXmin st n i n Hin)
      as Hin0.
    destruct (chunk_at st n) as [c|] eqn:Hc.
    + destruct (Hm i c Hin0 Hc) as (Hx & Hn & Hv).
      destruct (xact_visit_here env is_commit oldestXmin st n c Hc)
        as [_ Hhere].
      pose proof (xact_verdict_keeps_final env is_commit oldestXmin c
                    Hx Hn Hv) as Hk.
      destruct (snd (fst (verdict c))).
      * destruct (Hhere i Hin).
      * rewrite Hhere in Hc'. inversion Hc'.
        destruct Hk as [Hk|[Hx' Hn']]; [discriminate|].
        rewrite Hx', Hn'. auto.
    + rewrite xact_visit_absent in Hc' by exact Hc. cbn [fst] in Hc'.
      congruence.
  - apply xact_visit_in_slot in Hin.
    rewrite xact_visit_other in Hc' by exact Hne.
    apply (Hm i c' Hin Hc').
Qed.

End CallbackPredicates.

(** The callback at commit or abort with a warm counter that is not zero:
    the walk over all hash slots, then the reset of the counter when no
    chunk was met warm. *)
Lemma xact_callback_runs (env : HostEnv) (is_commit : bool)
    (st : gstore_state) :
  has_warm_chunks (gstore_head st) <> 0 ->
  let walked := xact_walk_slots env is_commit (GetOldestXmin env)
                  (seq 0 NSLOTS) st false in
  let st' := gstoreXactCallback env
               (if is_commit then XACT_EVENT_COMMIT else XACT_EVENT_ABORT)
               st in
  (forall i m, in_slot st' i m <-> in_slot (fst walked) i m)
  /\ (forall m, chunk_at st' m = chunk_at (fst walked) m)
  /\ has_warm_chunks (gstore_head st')
     = (if snd walked then has_warm_chunks (gstore_head st) else 0).
Proof.
  intros Hwarm walked st'. apply Z.eqb_neq in Hwarm.
  pose proof (walk_slots_warm_counter env is_commit (GetOldestXmin env)
                (seq 0 NSLOTS) st false) as Hcount.
  fold walked in Hcount.
  assert (Hst : st' = if negb (snd walked)
                      then with_head (fst walked)
                             (with_has_warm_chunks (gstore_head (fst walked)) 0)
                      else fst walked).
  { subst st' walked. unfold gstoreXactCallback, NSLOTS.
    destruct is_commit; rewrite Hwarm;
      destruct (xact_walk_slots _ _ _ _ _ _) as [st1 meet]; reflexivity. }
  rewrite Hst. destruct (snd walked); cbn [negb].
  - repeat split; auto.
  - repeat split; auto.
Qed.

(** ** The transaction callback: what it leaves in the hash slots *)

(** X12. When the callback runs for the commit of a transaction and the
    warm counter is not zero, then afterwards every descriptor still
    chained in a hash slot carries the commit hint for each of its xids --
    xmin and xmax -- that belongs to the committing transaction. Which
    xids belong to it is the host's answer; the frozen xid never does. *)
Theorem commit_callback_hints_own_xids (env : HostEnv) (st : gstore_state) :
  has_warm_chunks (gstore_head st) <> 0 ->
  TransactionIdIsCurrentTransactionId env FrozenTransactionId = false ->
  let st' := gstoreXactCallback env XACT_EVENT_COMMIT st in
  forall i m c,
    (i < NSLOTS)%nat -> in_slot st' i m -> chunk_at st' m = Some c ->
    (TransactionIdIsCurrentTransactionId env (xmin c) = true ->
     xmin_commited c = true)
    /\ (TransactionIdIsCurrentTransactionId env (xmax c) = true ->
        xmax_commited c = true).
Proof.
  intros Hwarm Hfrozen st' i m c Hi Hin Hc.
  destruct (xact_callback_runs env true st Hwarm) as (Hslot & Hchunk & _).
  fold st' in Hslot, Hchunk. cbn zeta in Hslot, Hchunk.
  apply Hslot in Hin. rewrite Hchunk in Hc.
  pose proof (fun c0 => xact_verdict_hinted env true (GetOldestXmin env) c0
                          eq_refl Hfrozen) as HQ.
  destruct (walk_slots_establishes env true (GetOldestXmin env)
              (slot_hinted env) (fun _ => True)) with
    (slots := seq 0 NSLOTS) (st := st) (meet := false)
    as (_ & _ & Hall); auto.
  - intros st0 n _. unfold slot_hinted.
    apply (chained_property_visit env true (GetOldestXmin env)
             (fun c0 => (TransactionIdIsCurrentTransactionId env (xmin c0)
                         = true -> xmin_commited c0 = true)
                        /\ (TransactionIdIsCurrentTransactionId env (xmax c0)
                            = true -> xmax_commited c0 = true))).
    + exact HQ.
    + left. reflexivity.
  - intros st0 n m0 HP. unfold slot_hinted.
    apply (chained_property_visit env true (GetOldestXmin env)
             (fun c0 => (TransactionIdIsCurrentTransactionId env (xmin c0)
                         = true -> xmin_commited c0 = true)
                        /\ (TransactionIdIsCurrentTransactionId env (xmax c0)
                            = true -> xmax_commited c0 = true))).
    + exact HQ.
    + right. exact HP.
  - assert (Hseq : i ∈ seq 0 NSLOTS) by (apply elem_of_seq; lia).
    exact (Hall i m Hseq Hin i c Hin Hc).
Qed.

(** X14. The callback resets the warm counter to zero only when nothing
    is left to do: if it is entered with a counter that is not zero and
    leaves it zero, then every descriptor still chained in a hash slot has
    no xmax and carries a permanent xmin (frozen or bootstrap), so that no
    later commit, abort or horizon can change what becomes of it. *)
Theorem warm_counter_reset_only_when_final (env : HostEnv) (event : XactEvent)
    (st : gstore_state) :
  has_warm_chunks (gstore_head st) <> 0 ->
  let st' := gstoreXactCallback env event st in
  has_warm_chunks (gstore_head st') = 0 ->
  forall i m c,
    (i < NSLOTS)%nat -> in_slot st' i m -> chunk_at st' m = Some c ->
    xmax c = InvalidTransactionId
    /\ TransactionIdIsNormal (xmin c) = false
    /\ xmin c <> InvalidTransactionId.
Proof.
  intros Hwarm st' Hzero i m c Hi Hin Hc.
  assert (Hrun : forall is_commit : bool,
            event = (if is_commit then XACT_EVENT_COMMIT
                     else XACT_EVENT_ABORT) ->
            xmax c = InvalidTransactionId
            /\ TransactionIdIsNormal (xmin c) = false
            /\ xmin c <> InvalidTransactionId).
  { intros is_commit He.
    destruct (xact_callback_runs env is_commit st Hwarm)
      as (Hslot & Hchunk & Hcount).
    rewrite <- He in Hslot, Hchunk, Hcount.
    fold st' in Hslot, Hchunk, Hcount. cbn zeta in Hslot, Hchunk, Hcount.
    apply Hslot in Hin. rewrite Hchunk in Hc.
    destruct (walk_slots_establishes env is_commit (GetOldestXmin env)
                slot_final (fun w => w = false)) with
      (slots := seq 0 NSLOTS) (st := st) (meet := false)
      as (_ & _ & Hall).
    - apply final_visit.
    - apply final_keep.
    - intros [] meet H; [discriminate | auto].
    - destruct (snd (xact_walk_slots env is_commit (GetOldestXmin env)
                       (seq 0 NSLOTS) st false)); [|reflexivity].
      rewrite Hzero in Hcount. congruence.
    - assert (Hseq : i ∈ seq 0 NSLOTS) by (apply elem_of_seq; lia).
      exact (Hall i m Hseq Hin i c Hin Hc). }
  destruct event.
  - apply (Hrun true). reflexivity.
  - apply (Hrun false). reflexivity.
  - subst st'. cbn in Hzero. contradiction.
  - subst st'. cbn in Hzero. contradiction.
Qed.

(** ** The callback treats every chained chunk once *)

Section CallbackOnce.
Variable env : HostEnv.
Variable is_commit : bool.
Variable oldestXmin : TransactionId.

Local Abbreviation visit st n :=
  (gstoreOnXactCallbackPerChunk env is_commit st n oldestXmin).
Local Abbreviation verdict := (xact_verdict env is_commit oldestXmin).
Local Abbreviation walk_nodes nodes st meet :=
  (fst (xact_walk_nodes env is_commit oldestXmin nodes st meet)).
Local Abbreviation walk_slots slots st meet :=
  (fst (xact_walk_slots env is_commit oldestXmin slots st meet)).

Local Abbreviation treated := (treated env is_commit oldestXmin).

Lemma directory_wf_one_slot (st : gstore_state) (i j m : nat) :
  directory_wf st -> in_slot st i m -> in_slot st j m -> i = j.
Proof.
  intros (_ & _ & Hcov & Hhash & _) Hi Hj.
  assert (Hlt : (m < length (gs_chunks (gstore_head st)))%nat).
  { apply Hcov, elem_of_app. right. apply elem_of_concat_bucket. eauto. }
  destruct (lookup_lt_is_Some_2 _ _ Hlt) as [c Hc].
  rewrite <- (Hhash i m c Hi Hc). apply (Hhash j m c Hj Hc).
Qed.

Lemma walk_nodes_frame (nodes : list nat) (st : gstore_state) (meet : bool)
    (m : nat) :
  m ∉ nodes ->
  chunk_at (walk_nodes nodes st meet) m = chunk_at st m
  /\ forall i, in_slot st i m -> in_slot (walk_nodes nodes st meet) i m.
Proof.
  revert st meet. induction nodes as [|n nodes IH]; intros st meet Hm;
    cbn [xact_walk_nodes]; [auto|].
  apply not_elem_of_cons in Hm. destruct Hm as [Hne Hm].
  pose proof (xact_visit_other env is_commit oldestXmin st n m Hne) as Hc.
  pose proof (fun i => xact_visit_keeps_chained env is_commit oldestXmin
                         st n i m Hne) as Hk.
  destruct (visit st n) as [st1 warm]. cbn [fst] in *.
  destruct (IH st1 (if warm then true else meet) Hm) as [Hc1 Hk1].
  split; [congruence | auto].
Qed.

Lemma walk_nodes_once (nodes : list nat) (st : gstore_state) (meet : bool)
    (i m : nat) (c : GpuStoreChunk) :
  NoDup nodes -> m ∈ nodes ->
  in_slot st i m -> chunk_at st m = Some c ->
  treated (walk_nodes nodes st meet) i m c.
Proof.
  intros Hnd. revert st meet.
  induction Hnd as [|n nodes Hn Hnd IH]; intros st meet Hm Hin Hc;
    [inversion Hm|].
  cbn [xact_walk_nodes]. apply elem_of_cons in Hm.
  destruct (Nat.eq_dec m n) as [->|Hne].
  - destruct (xact_visit_here env is_commit oldestXmin st n c Hc)
      as [_ Hhere].
    pose proof (xact_visit_is_verdict env is_commit oldestXmin st n c Hc)
      as Hv.
    destruct (visit st n) as [st1 warm]. cbn [fst] in *.
    destruct (walk_nodes_frame nodes st1 (if warm then true else meet) n Hn)
      as [Hc1 Hk1].
    unfold treated. destruct (verdict c) as [[c' released] w].
    cbn [fst snd apply_verdict] in *. destruct released.
    + intros j Hj.
      apply (walk_nodes_in_slot_general env is_commit oldestXmin) in Hj.
      apply (Hhere j Hj).
    + split; [|congruence]. apply Hk1. inversion Hv; subst st1. exact Hin.
  - destruct Hm as [?|Hm]; [contradiction|].
    pose proof (xact_visit_other env is_commit oldestXmin st n m Hne) as Hc1.
    pose proof (xact_visit_keeps_chained env is_commit oldestXmin
                  st n i m Hne Hin) as Hk.
    destruct (visit st n) as [st1 warm]. cbn [fst] in *.
    apply IH; [exact Hm | exact Hk | congruence].
Qed.

Lemma walk_slots_frame (slots : list nat) (st : gstore_state) (meet : bool)
    (i m : nat) :
  directory_wf st -> i ∉ slots -> in_slot st i m ->
  chunk_at (walk_slots slots st meet) m = chunk_at st m
  /\ in_slot (walk_slots slots st meet) i m.
Proof.
  revert st meet. induction slots as [|j slots IH]; intros st meet Hwf Hi Hin;
    cbn [xact_walk_slots]; [auto|].
  apply not_elem_of_cons in Hi. destruct Hi as [Hne Hi].
  assert (Hm : m ∉ bucket (gstore_head st) j).
  { intros Hj. apply Hne. apply (directory_wf_one_slot st i j m Hwf Hin Hj). }
  destruct (walk_nodes_frame (bucket (gstore_head st) j) st meet m Hm)
    as [Hc1 Hk1].
  pose proof (xact_walk_nodes_wf env is_commit oldestXmin
                (bucket (gstore_head st) j) st meet Hwf) as Hwf1.
  destruct (xact_walk_nodes env is_commit oldestXmin _ st meet)
    as [st1 warm]. cbn [fst] in *.
  destruct (IH st1 warm Hwf1 Hi (Hk1 i Hin)) as [Hc2 Hk2].
  split; [congruence | exact Hk2].
Qed.

Lemma walk_slots_once (slots : list nat) (st : gstore_state) (meet : bool)
    (i m : nat) (c : GpuStoreChunk) :
  directory_wf st -> NoDup slots -> i ∈ slots ->
  in_slot st i m -> chunk_at st m = Some c ->
  treated (walk_slots slots st meet) i m c.
Proof.
  intros Hwf Hnd. revert st meet Hwf.
  induction Hnd as [|j slots Hj Hnd IH]; intros st meet Hwf Hi Hin Hc;
    [inversion Hi|].
  cbn [xact_walk_slots]. apply elem_of_cons in Hi.
  pose proof (xact_walk_nodes_wf env is_commit oldestXmin
                (bucket (gstore_head st) j) st meet Hwf) as Hwf1.
  destruct (Nat.eq_dec i j) as [->|Hne].
  - pose proof (walk_nodes_once (bucket (gstore_head st) j) st meet j m c
                  (directory_wf_NoDup_bucket st j Hwf) Hin Hin Hc) as Ht.
    destruct (xact_walk_nodes env is_commit oldestXmin _ st meet)
      as [st1 warm]. cbn [fst] in *.
    unfold treated in *. destruct (snd (fst (verdict c))).
    + intros k Hk.
      apply (walk_slots_in_slot_general env is_commit oldestXmin) in Hk.
      apply (Ht k Hk).
    + destruct Ht as [Hin1 Hc1].
      destruct (walk_slots_frame slots st1 warm j m Hwf1 Hj Hin1)
        as [Hc2 Hk2].
      split; [exact Hk2 | congruence].
  - destruct Hi as [?|Hi]; [contradiction|].
    assert (Hm : m ∉ bucket (gstore_head st) j).
    { intros Hb. apply Hne.
      apply (directory_wf_one_slot st i j m Hwf Hin Hb). }
    destruct (walk_nodes_frame (bucket (gstore_head st) j) st meet m Hm)
      as [Hc1 Hk1].
    destruct (xact_walk_nodes env is_commit oldestXmin _ st meet)
      as [st1 warm]. cbn [fst] in *.
    apply IH; [exact Hwf1 | exact Hi | apply Hk1, Hin | congruence].
Qed.

End CallbackOnce.

(** The callback never changes the number of descriptors. *)
Lemma release_chunk_length (st : gstore_state) (n : nat) :
  length (gs_chunks (gstore_head (gstore_fdw_release_chunk st n)))
  = length (gs_chunks (gstore_head st)).
Proof.
  destruct (chunk_at st n) as [c|] eqn:Hc; unfold chunk_at in Hc.
  - rewrite (release_chunk_head st n c Hc). cbn. apply length_insert.
  - unfold gstore_fdw_release_chunk. rewrite Hc. reflexivity.
Qed.

Lemma xact_visit_length (env : HostEnv) (is_commit : bool)
    (oldestXmin : TransactionId) (st : gstore_state) (n : nat) :
  length (gs_chunks (gstore_head
            (fst (gstoreOnXactCallbackPerChunk env is_commit st n
                    oldestXmin))))
  = length (gs_chunks (gstore_head st)).
Proof.
  destruct (chunk_at st n) as [c|] eqn:Hc.
  - rewrite (xact_visit_is_verdict env is_commit oldestXmin st n c Hc).
    destruct (xact_verdict env is_commit oldestXmin c)
      as [[c' released] warm]. cbn [apply_verdict fst].
    destruct released; [rewrite release_chunk_length|];
      unfold put_chunk; cbn; apply length_insert.
  - rewrite xact_visit_absent by exact Hc. reflexivity.
Qed.

Lemma xact_walk_nodes_length (env : HostEnv) (is_commit : bool)
    (oldestXmin : TransactionId) (nodes : list nat) (st : gstore_state)
    (meet : bool) :
  length (gs_chunks (gstore_head
            (fst (xact_walk_nodes env is_commit oldestXmin nodes st meet))))
  = length (gs_chunks (gstore_head st)).
Proof.
  revert st meet. induction nodes as [|n nodes IH]; intros st meet;
    cbn [xact_walk_nodes]; [reflexivity|].
  pose proof (xact_visit_length env is_commit oldestXmin st n) as Hv.
  destruct (gstoreOnXactCallbackPerChunk env is_commit st n oldestXmin)
    as [st1 warm]. cbn [fst] in Hv. rewrite IH. exact Hv.
Qed.

Lemma xact_walk_slots_length (env : HostEnv) (is_commit : bool)
    (oldestXmin : TransactionId) (slots : list nat) (st : gstore_state)
    (meet : bool) :
  length (gs_chunks (gstore_head
            (fst (xact_walk_slots env is_commit oldestXmin slots st meet))))
  = length (gs_chunks (gstore_head st)).
Proof.
  revert st meet. induction slots as [|j slots IH]; intros st meet;
    cbn [xact_walk_slots]; [reflexivity|].
  pose proof (xact_walk_nodes_length env is_commit oldestXmin
                (bucket (gstore_head st) j) st meet) as Hn.
  destruct (xact_walk_nodes env is_commit oldestXmin _ st meet)
    as [st1 warm]. cbn [fst] in Hn. rewrite IH. exact Hn.
Qed.

Lemma xact_callback_length (env : HostEnv) (event : XactEvent)
    (st : gstore_state) :
  length (gs_chunks (gstore_head (gstoreXactCallback env event st)))
  = length (gs_chunks (gstore_head st)).
Proof.
  assert (Hrun : forall is_commit : bool,
    length (gs_chunks (gstore_head
      (if has_warm_chunks (gstore_head st) =? 0 then st
       else
         let (st1, meet_warm_chunks) :=
           xact_walk_slots env is_commit (GetOldestXmin env)
             (seq 0 (Z.to_nat GSTORE_CHUNK_HASH_NSLOTS)) st false in
         if negb meet_warm_chunks
         then with_head st1 (with_has_warm_chunks (gstore_head st1) 0)
         else st1)))
    = length (gs_chunks (gstore_head st))).
  { intros is_commit. destruct (has_warm_chunks (gstore_head st) =? 0);
      [reflexivity|].
    pose proof (xact_walk_slots_length env is_commit (GetOldestXmin env)
                  (seq 0 (Z.to_nat GSTORE_CHUNK_HASH_NSLOTS)) st false) as Hw.
    destruct (xact_walk_slots env is_commit _ _ st false) as [st1 meet].
    cbn [fst] in Hw. destruct (negb meet); exact Hw. }
  unfold gstoreXactCallback. destruct event; auto.
Qed.

Lemma xact_callback_treats (env : HostEnv) (is_commit : bool)
    (st : gstore_state) (i m : nat) (c : GpuStoreChunk) :
  directory_wf st ->
  has_warm_chunks (gstore_head st) <> 0 ->
  (i < NSLOTS)%nat -> in_slot st i m -> chunk_at st m = Some c ->
  treated env is_commit (GetOldestXmin env)
    (gstoreXactCallback env
       (if is_commit then XACT_EVENT_COMMIT else XACT_EVENT_ABORT) st)
    i m c.
Proof.
  intros Hwf Hwarm Hi Hin Hc.
  destruct (xact_callback_runs env is_commit st Hwarm) as (Hslot & Hchunk & _).
  cbn zeta in Hslot, Hchunk.
  assert (Hseq : i ∈ seq 0 NSLOTS) by (apply elem_of_seq; lia).
  pose proof (walk_slots_once env is_commit (GetOldestXmin env)
                (seq 0 NSLOTS) st false i m c Hwf (NoDup_seq 0 NSLOTS)
                Hseq Hin Hc) as Ht.
  unfold treated in *.
  destruct (snd (fst (xact_verdict env is_commit (GetOldestXmin env) c))).
  - intros j Hj. apply Hslot in Hj. apply (Ht j Hj).
  - destruct Ht as [Hin' Hc']. split; [apply Hslot, Hin'|].
    rewrite Hchunk. exact Hc'.
Qed.

(** X15. In a directory of the right shape the callback, run for a commit
    or an abort with a warm counter that is not zero, treats every chained
    chunk exactly once and by its verdict alone: either the chunk leaves
    all hash slots and is on the free list, or it stays chained in its slot
    and its descriptor differs from the one found at most by a cleared
    xmax, a frozen xmin and newly set hint bits. *)
Theorem callback_treats_each_chunk_by_its_verdict (env : HostEnv)
    (is_commit : bool) (st : gstore_state) (i m : nat) (c : GpuStoreChunk) :
  directory_wf st ->
  has_warm_chunks (gstore_head st) <> 0 ->
  (i < NSLOTS)%nat -> in_slot st i m -> chunk_at st m = Some c ->
  let st' := gstoreXactCallback env
               (if is_commit then XACT_EVENT_COMMIT else XACT_EVENT_ABORT)
               st in
  let v := xact_verdict env is_commit (GetOldestXmin env) c in
  (if snd (fst v)
   then on_free_list st' m /\ forall j, ~ in_slot st' j m
   else in_slot st' i m /\ chunk_at st' m = Some (fst (fst v)))
  /\ same_identity c (fst (fst v))
  /\ cid (fst (fst v)) = cid c
  /\ (xmax (fst (fst v)) = xmax c
      \/ xmax (fst (fst v)) = InvalidTransactionId)
  /\ (xmin (fst (fst v)) = xmin c
      \/ xmin (fst (fst v)) = FrozenTransactionId)
  /\ (xmin_commited c = true -> xmin_commited (fst (fst v)) = true)
  /\ (xmax_commited c = true -> xmax_commited (fst (fst v)) = true).
Proof.
  intros Hwf Hwarm Hi Hin Hc st' v.
  pose proof (xact_callback_treats env is_commit st i m c Hwf Hwarm Hi Hin Hc)
    as Ht.
  pose proof (xact_callback_wf env
                (if is_commit then XACT_EVENT_COMMIT else XACT_EVENT_ABORT)
                st Hwf) as Hwf'.
  fold st' in Ht, Hwf'. unfold treated in Ht. fold v in Ht.
  destruct (xact_verdict_changes env is_commit (GetOldestXmin env) c)
    as (Hcid & Hxmax & Hxmin & Hhmin & Hhmax).
  fold v in Hcid, Hxmax, Hxmin, Hhmin, Hhmax. cbn zeta in *.
  split; [|split; [apply xact_verdict_same_identity|]].
  - destruct (snd (fst v)); [|exact Ht]. split; [|exact Ht].
    destruct Hwf' as (_ & _ & Hcov & _).
    assert (Hlt : (m < length (gs_chunks (gstore_head st')))%nat).
    { subst st'. rewrite xact_callback_length.
      eapply lookup_lt_Some. exact Hc. }
    apply Hcov in Hlt. apply elem_of_app in Hlt.
    destruct Hlt as [Hf|Ha]; [exact Hf|].
    apply elem_of_concat_bucket in Ha. destruct Ha as [j Hj].
    destruct (Ht j Hj).
  - split; [exact Hcid|].
    split; [destruct Hxmax as [?|[? _]]; auto|].
    split; [destruct Hxmin as [?|[? _]]; auto|].
    split; intros Hh.
    + destruct Hhmin as [->|[? _]]; auto.
    + destruct Hhmax as [->|[? _]]; auto.
Qed.

(** X16. The callback never drops a live chunk. In a directory of the
    right shape, a chunk that is chained before a commit or abort callback
    (warm counter not zero) and is no longer chained in its slot afterwards
    was an insertion of the aborting transaction, or its deletion is
    committed -- hinted so, or by the committing transaction itself -- and
    precedes the oldest xmin, or it had no inserting xid and no standing
    deletion. *)
Theorem callback_releases_only_dead_chunks (env : HostEnv)
    (is_commit : bool) (st : gstore_state) (i m : nat) (c : GpuStoreChunk) :
  directory_wf st ->
  has_warm_chunks (gstore_head st) <> 0 ->
  (i < NSLOTS)%nat -> in_slot st i m -> chunk_at st m = Some c ->
  ~ in_slot (gstoreXactCallback env
               (if is_commit then XACT_EVENT_COMMIT else XACT_EVENT_ABORT)
               st) i m ->
  (is_commit = false
   /\ TransactionIdIsCurrentTransactionId env (xmin c) = true)
  \/ (xmax c <> InvalidTransactionId
      /\ TransactionIdPrecedes (xmax c) (GetOldestXmin env) = true
      /\ (xmax_commited c = true
          \/ (is_commit = true
              /\ TransactionIdIsCurrentTransactionId env (xmax c) = true)))
  \/ (xmin c = InvalidTransactionId
      /\ (xmax c = InvalidTransactionId
          \/ (is_commit = false
              /\ TransactionIdIsCurrentTransactionId env (xmax c) = true))).
Proof.
  intros Hwf Hwarm Hi Hin Hc Hgone.
  pose proof (xact_callback_treats env is_commit st i m c Hwf Hwarm Hi Hin Hc)
    as Ht.
  pose proof (xact_verdict_released_why env is_commit (GetOldestXmin env) c)
    as Hwhy.
  unfold treated in Ht.
  destruct (snd (fst (xact_verdict env is_commit (GetOldestXmin env) c))).
  - apply Hwhy. reflexivity.
  - destruct Ht as [Hstill _]. contradiction.
Qed.

(** X13. The abort callback leaves a rolled-back DELETE standing, and the
    readers undo it. The callback runs for the abort of a transaction, on
    a directory of the right shape with a warm counter that is not zero.
    A chained descriptor that is marked deleted without the commit hint,
    and neither of whose xids the host counts as current -- inside the
    abort callback the host counts no xid as current any more -- stays
    chained in its slot exactly as it was, xmax included, and the warm
    counter keeps its value. The deletion is undone later by the
    visibility test: for a reader for whom the chunk's insertion is
    committed and over, and whose host and snapshot count the deleter as
    neither its own, nor in progress, nor committed, the chunk is visible
    and the test clears its xmax. *)
Theorem aborted_delete_is_left_to_readers (env : HostEnv) (st : gstore_state)
    (i m : nat) (c : GpuStoreChunk) :
  directory_wf st ->
  has_warm_chunks (gstore_head st) <> 0 ->
  (i < NSLOTS)%nat -> in_slot st i m -> chunk_at st m = Some c ->
  TransactionIdIsCurrentTransactionId env (xmin c) = false ->
  TransactionIdIsCurrentTransactionId env (xmax c) = false ->
  xmax c <> InvalidTransactionId ->
  xmax_commited c = false ->
  let st' := gstoreXactCallback env XACT_EVENT_ABORT st in
  in_slot st' i m
  /\ chunk_at st' m = Some c
  /\ has_warm_chunks (gstore_head st') = has_warm_chunks (gstore_head st)
  /\ forall (reader : HostEnv) (S : SnapshotData),
       xmin_commited c = true ->
       xmin c = FrozenTransactionId \/ XidInMVCCSnapshot S (xmin c) = false ->
       TransactionIdIsCurrentTransactionId reader (xmax c) = false ->
       XidInMVCCSnapshot S (xmax c) = false ->
       TransactionIdDidCommit reader (xmax c) = false ->
       gstore_fdw_satisfies_visibility reader c S
       = (true, set_xmax c InvalidTransactionId).
Proof.
  intros Hwf Hwarm Hi Hin Hc Hmin Hmax Hvalid Hhint st'.
  assert (Hv : xact_verdict env false (GetOldestXmin env) c = (c, false, true)).
  { unfold xact_verdict. rewrite Hmax, Hmin. unfold horizon_verdict.
    unfold TransactionIdIsValid. apply Z.eqb_neq in Hvalid.
    rewrite Hvalid, Hhint. reflexivity. }
  pose proof (xact_callback_treats env false st i m c Hwf Hwarm Hi Hin Hc)
    as Ht.
  fold st' in Ht. unfold treated in Ht. rewrite Hv in Ht. cbn [fst snd] in Ht.
  destruct Ht as [Hin' Hc'].
  split; [exact Hin'|]. split; [exact Hc'|]. split.
  - destruct (xact_callback_runs env false st Hwarm)
      as (Hslot & Hchunk & Hcount).
    fold st' in Hslot, Hchunk, Hcount. cbn zeta in Hslot, Hchunk, Hcount.
    rewrite Hcount.
    destruct (snd (xact_walk_slots env false (GetOldestXmin env)
                     (seq 0 NSLOTS) st false)) eqn:Hmeet; [reflexivity|].
    exfalso.
    destruct (walk_slots_establishes env false (GetOldestXmin env)
                slot_final (fun w => w = false)) with
      (slots := seq 0 NSLOTS) (st := st) (meet := false)
      as (_ & _ & Hall).
    + apply final_visit.
    + apply final_keep.
    + intros [] meet H; [discriminate | auto].
    + exact Hmeet.
    + assert (Hseq : i ∈ seq 0 NSLOTS) by (apply elem_of_seq; lia).
      apply Hslot in Hin'. rewrite Hchunk in Hc'.
      destruct (Hall i m Hseq Hin' i c Hin' Hc') as (Hx & _).
      exact (Hvalid Hx).
  - intros reader S Hxmin Hover Hcur Hsnap Hcommit.
    unfold gstore_fdw_satisfies_visibility. rewrite Hxmin. cbn [negb].
    assert (Hnot : negb (xmin c =? FrozenTransactionId)
                   && XidInMVCCSnapshot S (xmin c) = false).
    { destruct Hover as [-> | ->]; [reflexivity|].
      apply andb_false_r. }
    rewrite Hnot. unfold satisfies_visibility_xmax, TransactionIdIsValid.
    apply Z.eqb_neq in Hvalid.
    rewrite Hvalid, Hhint, Hcur, Hsnap, Hcommit. reflexivity.
Qed.

(** ** Every chained chunk has its segment *)

Lemma dsm_find_app_l (h : Z) (segs more : list (Z * kern_data_store))
    (kds : kern_data_store) :
  dsm_find h segs = Some kds -> dsm_find h (segs ++ more) = Some kds.
Proof.
  induction segs as [|[h0 k0] segs IH]; cbn [dsm_find app]; [discriminate|].
  destruct (h0 =? h); [auto | exact IH].
Qed.

Lemma dsm_find_app_fresh (h : Z) (segs : list (Z * kern_data_store))
    (kds : kern_data_store) :
  (forall h' k', (h', k') ∈ segs -> h' <> h) ->
  dsm_find h (segs ++ [(h, kds)]) = Some kds.
Proof.
  induction segs as [|[h0 k0] segs IH]; intros Hfresh; cbn [dsm_find app].
  - rewrite Z.eqb_refl. reflexivity.
  - assert (Hne : h0 <> h) by (apply (Hfresh h0 k0), list_elem_of_here).
    apply Z.eqb_neq in Hne. rewrite Hne. apply IH.
    intros h' k' Hin. apply (Hfresh h' k'), list_elem_of_further, Hin.
Qed.

Lemma to_uint32_nonneg (x : Z) : 0 <= to_uint32 x.
Proof. unfold to_uint32. apply Z.mod_pos_bound. lia. Qed.

Lemma chunk_mapped_same_identity (st st' : gstore_state)
    (c c' : GpuStoreChunk) :
  dsm_segments st' = dsm_segments st -> same_identity c c' ->
  chunk_mapped st c -> chunk_mapped st' c'.
Proof.
  intros Hseg (_ & _ & _ & Hk & _ & _ & _ & Hd) (Hnn & kds & Hfind & Hn).
  unfold chunk_mapped. rewrite Hseg, Hk, Hd. eauto.
Qed.

Lemma chunk_mapped_more_segments (st st' : gstore_state) (c : GpuStoreChunk)
    (more : list (Z * kern_data_store)) :
  dsm_segments st' = dsm_segments st ++ more ->
  chunk_mapped st c -> chunk_mapped st' c.
Proof.
  intros Hseg (Hnn & kds & Hfind & Hn). unfold chunk_mapped. rewrite Hseg.
  split; [exact Hnn|]. exists kds. split; [|exact Hn].
  apply dsm_find_app_l, Hfind.
Qed.

Lemma slot_mapped_same_identity (st st' : gstore_state) (i : nat) :
  dsm_segments st' = dsm_segments st ->
  active_chunks (gstore_head st') = active_chunks (gstore_head st) ->
  Forall2 same_identity (gs_chunks (gstore_head st))
          (gs_chunks (gstore_head st')) ->
  slot_mapped st i -> slot_mapped st' i.
Proof.
  intros Hseg Hact Hsame Hmapped n c' Hin Hc'.
  unfold in_slot, bucket in Hin. rewrite Hact in Hin.
  unfold chunk_at in Hc'.
  destruct (Forall2_lookup_r _ _ _ _ _ Hsame Hc') as (c & Hc & Hcc).
  apply (chunk_mapped_same_identity st st' c c' Hseg Hcc).
  exact (Hmapped n c Hin Hc).
Qed.

Lemma segments_wf_same_identity (st st' : gstore_state) :
  dsm_segments st' = dsm_segments st ->
  dsm_next_handle st' = dsm_next_handle st ->
  active_chunks (gstore_head st') = active_chunks (gstore_head st) ->
  Forall2 same_identity (gs_chunks (gstore_head st))
          (gs_chunks (gstore_head st')) ->
  segments_wf st -> segments_wf st'.
Proof.
  intros Hseg Hnext Hact Hsame [Hmapped Hfresh]. split.
  - intros i. apply (slot_mapped_same_identity st st'); auto.
  - rewrite Hseg, Hnext. exact Hfresh.
Qed.

Lemma release_chunk_segments (st : gstore_state) (n : nat) :
  dsm_segments (gstore_fdw_release_chunk st n) = dsm_segments st
  /\ dsm_next_handle (gstore_fdw_release_chunk st n) = dsm_next_handle st.
Proof.
  unfold gstore_fdw_release_chunk.
  destruct (gs_chunks (gstore_head st) !! n) as [c|]; [|auto].
  destruct (cuda_dindex c >=? 0); auto.
Qed.

Lemma release_chunk_segments_wf (st : gstore_state) (n : nat) :
  segments_wf st -> segments_wf (gstore_fdw_release_chunk st n).
Proof.
  intros [Hmapped Hfresh].
  destruct (release_chunk_segments st n) as [Hseg Hnext]. split.
  - intros i m c Hin Hc. apply release_chunk_in_slot in Hin.
    assert (Hold : in_slot st i m /\ chunk_at st m = Some c).
    { destruct Hin as [[Hin Hne]|[Hin Hnone]].
      - rewrite release_chunk_other in Hc by exact Hne. auto.
      - unfold gstore_fdw_release_chunk in Hc. unfold chunk_at in Hnone.
        rewrite Hnone in Hc. auto. }
    destruct Hold as [Hin' Hc'].
    destruct (Hmapped i m c Hin' Hc') as (Hnn & kds & Hfind & Hk).
    unfold chunk_mapped. rewrite Hseg. eauto.
  - rewrite Hseg, Hnext. exact Hfresh.
Qed.

Lemma put_chunk_segments_wf (st : gstore_state) (n : nat)
    (c c' : GpuStoreChunk) :
  chunk_at st n = Some c -> same_identity c c' ->
  segments_wf st -> segments_wf (put_chunk st n c').
Proof.
  intros Hc Hs. apply segments_wf_same_identity; try reflexivity.
  apply (Forall2_same_identity_insert _ n c c' Hc Hs).
Qed.

Section SegmentsKept.
Variable env : HostEnv.

Lemma writeout_image_nitems (tupdesc : TupleDesc) (ls : gstoreLoadState) :
  k_nitems (fst (writeout_image env tupdesc ls)) = to_uint32 (nitems ls).
Proof.
  unfold writeout_image.
  destruct (writeout_columns _ _ _ _ _ _) as [[cmetas cols] data].
  reflexivity.
Qed.

(** A chunk is published with the handle of the segment that holds its
    image; the segments of the chunks chained before stay where they
    are. *)
Lemma writeout_chunk_segments_wf (st : gstore_state) (relation : Relation)
    (ls : gstoreLoadState) :
  directory_wf st -> segments_wf st ->
  segments_wf (result_state (gstore_fdw_writeout_chunk env st relation ls)).
Proof.
  intros Hwf [Hmapped Hfresh].
  pose proof (writeout_chunk_cases env st relation ls) as Hc.
  assert (Hfresh' : forall st',
            dsm_segments st'
            = dsm_segments st
              ++ [(dsm_next_handle st,
                   fst (writeout_image env (rd_att relation) ls))] ->
            dsm_next_handle st' = dsm_next_handle st + 1 ->
            forall h kds, (h, kds) ∈ dsm_segments st' ->
                          h < dsm_next_handle st').
  { intros st' Hs Hn h kds Hin. rewrite Hs in Hin. rewrite Hn.
    apply elem_of_app in Hin. destruct Hin as [Hin|Hin].
    - specialize (Hfresh h kds Hin). lia.
    - apply list_elem_of_singleton in Hin. inversion Hin. lia. }
  assert (Hpublished : forall st',
            writeout_published env st relation ls st' -> segments_wf st').
  2: { destruct (gstore_fdw_writeout_chunk env st relation ls)
         as [st' ls'|st' e]; cbn [result_state].
       - destruct Hc as [Hpub _]. apply Hpublished, Hpub.
       - destruct Hc as [[_ Hpub] | (Hh & Hm & Hs & Hn)];
           [apply Hpublished, Hpub|].
         split; [|apply Hfresh'; auto].
         intros i n c Hin Hcn. unfold in_slot in Hin. unfold chunk_at in Hcn.
         rewrite Hh in Hin, Hcn.
         apply (chunk_mapped_more_segments st st' c _ Hs).
         exact (Hmapped i n c Hin Hcn). }
  clear Hc. intros st' Hc.
  destruct Hc as (dnode & rest & ipc & Hfree & Hh & Hm & Hs & Hn).
  split; [|apply Hfresh'; auto].
  destruct Hwf as (Hlen & Hnd & Hcov & _).
  set (slot := table_slot env relation) in *.
  assert (Hi : (slot < length (active_chunks (gstore_head st)))%nat).
  { rewrite Hlen. apply hash_index_lt. }
  assert (Hdf : dnode ∈ free_chunks (gstore_head st)).
  { rewrite Hfree. apply list_elem_of_here. }
  assert (Hdlt : (dnode < length (gs_chunks (gstore_head st)))%nat).
  { apply Hcov, elem_of_app. left. exact Hdf. }
  intros i n c Hin Hcn. unfold in_slot, bucket in Hin.
  unfold chunk_at in Hcn. rewrite Hh in Hin, Hcn.
  cbn [active_chunks gs_chunks] in Hin, Hcn.
  rewrite bucket_insert in Hin by exact Hi.
  destruct (Nat.eq_dec n dnode) as [->|Hne].
  - rewrite list_lookup_insert_eq in Hcn by exact Hdlt.
    inversion Hcn; subst c. unfold chunk_mapped, published_chunk.
    cbn [kds_nitems dsm_handle]. rewrite writeout_image_nitems.
    split; [apply to_uint32_nonneg|].
    exists (fst (writeout_image env (rd_att relation) ls)).
    split; [|apply writeout_image_nitems].
    rewrite Hs. apply dsm_find_app_fresh.
    intros h' k' Hin'. specialize (Hfresh h' k' Hin'). lia.
  - rewrite list_lookup_insert_ne in Hcn by congruence.
    apply (chunk_mapped_more_segments st st' c _ Hs).
    apply (Hmapped i n c); [|exact Hcn]. unfold in_slot, bucket.
    destruct (Nat.eqb i slot) eqn:E; [|exact Hin].
    apply Nat.eqb_eq in E. subst i.
    apply elem_of_app in Hin. destruct Hin as [Hin|Hin]; [exact Hin|].
    apply list_elem_of_singleton in Hin. contradiction.
Qed.

Local Abbreviation store_wf st := (directory_wf st /\ segments_wf st).

Lemma writeout_chunk_store_wf (st : gstore_state) (relation : Relation)
    (ls : gstoreLoadState) :
  store_wf st ->
  store_wf (result_state (gstore_fdw_writeout_chunk env st relation ls)).
Proof.
  intros [Hwf Hseg]. split.
  - apply writeout_chunk_wf, Hwf.
  - apply writeout_chunk_segments_wf; assumption.
Qed.

Lemma begin_modify_store_wf (st : gstore_state) (relation : Relation)
    (S : SnapshotData) :
  store_wf st ->
  store_wf (result_state (gstoreBeginForeignModify env st relation S)).
Proof.
  intros [Hwf Hseg]. split; [apply begin_modify_wf, Hwf|].
  unfold gstoreBeginForeignModify.
  destruct (referenced relation); [exact Hseg|].
  assert (Hf : segments_wf
                 (with_head st
                    (snd (gstore_fdw_first_chunk env (gstore_head st)
                            relation S)))).
  { revert Hseg. apply segments_wf_same_identity.
    - reflexivity.
    - reflexivity.
    - unfold gstore_fdw_first_chunk.
      destruct (visible_chunk_in _ _ _ _ _ _ _). reflexivity.
    - unfold gstore_fdw_first_chunk.
      pose proof (visible_chunk_in_same_identity env
                    (gs_chunks (gstore_head st))
                    (bucket (gstore_head st)
                       (hash_index
                          (legacy_crc32_oids env (MyDatabaseId env)
                             (rd_id relation))))
                    (legacy_crc32_oids env (MyDatabaseId env)
                       (rd_id relation))
                    (MyDatabaseId env) (rd_id relation) S) as Hs.
      destruct (visible_chunk_in _ _ _ _ _ _ _). exact Hs. }
  destruct (gstore_fdw_first_chunk env (gstore_head st) relation S)
    as [found h']. cbn [snd] in Hf.
  destruct found; [exact Hf|].
  destruct (begin_unitsz _ _ _) as [[unitsz aligns]|]; [|exact Hf].
  destruct (unitsz =? 0); [exact Hf|].
  cbv zeta. destruct (begin_values_valid _ _ _); exact Hf.
Qed.

Lemma exec_insert_store_wf (st : gstore_state) (relation : Relation)
    (ls : gstoreLoadState) (slot : TupleTableSlot) :
  store_wf st ->
  store_wf (result_state (gstoreExecForeignInsert env st relation ls slot)).
Proof.
  intros Hwf. unfold gstoreExecForeignInsert.
  pose proof (writeout_chunk_store_wf st relation ls Hwf) as Hw.
  destruct (insert_usage _ _ _ _ _ _ >? ls_length ls).
  - destruct (gstore_fdw_writeout_chunk env st relation ls) as [st1 ls1|st1 e];
      cbn [bind result_state] in *; [|exact Hw].
    destruct (insert_values _ _ _ _ _); exact Hw.
  - cbn [bind]. destruct (insert_values _ _ _ _ _); exact Hwf.
Qed.

Lemma insert_rows_store_wf (rows : list TupleTableSlot) (st : gstore_state)
    (relation : Relation) (ls : gstoreLoadState) :
  store_wf st ->
  store_wf (result_state (insert_rows env st relation ls rows)).
Proof.
  revert st ls. induction rows as [|slot rows IH]; intros st ls Hwf;
    cbn [insert_rows]; [exact Hwf|].
  pose proof (exec_insert_store_wf st relation ls slot Hwf) as He.
  destruct (gstoreExecForeignInsert env st relation ls slot) as [st1 ls1|st1 e];
    cbn [bind result_state] in *; [apply IH, He | exact He].
Qed.

Lemma end_modify_store_wf (st : gstore_state) (relation : Relation)
    (ls : gstoreLoadState) :
  store_wf st ->
  store_wf (result_state (gstoreEndForeignModify env st relation ls)).
Proof.
  intros Hwf. unfold gstoreEndForeignModify.
  destruct (nitems ls >? 0); [|exact Hwf].
  pose proof (writeout_chunk_store_wf st relation ls Hwf) as Hw.
  destruct (gstore_fdw_writeout_chunk env st relation ls); exact Hw.
Qed.

Lemma insert_session_store_wf (st : gstore_state) (relation : Relation)
    (snapshot : SnapshotData) (rows : list TupleTableSlot) :
  store_wf st ->
  store_wf (result_state (insert_session env st relation snapshot rows)).
Proof.
  intros Hwf. unfold insert_session.
  pose proof (begin_modify_store_wf st relation snapshot Hwf) as Hb.
  destruct (gstoreBeginForeignModify env st relation snapshot)
    as [st1 ls1|st1 e]; cbn [bind result_state] in *; [|exact Hb].
  pose proof (insert_rows_store_wf rows st1 relation ls1 Hb) as Hr.
  destruct (insert_rows env st1 relation ls1 rows) as [st2 ls2|st2 e];
    cbn [bind result_state] in *; [|exact Hr].
  apply end_modify_store_wf, Hr.
Qed.

Lemma xact_chunk_segments_wf (is_commit : bool) (st : gstore_state) (n : nat)
    (oldestXmin : TransactionId) :
  segments_wf st ->
  segments_wf
    (fst (gstoreOnXactCallbackPerChunk env is_commit st n oldestXmin)).
Proof.
  intros Hseg. destruct (chunk_at st n) as [c|] eqn:Hc.
  - destruct (xact_chunk_summary env is_commit st n oldestXmin c Hc)
      as (c' & released & Hs & ->).
    pose proof (put_chunk_segments_wf st n c c' Hc Hs Hseg) as Hp.
    destruct released; [apply release_chunk_segments_wf, Hp | exact Hp].
  - unfold gstoreOnXactCallbackPerChunk. unfold chunk_at in Hc.
    rewrite Hc. exact Hseg.
Qed.

Lemma xact_walk_nodes_segments_wf (is_commit : bool)
    (oldestXmin : TransactionId) (nodes : list nat) (st : gstore_state)
    (meet : bool) :
  segments_wf st ->
  segments_wf (fst (xact_walk_nodes env is_commit oldestXmin nodes st meet)).
Proof.
  revert st meet. induction nodes as [|n nodes IH]; intros st meet Hseg;
    cbn [xact_walk_nodes]; [exact Hseg|].
  pose proof (xact_chunk_segments_wf is_commit st n oldestXmin Hseg) as H1.
  destruct (gstoreOnXactCallbackPerChunk env is_commit st n oldestXmin)
    as [st1 warm]. apply IH, H1.
Qed.

Lemma xact_walk_slots_segments_wf (is_commit : bool)
    (oldestXmin : TransactionId) (slots : list nat) (st : gstore_state)
    (meet : bool) :
  segments_wf st ->
  segments_wf (fst (xact_walk_slots env is_commit oldestXmin slots st meet)).
Proof.
  revert st meet. induction slots as [|i slots IH]; intros st meet Hseg;
    cbn [xact_walk_slots]; [exact Hseg|].
  pose proof (xact_walk_nodes_segments_wf is_commit oldestXmin
                (bucket (gstore_head st) i) st meet Hseg) as H1.
  destruct (xact_walk_nodes env is_commit oldestXmin _ st meet) as [st1 warm].
  apply IH, H1.
Qed.

Lemma xact_callback_segments_wf (event : XactEvent) (st : gstore_state) :
  segments_wf st -> segments_wf (gstoreXactCallback env event st).
Proof.
  intros Hseg.
  assert (Hrun : forall is_commit,
    segments_wf
      (if has_warm_chunks (gstore_head st) =? 0 then st
       else
         let (st1, meet_warm_chunks) :=
           xact_walk_slots env is_commit (GetOldestXmin env)
             (seq 0 (Z.to_nat GSTORE_CHUNK_HASH_NSLOTS)) st false in
         if negb meet_warm_chunks
         then with_head st1 (with_has_warm_chunks (gstore_head st1) 0)
         else st1)).
  { intros is_commit. destruct (has_warm_chunks (gstore_head st) =? 0);
      [exact Hseg|].
    pose proof (xact_walk_slots_segments_wf is_commit (GetOldestXmin env)
                  (seq 0 (Z.to_nat GSTORE_CHUNK_HASH_NSLOTS)) st false Hseg)
      as Hw.
    destruct (xact_walk_slots env is_commit _ _ st false) as [st1 meet].
    cbn [fst] in Hw. destruct (negb meet); [|exact Hw].
    revert Hw. apply segments_wf_same_identity; auto.
    apply Forall2_same_identity_refl. }
  unfold gstoreXactCallback. destruct event; auto.
Qed.

End SegmentsKept.

Lemma startup_segments_wf (gstore_max_nchunks warm : Z) :
  segments_wf (pgstrom_startup_gstore_fdw gstore_max_nchunks warm).
Proof.
  split.
  - intros i n c Hin. exfalso.
    exact (startup_no_chunk_chained gstore_max_nchunks warm i n Hin).
  - intros h kds Hin. cbn in Hin. inversion Hin.
Qed.

(** ** The shape of the directory is an invariant *)

(** X6. A load session -- begin, any rows, end -- keeps the shape of the
    directory, whether it returns or raises, whatever the table, the rows,
    the snapshot and the answers of the host: the descriptor a chunk is
    published in comes off the free list and is chained in the hash slot of
    its own hash, once. It also keeps the segments in order: if every
    chained chunk had its segment before -- the handle of the descriptor
    names an image with as many rows as the descriptor says -- then so
    afterwards, the published chunks included. *)
Theorem insert_session_keeps_directory_shape (env : HostEnv)
    (st : gstore_state) (relation : Relation) (snapshot : SnapshotData)
    (rows : list TupleTableSlot) :
  directory_wf st ->
  let st' := result_state (insert_session env st relation snapshot rows) in
  directory_wf st' /\ (segments_wf st -> segments_wf st').
Proof.
  intros Hwf st'. split; [apply insert_session_wf, Hwf|].
  intros Hseg.
  apply (insert_session_store_wf env st relation snapshot rows
           (conj Hwf Hseg)).
Qed.

(** X7. The transaction callback keeps the shape of the directory for
    every event, and never changes the number of descriptors: each
    descriptor it releases is unchained from its hash slot and pushed on
    the free list, once, with the invalid segment handle. The chunks that
    stay chained keep their segments. *)
Theorem xact_callback_keeps_directory_shape (env : HostEnv)
    (event : XactEvent) (st : gstore_state) :
  directory_wf st ->
  directory_wf (gstoreXactCallback env event st)
  /\ length (gs_chunks (gstore_head (gstoreXactCallback env event st)))
     = length (gs_chunks (gstore_head st))
  /\ (segments_wf st -> segments_wf (gstoreXactCallback env event st)).
Proof.
  intros Hwf. split; [apply xact_callback_wf, Hwf|].
  split; [apply xact_callback_length | apply xact_callback_segments_wf].
Qed.

(** ** Planner estimate and direct DELETE *)


(** X9. In a directory of the right shape [gstoreIterateDirectModify]
    ends; it stamps every chunk of the table that the snapshot sees with
    the current transaction as xmax and the current command id, and only
    those; a chunk of the table that the snapshot does not see is left as
    the visibility test rewrote it, every other descriptor as it was. The
    executor's row counter grows by the row counts of the stamped chunks,
    the warm counter by one, and nothing is chained or unchained. *)
Theorem direct_delete_stamps_visible_chunks (env : HostEnv) (frel : Relation)
    (S : SnapshotData) (st : gstore_state) (es_processed : Z) :
  directory_wf st ->
  let nodes := bucket (gstore_head st) (table_slot env frel) in
  let V := visible_chunks env frel S (gs_chunks (gstore_head st)) nodes in
  exists st',
    gstoreIterateDirectModify env st frel S es_processed
    = Some (st', es_processed + sum_nitems V)
    /\ directory_wf st'
    /\ has_warm_chunks (gstore_head st')
       = to_uint32 (has_warm_chunks (gstore_head st) + 1)
    /\ free_chunks (gstore_head st') = free_chunks (gstore_head st)
    /\ active_chunks (gstore_head st') = active_chunks (gstore_head st)
    /\ (forall m c,
          chunk_at st m = Some c ->
          chunk_at st' m
          = Some (if bool_decide (m ∈ nodes) && chunk_of_relation env frel c
                  then if visible_to env S c
                       then deleted_by env (hinted env S c)
                       else hinted env S c
                  else c)).
Proof.
  intros Hwf nodes V.
  destruct (direct_modify_spec env frel S st es_processed Hwf)
    as (st' & Hr & Hw & Hf & Ha & Hc & Hs & Hm & _).
  exists st'. split; [exact Hr|].
  split; [|split; [exact Hw|split; [exact Hf|split; [exact Ha|]]]].
  - apply (directory_wf_same_identity st st'); auto. rewrite Hm. reflexivity.
  - intros m c Hcm. rewrite Hc, Hcm. reflexivity.
Qed.


(** ** Visibility of a chunk under deletion *)

Ltac desc_fields :=
  cbn [negb andb hash database_oid table_oid xmin xmax cid xmin_commited
       xmax_commited kds_nitems kds_length cuda_dindex ipc_mhandle dsm_handle
       set_xmax set_xmin set_xmin_commited set_xmax_commited set_cid
       fst snd] in *.

Ltac next_guard :=
  match goal with
  | |- context [if ?b then _ else _] =>
      lazymatch b with
      | context [if _ then _ else _] => fail
      | negb (negb ?a) => destruct a eqn:?
      | negb ?a && ?a' => destruct a eqn:?; [|destruct a' eqn:?]
      | negb ?a => destruct a eqn:?
      | _ => destruct b eqn:?
      end
  end.

(** X11. A chunk that a direct DELETE has stamped, its insertion hinted
    committed and nobody else having deleted it: the deleting backend does
    not see it from its next command on; a backend whose snapshot counts
    the deleter as in progress sees it exactly as it saw it before the
    DELETE; and once the deleter has committed, a backend whose snapshot
    counts it as over does not see it. *)
Theorem deleted_chunk_visibility (deleter reader later : HostEnv)
    (c : GpuStoreChunk) (S_next S_concurrent S_after : SnapshotData) :
  let T := GetCurrentTransactionId deleter in
  xmin_commited c = true ->
  xmax c = InvalidTransactionId ->
  xmax_commited c = false ->
  T <> InvalidTransactionId ->
  TransactionIdIsCurrentTransactionId deleter T = true ->
  GetCurrentCommandId deleter < curcid S_next ->
  TransactionIdIsCurrentTransactionId reader T = false ->
  XidInMVCCSnapshot S_concurrent T = true ->
  TransactionIdIsCurrentTransactionId later T = false ->
  XidInMVCCSnapshot S_after T = false ->
  TransactionIdDidCommit later T = true ->
  visible_to deleter S_next (deleted_by deleter c) = false
  /\ visible_to reader S_concurrent (deleted_by deleter c)
     = visible_to reader S_concurrent c
  /\ visible_to later S_after (deleted_by deleter c) = false.
Proof.
  intros T Hmin Hmax Hhint HT Hown Hcid Hreader Hconc Hlater Hafter Hdid.
  assert (HT0 : (T =? InvalidTransactionId) = false) by (apply Z.eqb_neq, HT).
  assert (Hge : (GetCurrentCommandId deleter >=? curcid S_next) = false).
  { rewrite Z.geb_leb. apply Z.leb_gt. exact Hcid. }
  unfold visible_to, deleted_by, gstore_fdw_satisfies_visibility,
    satisfies_visibility_xmax, TransactionIdIsValid.
  fold T. destruct c as [h d t xmx xmn ci xc nc kn kl cd ih dh].
  desc_fields. subst xmx nc xc. desc_fields.
  change (InvalidTransactionId =? InvalidTransactionId) with true.
  rewrite HT0, Hown, Hge, Hreader, Hconc, Hlater, Hafter, Hdid. desc_fields.
  split; [|split].
  - repeat (desc_fields; next_guard); reflexivity.
  - repeat (desc_fields; next_guard); reflexivity.
  - repeat (desc_fields; next_guard); reflexivity.
Qed.

(** ** INSERT into a table that already has a visible chunk *)

Lemma visible_chunk_in_finds (env : HostEnv) (S : SnapshotData)
    (nodes : list nat) (chunks : list GpuStoreChunk) (h : Z) (d t : Oid)
    (n : nat) (c : GpuStoreChunk) :
  n ∈ nodes -> chunks !! n = Some c ->
  chunk_of_table c h d t = true -> visible_to env S c = true ->
  exists m, fst (visible_chunk_in env chunks nodes h d t S) = Some m.
Proof.
  intros Hn Hc Hm Hv. revert chunks Hn Hc.
  induction nodes as [|k nodes IH]; intros chunks Hn Hc; [inversion Hn|].
  cbn [visible_chunk_in]. apply elem_of_cons in Hn.
  destruct (chunks !! k) as [ck|] eqn:Hk.
  2: { destruct Hn as [->|Hn]; [congruence | apply IH; auto]. }
  fold (chunk_of_table ck h d t).
  destruct (chunk_of_table ck h d t) eqn:Hmk.
  2: { destruct Hn as [->|Hn]; [congruence | apply IH; auto]. }
  destruct (gstore_fdw_satisfies_visibility env ck S) as [v ck'] eqn:Hvis.
  destruct v; [eexists; reflexivity|].
  assert (Hne : n <> k).
  { intros ->. rewrite Hk in Hc. inversion Hc; subst ck.
    unfold visible_to in Hv. rewrite Hvis in Hv. discriminate. }
  destruct Hn as [?|Hn]; [contradiction|].
  apply IH; [exact Hn|]. rewrite list_lookup_insert_ne by congruence.
  exact Hc.
Qed.

(** [gstoreBeginForeignModify] on a primary table one of whose chained
    chunks the snapshot sees. *)
Lemma begin_modify_not_empty (env : HostEnv) (st : gstore_state)
    (relation : Relation) (S : SnapshotData) (n : nat) (c : GpuStoreChunk) :
  referenced relation = None ->
  in_slot st (table_slot env relation) n ->
  chunk_at st n = Some c ->
  chunk_of_relation env relation c = true ->
  visible_to env S c = true ->
  exists st', gstoreBeginForeignModify env st relation S = Err st' NotEmpty.
Proof.
  intros Hprim Hin Hc Hrel Hv. unfold gstoreBeginForeignModify.
  rewrite Hprim. unfold gstore_fdw_first_chunk.
  destruct (visible_chunk_in_finds env S
              (bucket (gstore_head st) (table_slot env relation))
              (gs_chunks (gstore_head st))
              (legacy_crc32_oids env (MyDatabaseId env) (rd_id relation))
              (MyDatabaseId env) (rd_id relation) n c Hin Hc Hrel Hv)
    as [m Hm].
  unfold table_slot in Hm.
  destruct (visible_chunk_in env _ _ _ _ _ S) as [r chunks'].
  cbn [fst] in Hm. subst r. eexists. reflexivity.
Qed.

(** The state [gstore_fdw_writeout_chunk] leaves when it returns: the
    published descriptor is chained in the table's hash slot. *)
Lemma writeout_chunk_chained (env : HostEnv) (st st' : gstore_state)
    (relation : Relation) (ls ls' : gstoreLoadState) :
  directory_wf st ->
  gstore_fdw_writeout_chunk env st relation ls = OK st' ls' ->
  exists dnode ipc,
    in_slot st' (table_slot env relation) dnode
    /\ chunk_at st' dnode = Some (published_chunk env st relation ls ipc)
    /\ has_warm_chunks (gstore_head st')
       = to_uint32 (has_warm_chunks (gstore_head st) + 1).
Proof.
  intros Hwf Hw. pose proof (writeout_chunk_cases env st relation ls) as Hc.
  rewrite Hw in Hc. destruct Hc as [(dnode & rest & ipc & Hfree & Hh & _) _].
  destruct Hwf as (Hn & _ & Hcov & _).
  exists dnode, ipc. unfold in_slot, chunk_at, bucket. rewrite Hh.
  cbn [active_chunks gs_chunks has_warm_chunks].
  split; [|split; [|reflexivity]].
  - rewrite list_lookup_insert_eq by (rewrite Hn; apply hash_index_lt).
    cbn. apply elem_of_app. right. apply list_elem_of_here.
  - apply list_lookup_insert_eq. apply Hcov, elem_of_app. left.
    rewrite Hfree. apply list_elem_of_here.
Qed.

Lemma published_chunk_of_relation (env : HostEnv) (st : gstore_state)
    (relation : Relation) (ls : gstoreLoadState) (ipc : Z) :
  chunk_of_relation env relation (published_chunk env st relation ls ipc)
  = true.
Proof.
  unfold chunk_of_relation, chunk_of_table, published_chunk. cbn.
  rewrite !Z.eqb_refl. reflexivity.
Qed.

(** X17. [gstoreBeginForeignModify] refuses a table that is not empty:
    when a chunk of the primary table, chained in the table's hash slot, is
    visible under the executor's snapshot, INSERT raises NotEmpty before
    any builder state exists, and the session leaves the warm counter, the
    free list, every hash slot, the mapping table, the segments and the
    device memory as they were. *)
Theorem begin_modify_refuses_nonempty_table (env : HostEnv)
    (st : gstore_state) (relation : Relation) (S : SnapshotData)
    (rows : list TupleTableSlot) (n : nat) (c : GpuStoreChunk) :
  referenced relation = None ->
  in_slot st (table_slot env relation) n ->
  chunk_at st n = Some c ->
  chunk_of_relation env relation c = true ->
  visible_to env S c = true ->
  exists st',
    gstoreBeginForeignModify env st relation S = Err st' NotEmpty
    /\ insert_session env st relation S rows = Err st' NotEmpty
    /\ has_warm_chunks (gstore_head st') = has_warm_chunks (gstore_head st)
    /\ free_chunks (gstore_head st') = free_chunks (gstore_head st)
    /\ active_chunks (gstore_head st') = active_chunks (gstore_head st)
    /\ gstore_maps st' = gstore_maps st
    /\ dsm_segments st' = dsm_segments st
    /\ gpu_preserved st' = gpu_preserved st.
Proof.
  intros Hprim Hin Hc Hrel Hv.
  destruct (begin_modify_not_empty env st relation S n c Hprim Hin Hc Hrel Hv)
    as [st' Hb].
  pose proof (begin_modify_frame env st relation S) as Hframe.
  rewrite Hb in Hframe. cbn [result_state] in Hframe.
  exists st'. split; [exact Hb|]. split; [|exact Hframe].
  unfold insert_session. rewrite Hb. reflexivity.
Qed.

(** X18. Within the transaction that publishes it, a chunk makes the
    table non-empty from the next command on: after
    [gstore_fdw_writeout_chunk] has returned in a directory of the right
    shape, [gstoreBeginForeignModify] of the same backend under a snapshot
    of a later command raises NotEmpty. The host counts the transaction's
    own xid, which is valid, as current. *)
Theorem published_chunk_blocks_next_insert (env : HostEnv)
    (st st1 : gstore_state) (relation : Relation)
    (ls ls1 : gstoreLoadState) (S : SnapshotData) :
  directory_wf st ->
  referenced relation = None ->
  gstore_fdw_writeout_chunk env st relation ls = OK st1 ls1 ->
  GetCurrentTransactionId env <> InvalidTransactionId ->
  TransactionIdIsCurrentTransactionId env (GetCurrentTransactionId env)
  = true ->
  GetCurrentCommandId env < curcid S ->
  exists st2, gstoreBeginForeignModify env st1 relation S = Err st2 NotEmpty.
Proof.
  intros Hwf Hprim Hw HT Hown Hcid.
  destruct (writeout_chunk_chained env st st1 relation ls ls1 Hwf Hw)
    as (dnode & ipc & Hin & Hc & _).
  apply (begin_modify_not_empty env st1 relation S dnode _ Hprim Hin Hc).
  - apply published_chunk_of_relation.
  - unfold visible_to, gstore_fdw_satisfies_visibility, published_chunk,
      TransactionIdIsValid. cbn.
    apply Z.eqb_neq in HT. rewrite HT, Hown. cbn.
    assert (Hge : (GetCurrentCommandId env >=? curcid S) = false).
    { rewrite Z.geb_leb. apply Z.leb_gt. exact Hcid. }
    rewrite Hge. reflexivity.
Qed.

(** X19. Once the publishing transaction has committed, the table is
    non-empty for everybody whose snapshot counts that transaction as
    over: after [gstore_fdw_writeout_chunk] and the commit callback (warm
    counter not wrapped to zero), [gstoreBeginForeignModify] of any backend
    of the same database raises NotEmpty. The chunk is still chained, with
    the commit hint set, whether or not the callback froze its xmin. *)
Theorem committed_chunk_blocks_insert (writer other : HostEnv)
    (st st1 : gstore_state) (relation : Relation)
    (ls ls1 : gstoreLoadState) (S : SnapshotData) :
  directory_wf st ->
  referenced relation = None ->
  gstore_fdw_writeout_chunk writer st relation ls = OK st1 ls1 ->
  has_warm_chunks (gstore_head st1) <> 0 ->
  GetCurrentTransactionId writer <> InvalidTransactionId ->
  TransactionIdIsCurrentTransactionId writer (GetCurrentTransactionId writer)
  = true ->
  MyDatabaseId other = MyDatabaseId writer ->
  legacy_crc32_oids other = legacy_crc32_oids writer ->
  XidInMVCCSnapshot S (GetCurrentTransactionId writer) = false ->
  exists st2,
    gstoreBeginForeignModify other
      (gstoreXactCallback writer XACT_EVENT_COMMIT st1) relation S
    = Err st2 NotEmpty.
Proof.
  intros Hwf Hprim Hw Hwarm HT Hown Hdb Hcrc Hover.
  destruct (writeout_chunk_chained writer st st1 relation ls ls1 Hwf Hw)
    as (dnode & ipc & Hin & Hc & _).
  pose proof (writeout_chunk_wf writer st relation ls Hwf) as Hwf1.
  rewrite Hw in Hwf1. cbn [result_state] in Hwf1.
  pose proof (xact_callback_treats writer true st1
                (table_slot writer relation) dnode _ Hwf1 Hwarm
                (hash_index_lt _) Hin Hc) as Ht.
  set (c := published_chunk writer st relation ls ipc) in *.
  set (c' := fst (fst (xact_verdict writer true (GetOldestXmin writer) c))).
  assert (Hv : snd (fst (xact_verdict writer true (GetOldestXmin writer) c))
               = false
               /\ xmin_commited c' = true
               /\ xmax c' = InvalidTransactionId
               /\ (xmin c' = FrozenTransactionId
                   \/ xmin c' = GetCurrentTransactionId writer)).
  { subst c' c. unfold xact_verdict, horizon_verdict, published_chunk,
      TransactionIdIsValid. apply Z.eqb_neq in HT. desc_fields.
    destruct (TransactionIdIsCurrentTransactionId writer InvalidTransactionId);
      desc_fields; rewrite Hown; desc_fields; rewrite Z.eqb_refl;
      desc_fields;
      destruct (TransactionIdIsNormal (GetCurrentTransactionId writer));
      desc_fields; rewrite ?HT; desc_fields;
      try destruct (TransactionIdPrecedes _ _); desc_fields; auto. }
  destruct Hv as (Hrel & Hhint & Hxmax & Hxmin).
  unfold treated in Ht. rewrite Hrel in Ht. fold c' in Ht.
  destruct Ht as [Hin' Hc'].
  assert (Hslot : table_slot other relation = table_slot writer relation).
  { unfold table_slot. rewrite Hdb, Hcrc. reflexivity. }
  apply (begin_modify_not_empty other _ relation S dnode c' Hprim).
  - rewrite Hslot. exact Hin'.
  - exact Hc'.
  - destruct (xact_verdict_same_identity writer true (GetOldestXmin writer) c)
      as (Hh & Hd & Hto & _). fold c' in Hh, Hd, Hto.
    unfold chunk_of_relation, chunk_of_table. rewrite Hh, Hd, Hto, Hdb, Hcrc.
    subst c. unfold published_chunk. cbn. rewrite !Z.eqb_refl. reflexivity.
  - unfold visible_to.
    rewrite (committed_live_visible other c' S); auto.
    destruct Hxmin as [Hf|Hx]; [left; exact Hf | right; rewrite Hx; exact Hover].
Qed.

(** ** Table options *)

Section OptionFacts.
Variable cat : Catalog.

Lemma options_referenced_cons (d : DefElem) (options : list DefElem) :
  options_referenced (d :: options)
  = match options_referenced options with
    | Some x => Some x
    | None => if String.eqb (defname d) "reference"
              then Some (defGetString d) else None
    end.
Proof.
  unfold options_referenced. cbn [List.filter].
  destruct (String.eqb (defname d) "reference");
    [|destruct (last _); reflexivity].
  cbn [map]. rewrite last_cons. reflexivity.
Qed.

Lemma options_pinning_cons (d : DefElem) (options : list DefElem) :
  options_pinning (d :: options)
  = match last (List.filter (fun d => String.eqb (defname d) "pinning")
                            options) with
    | Some x => atoi (defGetString x)
    | None => if String.eqb (defname d) "pinning"
              then atoi (defGetString d) else -1
    end.
Proof.
  unfold options_pinning. cbn [List.filter].
  destruct (String.eqb (defname d) "pinning"); [|reflexivity].
  rewrite last_cons. destruct (last _); reflexivity.
Qed.

(** The option loop: the last "reference" and the last "pinning" win, a
    device number is within range, and no other option is there. *)
Lemma read_options_loop_spec (options : list DefElem) (r : option string)
    (p : Z) (r' : option string) (p' : Z) :
  read_options_loop cat options r p = inr (r', p') ->
  r' = match options_referenced options with Some x => Some x | None => r end
  /\ p' = match last (List.filter
                        (fun d => String.eqb (defname d) "pinning") options)
          with
          | Some x => atoi (defGetString x)
          | None => p
          end
  /\ (p' = p \/ 0 <= p' < numDevAttrs cat)
  /\ Forall known_option options.
Proof.
  revert r p. induction options as [|d options IH]; intros r p;
    cbn [read_options_loop].
  - intros H. inversion H; subst. cbn. auto.
  - rewrite options_referenced_cons. cbn [List.filter].
    destruct (String.eqb (defname d) "reference") eqn:Hr.
    + intros H. destruct (IH _ _ H) as (Hr' & Hp' & Hrange & Hall).
      assert (Hnp : String.eqb (defname d) "pinning" = false).
      { apply String.eqb_eq in Hr. rewrite Hr. reflexivity. }
      rewrite Hnp. split; [|split; [exact Hp'|split; [exact Hrange|]]].
      * rewrite Hr'. destruct (options_referenced options); reflexivity.
      * constructor; [|exact Hall]. left. apply String.eqb_eq, Hr.
    + destruct (String.eqb (defname d) "pinning") eqn:Hp;
        [|discriminate].
      destruct ((atoi (defGetString d) <? 0)
                || (atoi (defGetString d) >=? numDevAttrs cat)) eqn:Hin;
        [discriminate|].
      apply orb_false_iff in Hin. destruct Hin as [Hlo Hhi].
      apply Z.ltb_ge in Hlo. rewrite Z.geb_leb in Hhi. apply Z.leb_gt in Hhi.
      intros H. destruct (IH _ _ H) as (Hr' & Hp' & Hrange & Hall).
      split; [|split; [|split]].
      * rewrite Hr'. destruct (options_referenced options); reflexivity.
      * rewrite last_cons. rewrite Hp'. destruct (last _); reflexivity.
      * right. destruct Hrange as [->|Hrange]; [lia | exact Hrange].
      * constructor; [|exact Hall]. right. apply String.eqb_eq, Hp.
Qed.

Lemma read_options_loop_initial (options : list DefElem)
    (r' : option string) (p' : Z) :
  read_options_loop cat options None (-1) = inr (r', p') ->
  r' = options_referenced options /\ p' = options_pinning options
  /\ (p' = -1 \/ 0 <= p' < numDevAttrs cat)
  /\ Forall known_option options.
Proof.
  intros H. destruct (read_options_loop_spec _ _ _ _ _ H)
    as (Hr & Hp & Hrange & Hall).
  split; [|split; [|auto]].
  - rewrite Hr. destruct (options_referenced options); reflexivity.
  - rewrite Hp. reflexivity.
Qed.

End OptionFacts.

Section ValidatorFacts.
Variable cat : Catalog.

Local Abbreviation is_reference :=
  (fun d : DefElem => String.eqb (defname d) "reference").
Local Abbreviation is_pinning :=
  (fun d : DefElem => String.eqb (defname d) "pinning").

(** What the validator accepts for a foreign table, the option loop of
    [gstore_fdw_read_options] reads without error and to the same values;
    "reference" and "pinning" occur at most once each. *)
Lemma validator_loop_reads (options : list DefElem) (r : option string)
    (p : Z) (r' : option string) (p' : Z) :
  validator_loop cat options ForeignTableRelationId r p = inr (r', p') ->
  read_options_loop cat options r p = inr (r', p')
  /\ (r <> None -> List.filter is_reference options = [])
  /\ (0 <= p -> List.filter is_pinning options = [])
  /\ (length (List.filter is_reference options) <= 1)%nat
  /\ (length (List.filter is_pinning options) <= 1)%nat.
Proof.
  revert r p. induction options as [|d options IH]; intros r p;
    cbn [validator_loop read_options_loop List.filter].
  - intros H. inversion H; subst. cbn. repeat split; auto; lia.
  - rewrite Z.eqb_refl, !andb_true_r.
    destruct (String.eqb (defname d) "reference") eqn:Hr.
    + assert (Hnp : String.eqb (defname d) "pinning" = false).
      { apply String.eqb_eq in Hr. rewrite Hr. reflexivity. }
      rewrite Hnp. destruct r as [x|]; [discriminate|].
      destruct (RangeVarGetRelid cat (defGetString d)) as [reloid|];
        [|discriminate].
      destruct (relation_is_gstore_fdw cat reloid false) as [e|[]];
        try discriminate.
      intros H. destruct (IH _ _ H) as (Hread & Href & Hpin & _ & Hlp).
      rewrite (Href ltac:(discriminate)). cbn [length].
      split; [exact Hread|]. split; [congruence|]. auto.
    + destruct (String.eqb (defname d) "pinning") eqn:Hp; [|discriminate].
      destruct (p >=? 0) eqn:Hge; [discriminate|].
      destruct ((atoi (defGetString d) <? 0)
                || (atoi (defGetString d) >=? numDevAttrs cat)) eqn:Hin;
        [discriminate|].
      apply orb_false_iff in Hin. destruct Hin as [Hlo _].
      apply Z.ltb_ge in Hlo.
      intros H. destruct (IH _ _ H) as (Hread & Href & Hpin & Hlr & _).
      rewrite (Hpin Hlo). cbn [length].
      split; [exact Hread|]. split; [exact Href|].
      split; [|auto]. rewrite Z.geb_leb in Hge. apply Z.leb_gt in Hge. lia.
Qed.

Lemma validator_loop_references (options : list DefElem) (r : option string)
    (p : Z) (r' : option string) (p' : Z) (d : DefElem) :
  validator_loop cat options ForeignTableRelationId r p = inr (r', p') ->
  d ∈ options -> defname d = "reference"%string ->
  exists reloid,
    RangeVarGetRelid cat (defGetString d) = Some reloid
    /\ relation_is_gstore_fdw cat reloid false = inr true.
Proof.
  revert r p. induction options as [|d0 options IH]; intros r p H Hin Hname;
    [inversion Hin|].
  cbn [validator_loop] in H. rewrite Z.eqb_refl, !andb_true_r in H.
  apply elem_of_cons in Hin.
  destruct (String.eqb (defname d0) "reference") eqn:Hr.
  - destruct r as [x|]; [discriminate|].
    destruct (RangeVarGetRelid cat (defGetString d0)) as [reloid|] eqn:Hrel;
      [|discriminate].
    destruct (relation_is_gstore_fdw cat reloid false) as [e|[]] eqn:Hprim;
      try discriminate.
    destruct Hin as [->|Hin]; [eauto | eapply IH; eauto].
  - destruct Hin as [->|Hin].
    { rewrite Hname in Hr. discriminate. }
    destruct (String.eqb (defname d0) "pinning"); [|discriminate].
    destruct (p >=? 0); [discriminate|].
    destruct ((atoi (defGetString d0) <? 0)
              || (atoi (defGetString d0) >=? numDevAttrs cat));
      [discriminate|].
    eapply IH; eauto.
Qed.

Lemma relation_is_gstore_fdw_primary (oid : Oid) :
  relation_is_gstore_fdw cat oid false = inr true ->
  get_rel_relkind cat oid = RELKIND_FOREIGN_TABLE
  /\ exists srv p, gstore_fdw_read_options cat oid = inr (srv, None, p).
Proof.
  unfold relation_is_gstore_fdw.
  destruct (Ascii.eqb (get_rel_relkind cat oid) RELKIND_FOREIGN_TABLE) eqn:Hk;
    cbn [negb]; [|discriminate].
  apply Ascii.eqb_eq in Hk.
  destruct (gstore_fdw_read_options cat oid) as [e|[[srv r] p]];
    [discriminate|].
  destruct r as [x|]; cbn [negb andb]; [discriminate|].
  intros _. split; [exact Hk|]. eauto.
Qed.

Lemma relation_is_gstore_fdw_reference (oid srv : Oid) (name : string)
    (p : Z) :
  gstore_fdw_read_options cat oid = inr (srv, Some name, p) ->
  relation_is_gstore_fdw cat oid false <> inr true.
Proof.
  intros Hread Hprim. apply relation_is_gstore_fdw_primary in Hprim.
  destruct Hprim as (_ & srv' & p' & Hread'). congruence.
Qed.

End ValidatorFacts.

(** X20. What [gstore_fdw_read_options] returns: the foreign server of the
    table's catalog entry, the value of the last "reference" option and the
    device number of the last "pinning" option, -1 when there is none. The
    device number is what [atoi] makes of the option's text: the number
    written there, cut to the range of a C long and then to its low 32
    bits read as a signed int. A device number it returns is within
    [0, numDevAttrs); a table it returns a reference for is not pinned;
    and the table carries no option other than these two. *)
Theorem read_options_result (cat : Catalog) (table_oid_ srv : Oid)
    (r : option string) (p : Z) :
  gstore_fdw_read_options cat table_oid_ = inr (srv, r, p) ->
  exists ftoptions,
    pg_foreign_table cat table_oid_ = Some (srv, ftoptions)
    /\ r = options_referenced (default [] ftoptions)
    /\ p = options_pinning (default [] ftoptions)
    /\ (p = -1 \/ 0 <= p < numDevAttrs cat)
    /\ (r <> None -> p = -1)
    /\ Forall known_option (default [] ftoptions).
Proof.
  unfold gstore_fdw_read_options.
  destruct (pg_foreign_table cat table_oid_) as [[srv0 ftoptions]|];
    [|discriminate].
  intros H. exists ftoptions.
  assert (Hloop : exists r0 p0,
            read_options_loop cat (default [] ftoptions) None (-1)
            = inr (r0, p0)
            /\ match r0 with
               | Some _ => if p0 >=? 0 then inl ReferenceAndPinning
                           else inr (srv0, r0, p0)
               | None => inr (srv0, r0, p0)
               end = inr (srv, r, p)).
  { destruct ftoptions as [options|].
    - change (default [] (Some options)) with options.
      destruct (read_options_loop cat options None (-1)) as [e|[r0 p0]];
        [discriminate | eauto].
    - exists None, (-1). auto. }
  destruct Hloop as (r0 & p0 & Hloop & Hfinal).
  destruct (read_options_loop_initial cat _ _ _ Hloop)
    as (Hr & Hp & Hrange & Hall).
  assert (Heq : srv0 = srv /\ r0 = r /\ p0 = p
                /\ (r0 <> None -> (p0 >=? 0) = false)).
  { destruct r0 as [x|].
    - destruct (p0 >=? 0) eqn:Hge; [discriminate|].
      inversion Hfinal; subst. auto.
    - inversion Hfinal; subst. repeat split; auto. congruence. }
  destruct Heq as (-> & -> & -> & Hneg).
  split; [reflexivity|]. split; [exact Hr|]. split; [exact Hp|].
  split; [exact Hrange|]. split; [|exact Hall].
  intros Hsome. specialize (Hneg Hsome).
  rewrite Z.geb_leb in Hneg. apply Z.leb_gt in Hneg.
  destruct Hrange; lia.
Qed.

(** X21. Options that [pgstrom_gstore_fdw_validator] accepts for a
    foreign table are read back by [gstore_fdw_read_options] without
    error, with the reference and the device number that the two option
    values give, the device number as [atoi] reads it; they hold
    "reference" at most once and "pinning" at most once. *)
Theorem validated_options_are_readable (cat : Catalog)
    (options : list DefElem) (table_oid_ srv : Oid) :
  pgstrom_gstore_fdw_validator cat options ForeignTableRelationId = inr tt ->
  pg_foreign_table cat table_oid_ = Some (srv, Some options) ->
  gstore_fdw_read_options cat table_oid_
  = inr (srv, options_referenced options, options_pinning options)
  /\ (length (List.filter
                (fun d => String.eqb (defname d) "reference") options)
      <= 1)%nat
  /\ (length (List.filter
                (fun d => String.eqb (defname d) "pinning") options)
      <= 1)%nat.
Proof.
  unfold pgstrom_gstore_fdw_validator, gstore_fdw_read_options.
  intros Hv Htup. rewrite Htup.
  destruct (validator_loop cat options ForeignTableRelationId None (-1))
    as [e|[r p]] eqn:Hloop; [discriminate|].
  destruct (validator_loop_reads cat _ _ _ _ _ Hloop)
    as (Hread & _ & _ & Hlr & Hlp).
  rewrite Hread.
  destruct (read_options_loop_initial cat _ _ _ Hread) as (Hr & Hp & _).
  split; [|auto].
  destruct r as [x|].
  - destruct (p >=? 0); [discriminate|]. rewrite <- Hr, <- Hp. reflexivity.
  - rewrite <- Hr, <- Hp. reflexivity.
Qed.

(** X22. The validator admits no chain of references: every "reference"
    option it accepts names a relation that is a foreign table of this
    wrapper whose own options hold no "reference". *)
Theorem validator_rejects_reference_chains (cat : Catalog)
    (options : list DefElem) (d : DefElem) :
  pgstrom_gstore_fdw_validator cat options ForeignTableRelationId = inr tt ->
  d ∈ options -> defname d = "reference"%string ->
  exists reloid srv p,
    RangeVarGetRelid cat (defGetString d) = Some reloid
    /\ get_rel_relkind cat reloid = RELKIND_FOREIGN_TABLE
    /\ gstore_fdw_read_options cat reloid = inr (srv, None, p).
Proof.
  unfold pgstrom_gstore_fdw_validator. intros Hv Hin Hname.
  destruct (validator_loop cat options ForeignTableRelationId None (-1))
    as [e|[r p]] eqn:Hloop; [discriminate|].
  destruct (validator_loop_references cat _ _ _ _ _ d Hloop Hin Hname)
    as (reloid & Hrel & Hprim).
  destruct (relation_is_gstore_fdw_primary cat reloid Hprim)
    as (Hkind & srv & p0 & Hread).
  exists reloid, srv, p0. auto.
Qed.

(** X23. For the options of anything but a foreign table (a server, a
    wrapper, a user mapping) the validator accepts the empty list and
    rejects every other one at its first option. *)
Theorem validator_rejects_options_elsewhere (cat : Catalog)
    (options : list DefElem) (catalog : Oid) :
  catalog <> ForeignTableRelationId ->
  pgstrom_gstore_fdw_validator cat options catalog
  = match options with [] => inr tt | _ :: _ => inl UnknownOption end.
Proof.
  intros Hne. apply Z.eqb_neq in Hne.
  unfold pgstrom_gstore_fdw_validator.
  destruct options as [|d options]; [reflexivity|].
  cbn [validator_loop]. rewrite Hne, !andb_false_r. reflexivity.
Qed.

(** X24. [pgstrom_load_gstore_fdw] returns a device pointer only for a
    table without "reference" option that is pinned to GPU 0, and then it
    is the pointer the normal loader returns for that very table. For a
    table that is not pinned (pinning -1), for one pinned to another
    device, and for every table with a "reference" option it raises. *)
Theorem load_gstore_fdw_needs_pinning_0 (cat : Catalog)
    (load_normal : Oid -> fdw_error + Z)
    (pseudo_tupdesc : Oid -> Oid -> option fdw_error)
    (gstore_oid : Oid) (ptr : Z) :
  pgstrom_load_gstore_fdw cat load_normal pseudo_tupdesc gstore_oid
  = inr ptr ->
  (exists srv, gstore_fdw_read_options cat gstore_oid = inr (srv, None, 0))
  /\ load_normal gstore_oid = inr ptr.
Proof.
  unfold pgstrom_load_gstore_fdw.
  destruct (relation_is_gstore_fdw cat gstore_oid true) as [e|[]];
    try discriminate.
  destruct (gstore_fdw_read_options cat gstore_oid) as [e|[[srv r] p]] eqn:Hr;
    [discriminate|].
  destruct r as [name|].
  - destruct (p >=? 0); [discriminate|].
    destruct (RangeVarGetRelid cat name); [|discriminate].
    pose proof (relation_is_gstore_fdw_reference cat gstore_oid srv name p Hr)
      as Hnot.
    destruct (relation_is_gstore_fdw cat gstore_oid false) as [e|[]];
      try discriminate.
    contradiction.
  - destruct (p =? 0) eqn:Hp; cbn [negb]; [|discriminate].
    apply Z.eqb_eq in Hp. subst p. intros H. split; [eauto | exact H].
Qed.

(** X25. Of all commands only INSERT and DELETE are announced as
    possible, and only for a table without "reference" option; the plan
    hook for row-by-row modification raises for everything but INSERT, the
    direct path takes a DELETE only when it has neither a WHERE clause nor
    a RETURNING list, and a row-by-row DELETE raises. *)
Theorem updatable_commands (rel : Relation) (op : CmdType)
    (quals returning : nat) (is_foreign_scan : bool)
    (slot : TupleTableSlot) :
  (Z.testbit (gstoreIsForeignRelUpdatable rel) (CmdType_code op) = true
   <-> referenced rel = None /\ (op = CMD_INSERT \/ op = CMD_DELETE))
  /\ (gstorePlanForeignModify op = inr [] <-> op = CMD_INSERT)
  /\ (gstorePlanDirectModify op quals returning is_foreign_scan
      = Some CMD_DELETE
      <-> op = CMD_DELETE /\ quals = O /\ returning = O
          /\ is_foreign_scan = true)
  /\ gstoreExecForeignDelete slot = inl OnlyDirectDelete.
Proof.
  split; [|split; [|split; [|reflexivity]]].
  - unfold gstoreIsForeignRelUpdatable.
    destruct (referenced rel) as [x|]; destruct op; vm_compute;
      split; try discriminate; try tauto;
      try (intros [H _]; discriminate);
      try (intros [_ [H|H]]; discriminate).
  - destruct op; cbn; split; intros H; try discriminate; reflexivity.
  - destruct op; cbn; try (split; [discriminate | intros [H _]; discriminate]).
    destruct quals; [|split; [discriminate | intros (_ & H & _); discriminate]].
    destruct returning;
      [|split; [discriminate | intros (_ & _ & H & _); discriminate]].
    destruct is_foreign_scan; cbn; split; auto; try discriminate.
    intros (_ & _ & _ & H). discriminate.
Qed.

(** [atoi] keeps the low 32 bits of what [strtol] read: 2^32 is device 0,
    2^31 is negative, and a number beyond the range of a long is -1. The
    validator accepts "pinning" 4294967296 on a host with one device. *)
Example atoi_wraps_around :
  atoi "4294967296" = 0
  /\ atoi "2147483648" = -2147483648
  /\ atoi "99999999999999999999" = -1
  /\ atoi " -12x" = -12
  /\ let options := [{| defname := "pinning";
                        defGetString := "4294967296" |}] in
     options_pinning options = 0
     /\ pgstrom_gstore_fdw_validator example_catalog options
                                     ForeignTableRelationId = inr tt.
Proof. vm_compute. repeat split. Qed.

(** ** The scan's column map and the local mapping table *)

Lemma find_attnum_Some (attname : string) (phydesc : list (string * Z))
    (n : Z) :
  find_attnum attname phydesc = Some n -> (attname, n) ∈ phydesc.
Proof.
  induction phydesc as [|[pname attnum] rest IH]; cbn [find_attnum];
    [discriminate|].
  destruct (String.eqb attname pname) eqn:He.
  - apply String.eqb_eq in He. intros H. inversion H; subst.
    apply list_elem_of_here.
  - intros H. apply list_elem_of_further, IH, H.
Qed.

Lemma find_attnum_None (attname : string) (phydesc : list (string * Z)) :
  find_attnum attname phydesc = None -> attname ∉ map fst phydesc.
Proof.
  induction phydesc as [|[pname attnum] rest IH]; cbn [find_attnum map fst].
  - intros _ Hin. inversion Hin.
  - destruct (String.eqb attname pname) eqn:He; [discriminate|].
    apply String.eqb_neq in He. intros H. apply not_elem_of_cons.
    split; [exact He | apply IH, H].
Qed.

Lemma find_attnum_unique (phydesc : list (string * Z)) (attname : string)
    (n : Z) :
  NoDup (map fst phydesc) -> (attname, n) ∈ phydesc ->
  find_attnum attname phydesc = Some n.
Proof.
  induction phydesc as [|[pname attnum] rest IH]; intros Hnd Hin;
    [inversion Hin|].
  cbn [map fst] in Hnd. apply NoDup_cons in Hnd. destruct Hnd as [Hnot Hnd].
  cbn [find_attnum]. apply elem_of_cons in Hin. destruct Hin as [Heq|Hin].
  - inversion Heq; subst. rewrite String.eqb_refl. reflexivity.
  - destruct (String.eqb attname pname) eqn:He; [|apply IH; assumption].
    apply String.eqb_eq in He. subst pname. exfalso. apply Hnot.
    apply (list_elem_of_fmap_2 fst) in Hin. exact Hin.
Qed.

(** X26. The column map of a scan through a reference table: every column
    is resolved by its name to the [attnum] of a column of the referenced
    table that carries this name; the scan raises exactly when some column
    has no namesake, and the error names the first such column. *)
Theorem reference_columns_resolved_by_name (attnames : list string)
    (phydesc : list (string * Z)) :
  match reference_attnos attnames phydesc with
  | inr attnos_ =>
      Forall2 (fun name n => (name, n) ∈ phydesc) attnames attnos_
  | inl e =>
      exists pre name post,
        e = AttributeNotFound name
        /\ attnames = pre ++ name :: post
        /\ Forall (fun x => x ∈ map fst phydesc) pre
        /\ name ∉ map fst phydesc
  end.
Proof.
  induction attnames as [|attname rest IH]; cbn [reference_attnos].
  - constructor.
  - destruct (find_attnum attname phydesc) as [n|] eqn:Hfind.
    + apply find_attnum_Some in Hfind.
      destruct (reference_attnos rest phydesc) as [e|attnos_].
      * destruct IH as (pre & name & post & -> & -> & Hpre & Hnot).
        exists (attname :: pre), name, post.
        split; [reflexivity|]. split; [reflexivity|]. split; [|exact Hnot].
        constructor; [|exact Hpre].
        apply (list_elem_of_fmap_2 fst) in Hfind. exact Hfind.
      * constructor; assumption.
    + apply find_attnum_None in Hfind.
      exists [], attname, rest. repeat split; auto.
Qed.

(** X27. When the columns of the referenced table have distinct names, a
    reference table made of any of these columns, in any order, is mapped
    to exactly their attribute numbers. *)
Theorem reference_columns_pick_attnums (phydesc cols : list (string * Z)) :
  NoDup (map fst phydesc) ->
  (forall col, col ∈ cols -> col ∈ phydesc) ->
  reference_attnos (map fst cols) phydesc = inr (map snd cols).
Proof.
  intros Hnd. induction cols as [|[name n] cols IH]; intros Hsub;
    [reflexivity|].
  cbn [map fst snd reference_attnos].
  rewrite (find_attnum_unique phydesc name n Hnd
             (Hsub _ (list_elem_of_here _ _))).
  rewrite IH; [reflexivity|].
  intros col Hin. apply Hsub, list_elem_of_further, Hin.
Qed.

(** X28. [gstore_fdw_mapped_chunk] touches nothing but the entry of the
    local mapping table that belongs to the chunk. Whatever that entry held
    -- nothing, or the segment of a chunk that owned the slot before -- it
    names afterwards the segment of the chunk's current handle, whose image
    is what the call returns; a second call changes nothing more. *)
Theorem mapped_chunk_attaches_current_segment (st : gstore_state) (n : nat)
    (c : GpuStoreChunk) :
  chunk_at st n = Some c ->
  (n < length (gstore_maps st))%nat ->
  let st' := fst (gstore_fdw_mapped_chunk st n) in
  let r := snd (gstore_fdw_mapped_chunk st n) in
  gstore_head st' = gstore_head st
  /\ dsm_segments st' = dsm_segments st
  /\ gpu_preserved st' = gpu_preserved st
  /\ gstore_maps st' !! n = Some {| dsm_seg := Some (dsm_handle c) |}
  /\ (forall m, m <> n -> gstore_maps st' !! m = gstore_maps st !! m)
  /\ length (gstore_maps st') = length (gstore_maps st)
  /\ r = option_map (fun kds => (dsm_handle c, kds))
                    (dsm_find (dsm_handle c) (dsm_segments st))
  /\ gstore_fdw_mapped_chunk st' n = (st', r).
Proof.
  unfold chunk_at. intros Hc Hlt.
  destruct (lookup_lt_is_Some_2 _ _ Hlt) as [[seg] Hmap].
  assert (Hmaps : exists maps,
            gstore_fdw_mapped_chunk st n
            = (with_maps st maps,
               option_map (fun kds => (dsm_handle c, kds))
                          (dsm_find (dsm_handle c) (dsm_segments st)))
            /\ maps !! n = Some {| dsm_seg := Some (dsm_handle c) |}
            /\ (forall m, m <> n -> maps !! m = gstore_maps st !! m)
            /\ length maps = length (gstore_maps st)).
  { unfold gstore_fdw_mapped_chunk. rewrite Hc, Hmap.
    destruct seg as [h|].
    - destruct (h =? dsm_handle c) eqn:Hh; cbn [negb].
      + apply Z.eqb_eq in Hh. subst h. eauto.
      + eexists. split; [reflexivity|]. split; [|split].
        * apply list_lookup_insert_eq, Hlt.
        * intros m Hm. apply list_lookup_insert_ne. congruence.
        * apply length_insert.
    - eexists. split; [reflexivity|]. split; [|split].
      + apply list_lookup_insert_eq, Hlt.
      + intros m Hm. apply list_lookup_insert_ne. congruence.
      + apply length_insert. }
  destruct Hmaps as (maps & Hcall & Hn & Hother & Hlen).
  cbv zeta. rewrite Hcall. cbn [fst snd].
  repeat (split; [first [reflexivity | assumption]|]).
  unfold gstore_fdw_mapped_chunk. cbn [gstore_head with_maps gstore_maps
    dsm_segments]. rewrite Hc, Hn, Z.eqb_refl. cbn [negb].
  unfold with_maps. reflexivity.
Qed.

(** ** The scan returns the rows of the visible chunks *)

Lemma bucket_length_concat (h : GpuStoreHead) (i : nat) :
  (length (bucket h i) <= length (concat (active_chunks h)))%nat.
Proof.
  unfold bucket. generalize (active_chunks h) as ls. intros ls. revert i.
  induction ls as [|l ls IH]; intros i; [destruct i; cbn; lia|].
  cbn [concat]. rewrite length_app. destruct i as [|i]; cbn.
  - lia.
  - eapply Nat.le_trans; [exact (IH i) | lia].
Qed.

Lemma mapped_chunk_result (st : gstore_state) (n : nat) (c : GpuStoreChunk)
    (kds : kern_data_store) :
  chunk_at st n = Some c ->
  dsm_find (dsm_handle c) (dsm_segments st) = Some kds ->
  exists maps,
    gstore_fdw_mapped_chunk st n
    = (with_maps st maps, Some (dsm_handle c, kds)).
Proof.
  unfold chunk_at, gstore_fdw_mapped_chunk. intros -> ->.
  cbn [option_map]. eauto.
Qed.

Section ScanFacts.
Variable env : HostEnv.
Variable frel : Relation.
Variable S : SnapshotData.

Local Abbreviation crc :=
  (legacy_crc32_oids env (MyDatabaseId env) (rd_id frel)).
Local Abbreviation db := (MyDatabaseId env).
Local Abbreviation oid := (rd_id frel).
Local Abbreviation visible := (visible_chunks env frel S).

Lemma visible_chunks_cons (chunks : list GpuStoreChunk) (n : nat)
    (nodes : list nat) :
  visible chunks (n :: nodes)
  = match chunks !! n with
    | Some c =>
        if chunk_of_relation env frel c && visible_to env S c
        then c :: visible chunks nodes
        else visible chunks nodes
    | None => visible chunks nodes
    end.
Proof.
  unfold visible_chunks. cbn [omap list_omap].
  destruct (chunks !! n) as [c|]; [|reflexivity].
  destruct (chunk_of_relation env frel c && visible_to env S c); reflexivity.
Qed.

(** What the walk of [gstore_fdw_first_chunk] and [gstore_fdw_next_chunk]
    finds: the first visible chunk of the table among the nodes, hinted;
    the visible chunks behind it are those the walk has not yet looked
    at. *)
Lemma visible_chunk_in_spec (nodes : list nat) :
  NoDup nodes ->
  forall chunks r chunks',
    visible_chunk_in env chunks nodes crc db oid S = (r, chunks') ->
    match r with
    | None => visible chunks nodes = []
    | Some m =>
        exists r1 r2 cm,
          nodes = r1 ++ m :: r2
          /\ chunks' !! m = Some (hinted env S cm)
          /\ chunk_of_relation env frel cm = true
          /\ visible chunks nodes = cm :: visible chunks' r2
    end.
Proof.
  induction 1 as [|n nodes Hn Hnd IH]; intros chunks r chunks';
    cbn [visible_chunk_in].
  - intros H. inversion H. reflexivity.
  - rewrite visible_chunks_cons.
    assert (Hskip : visible_chunk_in env chunks nodes crc db oid S
                    = (r, chunks') ->
                    match r with
                    | None => visible chunks nodes = []
                    | Some m =>
                        exists r1 r2 cm,
                          n :: nodes = r1 ++ m :: r2
                          /\ chunks' !! m = Some (hinted env S cm)
                          /\ chunk_of_relation env frel cm = true
                          /\ visible chunks nodes = cm :: visible chunks' r2
                    end).
    { intros H. specialize (IH _ _ _ H). destruct r as [m|]; [|exact IH].
      destruct IH as (r1 & r2 & cm & -> & Hm & Hrel & Hvis).
      exists (n :: r1), r2, cm. auto. }
    destruct (chunks !! n) as [c|] eqn:Hc; [|exact Hskip].
    change ((hash c =? crc) && (database_oid c =? db) && (table_oid c =? oid))
      with (chunk_of_relation env frel c).
    destruct (chunk_of_relation env frel c) eqn:Hrel; cbn [andb];
      [|exact Hskip].
    unfold visible_to. fold (hinted env S c).
    assert (Hlt : (n < length chunks)%nat) by (eapply lookup_lt_Some; eauto).
    pose proof (eq_refl : hinted env S c
                          = snd (gstore_fdw_satisfies_visibility env c S))
      as Hh.
    destruct (gstore_fdw_satisfies_visibility env c S) as [v c1].
    cbn [fst snd] in *. subst c1. destruct v.
    + intros H. inversion H; subst r chunks'.
      exists [], nodes, c. split; [reflexivity|].
      split; [apply list_lookup_insert_eq, Hlt|]. split; [exact Hrel|].
      rewrite (visible_chunks_insert env frel S chunks nodes n _ Hn).
      reflexivity.
    + intros H. specialize (IH _ _ _ H).
      rewrite (visible_chunks_insert env frel S chunks nodes n _ Hn) in IH.
      destruct r as [m|]; [|exact IH].
      destruct IH as (r1 & r2 & cm & -> & Hm & Hrel' & Hvis).
      exists (n :: r1), r2, cm. auto.
Qed.

Lemma chunk_of_relation_hinted (c : GpuStoreChunk) :
  chunk_of_relation env frel (hinted env S c) = chunk_of_relation env frel c.
Proof.
  apply chunk_of_table_same_identity, same_identity_hinted.
Qed.

Lemma image_rows_end (seg : Z) (kds : kern_data_store) (attnos_ : list Z)
    (index : Z) :
  k_nitems kds <= index -> image_rows seg kds attnos_ index = [].
Proof.
  intros H. unfold image_rows. rewrite seqZ_nil by lia. reflexivity.
Qed.

Lemma image_rows_next (seg : Z) (kds : kern_data_store) (attnos_ : list Z)
    (index : Z) :
  index < k_nitems kds ->
  image_rows seg kds attnos_ index
  = map (scan_attribute seg kds index) attnos_
    :: image_rows seg kds attnos_ (index + 1).
Proof.
  intros H. unfold image_rows. rewrite seqZ_cons by lia. cbn [map].
  do 3 f_equal; lia.
Qed.

Lemma chunk_rows_hinted (segs : list (Z * kern_data_store))
    (attnos_ : list Z) (index : Z) (c : GpuStoreChunk) :
  chunk_rows segs attnos_ index (hinted env S c)
  = chunk_rows segs attnos_ index c.
Proof.
  unfold chunk_rows.
  destruct (same_identity_hinted env S c) as (_ & _ & _ & _ & _ & _ & _ & ->).
  reflexivity.
Qed.

(** The visible chunks of the slot hold as many rows as their descriptors
    say. *)
Lemma chunks_rows_length (st : gstore_state) (attnos_ : list Z)
    (nodes : list nat) :
  slot_mapped st (table_slot env frel) ->
  (forall n, n ∈ nodes -> in_slot st (table_slot env frel) n) ->
  Z.of_nat (length (chunks_rows (dsm_segments st) attnos_
                      (visible (gs_chunks (gstore_head st)) nodes)))
  = sum_nitems (visible (gs_chunks (gstore_head st)) nodes).
Proof.
  intros Hmapped. induction nodes as [|n nodes IH]; intros Hsub.
  - reflexivity.
  - rewrite visible_chunks_cons.
    assert (Hrest : Z.of_nat (length (chunks_rows (dsm_segments st) attnos_
                      (visible (gs_chunks (gstore_head st)) nodes)))
                    = sum_nitems (visible (gs_chunks (gstore_head st)) nodes)).
    { apply IH. intros m Hm. apply Hsub, list_elem_of_further, Hm. }
    destruct (gs_chunks (gstore_head st) !! n) as [c|] eqn:Hc;
      [|exact Hrest].
    destruct (chunk_of_relation env frel c && visible_to env S c);
      [|exact Hrest].
    destruct (Hmapped n c (Hsub n (list_elem_of_here _ _)) Hc)
      as (Hnn & kds & Hfind & Hk).
    unfold chunks_rows in *. cbn [map concat sum_nitems fold_right].
    fold (sum_nitems (visible (gs_chunks (gstore_head st)) nodes)).
    rewrite length_app, Nat2Z.inj_add, Hrest.
    unfold chunk_rows. rewrite Hfind. unfold image_rows.
    rewrite length_map, length_seqZ. lia.
Qed.

Local Abbreviation step_result ss rows out :=
  (match snd out with
   | None => rows = []
   | Some row =>
       exists rows',
         rows = row :: rows'
         /\ scan_at env frel S (fst (fst out)) (snd (fst out)) rows'
         /\ nattrs (snd (fst out)) = nattrs ss
         /\ attnos (snd (fst out)) = attnos ss
   end).

(** The [next:] loop entered at a chunk of the table: it returns the next
    row of this chunk, or of the next visible chunk that has rows, and
    nothing when there is none. *)
Lemma iterate_next_at (fuel : nat) :
  forall (st : gstore_state) (ss : gstoreScanState)
         (rows : list (list (option ScanDatum))) (n : nat)
         (pre rest : list nat) (c : GpuStoreChunk),
    NoDup (bucket (gstore_head st) (table_slot env frel)) ->
    (length (bucket (gstore_head st) (table_slot env frel))
     <= length (concat (active_chunks (gstore_head st))))%nat ->
    slot_mapped st (table_slot env frel) ->
    gs_chunk ss = Some n ->
    bucket (gstore_head st) (table_slot env frel) = pre ++ n :: rest ->
    chunk_at st n = Some c ->
    chunk_of_relation env frel c = true ->
    0 <= gs_index ss <= kds_nitems c ->
    rows = chunk_rows (dsm_segments st) (scan_columns ss) (gs_index ss) c
           ++ chunks_rows (dsm_segments st) (scan_columns ss)
                (visible (gs_chunks (gstore_head st)) rest) ->
    (length rest < fuel)%nat ->
    step_result ss rows (iterate_next env fuel st ss S).
Proof.
  induction fuel as [|fuel IH];
    intros st ss rows n pre rest c Hnd Hlen Hmapped Hgs Hnodes Hc Hrel Hidx HR
           Hfuel; [lia|].
  cbn [iterate_next]. rewrite Hgs.
  assert (Hin : in_slot st (table_slot env frel) n).
  { unfold in_slot. rewrite Hnodes. apply elem_of_app. right.
    apply list_elem_of_here. }
  destruct (Hmapped n c Hin Hc) as (Hnn & kds & Hfind & Hk).
  destruct (mapped_chunk_result st n c kds Hc Hfind) as [maps ->].
  unfold chunk_rows in HR at 1. rewrite Hfind in HR.
  destruct (gs_index ss >=? k_nitems kds) eqn:Hge.
  - rewrite Z.geb_leb in Hge. apply Z.leb_le in Hge.
    rewrite image_rows_end in HR by exact Hge. cbn [app] in HR.
    unfold gstore_fdw_next_chunk. cbn [gstore_head with_maps].
    unfold chunk_at in Hc. rewrite Hc.
    pose proof Hrel as Hoids. apply chunk_of_table_true in Hoids.
    destruct Hoids as (Hh & Hd & Ht). rewrite Hh, Hd, Ht.
    fold (table_slot env frel). rewrite Hnodes.
    assert (Hnd' : NoDup (pre ++ n :: rest)) by (rewrite <- Hnodes; exact Hnd).
    rewrite dlist_after_middle.
    2: { apply NoDup_app in Hnd'. destruct Hnd' as (_ & Hdisj & _).
         intros Hp. apply (Hdisj n Hp). apply list_elem_of_here. }
    assert (Hndrest : NoDup rest).
    { apply NoDup_app in Hnd'. destruct Hnd' as (_ & _ & Hr).
      apply NoDup_cons in Hr. tauto. }
    pose proof (visible_chunk_in_same_identity env
                  (gs_chunks (gstore_head st)) rest crc db oid S) as Hsame.
    destruct (visible_chunk_in env (gs_chunks (gstore_head st)) rest
                crc db oid S) as [next chunks'] eqn:Hv.
    cbn [snd] in Hsame.
    pose proof (visible_chunk_in_spec rest Hndrest _ _ _ Hv) as Hspec.
    destruct next as [m|].
    + destruct Hspec as (r1 & r2 & cm & Hrest & Hm & Hrelm & Hvis).
      set (st' := with_head (with_maps st maps)
                    (with_gs_chunks (gstore_head st) chunks')).
      set (ss' := {| gs_chunk := Some m; gs_index := 0;
                     nattrs := nattrs ss; attnos := attnos ss |}).
      assert (Hmapped' : slot_mapped st' (table_slot env frel)).
      { apply (slot_mapped_same_identity st st'); auto. }
      assert (Hcm : chunk_at st' m = Some (hinted env S cm)) by exact Hm.
      assert (Hinm : in_slot st' (table_slot env frel) m).
      { unfold in_slot. change (bucket (gstore_head st') (table_slot env frel))
          with (bucket (gstore_head st) (table_slot env frel)).
        rewrite Hnodes, Hrest. apply elem_of_app. right.
        apply list_elem_of_further, elem_of_app. right.
        apply list_elem_of_here. }
      destruct (Hmapped' m _ Hinm Hcm) as [Hnnm _].
      assert (Hb' : bucket (gstore_head st') (table_slot env frel)
                    = bucket (gstore_head st) (table_slot env frel))
        by reflexivity.
      assert (Hres : step_result ss' rows
                       (iterate_next env fuel st' ss' S)).
      { apply (IH st' ss' rows m (pre ++ n :: r1) r2 (hinted env S cm)).
        - rewrite Hb'. exact Hnd.
        - rewrite Hb'. exact Hlen.
        - exact Hmapped'.
        - reflexivity.
        - rewrite Hb', <- app_assoc. cbn [app]. rewrite Hnodes, Hrest.
          reflexivity.
        - exact Hcm.
        - rewrite chunk_of_relation_hinted. exact Hrelm.
        - cbn [gs_index ss']. lia.
        - cbn [gs_index ss']. rewrite HR, Hvis, chunk_rows_hinted.
          reflexivity.
        - rewrite Hrest, length_app in Hfuel. cbn [length] in Hfuel. lia. }
      exact Hres.
    + cbn [snd]. rewrite HR, Hspec. reflexivity.
  - rewrite Z.geb_leb in Hge. apply Z.leb_gt in Hge.
    rewrite image_rows_next in HR by exact Hge. cbn [app] in HR.
    cbn [snd fst]. eexists. split; [exact HR|].
    split; [|split; reflexivity].
    unfold scan_at. cbn [gs_chunk gs_index].
    split; [exact Hnd|]. split; [exact Hlen|]. split; [exact Hmapped|].
    exists pre, rest, c. split; [exact Hnodes|]. split; [exact Hc|].
    split; [exact Hrel|]. split; [lia|].
    unfold chunk_rows at 1. cbn [dsm_segments with_maps]. rewrite Hfind.
    reflexivity.
Qed.

(** One call of [gstoreIterateForeignScan]. *)
Lemma scan_step (st : gstore_state) (ss : gstoreScanState)
    (rows : list (list (option ScanDatum))) :
  scan_at env frel S st ss rows ->
  step_result ss rows (gstoreIterateForeignScan env st frel ss S).
Proof.
  intros (Hnd & Hlen & Hmapped & Hpos). unfold gstoreIterateForeignScan.
  destruct (gs_chunk ss) as [n|] eqn:Hgs.
  - destruct Hpos as (pre & rest & c & Hnodes & Hc & Hrel & Hidx & HR).
    apply (iterate_next_at _ st ss rows n pre rest c); auto.
    cbv zeta in Hnodes. rewrite Hnodes in Hlen.
    rewrite length_app in Hlen. cbn [length] in Hlen. lia.
  - destruct Hpos as [Hidx HR]. unfold gstore_fdw_first_chunk.
    fold (table_slot env frel).
    pose proof (visible_chunk_in_same_identity env
                  (gs_chunks (gstore_head st))
                  (bucket (gstore_head st) (table_slot env frel))
                  crc db oid S) as Hsame.
    destruct (visible_chunk_in env (gs_chunks (gstore_head st))
                (bucket (gstore_head st) (table_slot env frel))
                crc db oid S) as [first chunks'] eqn:Hv.
    cbn [snd] in Hsame.
    pose proof (visible_chunk_in_spec _ Hnd _ _ _ Hv) as Hspec.
    destruct first as [m|].
    + destruct Hspec as (r1 & r2 & cm & Hnodes & Hm & Hrelm & Hvis).
      set (st' := with_head st (with_gs_chunks (gstore_head st) chunks')).
      set (ss' := {| gs_chunk := Some m; gs_index := gs_index ss;
                     nattrs := nattrs ss; attnos := attnos ss |}).
      assert (Hmapped' : slot_mapped st' (table_slot env frel)).
      { apply (slot_mapped_same_identity st st'); auto. }
      assert (Hcm : chunk_at st' m = Some (hinted env S cm)) by exact Hm.
      assert (Hinm : in_slot st' (table_slot env frel) m).
      { unfold in_slot. change (bucket (gstore_head st') (table_slot env frel))
          with (bucket (gstore_head st) (table_slot env frel)).
        rewrite Hnodes. apply elem_of_app. right. apply list_elem_of_here. }
      destruct (Hmapped' m _ Hinm Hcm) as [Hnnm _].
      assert (Hres : step_result ss' rows
                       (iterate_next env
                          (Datatypes.S
                             (length (concat (active_chunks (gstore_head st)))))
                          st' ss' S)).
      { apply (iterate_next_at _ st' ss' rows m r1 r2 (hinted env S cm)).
        - exact Hnd.
        - exact Hlen.
        - exact Hmapped'.
        - reflexivity.
        - exact Hnodes.
        - exact Hcm.
        - rewrite chunk_of_relation_hinted. exact Hrelm.
        - cbn [gs_index ss']. lia.
        - cbn [gs_index ss']. cbv zeta in HR. rewrite HR, Hvis, Hidx.
          rewrite chunk_rows_hinted. reflexivity.
        - cbv zeta in Hlen. rewrite Hnodes in Hlen.
          rewrite length_app in Hlen. cbn [length] in Hlen. lia. }
      exact Hres.
    + cbn [snd]. cbv zeta in HR. rewrite HR, Hspec. reflexivity.
Qed.

(** The executor's loop returns the rows that are left, all of them and in
    their order. *)
Lemma scan_rows_exact (limit : nat) :
  forall (st : gstore_state) (ss : gstoreScanState)
         (rows : list (list (option ScanDatum))),
    scan_at env frel S st ss rows ->
    (length rows < limit)%nat ->
    snd (scan_rows env limit st frel ss S) = rows.
Proof.
  induction limit as [|limit IH]; intros st ss rows Hat Hlimit; [lia|].
  cbn [scan_rows]. pose proof (scan_step st ss rows Hat) as Hstep.
  destruct (gstoreIterateForeignScan env st frel ss S) as [[st1 ss1] r].
  cbn [fst snd] in Hstep. destruct r as [row|].
  - destruct Hstep as (rows' & -> & Hat1 & Hn1 & Ha1).
    cbn [length] in Hlimit.
    pose proof (IH st1 ss1 rows' Hat1 ltac:(lia)) as Hrows.
    destruct (scan_rows env limit st1 frel ss1 S) as [st2 rows2].
    cbn [snd] in *. rewrite Hrows. reflexivity.
  - cbn [snd]. symmetry. exact Hstep.
Qed.

End ScanFacts.

Lemma chunks_rows_width (segs : list (Z * kern_data_store))
    (attnos_ : list Z) (cs : list GpuStoreChunk) :
  Forall (fun row => length row = length attnos_)
         (chunks_rows segs attnos_ cs).
Proof.
  unfold chunks_rows. induction cs as [|c cs IH]; cbn [map concat];
    [constructor|].
  apply Forall_app. split; [|exact IH].
  unfold chunk_rows. destruct (dsm_find (dsm_handle c) segs); [|constructor].
  unfold image_rows. apply Forall_forall. intros row Hin.
  apply list_elem_of_fmap in Hin. destruct Hin as (i & -> & _).
  apply length_map.
Qed.


(** A table with a "reference" option is scanned by its own oid: the scan
    of table 8, a reference to t7, opens t7 for the column numbers only and
    then looks for chunks of table 8, of which there are none; the rows of
    t7 are returned by the scan of t7. *)
Example reference_table_scan_is_empty :
  let env := example_backend 102 0 [100] in
  let S := example_snapshot 102 0 in
  (exists ss, gstoreBeginForeignScan env example_reference = inr ss
              /\ scan_columns ss = [1])
  /\ snd (scan_relation env 8 example_committed example_reference S) = []
  /\ snd (scan_relation env 8 example_committed
                        (example_table 7 [int4_attribute]) S)
     = [[Some (ScanVal 9)]].
Proof.
  split; [eexists; vm_compute; split; reflexivity|].
  vm_compute. split; reflexivity.
Qed.

(** ** The column builder: dictionaries and NOT NULL *)

Lemma hash_search_find_found (entries : list vl_dict_key) (hashvalue_ : Z)
    (key : list Z) (pos : nat) :
  hash_search_find entries hashvalue_ key pos <> None
  <-> Exists (entry_matches hashvalue_ key) entries.
Proof.
  split.
  - intros Hfound.
    assert (Hdec : forall e, {entry_matches hashvalue_ key e}
                             + {~ entry_matches hashvalue_ key e}).
    { intros e. unfold entry_matches.
      destruct (Z.eq_dec (hashvalue e) hashvalue_);
        destruct (List.list_eq_dec Z.eq_dec (vl_datum e) key);
        [left; split; assumption | right; tauto ..]. }
    destruct (List.Exists_dec _ entries Hdec) as [Hex|Hno]; [exact Hex|].
    exfalso. apply Hfound. apply hash_search_find_no_match.
    apply List.Forall_Exists_neg. exact Hno.
  - intros Hex Hnone. apply hash_search_find_None in Hnone.
    apply Exists_exists in Hex. destruct Hex as (e & Hin & Hm).
    rewrite Forall_forall in Hnone. exact (Hnone e Hin Hm).
Qed.

Lemma insert_values_not_null (env : HostEnv) (attrs : TupleDesc)
    (slot : TupleTableSlot) (cols cols' : list gstoreLoadColumn)
    (index : Z) :
  insert_values env attrs slot cols index = inr cols' ->
  length cols' = length cols
  /\ forall i attr,
       attrs !! i = Some attr -> slot !! i = Some None ->
       (i < length cols)%nat -> attnotnull attr = false.
Proof.
  revert slot cols cols'.
  induction attrs as [|attr0 attrs IH]; intros slot cols cols';
    cbn [insert_values].
  - intros H. inversion H. split; [reflexivity|]. intros i attr Hi.
    inversion Hi.
  - destruct slot as [|value slot].
    { intros H. inversion H. split; [reflexivity|]. intros i attr _ Hs.
      inversion Hs. }
    destruct cols as [|col cols].
    { intros H. inversion H. split; [reflexivity|]. intros i attr _ _ Hlt.
      cbn in Hlt. lia. }
    destruct (insert_value env attr0 value col index) as [e|col'] eqn:Hv;
      [discriminate|].
    destruct (insert_values env attrs slot cols index) as [e|rest] eqn:Hr;
      [discriminate|].
    intros H. inversion H; subst cols'.
    destruct (IH _ _ _ Hr) as [Hlen Hnull].
    split; [cbn [length]; rewrite Hlen; reflexivity|].
    intros [|i] attr Ha Hs Hlt.
    + cbn in Ha, Hs. inversion Ha; subst attr0. inversion Hs; subst value.
      cbn [insert_value] in Hv.
      destruct (attnotnull attr); [discriminate | reflexivity].
    + cbn in Ha, Hs. cbn [length] in Hlt. apply (Hnull i attr Ha Hs). lia.
Qed.

(** X29. Storing a value in a variable-width column. The value is looked
    up by the bytes the executor hands over and by their hash. When an
    entry answers -- it was entered with a key of the same hash and holds
    these very bytes -- the row is pointed at the first such entry, and
    dictionary and accounted size stay as they are. Otherwise one entry
    is appended, which keeps the hash of the bytes handed over and holds
    the copy [PG_DETOAST_DATUM_COPY] makes of them; the row is pointed at
    it and the aligned size of the bytes handed over is accounted. No
    other row's pointer changes. The same bytes handed over again find an
    entry exactly when one answered before or the copy has the very bytes
    of the value: a plain value is entered once, a value that
    [PG_DETOAST_DATUM_COPY] rewrites is entered again every time it comes.
    For plain values a dictionary without duplicates, all of whose entries
    stem from plain values, stays so, and the row's entry holds exactly the
    bytes of the value. *)
Theorem varlena_values_share_dictionary_entries (env : HostEnv)
    (attr : FormData_pg_attribute) (datum : Datum)
    (col col' : gstoreLoadColumn) (index : Z) :
  attlen attr < 0 ->
  insert_value env attr (Some datum) col index = inr col' ->
  let key := DatumGetPointer datum in
  let hv := vl_dict_hash_value env key in
  let dict := default [] (vl_dict col) in
  let dict' := default [] (vl_dict col') in
  (forall j, j <> index ->
     entry_pointers (values col') j = entry_pointers (values col) j)
  /\ ((exists entry e,
         entry_pointers (values col') index = Some entry
         /\ dict !! entry = Some e /\ entry_matches hv key e
         /\ (forall k e', (k < entry)%nat -> dict !! k = Some e' ->
                          ~ entry_matches hv key e')
         /\ dict' = dict /\ extra_sz col' = extra_sz col)
      \/ (Forall (fun e => ~ entry_matches hv key e) dict
          /\ entry_pointers (values col') index = Some (length dict)
          /\ dict' = dict ++ [{| hashvalue := hv; offset := 0;
                                 vl_datum := PG_DETOAST_DATUM_COPY env key |}]
          /\ extra_sz col' = extra_sz col + MAXALIGN (VARSIZE_ANY key)))
  /\ (hash_search_find dict' hv key 0 <> None
      <-> Exists (entry_matches hv key) dict
          \/ PG_DETOAST_DATUM_COPY env key = key)
  /\ (VARATT_IS_4B_U key = true ->
      dictionary_plain env dict -> NoDup (map vl_datum dict) ->
      dictionary_plain env dict' /\ NoDup (map vl_datum dict')
      /\ exists entry e,
           entry_pointers (values col') index = Some entry
           /\ dict' !! entry = Some e /\ vl_datum e = key).
Proof.
  intros Hvl Hins key hv dict dict'. apply Z.ltb_lt in Hvl.
  cbn [insert_value] in Hins. rewrite Hvl in Hins.
  set (col1 := match nullmap col with
               | Some bits =>
                   with_nullmap col (Some (nullmap_set_bit bits index))
               | None => col
               end) in *.
  assert (H1 : vl_dict col1 = vl_dict col /\ values col1 = values col
               /\ extra_sz col1 = extra_sz col).
  { subst col1. destruct (nullmap col); auto. }
  destruct H1 as (Hd1 & Hv1 & He1). rewrite Hd1, Hv1 in Hins.
  fold key hv dict in Hins.
  destruct (hash_search_find dict hv key 0) as [entry|] eqn:Hfind.
  - inversion Hins; subst col'. clear Hins.
    destruct (hash_search_find_Some _ _ _ _ _ Hfind)
      as (_ & (e & He & Hm) & Hfirst).
    rewrite Nat.sub_0_r in He, Hfirst.
    assert (Hdict : dict' = dict).
    { subst dict' dict. cbn [with_values vl_dict]. rewrite Hd1. reflexivity. }
    assert (Hex : Exists (entry_matches hv key) dict).
    { apply Exists_exists. exists e. split; [|exact Hm].
      eapply list_elem_of_lookup_2, He. }
    split; [|split; [|split]].
    + intros j Hj. cbn [with_values values entry_pointers].
      apply Z.eqb_neq in Hj. rewrite Hj. reflexivity.
    + left. exists entry, e. cbn [with_values values entry_pointers].
      rewrite Z.eqb_refl. split; [reflexivity|]. split; [exact He|].
      split; [exact Hm|]. split; [exact Hfirst|]. split; [exact Hdict|].
      cbn [with_values extra_sz]. exact He1.
    + rewrite Hdict. split; [intros _; left; exact Hex|].
      intros _. apply hash_search_find_found. exact Hex.
    + intros _ Hplain Hnd. rewrite Hdict. split; [exact Hplain|].
      split; [exact Hnd|]. exists entry, e.
      cbn [with_values values entry_pointers]. rewrite Z.eqb_refl.
      split; [reflexivity|]. split; [exact He | apply Hm].
  - inversion Hins; subst col'. clear Hins.
    pose proof (hash_search_find_None _ _ _ _ Hfind) as Hnot.
    set (entry_ := {| hashvalue := hv; offset := 0;
                      vl_datum := PG_DETOAST_DATUM_COPY env key |}).
    assert (Hdict : dict' = dict ++ [entry_]) by reflexivity.
    split; [|split; [|split]].
    + intros j Hj. cbn [values entry_pointers].
      apply Z.eqb_neq in Hj. rewrite Hj. reflexivity.
    + right. split; [exact Hnot|]. cbn [values entry_pointers].
      rewrite Z.eqb_refl. split; [reflexivity|]. split; [exact Hdict|].
      cbn [extra_sz]. rewrite He1. reflexivity.
    + rewrite Hdict, hash_search_find_found, Exists_app. split.
      * intros [Hex|Hex]; [left; exact Hex|]. right.
        apply Exists_cons in Hex. destruct Hex as [[_ Hk]|Hex];
          [exact Hk | inversion Hex].
      * intros [Hex|Hk]; [left; exact Hex|]. right.
        apply Exists_cons. left. split; [reflexivity | exact Hk].
    + intros H4b Hplain Hnd.
      assert (Hcopy : PG_DETOAST_DATUM_COPY env key = key)
        by (apply PG_DETOAST_DATUM_COPY_plain, H4b).
      rewrite Hdict. split; [|split].
      * apply Forall_app. split; [exact Hplain|]. repeat constructor.
        subst entry_. cbn [hashvalue vl_datum]. rewrite Hcopy. reflexivity.
      * rewrite map_app. apply NoDup_app.
        split; [exact Hnd|]. split; [|apply NoDup_singleton].
        intros x Hx Hin. cbn in Hin. apply list_elem_of_singleton in Hin.
        subst x. rewrite Hcopy in Hx.
        apply list_elem_of_fmap in Hx. destruct Hx as (e & Hk & Hin).
        unfold dictionary_plain in Hplain. rewrite Forall_forall in Hplain.
        rewrite Forall_forall in Hnot. apply (Hnot e Hin).
        split; [|symmetry; exact Hk].
        rewrite (Hplain e Hin), <- Hk. reflexivity.
      * exists (length dict), entry_. cbn [values entry_pointers].
        rewrite Z.eqb_refl. split; [reflexivity|].
        split; [apply list_lookup_middle; reflexivity | exact Hcopy].
Qed.

(** A packed value is entered again when it comes a second time: the
    entry made for it holds the expanded copy, which the bytes handed over
    do not match. *)
Example packed_value_entered_twice :
  let env := example_backend 100 0 [] in
  exists col1 col2,
    insert_value env text_attribute (Some text_x_packed)
                 (begin_column text_attribute 0) 0 = inr col1
    /\ insert_value env text_attribute (Some text_x_packed) col1 1 = inr col2
    /\ map vl_datum (default [] (vl_dict col2))
       = [DatumGetPointer text_x; DatumGetPointer text_x]
    /\ extra_sz col2 = 16
    /\ entry_pointers (values col2) 0 = Some 0%nat
    /\ entry_pointers (values col2) 1 = Some 1%nat.
Proof. eexists _, _. vm_compute. repeat split. Qed.

(** X30. [gstoreExecForeignInsert] never stores a NULL in a NOT NULL
    column: when it returns, no column of the builder that is declared NOT
    NULL was given a null by the row; the row count of the builder is one
    more than before, or one when the row made the builder flush a chunk
    first. *)
Theorem exec_insert_enforces_not_null (env : HostEnv) (st st' : gstore_state)
    (relation : Relation) (ls ls' : gstoreLoadState) (slot : TupleTableSlot) :
  gstoreExecForeignInsert env st relation ls slot = OK st' ls' ->
  (forall i attr,
     rd_att relation !! i = Some attr -> slot !! i = Some None ->
     (i < length (a ls'))%nat -> attnotnull attr = false)
  /\ (nitems ls' = nitems ls + 1 \/ nitems ls' = 1).
Proof.
  unfold gstoreExecForeignInsert.
  set (flush := if _ >? _ then _ else _).
  assert (Hflush : forall st1 ls1, flush = OK st1 ls1 ->
                     nitems ls1 = nitems ls \/ nitems ls1 = 0).
  { intros st1 ls1. subst flush.
    destruct (_ >? _).
    - pose proof (writeout_chunk_cases env st relation ls) as Hc.
      destruct (gstore_fdw_writeout_chunk env st relation ls)
        as [st2 ls2|st2 e]; [|discriminate].
      destruct Hc as [_ Hls].
      intros H. inversion H; subst. right.
      eapply writeout_reset_nitems, Hls.
    - intros H. inversion H; subst. left. reflexivity. }
  destruct flush as [st1 ls1|st1 e]; cbn [bind]; [|discriminate].
  specialize (Hflush st1 ls1 eq_refl).
  destruct (insert_values env (rd_att relation) slot (a ls1) (nitems ls1))
    as [e|cols] eqn:Hv; [discriminate|].
  intros H. inversion H; subst st' ls'. cbn [a nitems].
  destruct (insert_values_not_null _ _ _ _ _ _ Hv) as [Hlen Hnull].
  split.
  - intros i attr Ha Hs Hlt. apply (Hnull i attr Ha Hs). lia.
  - destruct Hflush as [->| ->]; [left | right]; reflexivity.
Qed.

(** ** Instances of the further properties on the example host *)

Lemma example_loaded_wf : directory_wf example_loaded.
Proof. apply insert_session_wf, startup_wf. Qed.

Lemma example_committed_wf : directory_wf example_committed.
Proof. apply xact_callback_wf, example_loaded_wf. Qed.

Lemma example_loaded_segments : segments_wf example_loaded.
Proof.
  apply (insert_session_store_wf (example_backend 100 0 [])
           (pgstrom_startup_gstore_fdw 2 0) (example_table 7 [int4_attribute])
           (example_snapshot 100 0) [[Some (DatumVal 9)]]).
  split; [apply startup_wf | apply startup_segments_wf].
Qed.

Lemma example_committed_segments : segments_wf example_committed.
Proof. apply xact_callback_segments_wf, example_loaded_segments. Qed.

Lemma example_delete_pending_wf : directory_wf example_delete_pending.
Proof.
  unfold example_delete_pending.
  destruct (direct_modify_spec (example_backend 102 0 [100])
              (example_table 7 [int4_attribute]) (example_snapshot 102 0)
              example_committed 0 example_committed_wf)
    as (st' & Hr & _ & Hf & Ha & _ & Hid & Hm & _).
  cbn zeta in Hr. rewrite Hr.
  apply (directory_wf_same_identity example_committed); auto.
  - rewrite Hm. reflexivity.
  - exact example_committed_wf.
Qed.

Lemma example_deleted_wf : directory_wf example_deleted.
Proof.
  unfold example_deleted. cbv zeta.
  destruct (direct_modify_spec (example_backend 102 0 [100])
              (example_table 7 [int4_attribute]) (example_snapshot 102 0)
              example_committed 0 example_committed_wf)
    as (st' & Hr & _ & Hf & Ha & _ & Hid & Hm & _).
  cbn zeta in Hr. rewrite Hr. apply xact_callback_wf.
  apply (directory_wf_same_identity example_committed); auto.
  - rewrite Hm. reflexivity.
  - exact example_committed_wf.
Qed.

Lemma example_chunk_chained : in_slot example_loaded 65 0.
Proof. vm_compute. apply list_elem_of_here. Qed.

Lemma example_chunk_chained_committed : in_slot example_committed 65 0.
Proof. vm_compute. apply list_elem_of_here. Qed.

Ltac at_example :=
  first [ reflexivity
        | vm_compute; discriminate
        | vm_compute; reflexivity
        | vm_compute; lia ].

(** X3 for the committed chunk and the snapshot of transaction 101. *)
Lemma committed_live_chunk_is_visible_witness :
  gstore_fdw_satisfies_visibility (example_backend 101 0 [100])
    (set_xmin_commited example_chunk true) (example_snapshot 101 0)
  = (true, set_xmin_commited example_chunk true).
Proof.
  apply (committed_live_chunk_is_visible (example_backend 101 0 [100])).
  - reflexivity.
  - reflexivity.
  - right. reflexivity.
Defined.

(** X4 for the chunk of transaction 100 before it commits: the writer at
    its next command, and transaction 101. *)
Lemma uncommitted_chunk_is_private_witness :
  gstore_fdw_satisfies_visibility (example_backend 100 1 []) example_chunk
    (example_snapshot 100 1)
  = (cid example_chunk <? curcid (example_snapshot 100 1), example_chunk)
  /\ gstore_fdw_satisfies_visibility (example_backend 101 0 []) example_chunk
       (example_snapshot 100 1)
     = (false, example_chunk).
Proof.
  apply (uncommitted_chunk_is_private (example_backend 100 1 [])
           (example_backend 101 0 []) example_chunk (example_snapshot 100 1));
    at_example.
Defined.

(** X6 for the load of one row into a fresh directory. *)
Lemma insert_session_keeps_directory_shape_witness :
  directory_wf example_loaded /\ segments_wf example_loaded.
Proof.
  destruct (insert_session_keeps_directory_shape (example_backend 100 0 [])
              (pgstrom_startup_gstore_fdw 2 0)
              (example_table 7 [int4_attribute])
              (example_snapshot 100 0) [[Some (DatumVal 9)]] (startup_wf 2 0))
    as [Hwf Hseg].
  split; [exact Hwf | apply Hseg, startup_segments_wf].
Defined.

(** X7 for the commit of that load. *)
Lemma xact_callback_keeps_directory_shape_witness :
  directory_wf example_committed
  /\ length (gs_chunks (gstore_head example_committed))
     = length (gs_chunks (gstore_head example_loaded))
  /\ segments_wf example_committed.
Proof.
  destruct (xact_callback_keeps_directory_shape (example_backend 100 0 [])
              XACT_EVENT_COMMIT example_loaded example_loaded_wf)
    as (Hwf & Hlen & Hseg).
  split; [exact Hwf|]. split; [exact Hlen|].
  apply Hseg, example_loaded_segments.
Defined.


(** X9 after the commit, for a DELETE of transaction 102. *)
Lemma direct_delete_stamps_visible_chunks_witness :
  exists st',
    gstoreIterateDirectModify (example_backend 102 0 [100]) example_committed
      (example_table 7 [int4_attribute]) (example_snapshot 102 0) 0
    = Some (st', 1)
    /\ has_warm_chunks (gstore_head st') = 2
    /\ chunk_at st' 0
       = Some (deleted_by (example_backend 102 0 [100])
                          (set_xmin_commited example_chunk true)).
Proof.
  destruct (direct_delete_stamps_visible_chunks (example_backend 102 0 [100])
              (example_table 7 [int4_attribute]) (example_snapshot 102 0)
              example_committed 0 example_committed_wf)
    as (st' & Hr & _ & Hw & _ & _ & Hc).
  exists st'. split; [exact Hr|]. split; [exact Hw|].
  exact (Hc 0%nat (set_xmin_commited example_chunk true) eq_refl).
Defined.


(** X11 for a DELETE of transaction 102, seen by 102 itself at its next
    command, by 103 while 102 is in progress, and by 104 after 102 has
    committed. *)
Lemma deleted_chunk_visibility_witness :
  let deleter := example_backend 102 0 [100] in
  let reader := example_backend 103 0 [100] in
  let later := example_backend 104 0 [100; 102] in
  let c := set_xmin_commited example_chunk true in
  visible_to deleter (example_snapshot 102 1) (deleted_by deleter c) = false
  /\ visible_to reader (example_snapshot 102 0) (deleted_by deleter c)
     = visible_to reader (example_snapshot 102 0) c
  /\ visible_to later (example_snapshot 104 0) (deleted_by deleter c) = false.
Proof.
  apply (deleted_chunk_visibility (example_backend 102 0 [100])
           (example_backend 103 0 [100]) (example_backend 104 0 [100; 102])
           (set_xmin_commited example_chunk true) (example_snapshot 102 1)
           (example_snapshot 102 0) (example_snapshot 104 0));
    at_example.
Defined.

(** X12 for the commit of the load. *)
Lemma commit_callback_hints_own_xids_witness :
  let c := set_xmin_commited example_chunk true in
  (TransactionIdIsCurrentTransactionId (example_backend 100 0 []) (xmin c)
   = true -> xmin_commited c = true)
  /\ (TransactionIdIsCurrentTransactionId (example_backend 100 0 []) (xmax c)
      = true -> xmax_commited c = true).
Proof.
  refine (commit_callback_hints_own_xids (example_backend 100 0 [])
            example_loaded _ _ 65%nat 0%nat
            (set_xmin_commited example_chunk true) _ _ _).
  - at_example.
  - at_example.
  - at_example.
  - exact example_chunk_chained_committed.
  - reflexivity.
Defined.

(** X13 for a DELETE of transaction 102 that is rolled back, and
    transaction 103 reading the table afterwards. *)
Lemma aborted_delete_is_left_to_readers_witness :
  let deleter := example_backend 102 0 [100] in
  let c := deleted_by deleter (set_xmin_commited example_chunk true) in
  let st' := gstoreXactCallback (in_abort deleter) XACT_EVENT_ABORT
                                example_delete_pending in
  xmax c = GetCurrentTransactionId (in_abort deleter)
  /\ in_slot st' 65 0
  /\ chunk_at st' 0 = Some c
  /\ has_warm_chunks (gstore_head st') = 2
  /\ gstore_fdw_satisfies_visibility (example_backend 103 0 [100]) c
                                     (example_snapshot 103 0)
     = (true, set_xmax c InvalidTransactionId).
Proof.
  cbv zeta. split; [reflexivity|].
  destruct (aborted_delete_is_left_to_readers
              (in_abort (example_backend 102 0 [100]))
              example_delete_pending 65 0
              (deleted_by (example_backend 102 0 [100])
                          (set_xmin_commited example_chunk true))
              example_delete_pending_wf)
    as (Hin & Hc & Hwarm & Hundo).
  - at_example.
  - at_example.
  - vm_compute. apply list_elem_of_here.
  - vm_compute. reflexivity.
  - reflexivity.
  - reflexivity.
  - at_example.
  - reflexivity.
  - split; [exact Hin|]. split; [exact Hc|].
    split; [rewrite Hwarm; vm_compute; reflexivity|].
    apply Hundo; [reflexivity | right; reflexivity | reflexivity ..].
Defined.

(** X14 for the callback of transaction 102 on the committed load: the
    chunk is frozen and the counter reset. *)
Lemma warm_counter_reset_only_when_final_witness :
  let st' := gstoreXactCallback (example_backend 102 0 [100])
               XACT_EVENT_COMMIT example_committed in
  let c := set_xmin (set_xmin_commited example_chunk true)
                    FrozenTransactionId in
  chunk_at st' 0 = Some c
  /\ xmax c = InvalidTransactionId
  /\ TransactionIdIsNormal (xmin c) = false
  /\ xmin c <> InvalidTransactionId.
Proof.
  split; [vm_compute; reflexivity|].
  refine (warm_counter_reset_only_when_final (example_backend 102 0 [100])
            XACT_EVENT_COMMIT example_committed _ _ 65%nat 0%nat
            (set_xmin (set_xmin_commited example_chunk true)
                      FrozenTransactionId) _ _ _).
  - at_example.
  - at_example.
  - at_example.
  - vm_compute. apply list_elem_of_here.
  - vm_compute. reflexivity.
Defined.

(** X15 for the commit of the load: the chunk stays in hash slot 65 and
    gains the commit hint. *)
Lemma callback_treats_each_chunk_by_its_verdict_witness :
  in_slot example_committed 65 0
  /\ chunk_at example_committed 0
     = Some (set_xmin_commited example_chunk true).
Proof.
  destruct (callback_treats_each_chunk_by_its_verdict
              (example_backend 100 0 []) true example_loaded 65 0
              example_chunk example_loaded_wf) as [H _].
  - at_example.
  - at_example.
  - exact example_chunk_chained.
  - reflexivity.
  - exact H.
Defined.

(** X16 for the commit of transaction 103 after the committed DELETE of
    transaction 102: the chunk is gone, and its deletion was hinted
    committed and below the horizon. *)
Lemma callback_releases_only_dead_chunks_witness :
  let env := example_backend 103 0 [100; 102] in
  let c := set_xmax_commited
             (deleted_by (example_backend 102 0 [100])
                         (set_xmin_commited example_chunk true)) true in
  (true = false /\ TransactionIdIsCurrentTransactionId env (xmin c) = true)
  \/ (xmax c <> InvalidTransactionId
      /\ TransactionIdPrecedes (xmax c) (GetOldestXmin env) = true
      /\ (xmax_commited c = true
          \/ (true = true
              /\ TransactionIdIsCurrentTransactionId env (xmax c) = true)))
  \/ (xmin c = InvalidTransactionId
      /\ (xmax c = InvalidTransactionId
          \/ (true = false
              /\ TransactionIdIsCurrentTransactionId env (xmax c) = true))).
Proof.
  apply (callback_releases_only_dead_chunks
           (example_backend 103 0 [100; 102]) true
           example_deleted 65 0
           (set_xmax_commited
              (deleted_by (example_backend 102 0 [100])
                          (set_xmin_commited example_chunk true)) true)
           example_deleted_wf).
  - at_example.
  - at_example.
  - vm_compute. apply list_elem_of_here.
  - vm_compute. reflexivity.
  - vm_compute. intros H. inversion H.
Defined.

(** X17 for an INSERT of transaction 101 after the commit of the load. *)
Lemma begin_modify_refuses_nonempty_table_witness :
  exists st',
    gstoreBeginForeignModify (example_backend 101 0 [100]) example_committed
      (example_table 7 [int4_attribute]) (example_snapshot 101 0)
    = Err st' NotEmpty
    /\ insert_session (example_backend 101 0 [100]) example_committed
         (example_table 7 [int4_attribute]) (example_snapshot 101 0)
         [[Some (DatumVal 3)]]
       = Err st' NotEmpty
    /\ has_warm_chunks (gstore_head st')
       = has_warm_chunks (gstore_head example_committed)
    /\ free_chunks (gstore_head st')
       = free_chunks (gstore_head example_committed)
    /\ active_chunks (gstore_head st')
       = active_chunks (gstore_head example_committed)
    /\ gstore_maps st' = gstore_maps example_committed
    /\ dsm_segments st' = dsm_segments example_committed
    /\ gpu_preserved st' = gpu_preserved example_committed.
Proof.
  apply (begin_modify_refuses_nonempty_table (example_backend 101 0 [100])
           example_committed (example_table 7 [int4_attribute])
           (example_snapshot 101 0) [[Some (DatumVal 3)]] 0
           (set_xmin_commited example_chunk true)).
  - reflexivity.
  - exact example_chunk_chained_committed.
  - reflexivity.
  - reflexivity.
  - reflexivity.
Defined.

(** X18 for transaction 100 at its second command. *)
Lemma published_chunk_blocks_next_insert_witness :
  exists st1 ls1 st2,
    gstore_fdw_writeout_chunk (example_backend 100 0 [])
      (pgstrom_startup_gstore_fdw 2 0) (example_table 7 [int4_attribute])
      example_load_state
    = OK st1 ls1
    /\ gstoreBeginForeignModify (example_backend 100 0 []) st1
         (example_table 7 [int4_attribute]) (example_snapshot 100 1)
       = Err st2 NotEmpty.
Proof.
  assert (Hok : is_OK (gstore_fdw_writeout_chunk (example_backend 100 0 [])
                         (pgstrom_startup_gstore_fdw 2 0)
                         (example_table 7 [int4_attribute])
                         example_load_state) = true)
    by (vm_compute; reflexivity).
  destruct (gstore_fdw_writeout_chunk (example_backend 100 0 [])
              (pgstrom_startup_gstore_fdw 2 0)
              (example_table 7 [int4_attribute]) example_load_state)
    as [st1 ls1|st1 e] eqn:Hw; [|discriminate].
  destruct (published_chunk_blocks_next_insert (example_backend 100 0 [])
              (pgstrom_startup_gstore_fdw 2 0) st1
              (example_table 7 [int4_attribute]) example_load_state ls1
              (example_snapshot 100 1) (startup_wf 2 0) eq_refl Hw)
    as [st2 H2]; [at_example | at_example | at_example |].
  exists st1, ls1, st2. split; [reflexivity | exact H2].
Defined.

(** X19 for transaction 101 after the commit of transaction 100. *)
Lemma committed_chunk_blocks_insert_witness :
  exists st1 ls1 st2,
    gstore_fdw_writeout_chunk (example_backend 100 0 [])
      (pgstrom_startup_gstore_fdw 2 0) (example_table 7 [int4_attribute])
      example_load_state
    = OK st1 ls1
    /\ gstoreBeginForeignModify (example_backend 101 0 [100])
         (gstoreXactCallback (example_backend 100 0 []) XACT_EVENT_COMMIT st1)
         (example_table 7 [int4_attribute]) (example_snapshot 101 0)
       = Err st2 NotEmpty.
Proof.
  assert (Hok : is_OK (gstore_fdw_writeout_chunk (example_backend 100 0 [])
                         (pgstrom_startup_gstore_fdw 2 0)
                         (example_table 7 [int4_attribute])
                         example_load_state) = true)
    by (vm_compute; reflexivity).
  assert (Hwarm : has_warm_chunks
                    (gstore_head
                       (result_state
                          (gstore_fdw_writeout_chunk
                             (example_backend 100 0 [])
                             (pgstrom_startup_gstore_fdw 2 0)
                             (example_table 7 [int4_attribute])
                             example_load_state))) <> 0)
    by (vm_compute; discriminate).
  destruct (gstore_fdw_writeout_chunk (example_backend 100 0 [])
              (pgstrom_startup_gstore_fdw 2 0)
              (example_table 7 [int4_attribute]) example_load_state)
    as [st1 ls1|st1 e] eqn:Hw; [|discriminate].
  destruct (committed_chunk_blocks_insert (example_backend 100 0 [])
              (example_backend 101 0 [100])
              (pgstrom_startup_gstore_fdw 2 0) st1
              (example_table 7 [int4_attribute]) example_load_state ls1
              (example_snapshot 101 0) (startup_wf 2 0) eq_refl Hw Hwarm)
    as [st2 H2]; [at_example ..|].
  exists st1, ls1, st2. split; [reflexivity | exact H2].
Defined.

(** X20 for table 7 of the example catalog. *)
Lemma read_options_result_witness :
  exists ftoptions,
    pg_foreign_table example_catalog 7 = Some (20, ftoptions)
    /\ @None string = options_referenced (default [] ftoptions)
    /\ 0 = options_pinning (default [] ftoptions)
    /\ (0 = -1 \/ 0 <= 0 < numDevAttrs example_catalog)
    /\ (@None string <> None -> 0 = -1)
    /\ Forall known_option (default [] ftoptions).
Proof.
  apply (read_options_result example_catalog 7 20 None 0). reflexivity.
Defined.

(** X21 for the options of table 8. *)
Lemma validated_options_are_readable_witness :
  let options := [{| defname := "reference"; defGetString := "t7" |}] in
  gstore_fdw_read_options example_catalog 8
  = inr (20, options_referenced options, options_pinning options)
  /\ (length (List.filter
                (fun d => String.eqb (defname d) "reference") options)
      <= 1)%nat
  /\ (length (List.filter
                (fun d => String.eqb (defname d) "pinning") options)
      <= 1)%nat.
Proof.
  apply (validated_options_are_readable example_catalog
           [{| defname := "reference"; defGetString := "t7" |}] 8 20);
    reflexivity.
Defined.

(** X22 for the options of table 8. *)
Lemma validator_rejects_reference_chains_witness :
  exists reloid srv p,
    RangeVarGetRelid example_catalog "t7" = Some reloid
    /\ get_rel_relkind example_catalog reloid = RELKIND_FOREIGN_TABLE
    /\ gstore_fdw_read_options example_catalog reloid = inr (srv, None, p).
Proof.
  apply (validator_rejects_reference_chains example_catalog
           [{| defname := "reference"; defGetString := "t7" |}]
           {| defname := "reference"; defGetString := "t7" |}).
  - reflexivity.
  - apply list_elem_of_here.
  - reflexivity.
Defined.

(** X23 for an option given to a foreign server (catalog 1417). *)
Lemma validator_rejects_options_elsewhere_witness :
  pgstrom_gstore_fdw_validator example_catalog
    [{| defname := "pinning"; defGetString := "0" |}] 1417
  = inl UnknownOption.
Proof.
  apply (validator_rejects_options_elsewhere example_catalog
           [{| defname := "pinning"; defGetString := "0" |}] 1417).
  vm_compute. discriminate.
Defined.

(** X24 for table 7, pinned to GPU 0. *)
Lemma load_gstore_fdw_needs_pinning_0_witness :
  (exists srv,
     gstore_fdw_read_options example_catalog 7 = inr (srv, None, 0))
  /\ (fun oid : Oid => @inr fdw_error Z (oid + 4096)) 7 = inr 4103.
Proof.
  apply (load_gstore_fdw_needs_pinning_0 example_catalog
           (fun oid : Oid => @inr fdw_error Z (oid + 4096))
           (fun _ _ => None) 7 4103).
  reflexivity.
Defined.

(** X27 for a reference table that swaps the two columns of its primary
    table. *)
Lemma reference_columns_pick_attnums_witness :
  reference_attnos ["b"; "a"]%string [("a", 1); ("b", 2)]%string
  = inr [2; 1].
Proof.
  apply (reference_columns_pick_attnums [("a", 1); ("b", 2)]%string
           [("b", 2); ("a", 1)]%string).
  - cbn [map fst]. apply NoDup_cons. split.
    + intros H. apply list_elem_of_singleton in H. discriminate.
    + apply NoDup_cons. split; [intros H; inversion H | apply NoDup_nil_2].
  - intros col H. apply elem_of_cons in H. destruct H as [->|H].
    + apply list_elem_of_further, list_elem_of_here.
    + apply list_elem_of_singleton in H. subst col. apply list_elem_of_here.
Defined.

(** X28 for the chunk of the load, in a backend that still has the
    segment of a chunk that owned the slot before attached. *)
Lemma mapped_chunk_attaches_current_segment_witness :
  let st := with_maps example_loaded
              [{| dsm_seg := Some 0 |}; {| dsm_seg := None |}] in
  let st' := fst (gstore_fdw_mapped_chunk st 0) in
  gstore_maps st' !! 0%nat = Some {| dsm_seg := Some 1 |}
  /\ gstore_fdw_mapped_chunk st' 0
     = (st', snd (gstore_fdw_mapped_chunk st 0)).
Proof.
  destruct (mapped_chunk_attaches_current_segment
              (with_maps example_loaded
                 [{| dsm_seg := Some 0 |}; {| dsm_seg := None |}])
              0 example_chunk)
    as (_ & _ & _ & Hn & _ & _ & _ & Hagain).
  - reflexivity.
  - vm_compute. lia.
  - split; [exact Hn | exact Hagain].
Defined.

(** X29 for the text 'x' given for row 1 to a column whose dictionary
    holds 'x' already, entered for row 0. *)
Lemma varlena_values_share_dictionary_entries_witness :
  let env := example_backend 100 0 [] in
  exists col',
    insert_value env text_attribute (Some text_x) example_text_column 1
    = inr col'
    /\ entry_pointers (values col') 0 = Some 0%nat
    /\ entry_pointers (values col') 1 = Some 0%nat
    /\ default [] (vl_dict col') = default [] (vl_dict example_text_column)
    /\ extra_sz col' = 8
    /\ dictionary_plain env (default [] (vl_dict col'))
    /\ NoDup (map vl_datum (default [] (vl_dict col'))).
Proof.
  cbv zeta.
  assert (Hok : exists col',
            insert_value (example_backend 100 0 []) text_attribute
                         (Some text_x) example_text_column 1 = inr col')
    by (eexists; vm_compute; reflexivity).
  destruct Hok as [col' Hins]. exists col'. split; [exact Hins|].
  destruct (varlena_values_share_dictionary_entries
              (example_backend 100 0 []) text_attribute text_x
              example_text_column col' 1
              ltac:(vm_compute; reflexivity) Hins)
    as (Hother & Hcase & _ & Hplain).
  split; [rewrite Hother; [reflexivity | discriminate]|].
  destruct Hcase as [(entry & e & Hptr & He & _ & _ & Hdict & Hsz)
                    |(Hnot & _)].
  - destruct entry as [|entry]; [|destruct entry; discriminate He].
    split; [exact Hptr|]. split; [exact Hdict|].
    split; [rewrite Hsz; reflexivity|].
    destruct Hplain as (Hp & Hnd & _).
    + reflexivity.
    + repeat constructor.
    + apply NoDup_singleton.
    + split; [exact Hp | exact Hnd].
  - exfalso. apply Forall_cons in Hnot. destruct Hnot as [Hnot _].
    apply Hnot. split; reflexivity.
Defined.

(** X30 for the row (NULL, 5) given to the builder of a fresh load into
    T(int4, n int4 NOT NULL): the null goes to the column that admits it. *)
Lemma exec_insert_enforces_not_null_witness :
  let relation := example_table 9 [int4_attribute; int4_notnull_attribute] in
  let slot := [None; Some (DatumVal 5)] in
  exists st' ls',
    gstoreExecForeignInsert (example_backend 100 0 [])
      (pgstrom_startup_gstore_fdw 2 0) relation example_notnull_state slot
    = OK st' ls'
    /\ (forall i attr,
          rd_att relation !! i = Some attr -> slot !! i = Some None ->
          (i < length (a ls'))%nat -> attnotnull attr = false)
    /\ (nitems ls' = nitems example_notnull_state + 1 \/ nitems ls' = 1).
Proof.
  cbv zeta.
  assert (Hok : is_OK (gstoreExecForeignInsert (example_backend 100 0 [])
                         (pgstrom_startup_gstore_fdw 2 0)
                         (example_table 9
                            [int4_attribute; int4_notnull_attribute])
                         example_notnull_state
                         [None; Some (DatumVal 5)]) = true)
    by (vm_compute; reflexivity).
  destruct (gstoreExecForeignInsert (example_backend 100 0 [])
              (pgstrom_startup_gstore_fdw 2 0)
              (example_table 9 [int4_attribute; int4_notnull_attribute])
              example_notnull_state [None; Some (DatumVal 5)])
    as [st' ls'|st' e] eqn:Hw; [|discriminate].
  exists st', ls'. split; [reflexivity|].
  exact (exec_insert_enforces_not_null (example_backend 100 0 [])
           (pgstrom_startup_gstore_fdw 2 0) st'
           (example_table 9 [int4_attribute; int4_notnull_attribute])
           example_notnull_state ls' [None; Some (DatumVal 5)] Hw).
Defined.
